(* ===== verification/_CoqProject ===== *)
-Q . S2P
Prelude.v
Model.v
Checksum.v
Ip.v
Udp.v
Surplus.v
Kind.v
Ocs.v
Parse.v
Typed.v
Serialize.v
Split.v
Reassembly.v
FragRoundtrip.v
Coalesce.v
RecvOptions.v
Pipeline.v
Typing.v
Socket.v
Api.v
EndToEnd.v
FragEndToEnd.v
ApiCorrect.v
Session.v
PeerSession.v
Text.v
PipelineLog.v
Quiet.v
Warnings.v
Json.v
CliSend.v
CliSendCorrect.v
CliSendRun.v
CliRecv.v
CliRecvCorrect.v
CliRecvJson.v
WireProbe.v
WireProbeCorrect.v
ProbeEnv.v
Spike.v
SpikeCorrect.v
Oracles.v
OraclesCorrect.v
FragOracles.v
FragOraclesCorrect.v
PipelineOracle.v
PipelineOracleCorrect.v
WireTests.v
OptionTests.v
FragTests.v
PipelineTests.v
ApiTests.v
