(* ===== verification/Prelude.v ===== *)
(** * UDP options (RFC 9868): a verification of the transport-options library

    The program (src/src) builds and receives IPv4/UDP datagrams whose surplus
    area, the bytes between the UDP Length and the end of the IP payload, carries
    options: a checksum of their own (OCS), a TLV list, and a FRAG option that
    splits one UDP datagram over several.  A sender runs options builder -> OCS-led
    body -> (splitter) -> datagram assembly; a receiver runs headers and UDP
    checksum -> surplus location -> pad and OCS -> option processing -> (reassembly
    and a second pass) -> receive policy.

    ** How code is modelled

    Machine integers are [Z]; their widths ([u8], [u16], [u32], [usize]) are
    predicates, wrap-around and checked operations are written out, byte strings
    are [list Z] with every element a [u8].  A function that can panic (slice,
    index, [expect], [assert], [debug_assert]) returns [option], [None] being the
    panic; a fallible one returns [result A E]; both together read
    [option (result A E)], with [let!] for the panic layer, [let?] and [let*] for
    the [?] operator and [ensure] for assertions.  Mutation is explicit state
    passing; a [HashMap] is a [gmap]; time ([Instant], [Duration]) is an integer
    number of nanoseconds.  [crc32c] (an external crate) is the class parameter
    [Crc32c] with the law [Crc32cSpec] (results are [u32]); witnesses use the
    bitwise implementation [crc32c_bitwise].

    ** Files

    - [Prelude]: the monads and notations above, slices ([sub], [slice],
      [copy_at]), big-endian conversions, tactics ([dlia], [bool_cases],
      [len_lia], [evaluate]) and the hint database [rust].
    - [Model]: constants of model.rs, errors of error.rs, socket/mod.rs.
    - [Checksum], [Ip], [Udp], [Surplus]: the modules of wire/.  The 32-bit
      accumulator computes the one's-complement sum; headers round-trip; parsing
      is total and in bounds; the surplus area lies where the lengths say.
    - [Kind], [Ocs], [Parse], [Typed], [Serialize]: the modules of options/.  The
      iterator refines the inductive TLV grammar [tlv_stream]; typed options meet
      the class [TypedOptionLaws], against which their clients are proved; a
      finished body parses back to the builder's options in canonical order; the
      OCS verifies and no single corrupted byte goes unnoticed.
    - [Split], [Reassembly]: frag/.  Splitting covers the reassembled tail and is
      total; the cache invariant [Cache_wf] holds along every sequence of
      operations ([cache_step]), completion is sound, duplicates are idempotent,
      keys are independent.
    - [FragRoundtrip]: fragments in any arrival order give the tail back.
    - [Coalesce]: options on fragments; over any run of the cache the options a
      completed datagram reports refine a specification that only looks at the
      list of fragments taken in.
    - [RecvOptions], [Pipeline]: recv/pipeline.rs.  [process_datagram_inner] is
      split along its stages, each mapped to its lines.  The pipeline is total,
      fails only on headers and UDP checksum, and delivers user data whatever the
      surplus area holds, except exactly when an option that must not be ignored
      stands in a trusted one ([refuses_data]).  [Typing]: the types of everything
      it hands over.
    - [Socket]: socket/.  [assemble_datagram], the demultiplexing filter, opening
      and configuring the sockets over the system calls' answers, and the receive
      loop over the kernel's answers ([Tick]).
    - [Api]: api/mod.rs, builders, policies, decoding and [Peer]; the policy is
      enforced and hostile datagrams never become errors of a peer.
    - [EndToEnd] (one datagram), [FragEndToEnd] (fragments, lemmas only) and
      [ApiCorrect]: theorems across components, up to
      [api_roundtrip]: what [build_outgoing_datagrams] returns, decoded in any
      order, is the payload with its options.  Options are any the API accepts; an
      APC the caller supplies may be wrong and is then reported as failed
      ([sent_status]).  Fragments need a cache with room, limits that admit them
      and arrivals within the timeout ([admits], [message_fits], [session_room]).
    - [Session]: messages whose fragments arrive interleaved do not disturb each
      other ([course], [run_courses]).  [PeerSession]: two peers, [Peer::send] on
      one side and [Peer::recv] on the other, among foreign packets.
    - [PipelineLog]: the warnings the pipeline raises, stage by stage beside
      [RecvOptions] and [Pipeline], and what they say of the result.  [Quiet]: what
      the library sends raises none but the mismatch of a caller's wrong APC.  [Warnings]: the counters, the sampling and
      the lines written, through [decode_datagram].
    - [Text], [Json]: decimal, hexadecimal and escaped texts of the tools, and a
      strict JSON reader (a specification device, no code of the program).
    - [CliSend], [CliSendCorrect], [CliSendRun]: bin/udpopt-send.rs, its wire
      faults and its runs.  [CliRecv], [CliRecvCorrect], [CliRecvJson]:
      bin/udpopt-recv.rs, its runs, the meaning of its JSON lines and its logger.
    - [WireProbe], [WireProbeCorrect], [ProbeEnv]: examples/wire_probe.rs, from
      the environment's addresses to the traffic the pipeline receives.
    - [Spike], [SpikeCorrect]: examples/spike_client.rs, spike_server.rs and
      support/common.rs; both pass over a link that behaves as documented.
    - [Oracles], [FragOracles], [PipelineOracle] and their [Correct] files: the
      oracles of tests/common*, independent predictions that the fuzz targets
      (fuzz/fuzz_targets) compare the library with; they never fail.
    - [WireTests], [OptionTests], [FragTests], [PipelineTests], [ApiTests]: the
      unit tests of the crate, run on the model with what they assert of results and
      log lines: a regression check that pins the definitions to the examples the
      developers chose, not a property.

    ** Loops and fuel

    The iterator loops run on [parse_fuel bs], two more than the number of bytes:
    every step consumes a byte or stops, so [drain_all_spec] proves it is enough.
    Folding a checksum takes at most two rounds for any [u32]
    ([fold_carries_total]).  [chunk_loop] is bounded by the tail length (each chunk
    is nonempty), the binary search by the vector length, and
    [process_datagram_inner] by two levels, since the nested call forbids
    reassembly; [split_total], [reassembly_invariant] and [pipeline_total] show
    that none of these bounds is ever hit.  The oracles' loops are bounded by the
    length of their input and the theorems about them say that they end in
    [Some tt], so that running out would show; the wire probe's search for a filler
    tries all 65536 values, and [probe_traffic_received] finds one.  The receiving
    tool's loop runs its count of datagrams at most, which is its fuel exactly.

    ** Not modelled

    What system calls do: opening sockets, [setsockopt], [sendto], reading
    /dev/urandom, files and the clock are answers passed in as arguments, and the
    code's reaction to every answer is modelled.  Argument parsing is clap's; its
    result is a record.  Sleeps and the ready file of the examples have no effect
    on what is sent or matched.  Where log lines go is the log crate's; the
    receiving tool's logger is modelled, the lines are lists; [CliRecv.run] lists the
    tool's own lines on standard error, [Warnings] those of the pipeline.  [Display] texts are
    modelled where they are printed or logged.  The non-Linux stubs only return an
    error, and the crate root only re-exports.

    ** Plan

    Every module of the crate, the tools, examples, oracles and unit tests are
    modelled.  Worth adding: the options of fragments followed through
    [process_datagram] for a foreign sender that attaches them ([Coalesce] stops at
    the cache), and sessions in which fragments are lost or expire. *)

From stdpp Require Export prelude gmap sorting numbers list_numbers strings.

Global Open Scope Z_scope.

(** ** Fallible code

    A Rust [Result] is [result]; a computation that may panic (an index out of
    range, a failed [assert!] or [expect]) is an [option], [None] being the
    panic.  A function that may do both returns [option (result A E)]. *)

Inductive result (A E : Type) : Type :=
| Ok (a : A)
| Err (e : E).

Arguments Ok {A E} a.
Arguments Err {A E} e.

Definition map_err {A E F} (f : E -> F) (r : result A E) : result A F :=
  match r with Ok a => Ok a | Err e => Err (f e) end.

Definition is_ok {A E} (r : result A E) : bool :=
  match r with Ok _ => true | Err _ => false end.

Declare Scope rust_scope.
Delimit Scope rust_scope with rust.
Global Open Scope rust_scope.

(** [let! x := m in k]: run [m], propagating its panic. *)
Notation "'let!' x := m 'in' k" :=
  (match m with Some x => k | None => None end)
  (at level 10, x pattern, m at level 100, k at level 200) : rust_scope.

(** [let? x := r in k]: the [?] operator inside code that may also panic. *)
Notation "'let?' x := r 'in' k" :=
  (match r with Ok x => k | Err e => Some (Err e) end)
  (at level 10, x pattern, r at level 100, k at level 200) : rust_scope.

(** [let* x := r in k]: the [?] operator in code that cannot panic. *)
Notation "'let*' x := r 'in' k" :=
  (match r with Ok x => k | Err e => Err e end)
  (at level 10, x pattern, r at level 100, k at level 200) : rust_scope.

(** [ensure b; k] is [assert!(b); k]. *)
Notation "'ensure' b ; k" :=
  (if b then k else None)
  (at level 10, b at level 100, k at level 200) : rust_scope.

(** ** Machine integers: the value of an unsigned [w]-bit integer is a [Z]. *)

Definition U8_MAX : Z := 255.
Definition U16_MAX : Z := 65535.
Definition U32_MAX : Z := 4294967295.
Definition USIZE_MAX : Z := 18446744073709551615.

Definition u8 (x : Z) : Prop := 0 <= x < 256.
Definition u16 (x : Z) : Prop := 0 <= x < 65536.
Definition u32 (x : Z) : Prop := 0 <= x < 4294967296.
Definition usize (x : Z) : Prop := 0 <= x <= USIZE_MAX.

#[export] Instance u8_dec x : Decision (u8 x) := ltac:(unfold u8; apply _).
#[export] Instance u16_dec x : Decision (u16 x) := ltac:(unfold u16; apply _).
#[export] Instance u32_dec x : Decision (u32 x) := ltac:(unfold u32; apply _).

(** Byte strings. *)
Abbreviation bytes := (Forall u8).

Definition wrap32 (x : Z) : Z := x mod 4294967296.

(** [usize::checked_add], [usize::checked_sub], [usize::saturating_sub]. *)
Definition checked_add (a b : Z) : option Z :=
  if a + b <=? USIZE_MAX then Some (a + b) else None.
Definition checked_sub (a b : Z) : option Z :=
  if b <=? a then Some (a - b) else None.
Definition saturating_sub (a b : Z) : Z := Z.max 0 (a - b).

(** [u16::try_from] of a [usize]. *)
Definition u16_try_from (x : Z) : option Z :=
  if x <=? U16_MAX then Some x else None.

Definition usize_of_bool (b : bool) : Z := if b then 1 else 0.

(** Bitwise complement of a [u16]. *)
Definition not16 (x : Z) : Z := Z.land (Z.lnot x) 0xffff.

(** Big-endian conversions ([to_be_bytes], [from_be_bytes]). *)
Definition u16_to_be (x : Z) : list Z := [(x / 256) mod 256; x mod 256].
Definition u32_to_be (x : Z) : list Z :=
  [(x / 16777216) mod 256; (x / 65536) mod 256; (x / 256) mod 256; x mod 256].
Definition u16_from_be (a b : Z) : Z := a * 256 + b.
Definition u32_from_be (a b c d : Z) : Z :=
  a * 16777216 + b * 65536 + c * 256 + d.

(** ** Slices and vectors *)

Definition len {A} (l : list A) : Z := Z.of_nat (length l).

Definition is_nil {A} (l : list A) : bool :=
  match l with [] => true | _ => false end.

(** [l.get(i)], which is also [l[i]] with [None] as the panic. *)
Definition get {A} (l : list A) (i : Z) : option A :=
  if 0 <=? i then l !! Z.to_nat i else None.

(** The bytes of [l] from offset [a] up to offset [b], and [&l[a..b]], which
    panics unless [a <= b <= l.len()]. *)
Definition sub {A} (l : list A) (a b : Z) : list A :=
  take (Z.to_nat (b - a)) (drop (Z.to_nat a) l).
Definition slice {A} (l : list A) (a b : Z) : option (list A) :=
  if (0 <=? a) && (a <=? b) && (b <=? len l) then Some (sub l a b) else None.

(** [l[off..off + src.len()].copy_from_slice(src)]. *)
Definition copy_at {A} (l : list A) (off : Z) (src : list A) : option (list A) :=
  if (0 <=? off) && (off + len src <=? len l)
  then Some (sub l 0 off ++ src ++ sub l (off + len src) (len l))
  else None.

(** [l[i] = x]. *)
Definition set_at {A} (l : list A) (i : Z) (x : A) : option (list A) :=
  copy_at l i [x].

(** [vec![0u8; n]]. *)
Definition zeros (n : Z) : list Z := replicate (Z.to_nat n) 0.

(** ** Tactics *)

(** Linear arithmetic with [/] and [mod] by literals. *)
Ltac dlia := Z.div_mod_to_equations; lia.

(** A decidable statement about concrete values, by evaluation. *)
Ltac evaluate := apply (bool_decide_eq_true_1 _); vm_compute; reflexivity.

Ltac unfold_widths :=
  unfold u8, u16, u32, usize, U8_MAX, U16_MAX, U32_MAX, USIZE_MAX in *.

(** Case analysis on every boolean integer test of goal and hypotheses. *)
Ltac bool_cases :=
  repeat match goal with
  | |- context [?a <=? ?b] => destruct (Z.leb_spec a b)
  | |- context [?a <? ?b] => destruct (Z.ltb_spec a b)
  | |- context [?a =? ?b] => destruct (Z.eqb_spec a b)
  | H : context [?a <=? ?b] |- _ => destruct (Z.leb_spec a b)
  | H : context [?a <? ?b] |- _ => destruct (Z.ltb_spec a b)
  | H : context [?a =? ?b] |- _ => destruct (Z.eqb_spec a b)
  end; cbn [andb orb negb] in *.

(** Reduce lengths of concatenations to linear arithmetic. *)
Ltac len_simpl :=
  unfold len in *;
  repeat rewrite ?length_app, ?length_cons, ?length_take, ?length_drop,
    ?length_replicate, ?length_fmap in *;
  cbn [length] in *.
Ltac len_lia := len_simpl; lia.

Create HintDb rust.

(** ** Lemmas on results and options *)

Lemma checked_add_Some a b c :
  checked_add a b = Some c <-> c = a + b /\ a + b <= USIZE_MAX.
Proof. unfold checked_add. bool_cases; split; intros; destruct_and?; simplify_eq/=; auto with lia. Qed.

Lemma checked_sub_Some a b c :
  checked_sub a b = Some c <-> c = a - b /\ b <= a.
Proof. unfold checked_sub. bool_cases; split; intros; destruct_and?; simplify_eq/=; auto with lia. Qed.

Lemma u16_try_from_Some x y :
  u16_try_from x = Some y <-> y = x /\ x <= U16_MAX.
Proof. unfold u16_try_from. bool_cases; split; intros; destruct_and?; simplify_eq/=; auto with lia. Qed.

(** ** Lemmas on integers *)

Lemma land_ffff x : Z.land x 0xffff = x mod 65536.
Proof. change 0xffff with (Z.ones 16). by rewrite Z.land_ones. Qed.

Lemma shiftr_16 x : Z.shiftr x 16 = x / 65536.
Proof. by rewrite Z.shiftr_div_pow2. Qed.

Lemma not16_u16 x : u16 x -> not16 x = 65535 - x.
Proof.
  intros Hx. unfold not16. rewrite land_ffff. unfold Z.lnot, u16 in *.
  rewrite <- Z.sub_1_r. symmetry. apply Z.mod_unique with (-1); lia.
Qed.

Lemma u16_to_be_bytes x : bytes (u16_to_be x).
Proof. repeat constructor; unfold u8; dlia. Qed.

Lemma u32_to_be_bytes x : bytes (u32_to_be x).
Proof. repeat constructor; unfold u8; dlia. Qed.

#[export] Hint Resolve u16_to_be_bytes u32_to_be_bytes : rust.

Lemma u16_from_to_be x :
  u16 x -> u16_from_be ((x / 256) mod 256) (x mod 256) = x.
Proof. unfold u16, u16_from_be. intros. dlia. Qed.

Lemma u32_from_to_be x :
  u32 x ->
  u32_from_be ((x / 16777216) mod 256) ((x / 65536) mod 256)
    ((x / 256) mod 256) (x mod 256) = x.
Proof. unfold u32, u32_from_be. intros. dlia. Qed.

Lemma u16_from_be_u16 a b : u8 a -> u8 b -> u16 (u16_from_be a b).
Proof. unfold u8, u16, u16_from_be. lia. Qed.

Lemma u32_from_be_u32 a b c d :
  u8 a -> u8 b -> u8 c -> u8 d -> u32 (u32_from_be a b c d).
Proof. unfold u8, u32, u32_from_be. lia. Qed.

#[export] Hint Resolve u16_from_be_u16 u32_from_be_u32 : rust.

Lemma u16_to_from_be a b : u8 a -> u8 b -> u16_to_be (u16_from_be a b) = [a; b].
Proof.
  unfold u8, u16_to_be, u16_from_be. intros.
  f_equal; [dlia | f_equal; dlia].
Qed.

Lemma u32_to_from_be a b c d :
  u8 a -> u8 b -> u8 c -> u8 d -> u32_to_be (u32_from_be a b c d) = [a; b; c; d].
Proof.
  unfold u8, u32_to_be, u32_from_be. intros.
  f_equal; [dlia | f_equal; [dlia | f_equal; [dlia | f_equal; dlia]]].
Qed.

(** ** Lemmas on slices *)

Section slices.
Context {A : Type}.
Implicit Types l a b c : list A.

Lemma len_nonneg l : 0 <= len l.
Proof. unfold len. lia. Qed.

Lemma len_app l k : len (l ++ k) = len l + len k.
Proof. len_lia. Qed.

Lemma len_nil : len (@nil A) = 0.
Proof. done. Qed.

Lemma len_cons x l : len (x :: l) = 1 + len l.
Proof. len_lia. Qed.

Lemma len_zero_nil l : len l = 0 -> l = [].
Proof. destruct l; [done | len_lia]. Qed.

Lemma is_nil_len l : is_nil l = (len l =? 0).
Proof. destruct l; [done|]. symmetry. apply Z.eqb_neq. len_lia. Qed.

Lemma is_nil_true l : is_nil l = true <-> l = [].
Proof. by destruct l. Qed.

Lemma get_Some_lt l i x : get l i = Some x -> 0 <= i < len l.
Proof.
  unfold get. bool_cases; [|done]. intros ?%lookup_lt_Some. len_lia.
Qed.

Lemma get_is_Some l i : 0 <= i < len l -> is_Some (get l i).
Proof.
  intros. unfold get. bool_cases; [|lia].
  apply lookup_lt_is_Some. len_lia.
Qed.

Lemma get_None l i : len l <= i -> get l i = None.
Proof.
  intros. unfold get. bool_cases; [|done]. apply lookup_ge_None. len_lia.
Qed.

Lemma get_Forall (P : A -> Prop) l i x :
  Forall P l -> get l i = Some x -> P x.
Proof.
  unfold get. bool_cases; [|done]. rewrite Forall_lookup. naive_solver.
Qed.

Lemma slice_Some l i j :
  0 <= i <= j -> j <= len l -> slice l i j = Some (sub l i j).
Proof. intros. unfold slice. bool_cases; try done; lia. Qed.

Lemma slice_inv l i j s :
  slice l i j = Some s -> s = sub l i j /\ 0 <= i <= j /\ j <= len l.
Proof. unfold slice. bool_cases; split; intros; destruct_and?; simplify_eq/=; auto with lia. Qed.

Lemma slice_None l i j : len l < j -> slice l i j = None.
Proof. intros. unfold slice. bool_cases; try done; lia. Qed.

Lemma len_sub l i j : 0 <= i <= j -> j <= len l -> len (sub l i j) = j - i.
Proof. intros. unfold sub. len_lia. Qed.

Lemma Forall_sub (P : A -> Prop) l i j : Forall P l -> Forall P (sub l i j).
Proof. intros. apply Forall_take, Forall_drop. done. Qed.

Lemma sub_full l : sub l 0 (len l) = l.
Proof.
  unfold sub. rewrite Z.sub_0_r, drop_0. apply take_ge. len_lia.
Qed.

Lemma sub_empty l i : sub l i i = [].
Proof. unfold sub. rewrite Z.sub_diag. done. Qed.

Lemma sub_middle a b c i j :
  i = len a -> j = len a + len b -> sub (a ++ b ++ c) i j = b.
Proof.
  intros -> ->. unfold sub.
  replace (Z.to_nat (len a)) with (length a) by len_lia.
  rewrite drop_app_length. apply take_app_length'. len_lia.
Qed.

Lemma sub_prefix a b j : j = len a -> sub (a ++ b) 0 j = a.
Proof. intros ->. by apply (sub_middle [] a b). Qed.

Lemma sub_suffix a b i j :
  i = len a -> j = len a + len b -> sub (a ++ b) i j = b.
Proof.
  intros. rewrite <- (app_nil_r b) at 1. rewrite (sub_middle a b []); done.
Qed.

Lemma sub_split l i j k :
  0 <= i <= j -> j <= k -> sub l i k = sub l i j ++ sub l j k.
Proof.
  intros. unfold sub.
  replace (Z.to_nat (k - i)) with (Z.to_nat (j - i) + Z.to_nat (k - j))%nat by lia.
  rewrite <- take_take_drop, drop_drop.
  by replace (Z.to_nat i + Z.to_nat (j - i))%nat with (Z.to_nat j) by lia.
Qed.

Lemma sub_sub l i j p q :
  0 <= i <= j -> 0 <= p <= q -> q <= j - i ->
  sub (sub l i j) p q = sub l (i + p) (i + q).
Proof.
  intros. unfold sub. rewrite skipn_firstn_comm, take_take, drop_drop.
  f_equal; [lia|]. f_equal. lia.
Qed.

Lemma get_sub l i j p :
  0 <= i -> 0 <= p < j - i -> get (sub l i j) p = get l (i + p).
Proof.
  intros. unfold get, sub. bool_cases; try lia.
  rewrite lookup_take_lt by lia. rewrite lookup_drop. f_equal. lia.
Qed.

Lemma get_app_r a b i : i = len a -> get (a ++ b) i = get b 0.
Proof.
  intros ->. unfold get. bool_cases; try len_lia.
  rewrite lookup_app_r by len_lia. f_equal. len_lia.
Qed.

Lemma get_app_shift a b i : 0 <= i -> get (a ++ b) (len a + i) = get b i.
Proof.
  intros. unfold get. bool_cases; try len_lia.
  rewrite lookup_app_r by len_lia. f_equal. len_lia.
Qed.

Lemma sub_app_shift a b i j :
  0 <= i -> sub (a ++ b) (len a + i) (len a + j) = sub b i j.
Proof.
  intros. unfold sub. rewrite drop_app_ge by len_lia.
  f_equal; [lia|]. f_equal. len_lia.
Qed.

Lemma split_at l i :
  0 <= i <= len l -> l = sub l 0 i ++ sub l i (len l).
Proof. intros. rewrite <- sub_split by lia. by rewrite sub_full. Qed.

Lemma copy_at_inv l off src l' :
  copy_at l off src = Some l' ->
  l' = sub l 0 off ++ src ++ sub l (off + len src) (len l)
  /\ 0 <= off /\ off + len src <= len l.
Proof. unfold copy_at. bool_cases; split; intros; destruct_and?; simplify_eq/=; auto with lia. Qed.

Lemma copy_at_len l off src l' :
  copy_at l off src = Some l' -> len l' = len l.
Proof.
  intros (-> & ? & ?)%copy_at_inv. pose proof (len_nonneg src).
  rewrite !len_app, !len_sub; lia.
Qed.

Lemma copy_at_middle a b c src off :
  off = len a -> len src = len b ->
  copy_at (a ++ b ++ c) off src = Some (a ++ src ++ c).
Proof.
  intros -> Hl. unfold copy_at. rewrite !len_app.
  pose proof (len_nonneg a). pose proof (len_nonneg c).
  bool_cases; try lia. rewrite sub_prefix by done.
  rewrite (app_assoc a b c), sub_suffix; rewrite ?len_app; by try lia.
Qed.

Lemma slice_middle a b c i j :
  i = len a -> j = len a + len b -> slice (a ++ b ++ c) i j = Some b.
Proof.
  intros -> ->. pose proof (len_nonneg a). pose proof (len_nonneg b). pose proof (len_nonneg c).
  rewrite slice_Some by (rewrite ?len_app; lia). by rewrite sub_middle.
Qed.

Lemma slice_prefix a b j : j = len a -> slice (a ++ b) 0 j = Some a.
Proof. intros ->. by apply (slice_middle [] a b). Qed.

Lemma copy_at_front a c src : len src = len a -> copy_at (a ++ c) 0 src = Some (src ++ c).
Proof. intros. by apply (copy_at_middle [] a c src 0). Qed.

Lemma set_at_insert l i x :
  0 <= i < len l -> set_at l i x = Some (<[Z.to_nat i:=x]> l).
Proof.
  intros Hi. unfold set_at, copy_at. change (len [x]) with 1.
  destruct (Z.leb_spec 0 i); [|lia]. destruct (Z.leb_spec (i + 1) (len l)); [|lia]. cbn [andb].
  f_equal. unfold sub, len in *. rewrite insert_take_drop by lia. rewrite Z.sub_0_r.
  change (Z.to_nat 0) with 0%nat. rewrite drop_0. cbn [app]. do 2 f_equal.
  rewrite take_ge by (rewrite length_drop; lia). f_equal. lia.
Qed.

Lemma get_insert l i j x :
  0 <= i < len l -> 0 <= j -> get (<[Z.to_nat i:=x]> l) j = if i =? j then Some x else get l j.
Proof.
  intros Hi Hj. unfold get, len in *. destruct (Z.leb_spec 0 j); [|lia].
  destruct (Z.eqb_spec i j) as [->|].
  - apply list_lookup_insert_eq. lia.
  - apply list_lookup_insert_ne. lia.
Qed.
End slices.

Lemma bytes_zeros n : bytes (zeros n).
Proof. apply Forall_replicate. unfold u8. lia. Qed.

Lemma len_zeros n : 0 <= n -> len (zeros n) = n.
Proof. intros. unfold zeros. len_lia. Qed.

Lemma zeros_app n m : 0 <= n -> 0 <= m -> zeros (n + m) = zeros n ++ zeros m.
Proof.
  intros. unfold zeros. rewrite Z2Nat.inj_add by done. apply replicate_add.
Qed.

#[export] Hint Resolve bytes_zeros Forall_sub : rust.
Create Rewrite HintDb len.
#[export] Hint Rewrite @len_app @len_nil @len_cons : len.
