(* ===== verification/Model.v ===== *)
(** Protocol constants (src/src/model.rs) and error types (src/src/error.rs).

    A constant [kind::EOL] of the source is [KIND_EOL] here, [length::APC] is
    [LENGTH_APC] and [limits::X] is [LIMITS_X].  Durations and instants are
    integers counting nanoseconds.  An [io::Error] is represented by the one
    thing the code asks of it, its raw OS error number.  Constructors keep the
    source's names; where two enums share a name, the enum's name is put first
    ([SerializeDuplicateFrag]). *)

From S2P Require Import Prelude.

(** ** Option kinds *)

Definition KIND_EOL : Z := 0.
Definition KIND_NOP : Z := 1.
Definition KIND_APC : Z := 2.
Definition KIND_FRAG : Z := 3.
Definition KIND_MDS : Z := 4.
Definition KIND_MRDS : Z := 5.
Definition KIND_REQ : Z := 6.
Definition KIND_RES : Z := 7.
Definition KIND_TIME : Z := 8.
Definition KIND_AUTH : Z := 9.
Definition KIND_EXP : Z := 127.
Definition KIND_SAFE_RESERVED_MIN : Z := 128.
Definition KIND_SAFE_RESERVED_MAX : Z := 191.
Definition KIND_UNSAFE_MIN : Z := 192.
Definition KIND_EXTENDED_LENGTH_MARKER : Z := 255.

(** ** Fixed lengths *)

Definition LENGTH_APC : Z := 6.
Definition LENGTH_FRAG_NON_TERMINAL : Z := 10.
Definition LENGTH_FRAG_TERMINAL : Z := 12.
Definition LENGTH_MDS : Z := 4.
Definition LENGTH_MRDS : Z := 5.
Definition LENGTH_REQ : Z := 6.
Definition LENGTH_RES : Z := 6.
Definition LENGTH_TIME : Z := 10.
Definition LENGTH_EXP_MIN : Z := 4.
Definition LENGTH_OCS : Z := 2.
Definition LENGTH_UDP_HEADER : Z := 8.

(** ** Reassembly defaults and limits *)

Definition duration_from_secs (s : Z) : Z := s * 1000000000.

Definition LIMITS_MRDS_DEFAULT_IPV4 : Z := 2926.
Definition LIMITS_MIN_REASSEMBLY_SEGMENTS : Z := 2.
Definition LIMITS_REASSEMBLY_TIMEOUT_MAX : Z := duration_from_secs 120.
Definition LIMITS_REASSEMBLY_MAX_PENDING_PARTIALS : Z := 64.
Definition LIMITS_NOP_RUN_DOS_THRESHOLD : Z := 7.

(** ** Errors *)

Inductive ParseError : Type :=
| InvalidLength (kind : Z) (len : Z)
| Overrun (offset : Z)
| DuplicateFrag
| NonZeroPad
| OcsMismatch.

Inductive SerializeError : Type :=
| ReservedKind (kind : Z)
| UnsafeKind (kind : Z)
| UnsupportedAssignedKind (kind : Z)
| SerializeDuplicateFrag
| ValueTooLong (kind value_len max : Z)
| InvalidFixedValueLength (kind value_len : Z)
| BodyTooLong (len max : Z)
| FragmentStartTooLarge (start max : Z).

Inductive SplitError : Type :=
| ReassembledDatagramTooLarge (len max : Z)
| SegmentLimitExceeded (needed max : Z)
| FragmentCapacityTooSmall (required max : Z)
| FragmentSurplusTooLarge (len max : Z)
| RdosTooLarge (rdos max : Z)
| FragmentOffsetTooLarge (offset max : Z)
| OptionsBodyTooShort (len : Z)
| IdentificationExhausted
| SplitSerialize (e : SerializeError).

Record IoError : Type := { raw_os_error : option Z }.

Inductive SocketError : Type :=
| Io (e : IoError)
| PermissionDenied.

Inductive SendError : Type :=
| SendSerialize (e : SerializeError)
| SendSplit (e : SplitError)
| SendSocket (e : SocketError)
| FragmentIdentificationRequired
| DatagramTooLarge (len max : Z)
| InvalidConfig (reason : string).

Inductive ReceivePolicyError : Type :=
| UnsupportedRequiredOption (kind : Z).

Inductive HeaderError : Type :=
| IpTruncated (need have : Z)
| UnsupportedVersion (version : Z)
| BadIhl (ihl : Z)
| BadIpLength (length : Z)
| IpChecksumMismatch
| UnexpectedProtocol (protocol : Z)
| UdpTruncated (have : Z)
| UdpLengthInvalid (length : Z).

Inductive RecvError : Type :=
| RecvHeader (e : HeaderError)
| RecvParse (e : ParseError)
| UdpLengthExceedsIpPayload (udp_len transport_payload_len : Z)
| UdpChecksumMismatch (expected actual : Z)
| RecvSocket (e : SocketError).

#[export] Instance ParseError_eq_dec : EqDecision ParseError.
Proof. solve_decision. Defined.
#[export] Instance SerializeError_eq_dec : EqDecision SerializeError.
Proof. solve_decision. Defined.
#[export] Instance SplitError_eq_dec : EqDecision SplitError.
Proof. solve_decision. Defined.
#[export] Instance IoError_eq_dec : EqDecision IoError.
Proof. solve_decision. Defined.
#[export] Instance SocketError_eq_dec : EqDecision SocketError.
Proof. solve_decision. Defined.
#[export] Instance SendError_eq_dec : EqDecision SendError.
Proof. solve_decision. Defined.
#[export] Instance ReceivePolicyError_eq_dec : EqDecision ReceivePolicyError.
Proof. solve_decision. Defined.
#[export] Instance HeaderError_eq_dec : EqDecision HeaderError.
Proof. solve_decision. Defined.
#[export] Instance RecvError_eq_dec : EqDecision RecvError.
Proof. solve_decision. Defined.
#[export] Instance result_eq_dec {A E} `{EqDecision A, EqDecision E} :
  EqDecision (result A E).
Proof. solve_decision. Defined.

(** ** Errors of the raw-socket layer

    [EPERM] and [EACCES] have the values of the Linux ABI. *)

Definition EPERM : Z := 1.
Definition EACCES : Z := 13.

Definition map_socket_error (e : IoError) : SocketError :=
  match raw_os_error e with
  | Some code =>
      if (code =? EPERM) || (code =? EACCES) then PermissionDenied else Io e
  | None => Io e
  end.

(** Every protocol constant, for [unfold]ing in arithmetic. *)
Ltac unfold_consts :=
  unfold KIND_EOL, KIND_NOP, KIND_APC, KIND_FRAG, KIND_MDS, KIND_MRDS, KIND_REQ,
    KIND_RES, KIND_TIME, KIND_AUTH, KIND_EXP, KIND_SAFE_RESERVED_MIN,
    KIND_SAFE_RESERVED_MAX, KIND_UNSAFE_MIN, KIND_EXTENDED_LENGTH_MARKER,
    LENGTH_APC, LENGTH_FRAG_NON_TERMINAL, LENGTH_FRAG_TERMINAL, LENGTH_MDS,
    LENGTH_MRDS, LENGTH_REQ, LENGTH_RES, LENGTH_TIME, LENGTH_EXP_MIN, LENGTH_OCS,
    LENGTH_UDP_HEADER in *.
