(* ===== verification/Checksum.v ===== *)
(** The one's-complement Internet checksum (src/src/wire/checksum.rs).

    [Checksum], [add_u16], [add_slice], [Checksum_sum] and [Checksum_finish] follow the
    source, with the [u32] accumulator kept at its width.  The reference is
    [ones_complement], the folded value of an unbounded sum of 16-bit words;
    [represents c s] says that accumulator [c] stands for the unbounded sum [s],
    and every user of the checksum reasons through it. *)

From S2P Require Import Prelude Model.

(** ** The code *)

Record Checksum : Type := { cs_sum : Z }.

Definition Checksum_new : Checksum := {| cs_sum := 0 |}.

(** The two additions are [u32] additions, so they wrap. *)
Definition add_u16 (c : Checksum) (value : Z) : Checksum :=
  let s := wrap32 (cs_sum c + value) in
  {| cs_sum := wrap32 (Z.land s 0xffff + Z.shiftr s 16) |}.

Fixpoint add_slice (c : Checksum) (bs : list Z) : Checksum :=
  match bs with
  | a :: b :: rest => add_slice (add_u16 c (u16_from_be a b)) rest
  | [last] => add_u16 c (u16_from_be last 0)
  | [] => c
  end.

(** The [while sum >> 16 != 0] loop of [sum]. *)
Fixpoint fold_carries (fuel : nat) (s : Z) : option Z :=
  if Z.shiftr s 16 =? 0 then Some s
  else match fuel with
       | O => None
       | S fuel' => fold_carries fuel' (wrap32 (Z.land s 0xffff + Z.shiftr s 16))
       end.

(** Two rounds fold any [u32] ([fold_carries_total]). *)
Definition Checksum_sum (c : Checksum) : Z :=
  match fold_carries 2 (cs_sum c) with
  | Some s => s mod 65536
  | None => 0
  end.

Definition Checksum_finish (c : Checksum) : Z := not16 (Checksum_sum c).

Definition internet_checksum (bs : list Z) : Z :=
  Checksum_finish (add_slice Checksum_new bs).

(** ** The reference: folding an unbounded word sum *)

(** The 16-bit big-endian words of a byte string, the last one zero-padded,
    summed without bound. *)
Fixpoint word_total (bs : list Z) : Z :=
  match bs with
  | a :: b :: rest => u16_from_be a b + word_total rest
  | [last] => u16_from_be last 0
  | [] => 0
  end.

(** The one's-complement representative of [s]: zero only for an empty sum,
    otherwise the residue modulo 65535 in [1, 65535]. *)
Definition ones_complement (s : Z) : Z :=
  if s =? 0 then 0 else (s - 1) mod 65535 + 1.

Definition represents (c : Checksum) (s : Z) : Prop :=
  0 <= s /\ cs_sum c = ones_complement s.

(** ** Lemmas *)

(** Induction on byte strings two bytes at a time. *)
Lemma bytes_pair_ind (P : list Z -> Prop) :
  P [] -> (forall a, P [a]) -> (forall a b l, P l -> P (a :: b :: l)) ->
  forall l, P l.
Proof.
  intros H0 H1 H2 l. induction (Nat.lt_wf_0_projected (@length Z) l) as [l _ IH].
  destruct l as [|a [|b l]]; auto. apply H2, IH. simpl. lia.
Qed.

Lemma ones_complement_bound s : 0 <= ones_complement s <= 65535.
Proof. unfold ones_complement. bool_cases; dlia. Qed.

Lemma ones_complement_u16 s : u16 (ones_complement s).
Proof. pose proof (ones_complement_bound s). unfold u16. lia. Qed.

Lemma ones_complement_add s v :
  0 <= s -> u16 v ->
  ones_complement (s + v) =
  let t := ones_complement s + v in if t <? 65536 then t else t - 65535.
Proof. unfold u16, ones_complement. intros. cbv zeta. bool_cases; dlia. Qed.

(** Only multiples of 65535 fold to the all-ones pattern. *)
Lemma ones_complement_ffff s :
  0 <= s -> ones_complement s = 65535 <-> 0 < s /\ s mod 65535 = 0.
Proof. unfold ones_complement. intros. bool_cases; split; intros; dlia. Qed.

Lemma fold_carries_total s :
  u32 s ->
  exists r, fold_carries 2 s = Some r /\ u16 r.
Proof.
  unfold u32, u16. intros Hs. unfold fold_carries, wrap32.
  rewrite !land_ffff, !shiftr_16.
  repeat case_match; try (eexists; split; [done|]); bool_cases; dlia.
Qed.

Lemma Checksum_sum_small c : u16 (cs_sum c) -> Checksum_sum c = cs_sum c.
Proof.
  intros Hc. unfold Checksum_sum, fold_carries. rewrite shiftr_16.
  unfold u16 in *. rewrite Z.div_small by lia. simpl. apply Z.mod_small. lia.
Qed.

Lemma represents_new : represents Checksum_new 0.
Proof. split; [lia|done]. Qed.

Lemma represents_nonneg c s : represents c s -> 0 <= s.
Proof. by intros []. Qed.

Lemma represents_add_u16 c s v :
  represents c s -> u16 v -> represents (add_u16 c v) (s + v).
Proof.
  intros [Hs Hc] Hv. split; [unfold u16 in *; lia|].
  pose proof (ones_complement_bound s).
  rewrite ones_complement_add by done. unfold add_u16, wrap32. cbn -[Z.land Z.shiftr].
  rewrite Hc, land_ffff, shiftr_16. unfold u16 in *. bool_cases; dlia.
Qed.

Lemma word_total_nonneg bs : bytes bs -> 0 <= word_total bs.
Proof.
  induction bs as [|a|a b l IH] using bytes_pair_ind; simpl; [lia|..];
    unfold u8, u16_from_be in *; intros Hb; decompose_Forall_hyps; [lia|].
  specialize (IH ltac:(done)). lia.
Qed.

Lemma represents_add_slice bs c s :
  bytes bs -> represents c s -> represents (add_slice c bs) (s + word_total bs).
Proof.
  revert c s. induction bs as [|a|a b l IH] using bytes_pair_ind;
    intros c s Hb Hc; simpl.
  - by rewrite Z.add_0_r.
  - apply represents_add_u16; [done|]. 
    decompose_Forall_hyps. unfold u8, u16, u16_from_be in *. lia.
  -  decompose_Forall_hyps. rewrite Z.add_assoc. apply IH; [done|].
    apply represents_add_u16; auto with rust.
Qed.

#[export] Hint Resolve represents_new represents_add_u16 represents_add_slice : rust.

Lemma represents_sum c s : represents c s -> Checksum_sum c = ones_complement s.
Proof.
  intros [Hs Hc]. rewrite Checksum_sum_small; [done|].
  rewrite Hc. apply ones_complement_u16.
Qed.

Lemma represents_finish c s :
  represents c s -> Checksum_finish c = 65535 - ones_complement s.
Proof.
  intros Hc. unfold Checksum_finish. rewrite (represents_sum c s Hc).
  apply not16_u16, ones_complement_u16.
Qed.

Lemma represents_finish_u16 c s : represents c s -> u16 (Checksum_finish c).
Proof.
  intros Hc. rewrite (represents_finish c s Hc).
  pose proof (ones_complement_bound s). unfold u16. lia.
Qed.

(** Word totals are additive across an even-length boundary, the alignment
    rule the callers of [add_slice] have to respect. *)
Lemma word_total_app a b :
  Z.even (len a) = true -> word_total (a ++ b) = word_total a + word_total b.
Proof.
  induction a as [|x|x y l IH] using bytes_pair_ind; intros He; simpl; [done|done|].
  rewrite IH; [lia|]. rewrite !len_cons in He.
  by replace (1 + (1 + len l)) with (len l + 2) in He by lia; rewrite Z.even_add in He;
    destruct (Z.even (len l)).
Qed.

Lemma word_total_zeros_pair l : word_total (0 :: 0 :: l) = word_total l.
Proof. simpl. unfold u16_from_be. lia. Qed.

(** Storing the complement of a sum makes the total fold to all ones. *)
Lemma ones_complement_cancel s :
  0 <= s -> ones_complement (s + (65535 - ones_complement s)) = 65535.
Proof. intros. unfold ones_complement. bool_cases; dlia. Qed.

(** The unbounded word sum of several regions fed one after the other. *)
Definition region_total (regions : list (list Z)) : Z :=
  foldr (fun r s => word_total r + s) 0 regions.

Lemma represents_regions regions c s :
  Forall bytes regions -> represents c s ->
  represents (fold_left add_slice regions c) (s + region_total regions).
Proof.
  intros Hr. revert c s. induction Hr as [|r rs Hb _ IH]; intros c s Hc; simpl.
  - by rewrite Z.add_0_r.
  - rewrite Z.add_assoc. apply IH. by apply represents_add_slice.
Qed.

(** ** Properties *)

(** C20. The eagerly folded 32-bit accumulator computes the one's-complement sum
    of RFC 1071: whatever byte regions are fed to it, the result is the folded
    value of the unbounded sum of all their 16-bit words, and the accumulator
    stays below 2^16, so that no [u32] addition ever wraps. *)
Theorem checksum_is_ones_complement_sum (regions : list (list Z)) :
  Forall bytes regions ->
  let c := fold_left add_slice regions Checksum_new in
  Checksum_sum c = ones_complement (region_total regions) /\ cs_sum c < 65536.
Proof.
  intros Hr c.
  assert (represents c (0 + region_total regions)) as Hc
    by (apply represents_regions; auto with rust).
  rewrite Z.add_0_l in Hc. split; [by apply represents_sum|].
  destruct Hc as [_ ->]. pose proof (ones_complement_bound (region_total regions)). lia.
Qed.

Lemma checksum_is_ones_complement_sum_witness :
  Checksum_sum (fold_left add_slice [[0; 1; 0xf2; 3]; [0xf4; 0xf5; 0xf6; 0xf7]] Checksum_new)
  = 0xddf2.
Proof.
  rewrite (proj1 (checksum_is_ones_complement_sum
    [[0; 1; 0xf2; 3]; [0xf4; 0xf5; 0xf6; 0xf7]]
    ltac:(repeat constructor; unfold u8; lia))).
  reflexivity.
Defined.
