(* ===== verification/Ip.v ===== *)
(** The IPv4 header (src/src/wire/ip.rs).

    [IpRepr_parse] keeps every check of the source in its order, with indexing
    and slicing that would panic out of range; [IpRepr_write] writes the header
    into a caller's buffer and back-patches the header checksum. *)

From S2P Require Import Prelude Model Checksum.

(** ** Addresses *)

(** [std::net::Ipv4Addr], the four octets in network order. *)
Record Ipv4Addr : Type := { oct0 : Z; oct1 : Z; oct2 : Z; oct3 : Z }.

Definition octets (a : Ipv4Addr) : list Z := [oct0 a; oct1 a; oct2 a; oct3 a].

(** [Ipv4Addr::from(<[u8; 4]>::try_from(s).expect(..))]. *)
Definition Ipv4Addr_from (s : list Z) : option Ipv4Addr :=
  match s with
  | [a; b; c; d] => Some {| oct0 := a; oct1 := b; oct2 := c; oct3 := d |}
  | _ => None
  end.

Definition Ipv4Addr_wf (a : Ipv4Addr) : Prop := bytes (octets a).

#[export] Instance Ipv4Addr_eq_dec : EqDecision Ipv4Addr.
Proof. solve_decision. Defined.

#[export] Instance Ipv4Addr_countable : Countable Ipv4Addr.
Proof.
  refine (inj_countable' (fun a => (oct0 a, oct1 a, oct2 a, oct3 a))
    (fun '(a, b, c, d) => {| oct0 := a; oct1 := b; oct2 := c; oct3 := d |}) _).
  by intros [].
Defined.

(** ** The code *)

Definition IPPROTO_UDP : Z := 17.
Definition IPV4_MIN_HEADER_LEN : Z := 20.
Definition DEFAULT_TTL : Z := 64.

Record IpRepr : Type := {
  ip_src : Ipv4Addr;
  ip_dst : Ipv4Addr;
  ip_ihl : Z;
  ip_total_len : Z;
}.

#[export] Instance IpRepr_eq_dec : EqDecision IpRepr.
Proof. solve_decision. Defined.

Definition IpRepr_parse_v4 (bs : list Z) : option (result (IpRepr * Z) HeaderError) :=
  if len bs <? IPV4_MIN_HEADER_LEN
  then Some (Err (IpTruncated IPV4_MIN_HEADER_LEN (len bs))) else
  let! b0 := get bs 0 in
  let ihl := Z.land b0 0x0f in
  if ihl <? 5 then Some (Err (BadIhl ihl)) else
  let header_len := ihl * 4 in
  if len bs <? header_len then Some (Err (IpTruncated header_len (len bs))) else
  let! b2 := get bs 2 in
  let! b3 := get bs 3 in
  let total_len := u16_from_be b2 b3 in
  if (total_len <? header_len) || (len bs <? total_len)
  then Some (Err (BadIpLength total_len)) else
  let! b9 := get bs 9 in
  if negb (b9 =? IPPROTO_UDP) then Some (Err (UnexpectedProtocol b9)) else
  let! header := slice bs 0 header_len in
  if negb (internet_checksum header =? 0) then Some (Err IpChecksumMismatch) else
  let! s := slice bs 12 16 in
  let! src := Ipv4Addr_from s in
  let! d := slice bs 16 20 in
  let! dst := Ipv4Addr_from d in
  Some (Ok ({| ip_src := src; ip_dst := dst; ip_ihl := ihl; ip_total_len := total_len |},
            header_len)).

Definition IpRepr_parse (bs : list Z) : option (result (IpRepr * Z) HeaderError) :=
  match get bs 0 with
  | None => Some (Err (IpTruncated 1 0))
  | Some version_octet =>
      let version := Z.shiftr version_octet 4 in
      if version =? 4 then IpRepr_parse_v4 bs
      else Some (Err (UnsupportedVersion version))
  end.

(** The statements of [write] on [out = &mut out[..20]], zero-filled first. *)
Definition IpRepr_fill_header (r : IpRepr) : option (list Z) :=
  let hdr := zeros IPV4_MIN_HEADER_LEN in
  let! hdr := set_at hdr 0 0x45 in
  let! hdr := copy_at hdr 2 (u16_to_be (ip_total_len r)) in
  let! hdr := set_at hdr 8 DEFAULT_TTL in
  let! hdr := set_at hdr 9 IPPROTO_UDP in
  let! hdr := copy_at hdr 12 (octets (ip_src r)) in
  let! hdr := copy_at hdr 16 (octets (ip_dst r)) in
  let checksum := internet_checksum hdr in
  copy_at hdr 10 (u16_to_be checksum).

Definition IpRepr_write (r : IpRepr) (out : list Z) : option (list Z) :=
  ensure (ip_ihl r =? 5);
  let! _ := slice out 0 IPV4_MIN_HEADER_LEN in
  let! hdr := IpRepr_fill_header r in
  copy_at out 0 hdr.

Definition IpRepr_header_len (r : IpRepr) : Z := ip_ihl r * 4.

Definition IpRepr_transport_payload_len (r : IpRepr) : Z :=
  saturating_sub (ip_total_len r) (ip_ihl r * 4).

Definition IpRepr_pseudo_header_sum (r : IpRepr) (udp_len : Z) : Checksum :=
  let sum := Checksum_new in
  let sum := add_slice sum (octets (ip_src r)) in
  let sum := add_slice sum (octets (ip_dst r)) in
  let sum := add_u16 sum IPPROTO_UDP in
  add_u16 sum udp_len.

(** ** Well-formedness *)

Definition IpRepr_wf (r : IpRepr) : Prop :=
  Ipv4Addr_wf (ip_src r) /\ Ipv4Addr_wf (ip_dst r) /\ 5 <= ip_ihl r <= 15 /\
  u16 (ip_total_len r).

(** The header bytes [IpRepr_write] produces. *)
Definition header_prefix (r : IpRepr) : list Z :=
  [0x45; 0] ++ u16_to_be (ip_total_len r) ++ [0; 0; 0; 0; DEFAULT_TTL; IPPROTO_UDP].
Definition header_suffix (r : IpRepr) : list Z :=
  octets (ip_src r) ++ octets (ip_dst r).
Definition ip_header (r : IpRepr) : list Z :=
  header_prefix r
    ++ u16_to_be (internet_checksum (header_prefix r ++ [0; 0] ++ header_suffix r))
    ++ header_suffix r.

(** ** Lemmas *)

Lemma Ipv4Addr_from_octets a : Ipv4Addr_from (octets a) = Some a.
Proof. by destruct a. Qed.

Lemma Ipv4Addr_from_total s :
  len s = 4 -> exists a, Ipv4Addr_from s = Some a /\ octets a = s.
Proof.
  intros Hl. destruct s as [|a [|b [|c [|d [|? ?]]]]]; len_simpl; try lia.
  eexists. split; done.
Qed.

Lemma land_f_bound x : 0 <= Z.land x 0x0f <= 15.
Proof. change 0x0f with (Z.ones 4). rewrite Z.land_ones by done. change (2 ^ 4) with 16. change (Z.ones 4) with 15. dlia. Qed.

Lemma len_header_prefix r : len (header_prefix r) = 10.
Proof. done. Qed.

Lemma len_header_suffix r : len (header_suffix r) = 8.
Proof. done. Qed.

Lemma len_ip_header r : len (ip_header r) = 20.
Proof. done. Qed.

Lemma bytes_header_prefix r : bytes (header_prefix r).
Proof. repeat (apply Forall_cons; split; [unfold u8; try dlia; done|]). constructor. Qed.

Lemma bytes_header_suffix r : IpRepr_wf r -> bytes (header_suffix r).
Proof. intros (Hs & Hd & _). by apply Forall_app. Qed.

Lemma bytes_ip_header r : IpRepr_wf r -> bytes (ip_header r).
Proof.
  intros. apply Forall_app. split; [apply bytes_header_prefix|].
  apply Forall_app. split; [auto with rust | by apply bytes_header_suffix].
Qed.

(** A checksum field filled with the complement of the rest verifies to zero. *)
Lemma internet_checksum_patched a b :
  bytes a -> bytes b -> Z.even (len a) = true ->
  internet_checksum (a ++ u16_to_be (internet_checksum (a ++ [0; 0] ++ b)) ++ b) = 0.
Proof.
  intros Ha Hb He.
  assert (represents (add_slice Checksum_new (a ++ [0; 0] ++ b))
            (0 + word_total (a ++ [0; 0] ++ b))) as H0.
  { apply represents_add_slice; auto with rust.
    repeat (apply Forall_app; split); auto. repeat constructor; unfold u8; lia. }
  rewrite Z.add_0_l in H0. unfold internet_checksum at 2.
  pose proof (represents_finish_u16 _ _ H0) as Hu.
  rewrite (represents_finish _ _ H0) in Hu |- *.
  rewrite word_total_app in * by done. simpl word_total in *.
  change (u16_from_be 0 0) with 0 in *. rewrite Z.add_0_l in *.
  set (s := word_total a + word_total b) in *.
  set (f := 65535 - ones_complement s) in *.
  assert (represents (add_slice Checksum_new (a ++ u16_to_be f ++ b))
            (0 + word_total (a ++ u16_to_be f ++ b))) as H1.
  { apply represents_add_slice; auto with rust.
    repeat (apply Forall_app; split); auto with rust. }
  rewrite Z.add_0_l in H1. unfold internet_checksum. rewrite (represents_finish _ _ H1).
  rewrite word_total_app by done. simpl word_total. rewrite u16_from_to_be by done.
  replace (word_total a + (f + word_total b)) with (s + f) by lia.
  subst f. rewrite ones_complement_cancel; [done|]. apply (represents_nonneg _ _ H0).
Qed.

Lemma internet_checksum_ip_header r :
  IpRepr_wf r -> internet_checksum (ip_header r) = 0.
Proof.
  intros Hw. apply internet_checksum_patched; [apply bytes_header_prefix| |done].
  by apply bytes_header_suffix.
Qed.

Lemma IpRepr_fill_header_spec r : IpRepr_fill_header r = Some (ip_header r).
Proof.
  destruct r as [[s0 s1 s2 s3] [d0 d1 d2 d3] ihl tl].
  cbv -[internet_checksum Z.div Z.modulo]. reflexivity.
Qed.

Lemma IpRepr_write_spec r out :
  ip_ihl r = 5 -> 20 <= len out ->
  IpRepr_write r out = Some (ip_header r ++ sub out 20 (len out)).
Proof.
  intros Hi Hl. unfold IpRepr_write.
  rewrite Hi, slice_Some, IpRepr_fill_header_spec by (unfold IPV4_MIN_HEADER_LEN; lia).
  cbn [Z.eqb Pos.eqb]. unfold copy_at. rewrite len_ip_header.
  bool_cases; try lia. by rewrite sub_empty.
Qed.

(** Parsing never panics, and what a successful parse tells about the buffer. *)
Lemma IpRepr_write_zeros r : ip_ihl r = 5 -> IpRepr_write r (zeros 20) = Some (ip_header r).
Proof. intros. rewrite IpRepr_write_spec by done. by rewrite app_nil_r. Qed.

Lemma IpRepr_parse_total bs :
  bytes bs ->
  exists res, IpRepr_parse bs = Some res /\
    forall r off, res = Ok (r, off) ->
      IpRepr_wf r /\ off = IpRepr_header_len r /\
      IpRepr_header_len r <= ip_total_len r <= len bs.
Proof.
  intros Hb. unfold IpRepr_parse, IpRepr_parse_v4.
  destruct (get bs 0) as [b0|] eqn:E0; [|eauto with congruence].
  pose proof (land_f_bound b0). unfold IPV4_MIN_HEADER_LEN.
  destruct (_ =? 4); [|eauto with congruence].
  destruct (Z.ltb_spec (len bs) 20); [eauto with congruence|].
  destruct (Z.ltb_spec (Z.land b0 15) 5); [eauto with congruence|].
  destruct (Z.ltb_spec (len bs) (Z.land b0 15 * 4)); [eauto with congruence|].
  destruct (get_is_Some bs 2) as [b2 E2]; [lia|].
  destruct (get_is_Some bs 3) as [b3 E3]; [lia|].
  destruct (get_is_Some bs 9) as [b9 E9]; [lia|].
  rewrite E2, E3, E9. rewrite !slice_Some by lia.
  destruct (Ipv4Addr_from_total (sub bs 12 16)) as (src & -> & Hs); [rewrite len_sub; lia|].
  destruct (Ipv4Addr_from_total (sub bs 16 20)) as (dst & -> & Hd); [rewrite len_sub; lia|].
  destruct (_ || _) eqn:El; [eauto with congruence|].
  apply orb_false_iff in El as [?%Z.ltb_ge ?%Z.ltb_ge].
  do 2 (case_match; [eauto with congruence|]).
  eexists. split; [done|]. intros r off [= <- <-].
  unfold IpRepr_wf, Ipv4Addr_wf, IpRepr_header_len; cbn -[u16_from_be].
  rewrite Hs, Hd. repeat split; auto with rust; try lia.
  all: apply (u16_from_be_u16 b2 b3); eapply get_Forall; eauto.
Qed.

Lemma IpRepr_parse_Ok bs r off :
  bytes bs -> IpRepr_parse bs = Some (Ok (r, off)) ->
  IpRepr_wf r /\ off = IpRepr_header_len r /\
  IpRepr_header_len r <= ip_total_len r <= len bs.
Proof.
  intros Hb Hp. destruct (IpRepr_parse_total bs Hb) as (res & Hres & H).
  apply H. congruence.
Qed.

(** Reading the written header back, whatever follows it. *)
Lemma IpRepr_parse_header r rest :
  IpRepr_wf r -> ip_ihl r = 5 -> 20 <= ip_total_len r <= 20 + len rest ->
  IpRepr_parse (ip_header r ++ rest) = Some (Ok (r, 20)).
Proof.
  intros Hw Hi Ht. pose proof (len_nonneg rest).
  assert (u16 (ip_total_len r)) as Hu by apply Hw.
  unfold IpRepr_parse, IpRepr_parse_v4, IPV4_MIN_HEADER_LEN.
  change (get (ip_header r ++ rest) 0) with (Some 0x45).
  change (get (ip_header r ++ rest) 2) with (Some ((ip_total_len r / 256) mod 256)).
  change (get (ip_header r ++ rest) 3) with (Some (ip_total_len r mod 256)).
  change (get (ip_header r ++ rest) 9) with (Some IPPROTO_UDP).
  cbv iota zeta beta.
  change (Z.shiftr 0x45 4 =? 4) with true. change (Z.land 0x45 0x0f) with 5.
  rewrite u16_from_to_be by done.
  assert (len (ip_header r ++ rest) = 20 + len rest) as Hl by (by rewrite len_app).
  rewrite !slice_Some by lia. rewrite Hl. change (5 * 4) with 20.
  destruct (Z.ltb_spec (20 + len rest) 20); [lia|].
  destruct (Z.ltb_spec (ip_total_len r) 20); [lia|].
  destruct (Z.ltb_spec (20 + len rest) (ip_total_len r)); [lia|].
  cbn [Z.ltb Z.compare Pos.compare Pos.compare_cont orb negb Z.eqb].
  rewrite (sub_prefix (ip_header r) rest 20) by done.
  rewrite internet_checksum_ip_header by done.
  replace (ip_header r ++ rest)
    with ((header_prefix r ++ u16_to_be (internet_checksum (header_prefix r ++ [0; 0] ++ header_suffix r)))
            ++ octets (ip_src r) ++ (octets (ip_dst r) ++ rest))
    by (unfold ip_header, header_suffix; by rewrite <- !app_assoc).
  rewrite sub_middle, Ipv4Addr_from_octets by done.
  rewrite (app_assoc _ (octets (ip_src r))), sub_middle, Ipv4Addr_from_octets by done.
  destruct r; simpl in *. by subst.
Qed.

(** ** Properties *)

(** Writing an IPv4 header into a buffer and parsing the buffer gives the
    representation back, with the transport payload at offset 20; the rest of the
    buffer is untouched and the stored header checksum is the one the parser
    verifies. *)
Theorem ip_write_parse_roundtrip (r : IpRepr) (out : list Z) :
  IpRepr_wf r -> ip_ihl r = 5 -> bytes out -> 20 <= ip_total_len r <= len out ->
  exists out', IpRepr_write r out = Some out' /\
    sub out' 20 (len out') = sub out 20 (len out) /\ bytes out' /\
    IpRepr_parse out' = Some (Ok (r, 20)).
Proof.
  intros Hw Hi Hb Ht. rewrite IpRepr_write_spec by lia. eexists. split; [done|].
  assert (len (sub out 20 (len out)) = len out - 20) as Hl by (apply len_sub; lia).
  split; [|split].
  - rewrite len_app. apply sub_suffix; [done|lia].
  - apply Forall_app. split; [by apply bytes_ip_header | auto with rust].
  - apply IpRepr_parse_header; [done|done|lia].
Qed.

Definition example_repr : IpRepr :=
  {| ip_src := {| oct0 := 192; oct1 := 0; oct2 := 2; oct3 := 1 |};
     ip_dst := {| oct0 := 198; oct1 := 51; oct2 := 100; oct3 := 2 |};
     ip_ihl := 5; ip_total_len := 33 |}.

Lemma ip_write_parse_roundtrip_witness :
  exists out', IpRepr_write example_repr (replicate 33 7) = Some out' /\
    IpRepr_parse out' = Some (Ok (example_repr, 20)).
Proof.
  destruct (ip_write_parse_roundtrip example_repr (replicate 33 7)) as (o & H1 & _ & _ & H2).
  - repeat split; repeat constructor; unfold u8; simpl; lia.
  - reflexivity.
  - apply Forall_replicate. unfold u8; lia.
  - vm_compute. split; intros; discriminate.
  - exists o. split; assumption.
Defined.

(** [IpRepr::parse] is total on byte strings: it never reads outside the
    buffer, and an accepted header fits its Total Length, which fits the buffer
    (so that the later [datagram[..ip_end]] slice of the receive path is in
    range). *)
Theorem ip_parse_safe (bs : list Z) :
  bytes bs ->
  is_Some (IpRepr_parse bs) /\
  forall r off, IpRepr_parse bs = Some (Ok (r, off)) ->
    IpRepr_wf r /\ off = IpRepr_header_len r /\
    20 <= off <= ip_total_len r /\ ip_total_len r <= len bs /\
    off + IpRepr_transport_payload_len r = ip_total_len r.
Proof.
  intros Hb. split.
  - destruct (IpRepr_parse_total bs Hb) as (res & -> & _). done.
  - intros r off (Hw & -> & ?)%IpRepr_parse_Ok; [|done].
    unfold IpRepr_transport_payload_len, IpRepr_header_len, saturating_sub in *.
    split; [done|]. destruct Hw as (_ & _ & ? & ?). lia.
Qed.

Lemma ip_parse_safe_witness :
  IpRepr_parse [0x45; 0; 0] = Some (Err (IpTruncated 20 3)) /\
  is_Some (IpRepr_parse [0x45; 0; 0]).
Proof.
  split; [reflexivity|].
  apply (ip_parse_safe [0x45; 0; 0]). repeat constructor; unfold u8; lia.
Defined.
