(* ===== verification/Udp.v ===== *)
(** The UDP header and checksum (src/src/wire/udp.rs). *)

From S2P Require Import Prelude Model Checksum Ip.

(** ** The code *)

Definition UDP_HEADER_LEN : Z := LENGTH_UDP_HEADER.

Record UdpHeader : Type := {
  udp_src_port : Z;
  udp_dst_port : Z;
  udp_length : Z;
  udp_checksum : Z;
}.

#[export] Instance UdpHeader_eq_dec : EqDecision UdpHeader.
Proof. solve_decision. Defined.

Definition UdpHeader_parse (bs : list Z) : option (result UdpHeader HeaderError) :=
  if len bs <? UDP_HEADER_LEN then Some (Err (UdpTruncated (len bs))) else
  let! b4 := get bs 4 in
  let! b5 := get bs 5 in
  let length := u16_from_be b4 b5 in
  if length <? UDP_HEADER_LEN then Some (Err (UdpLengthInvalid length)) else
  let! b0 := get bs 0 in
  let! b1 := get bs 1 in
  let! b2 := get bs 2 in
  let! b3 := get bs 3 in
  let! b6 := get bs 6 in
  let! b7 := get bs 7 in
  Some (Ok {| udp_src_port := u16_from_be b0 b1; udp_dst_port := u16_from_be b2 b3;
              udp_length := length; udp_checksum := u16_from_be b6 b7 |}).

Definition UdpHeader_write (h : UdpHeader) (out : list Z) : option (list Z) :=
  let! out := copy_at out 0 (u16_to_be (udp_src_port h)) in
  let! out := copy_at out 2 (u16_to_be (udp_dst_port h)) in
  let! out := copy_at out 4 (u16_to_be (udp_length h)) in
  copy_at out 6 (u16_to_be (udp_checksum h)).

Definition UdpHeader_compute_checksum (h : UdpHeader) (ip : IpRepr) (data : list Z) :
    option Z :=
  ensure (udp_length h =? UDP_HEADER_LEN + len data);
  let sum := IpRepr_pseudo_header_sum ip (udp_length h) in
  let sum := add_u16 sum (udp_src_port h) in
  let sum := add_u16 sum (udp_dst_port h) in
  let sum := add_u16 sum (udp_length h) in
  let sum := add_slice sum data in
  let checksum := Checksum_finish sum in
  Some (if checksum =? 0 then 0xffff else checksum).

(** [UdpHeader { checksum: c, ..h }]. *)
Definition UdpHeader_with_checksum (h : UdpHeader) (c : Z) : UdpHeader :=
  {| udp_src_port := udp_src_port h; udp_dst_port := udp_dst_port h;
     udp_length := udp_length h; udp_checksum := c |}.

(** ** Well-formedness and layout *)

Definition UdpHeader_wf (h : UdpHeader) : Prop :=
  u16 (udp_src_port h) /\ u16 (udp_dst_port h) /\ u16 (udp_length h) /\
  u16 (udp_checksum h).

Definition udp_header (h : UdpHeader) : list Z :=
  u16_to_be (udp_src_port h) ++ u16_to_be (udp_dst_port h)
    ++ u16_to_be (udp_length h) ++ u16_to_be (udp_checksum h).

(** The RFC 768 checksum total: pseudo-header, UDP header without its checksum
    field, and user data. *)
Definition udp_word_total (h : UdpHeader) (ip : IpRepr) (data : list Z) : Z :=
  word_total (octets (ip_src ip)) + word_total (octets (ip_dst ip)) + IPPROTO_UDP
  + udp_length h + udp_src_port h + udp_dst_port h + udp_length h + word_total data.

(** ** Lemmas *)

Lemma len_udp_header h : len (udp_header h) = 8.
Proof. done. Qed.

Lemma bytes_udp_header h : bytes (udp_header h).
Proof. repeat (apply Forall_app; split); auto with rust. Qed.

Lemma UdpHeader_write_8 h a b c d e f g i :
  UdpHeader_write h [a; b; c; d; e; f; g; i] = Some (udp_header h).
Proof. by destruct h. Qed.

Lemma copy_at_prefix {A} (hd tl : list A) off src hd' :
  copy_at hd off src = Some hd' -> copy_at (hd ++ tl) off src = Some (hd' ++ tl).
Proof.
  intros (-> & ? & ?)%copy_at_inv. pose proof (len_nonneg src).
  rewrite <- (sub_full hd) at 1.
  rewrite (sub_split hd 0 (off + len src) (len hd)), (sub_split hd 0 off (off + len src)) by lia.
  rewrite <- !app_assoc. apply copy_at_middle; rewrite len_sub; lia.
Qed.

Lemma UdpHeader_write_spec h out :
  8 <= len out -> UdpHeader_write h out = Some (udp_header h ++ sub out 8 (len out)).
Proof.
  intros Hl. rewrite <- (sub_full out) at 1.
  rewrite (sub_split out 0 8 (len out)) by lia.
  assert (len (sub out 0 8) = 8) as H8 by (rewrite len_sub; lia).
  generalize dependent (sub out 0 8). intros hd H8. generalize (sub out 8 (len out)). intros tl.
  destruct hd as [|a [|b [|c [|d [|e [|f [|g [|i [|]]]]]]]]]; len_simpl; try lia.
  pose proof (UdpHeader_write_8 h a b c d e f g i) as Hw. unfold UdpHeader_write in *.
  repeat match goal with
  | H : (let! x := copy_at ?l ?o ?s in _) = _ |- _ =>
      let E := fresh "E" in destruct (copy_at l o s) eqn:E; [|done];
      rewrite (copy_at_prefix _ tl _ _ _ E); clear E
  end.
  by apply copy_at_prefix.
Qed.

Lemma UdpHeader_write_zeros h : UdpHeader_write h (zeros 8) = Some (udp_header h).
Proof. rewrite UdpHeader_write_spec by done. by rewrite app_nil_r. Qed.

Lemma UdpHeader_parse_header h rest :
  UdpHeader_wf h -> 8 <= udp_length h ->
  UdpHeader_parse (udp_header h ++ rest) = Some (Ok h).
Proof.
  intros (Hs & Hd & Hl & Hc) H8. unfold UdpHeader_parse.
  rewrite len_app, len_udp_header. pose proof (len_nonneg rest).
  change UDP_HEADER_LEN with 8. destruct (Z.ltb_spec (8 + len rest) 8); [lia|].
  change (get (udp_header h ++ rest) 0) with (Some ((udp_src_port h / 256) mod 256)).
  change (get (udp_header h ++ rest) 1) with (Some (udp_src_port h mod 256)).
  change (get (udp_header h ++ rest) 2) with (Some ((udp_dst_port h / 256) mod 256)).
  change (get (udp_header h ++ rest) 3) with (Some (udp_dst_port h mod 256)).
  change (get (udp_header h ++ rest) 4) with (Some ((udp_length h / 256) mod 256)).
  change (get (udp_header h ++ rest) 5) with (Some (udp_length h mod 256)).
  change (get (udp_header h ++ rest) 6) with (Some ((udp_checksum h / 256) mod 256)).
  change (get (udp_header h ++ rest) 7) with (Some (udp_checksum h mod 256)).
  cbv iota zeta. rewrite !u16_from_to_be by done. destruct (Z.ltb_spec (udp_length h) 8); [lia|].
  by destruct h.
Qed.

(** Parsing never panics; an accepted header is well formed with UDP Length at
    least 8 and lies inside the buffer. *)
Lemma UdpHeader_parse_total bs :
  bytes bs ->
  exists res, UdpHeader_parse bs = Some res /\
    forall h, res = Ok h -> UdpHeader_wf h /\ 8 <= udp_length h /\ 8 <= len bs.
Proof.
  intros Hb. unfold UdpHeader_parse. change UDP_HEADER_LEN with 8.
  destruct (Z.ltb_spec (len bs) 8); [eauto with congruence|].
  destruct (get_is_Some bs 0) as [b0 E0]; [lia|]. destruct (get_is_Some bs 1) as [b1 E1]; [lia|].
  destruct (get_is_Some bs 2) as [b2 E2]; [lia|]. destruct (get_is_Some bs 3) as [b3 E3]; [lia|].
  destruct (get_is_Some bs 4) as [b4 E4]; [lia|]. destruct (get_is_Some bs 5) as [b5 E5]; [lia|].
  destruct (get_is_Some bs 6) as [b6 E6]; [lia|]. destruct (get_is_Some bs 7) as [b7 E7]; [lia|].
  rewrite E0, E1, E2, E3, E4, E5, E6, E7.
  destruct (Z.ltb_spec (u16_from_be b4 b5) 8); [eauto with congruence|].
  eexists. split; [done|]. intros h [= <-]. repeat split; simpl; try lia.
  all: match goal with |- context [u16_from_be ?a ?b] => apply (u16_from_be_u16 a b) end;
    eapply get_Forall; eauto.
Qed.

Lemma UdpHeader_parse_Ok bs h :
  bytes bs -> UdpHeader_parse bs = Some (Ok h) ->
  UdpHeader_wf h /\ 8 <= udp_length h /\ 8 <= len bs.
Proof.
  intros Hb Hp. destruct (UdpHeader_parse_total bs Hb) as (? & ? & H). apply H. congruence.
Qed.

Lemma represents_pseudo_header ip udp_len :
  IpRepr_wf ip -> u16 udp_len ->
  represents (IpRepr_pseudo_header_sum ip udp_len)
    (word_total (octets (ip_src ip)) + word_total (octets (ip_dst ip)) + IPPROTO_UDP + udp_len).
Proof.
  intros (Hs & Hd & _) Hu. unfold IpRepr_pseudo_header_sum.
  apply represents_add_u16; [|done]. apply represents_add_u16; [|unfold u16, IPPROTO_UDP; lia].
  apply represents_add_slice; [done|]. rewrite <- (Z.add_0_l (word_total (octets (ip_src ip)))).
  by apply represents_add_slice; auto with rust.
Qed.

(** The value [compute_checksum] returns. *)
Definition udp_checksum_value (h : UdpHeader) (ip : IpRepr) (data : list Z) : Z :=
  let c := 65535 - ones_complement (udp_word_total h ip data) in
  if c =? 0 then 0xffff else c.

Lemma UdpHeader_compute_checksum_spec h ip data :
  UdpHeader_wf h -> IpRepr_wf ip -> bytes data -> udp_length h = 8 + len data ->
  UdpHeader_compute_checksum h ip data = Some (udp_checksum_value h ip data)
  /\ 0 <= udp_word_total h ip data.
Proof.
  intros (Hs & Hd & Hl & _) Hi Hb Hlen. unfold UdpHeader_compute_checksum.
  change UDP_HEADER_LEN with 8. destruct (Z.eqb_spec (udp_length h) (8 + len data)); [|lia].
  cbv zeta. unfold udp_checksum_value, udp_word_total.
  match goal with |- context [Checksum_finish ?c] =>
    assert (represents c (udp_word_total h ip data)) as Hr
  end.
  { unfold udp_word_total. apply represents_add_slice; [done|].
    do 3 (apply represents_add_u16; [|done]). by apply represents_pseudo_header. }
  rewrite (represents_finish _ _ Hr). split; [done|]. apply (represents_nonneg _ _ Hr).
Qed.

Lemma udp_checksum_value_u16 h ip data :
  u16 (udp_checksum_value h ip data) /\ udp_checksum_value h ip data <> 0.
Proof.
  unfold udp_checksum_value, u16.
  pose proof (ones_complement_bound (udp_word_total h ip data)). bool_cases; lia.
Qed.

Lemma UdpHeader_with_checksum_total h c ip data :
  udp_word_total (UdpHeader_with_checksum h c) ip data = udp_word_total h ip data.
Proof. done. Qed.

Lemma udp_checksum_value_with_checksum h c ip data :
  udp_checksum_value (UdpHeader_with_checksum h c) ip data = udp_checksum_value h ip data.
Proof. done. Qed.

(** The stored checksum complements the rest to all ones. *)
Lemma udp_checksum_cancel h ip data :
  UdpHeader_wf h -> IpRepr_wf ip -> bytes data -> udp_length h = 8 + len data ->
  ones_complement (udp_word_total h ip data + udp_checksum_value h ip data) = 0xffff.
Proof.
  intros Hh Hi Hb Hl. destruct (UdpHeader_compute_checksum_spec h ip data) as [_ Ht]; [done..|].
  unfold udp_checksum_value. pose proof (ones_complement_cancel _ Ht) as Hc.
  destruct (Z.eqb_spec (65535 - ones_complement (udp_word_total h ip data)) 0) as [He|]; [|done].
  apply ones_complement_ffff; [lia|].
  assert (ones_complement (udp_word_total h ip data) = 65535) as Hf by lia.
  apply ones_complement_ffff in Hf; [|done]. dlia.
Qed.

(** ** Properties *)

(** The UDP checksum this code emits is never zero (a computed zero is sent
    as 0xffff), and it satisfies the RFC 768 receiver rule: pseudo-header, header
    with the stored checksum, and user data fold to all ones. *)
Theorem udp_checksum_verifies (h : UdpHeader) (ip : IpRepr) (data : list Z) :
  UdpHeader_wf h -> IpRepr_wf ip -> bytes data -> udp_length h = 8 + len data ->
  exists c, UdpHeader_compute_checksum h ip data = Some c /\ u16 c /\ c <> 0 /\
    ones_complement (udp_word_total h ip data + c) = 0xffff.
Proof.
  intros Hh Hi Hb Hl.
  destruct (UdpHeader_compute_checksum_spec h ip data) as [-> Ht]; [done..|].
  destruct (udp_checksum_value_u16 h ip data) as [Hu Hz]. eexists. split; [done|].
  split; [done|]. split; [done|]. by apply udp_checksum_cancel.
Qed.

Definition example_udp : UdpHeader :=
  {| udp_src_port := 12345; udp_dst_port := 53; udp_length := 13; udp_checksum := 0 |}.
Definition hello : list Z := [104; 101; 108; 108; 111].

Lemma udp_checksum_verifies_witness :
  UdpHeader_compute_checksum example_udp example_repr hello = Some 0x9f5c /\
  exists c, UdpHeader_compute_checksum example_udp example_repr hello = Some c /\ c <> 0.
Proof.
  split; [reflexivity|].
  destruct (udp_checksum_verifies example_udp example_repr hello) as (c & H & _ & H' & _).
  - repeat split; simpl; lia.
  - repeat split; repeat constructor; unfold u8; simpl; lia.
  - repeat constructor; unfold u8; lia.
  - reflexivity.
  - exists c. split; assumption.
Defined.
