(* ===== verification/Surplus.v ===== *)
(** Locating the surplus area (src/src/wire/surplus.rs). *)

From S2P Require Import Prelude Model Checksum Ip Udp.

(** ** The code *)

Record SurplusLayout : Type := {
  starts_at : Z;
  needs_pad : bool;
  surplus_len : Z;
}.

#[export] Instance SurplusLayout_eq_dec : EqDecision SurplusLayout.
Proof. solve_decision. Defined.

Definition SurplusLayout_ocs_at (l : SurplusLayout) : Z :=
  starts_at l + usize_of_bool (needs_pad l).

Definition SurplusLayout_range (l : SurplusLayout) : Z * Z :=
  (starts_at l, starts_at l + surplus_len l).

Definition locate_surplus (ip : IpRepr) (udp : UdpHeader) : option SurplusLayout :=
  match checked_sub (IpRepr_transport_payload_len ip) (udp_length udp) with
  | None => None
  | Some surplus =>
      if surplus =? 0 then None else
      let natural_start := IpRepr_header_len ip + udp_length udp in
      let needs_pad := natural_start mod 2 =? 1 in
      if surplus <? usize_of_bool needs_pad + LENGTH_OCS then None else
      Some {| starts_at := natural_start; needs_pad := needs_pad; surplus_len := surplus |}
  end.

(** ** Lemmas *)

Lemma locate_surplus_Some ip udp l :
  locate_surplus ip udp = Some l ->
  starts_at l = IpRepr_header_len ip + udp_length udp /\
  needs_pad l = (starts_at l mod 2 =? 1) /\
  surplus_len l = IpRepr_transport_payload_len ip - udp_length udp /\
  usize_of_bool (needs_pad l) + 2 <= surplus_len l.
Proof.
  unfold locate_surplus. destruct (checked_sub _ _) eqn:E; [|done].
  apply checked_sub_Some in E as [-> ?]. change LENGTH_OCS with 2.
  repeat case_match; intros; simplify_eq/=. rewrite Z.ltb_ge in *. done.
Qed.

(** ** Properties *)

(** The located surplus area is exactly the bytes between the UDP Length and
    the end of the IP payload; the OCS sits at an even offset of the IP datagram,
    with its two bytes inside the area, and the single byte before it (if any) is
    the area's first byte.  There is no layout exactly when the room left after
    the UDP Length cannot hold the aligned OCS. *)
Theorem locate_surplus_spec (ip : IpRepr) (udp : UdpHeader) :
  IpRepr_wf ip -> UdpHeader_wf udp ->
  IpRepr_header_len ip <= ip_total_len ip ->
  let start := IpRepr_header_len ip + udp_length udp in
  match locate_surplus ip udp with
  | Some l =>
      SurplusLayout_range l = (start, ip_total_len ip) /\
      Z.even (SurplusLayout_ocs_at l) = true /\
      start <= SurplusLayout_ocs_at l <= start + 1 /\
      SurplusLayout_ocs_at l + 2 <= ip_total_len ip /\ u16 (surplus_len l)
  | None => ip_total_len ip < start + start mod 2 + 2
  end.
Proof.
  intros (_ & _ & Hi & Ht) (_ & _ & Hu & _) Hlen start.
  unfold IpRepr_transport_payload_len, u16, IpRepr_header_len in *.
  destruct (locate_surplus ip udp) as [l|] eqn:E.
  - apply locate_surplus_Some in E as (Hs & Hp & Hl & Hr).
    unfold SurplusLayout_range, SurplusLayout_ocs_at, IpRepr_transport_payload_len,
      saturating_sub, IpRepr_header_len in *.
    rewrite Hp in Hr |- *. rewrite Hs in Hr |- *. rewrite Hl in *.
    assert (start = ip_ihl ip * 4 + udp_length udp) as Hst by done.
    clearbody start. rewrite <- !Hst in *.
    split; [f_equal; lia|]. rewrite Z.even_add. unfold usize_of_bool in *.
    destruct (Z.eqb_spec (start mod 2) 1) as [Ho|Ho]; rewrite Zmod_odd in Ho;
      rewrite <- Z.negb_odd; destruct (Z.odd start); simpl; repeat split; lia.
  - unfold locate_surplus, IpRepr_transport_payload_len, saturating_sub, IpRepr_header_len in E.
    fold start in E. change LENGTH_OCS with 2 in E. unfold usize_of_bool in E.
    unfold checked_sub in E. bool_cases; try done; dlia.
Qed.

Lemma locate_surplus_spec_witness :
  locate_surplus example_repr
    {| udp_src_port := 1; udp_dst_port := 2; udp_length := 9; udp_checksum := 0 |}
  = Some {| starts_at := 29; needs_pad := true; surplus_len := 4 |} /\
  SurplusLayout_range {| starts_at := 29; needs_pad := true; surplus_len := 4 |} = (29, 33).
Proof.
  pose proof (locate_surplus_spec example_repr
    {| udp_src_port := 1; udp_dst_port := 2; udp_length := 9; udp_checksum := 0 |}) as H.
  split; [reflexivity|]. apply H.
  - repeat split; repeat constructor; unfold u8; simpl; lia.
  - repeat split; simpl; lia.
  - vm_compute. intros; discriminate.
Defined.
