(* ===== verification/Kind.v ===== *)
(** Option kinds and their classification (src/src/options/kind.rs). *)

From S2P Require Import Prelude Model.

(** ** The code *)

Inductive OptionKind : Type :=
| Eol | Nop | Apc | Frag | Mds | Mrds | Req | Res
| Other (byte : Z).

Inductive OptionFraming : Type := SingleByte | LengthDelimited.

#[export] Instance OptionKind_eq_dec : EqDecision OptionKind.
Proof. solve_decision. Defined.
#[export] Instance OptionFraming_eq_dec : EqDecision OptionFraming.
Proof. solve_decision. Defined.

Definition from_byte (byte : Z) : OptionKind :=
  if byte =? KIND_EOL then Eol
  else if byte =? KIND_NOP then Nop
  else if byte =? KIND_APC then Apc
  else if byte =? KIND_FRAG then Frag
  else if byte =? KIND_MDS then Mds
  else if byte =? KIND_MRDS then Mrds
  else if byte =? KIND_REQ then Req
  else if byte =? KIND_RES then Res
  else Other byte.

Definition to_byte (k : OptionKind) : Z :=
  match k with
  | Eol => KIND_EOL | Nop => KIND_NOP | Apc => KIND_APC | Frag => KIND_FRAG
  | Mds => KIND_MDS | Mrds => KIND_MRDS | Req => KIND_REQ | Res => KIND_RES
  | Other byte => byte
  end.

Definition is_safe (k : OptionKind) : bool := to_byte k <? KIND_UNSAFE_MIN.
Definition is_unsafe (k : OptionKind) : bool := negb (is_safe k).
Definition is_must_support (k : OptionKind) : bool := to_byte k <=? KIND_RES.

Definition framing (k : OptionKind) : OptionFraming :=
  if (to_byte k =? KIND_EOL) || (to_byte k =? KIND_NOP) then SingleByte
  else LengthDelimited.

Definition is_single_byte (k : OptionKind) : bool :=
  match framing k with SingleByte => true | LengthDelimited => false end.

Definition fixed_tlv_lengths (k : OptionKind) : list Z :=
  let b := to_byte k in
  if b =? KIND_APC then [LENGTH_APC]
  else if b =? KIND_FRAG then [LENGTH_FRAG_NON_TERMINAL; LENGTH_FRAG_TERMINAL]
  else if b =? KIND_MDS then [LENGTH_MDS]
  else if b =? KIND_MRDS then [LENGTH_MRDS]
  else if b =? KIND_REQ then [LENGTH_REQ]
  else if b =? KIND_RES then [LENGTH_RES]
  else [].

(** [OptionKind] values that carry a [u8]. *)
Definition OptionKind_wf (k : OptionKind) : Prop := u8 (to_byte k).

(** ** Lemmas *)

Lemma to_byte_from_byte b : to_byte (from_byte b) = b.
Proof. unfold from_byte. unfold_consts. bool_cases; subst; done. Qed.

(** [from_byte] never hides a named kind in [Other]: it inverts [to_byte] on
    its own image, the kinds the parser produces. *)
Lemma from_byte_inj a b : from_byte a = from_byte b -> a = b.
Proof. intros H. apply (f_equal to_byte) in H. by rewrite !to_byte_from_byte in H. Qed.

Lemma from_byte_Other a b : from_byte a = Other b -> a = b /\ (b < 0 \/ 8 <= b).
Proof.
  unfold from_byte. unfold_consts. bool_cases; intros [= <-]; lia.
Qed.

Lemma from_byte_wf b : u8 b -> OptionKind_wf (from_byte b).
Proof. unfold OptionKind_wf. by rewrite to_byte_from_byte. Qed.

#[export] Hint Rewrite to_byte_from_byte : len.

(** ** Properties *)

(** Kind bytes survive the conversion to [OptionKind] and back, and the byte
    alone decides the classification: SAFE below 192, must-support up to 7, and
    only EOL and NOP lack a Length field. *)
Theorem kind_byte_roundtrip_and_classes (b : Z) :
  to_byte (from_byte b) = b /\
  (is_safe (from_byte b) = true <-> b < 192) /\
  is_unsafe (from_byte b) = negb (is_safe (from_byte b)) /\
  (is_must_support (from_byte b) = true <-> b <= 7) /\
  (is_single_byte (from_byte b) = true <-> b = 0 \/ b = 1) /\
  (forall n, In n (fixed_tlv_lengths (from_byte b)) -> 2 <= b <= 7 /\ 4 <= n <= 12).
Proof.
  unfold is_unsafe, is_safe, is_must_support, is_single_byte, framing, fixed_tlv_lengths.
  rewrite to_byte_from_byte. unfold_consts.
  split; [done|]. split; [apply Z.ltb_lt|]. split; [done|]. split; [apply Z.leb_le|]. split.
  - destruct (Z.eqb_spec b 0), (Z.eqb_spec b 1); simpl; intuition congruence.
  - intros n Hn. bool_cases; simpl in Hn; lia.
Qed.
