(* ===== verification/Ocs.v ===== *)
(** The Option Checksum (src/src/options/ocs.rs). *)

From S2P Require Import Prelude Model Checksum.

(** ** The code *)

Definition OCS_LEN : Z := 2.

Inductive OcsCheck : Type :=
| OcsValid
| OcsUnused
| OcsIgnoreOptions
| OcsError (e : ParseError).

#[export] Instance OcsCheck_eq_dec : EqDecision OcsCheck.
Proof. solve_decision. Defined.

Definition ocs_compute (body : list Z) (surplus_len : Z) : option (list Z) :=
  ensure (OCS_LEN <=? len body);
  let! body := copy_at body 0 (zeros OCS_LEN) in
  let checksum := add_slice Checksum_new body in
  let checksum := add_u16 checksum surplus_len in
  let ocs := Checksum_finish checksum in
  let ocs := if ocs =? 0 then 0xffff else ocs in
  copy_at body 0 (u16_to_be ocs).

Definition ocs_validate (body : list Z) (surplus_len udp_checksum_field : Z) :
    option OcsCheck :=
  if len body <? OCS_LEN then Some (OcsError (Overrun 0)) else
  let! b0 := get body 0 in
  let! b1 := get body 1 in
  let ocs := u16_from_be b0 b1 in
  if ocs =? 0
  then Some (if udp_checksum_field =? 0 then OcsUnused else OcsIgnoreOptions)
  else
    let checksum := add_slice Checksum_new body in
    let checksum := add_u16 checksum surplus_len in
    if Checksum_sum checksum =? 0xffff then Some OcsValid
    else Some (OcsError OcsMismatch).

Definition check_pad (pad : Z) (needs_pad : bool) : result unit ParseError :=
  if needs_pad && negb (pad =? 0) then Err NonZeroPad else Ok tt.

(** ** Lemmas *)

(** The OCS value [ocs_compute] stores in front of [rest]. *)
Definition ocs_value (rest : list Z) (surplus_len : Z) : Z :=
  let c := 65535 - ones_complement (word_total rest + surplus_len) in
  if c =? 0 then 0xffff else c.

Lemma ocs_value_u16 rest n : u16 (ocs_value rest n) /\ ocs_value rest n <> 0.
Proof.
  unfold ocs_value, u16. pose proof (ones_complement_bound (word_total rest + n)).
  bool_cases; lia.
Qed.

Lemma represents_body body n :
  bytes body -> u16 n ->
  represents (add_u16 (add_slice Checksum_new body) n) (word_total body + n).
Proof.
  intros. rewrite <- (Z.add_0_l (word_total body)). auto with rust.
Qed.

Lemma ocs_compute_spec a b rest n :
  bytes rest -> u16 n ->
  ocs_compute (a :: b :: rest) n = Some (u16_to_be (ocs_value rest n) ++ rest).
Proof.
  intros Hb Hn. unfold ocs_compute, OCS_LEN. rewrite !len_cons.
  pose proof (len_nonneg rest). destruct (Z.leb_spec 2 (1 + (1 + len rest))); [|lia].
  change (a :: b :: rest) with ([] ++ [a; b] ++ rest).
  rewrite copy_at_middle by done. cbv zeta. change ([] ++ zeros 2 ++ rest) with (0 :: 0 :: rest).
  rewrite (represents_finish _ (word_total (0 :: 0 :: rest) + n)).
  2:{ apply represents_body; [|done]. repeat constructor; auto; unfold u8; lia. }
  rewrite word_total_zeros_pair. fold (ocs_value rest n).
  change (0 :: 0 :: rest) with ([] ++ [0; 0] ++ rest). by rewrite copy_at_middle.
Qed.

Lemma ocs_validate_spec a b rest n udp :
  bytes (a :: b :: rest) -> u16 n ->
  ocs_validate (a :: b :: rest) n udp =
    Some (if u16_from_be a b =? 0
          then (if udp =? 0 then OcsUnused else OcsIgnoreOptions)
          else if ones_complement (word_total (a :: b :: rest) + n) =? 0xffff
               then OcsValid else OcsError OcsMismatch).
Proof.
  intros Hb Hn. unfold ocs_validate, OCS_LEN. rewrite !len_cons.
  pose proof (len_nonneg rest). destruct (Z.ltb_spec (1 + (1 + len rest)) 2); [lia|].
  change (get (a :: b :: rest) 0) with (Some a). change (get (a :: b :: rest) 1) with (Some b).
  cbv zeta iota. rewrite (represents_sum _ (word_total (a :: b :: rest) + n))
    by (by apply represents_body).
  by repeat case_match.
Qed.

(** Validation never panics. *)
Lemma ocs_validate_total body n udp : is_Some (ocs_validate body n udp).
Proof.
  unfold ocs_validate, OCS_LEN. destruct (Z.ltb_spec (len body) 2); [done|].
  destruct (get_is_Some body 0) as [? ->]; [lia|].
  destruct (get_is_Some body 1) as [? ->]; [lia|]. by repeat case_match.
Qed.

Lemma ocs_value_cancel rest n :
  0 <= word_total rest + n ->
  ones_complement (ocs_value rest n + word_total rest + n) = 0xffff.
Proof.
  intros Hs. pose proof (ones_complement_cancel _ Hs) as Hc. unfold ocs_value.
  rewrite <- Z.add_assoc, (Z.add_comm _ (word_total rest + n)).
  bool_cases; [|done]. apply ones_complement_ffff; [lia|].
  assert (ones_complement (word_total rest + n) = 65535) as Hf by lia.
  apply ones_complement_ffff in Hf; [|done]. dlia.
Qed.

Lemma ocs_validate_compute rest n udp :
  bytes rest -> u16 n ->
  ocs_validate (u16_to_be (ocs_value rest n) ++ rest) n udp = Some OcsValid.
Proof.
  intros Hb Hn. destruct (ocs_value_u16 rest n) as [Hu Hz]. cbn [u16_to_be app].
  rewrite (ocs_validate_spec _ _ rest n udp);
    [|apply (Forall_app _ (u16_to_be _)); split; [apply u16_to_be_bytes | done] | done].
  cbn [word_total]. rewrite u16_from_to_be by done.
  destruct (Z.eqb_spec (ocs_value rest n) 0); [done|].
  rewrite ocs_value_cancel; [done|]. pose proof (word_total_nonneg rest Hb). unfold u16 in *. lia.
Qed.

(** Changing one byte changes the word total by less than 65535. *)
Lemma word_total_insert body i x y :
  bytes body -> u8 y -> body !! i = Some x -> x <> y ->
  0 < Z.abs (word_total (<[i:=y]> body) - word_total body) < 65535.
Proof.
  intros Hb Hy. revert i. induction body as [|a|a b l IH] using bytes_pair_ind; intros i Hi Hne.
  - done.
  - destruct i; simpl in *; simplify_eq.
    decompose_Forall_hyps. unfold u8, u16_from_be in *. lia.
  - decompose_Forall_hyps. unfold u8, u16_from_be in *.
    destruct i as [|[|i]]; simpl in *; simplify_eq; try (unfold u16_from_be; lia).
    specialize (IH ltac:(done) _ Hi Hne). unfold u16_from_be. lia.
Qed.

(** An altered byte is noticed. *)
Lemma ocs_corruption_detected
    (body : list Z) (surplus_len udp : Z) (i : nat) (x y : Z) :
  bytes body -> u16 surplus_len ->
  ocs_validate body surplus_len udp = Some OcsValid ->
  body !! i = Some x -> u8 y -> x <> y ->
  ocs_validate (<[i:=y]> body) surplus_len udp =
    Some (if word_total (take 2 (<[i:=y]> body)) =? 0
          then (if udp =? 0 then OcsUnused else OcsIgnoreOptions)
          else OcsError OcsMismatch).
Proof.
  intros Hb Hn Hv Hi Hy Hne.
  destruct body as [|a [|b rest]]; [discriminate Hv|discriminate Hv|].
  rewrite ocs_validate_spec in Hv by done.
  destruct (_ =? 0) in Hv; [by case_match|].
  destruct (Z.eqb_spec (ones_complement (word_total (a :: b :: rest) + surplus_len)) 65535)
    as [Hf|]; [|done].
  pose proof (word_total_nonneg _ Hb). pose proof (word_total_insert _ _ _ _ Hb Hy Hi Hne) as Hd.
  assert (bytes (<[i:=y]> (a :: b :: rest))) as Hb' by by apply Forall_insert.
  pose proof (word_total_nonneg _ Hb') as H0'.
  remember (<[i:=y]> (a :: b :: rest)) as body' eqn:Eb.
  assert (len body' = len (a :: b :: rest)) as Hl by (subst; unfold len; by rewrite length_insert).
  destruct body' as [|a' [|b' rest']]; [len_lia..|].
  rewrite ocs_validate_spec by done.
  replace (word_total (take 2 (a' :: b' :: rest'))) with (u16_from_be a' b') by (simpl; lia).
  destruct (_ =? 0); [done|].
  destruct (Z.eqb_spec (ones_complement (word_total (a' :: b' :: rest') + surplus_len)) 65535)
    as [Hf'|]; [|done].
  apply ones_complement_ffff in Hf, Hf'; unfold u16 in *; try lia. exfalso. dlia.
Qed.

(** ** Properties *)

(** C16. Back-patching the OCS changes only the two OCS bytes, never stores zero,
    and makes the body validate, whatever the UDP checksum field says. *)
Theorem ocs_compute_validates (body : list Z) (surplus_len udp : Z) :
  bytes body -> 2 <= len body -> u16 surplus_len ->
  exists body', ocs_compute body surplus_len = Some body' /\
    len body' = len body /\ sub body' 2 (len body') = sub body 2 (len body) /\ bytes body' /\
    ocs_validate body' surplus_len udp = Some OcsValid.
Proof.
  intros Hb Hl Hn. destruct body as [|a [|b rest]]; [len_lia..|].
  decompose_Forall_hyps. rewrite ocs_compute_spec by done. eexists. split; [done|].
  split; [done|]. split; [|split].
  - rewrite len_app, !len_cons. rewrite sub_suffix by done.
    change (a :: b :: rest) with ([a; b] ++ rest). rewrite sub_suffix; [done|done|].
    change (len [a; b]) with 2. lia.
  - apply Forall_app. auto with rust.
  - by apply ocs_validate_compute.
Qed.

Lemma ocs_compute_validates_witness :
  ocs_compute [0; 0; 0xde; 0xad; 0xbe; 0xef; 1; 0] 8
    = Some [0x61; 0x5a; 0xde; 0xad; 0xbe; 0xef; 1; 0] /\
  exists body', ocs_compute [0; 0; 0xde; 0xad; 0xbe; 0xef; 1; 0] 8 = Some body' /\
    ocs_validate body' 8 0x1234 = Some OcsValid.
Proof.
  split; [reflexivity|].
  destruct (ocs_compute_validates [0; 0; 0xde; 0xad; 0xbe; 0xef; 1; 0] 8 0x1234)
    as (b & H1 & _ & _ & _ & H2).
  - repeat constructor; unfold u8; lia.
  - vm_compute; intros; discriminate.
  - unfold u16; lia.
  - exists b. split; assumption.
Defined.

(** C17. A validated surplus area in which any single byte is altered is never
    accepted again: the corrupted body is either an OCS mismatch or, when the
    alteration zeroed the OCS field, falls under the zero-OCS rule. *)
Theorem ocs_detects_single_byte_corruption
    (body : list Z) (surplus_len udp : Z) (i : nat) (x y : Z) :
  bytes body -> u16 surplus_len ->
  ocs_validate body surplus_len udp = Some OcsValid ->
  body !! i = Some x -> u8 y -> x <> y ->
  ocs_validate (<[i:=y]> body) surplus_len udp =
    Some (if word_total (take 2 (<[i:=y]> body)) =? 0
          then (if udp =? 0 then OcsUnused else OcsIgnoreOptions)
          else OcsError OcsMismatch).
Proof. apply ocs_corruption_detected. Qed.

Lemma ocs_detects_single_byte_corruption_witness :
  ocs_validate (<[4%nat:=0xbf]> [0x61; 0x5a; 0xde; 0xad; 0xbe; 0xef; 1; 0]) 8 0x1234
  = Some (OcsError OcsMismatch).
Proof.
  rewrite (ocs_detects_single_byte_corruption
    [0x61; 0x5a; 0xde; 0xad; 0xbe; 0xef; 1; 0] 8 0x1234 4 0xbe 0xbf);
    [reflexivity | | unfold u16; lia | reflexivity | reflexivity | unfold u8; lia | lia].
  repeat constructor; unfold u8; lia.
Defined.

(** Every disposition of the OCS check: a body too short for the OCS is an
    overrun at offset 0; a zero OCS is unused or makes the options be ignored,
    depending only on the UDP checksum field; any other OCS is valid exactly when
    the body and the surplus length add up to all ones, and a mismatch otherwise.
    The pad byte is checked only where an alignment pad exists. *)
Theorem ocs_dispositions (body : list Z) (surplus_len udp pad : Z) (needs_pad : bool) :
  bytes body -> u16 surplus_len ->
  ocs_validate body surplus_len udp = Some
    match body with
    | a :: b :: _ =>
        if u16_from_be a b =? 0 then (if udp =? 0 then OcsUnused else OcsIgnoreOptions)
        else if ones_complement (word_total body + surplus_len) =? 0xffff then OcsValid
        else OcsError OcsMismatch
    | _ => OcsError (Overrun 0)
    end /\
  check_pad pad needs_pad =
    (if needs_pad then (if pad =? 0 then Ok tt else Err NonZeroPad) else Ok tt).
Proof.
  intros Hb Hn. split.
  - destruct body as [|a [|b rest]]; [done|done|]. by apply ocs_validate_spec.
  - unfold check_pad. destruct needs_pad; [|done]. by destruct (pad =? 0).
Qed.

Lemma ocs_dispositions_witness :
  ocs_validate [0; 0; 0; 0] 4 0 = Some OcsUnused /\
  ocs_validate [0; 0; 0; 0] 4 1 = Some OcsIgnoreOptions.
Proof.
  split.
  - refine (proj1 (ocs_dispositions [0; 0; 0; 0] 4 0 0 true _ _)); evaluate.
  - refine (proj1 (ocs_dispositions [0; 0; 0; 0] 4 1 0 true _ _)); evaluate.
Defined.
