(* ===== verification/Parse.v ===== *)
(** The zero-copy TLV parser (src/src/options/parse.rs).

    [OptionsIter_next] is the iterator step, one branch per branch of the source,
    with indexing that panics out of range.  A borrowed value slice is its bytes
    together with its offset in the iterated buffer ([or_at]), because the receive
    pipeline compares slice pointers; the static empty slice of EOL and NOP gets
    offset 0, which nothing reads.

    The specification is the relation [tlv_stream]: the option grammar of RFC 9868
    Section 10 as this parser reads it, without positions or iterator state. *)

From S2P Require Import Prelude Model Kind.

(** ** The code *)

Record OptionRef : Type := {
  or_kind : OptionKind;
  or_value : list Z;
  or_at : Z;
}.

#[export] Instance OptionRef_eq_dec : EqDecision OptionRef.
Proof. solve_decision. Defined.

Record OptionsIter : Type := {
  it_bytes : list Z;
  it_pos : Z;
  it_done : bool;
  it_current_nop_run : Z;
  it_max_nop_run : Z;
}.

Abbreviation item := (result OptionRef ParseError).

Definition OptionsIter_new (options_bytes : list Z) : OptionsIter :=
  {| it_bytes := options_bytes; it_pos := 0; it_done := false;
     it_current_nop_run := 0; it_max_nop_run := 0 |}.

Definition OptionsIter_fail (it : OptionsIter) (e : ParseError) :
    option (option item * OptionsIter) :=
  Some (Some (Err e),
        {| it_bytes := it_bytes it; it_pos := it_pos it; it_done := true;
           it_current_nop_run := it_current_nop_run it; it_max_nop_run := it_max_nop_run it |}).

Definition OptionsIter_value_slice (it : OptionsIter) (start header_len total_len : Z) :
    option (list Z * OptionsIter) :=
  let! value := slice (it_bytes it) (start + header_len) (start + total_len) in
  Some (value,
        {| it_bytes := it_bytes it; it_pos := start + total_len; it_done := it_done it;
           it_current_nop_run := 0; it_max_nop_run := it_max_nop_run it |}).

Definition OptionsIter_next (it : OptionsIter) : option (option item * OptionsIter) :=
  if it_done it || (len (it_bytes it) <=? it_pos it) then Some (None, it) else
  let start := it_pos it in
  let! raw_kind := get (it_bytes it) start in
  let option_kind := from_byte raw_kind in
  if raw_kind =? KIND_EOL then
    Some (Some (Ok {| or_kind := option_kind; or_value := []; or_at := 0 |}),
          {| it_bytes := it_bytes it; it_pos := it_pos it + 1; it_done := true;
             it_current_nop_run := 0; it_max_nop_run := it_max_nop_run it |})
  else if raw_kind =? KIND_NOP then
    let run := it_current_nop_run it + 1 in
    Some (Some (Ok {| or_kind := option_kind; or_value := []; or_at := 0 |}),
          {| it_bytes := it_bytes it; it_pos := it_pos it + 1; it_done := it_done it;
             it_current_nop_run := run; it_max_nop_run := Z.max (it_max_nop_run it) run |})
  else
    match get (it_bytes it) (start + 1) with
    | None => OptionsIter_fail it (Overrun start)
    | Some len_byte =>
        if len_byte =? KIND_EXTENDED_LENGTH_MARKER then
          if len (it_bytes it) <? start + 4 then OptionsIter_fail it (Overrun start) else
          let! b2 := get (it_bytes it) (start + 2) in
          let! b3 := get (it_bytes it) (start + 3) in
          let total_len := u16_from_be b2 b3 in
          if total_len <? KIND_EXTENDED_LENGTH_MARKER
          then OptionsIter_fail it (InvalidLength raw_kind total_len) else
          let end_ := start + total_len in
          if len (it_bytes it) <? end_ then OptionsIter_fail it (Overrun start) else
          let! (value, it') := OptionsIter_value_slice it start 4 total_len in
          Some (Some (Ok {| or_kind := option_kind; or_value := value; or_at := start + 4 |}), it')
        else
          let total_len := len_byte in
          if total_len <? 2 then OptionsIter_fail it (InvalidLength raw_kind total_len) else
          let end_ := start + total_len in
          if len (it_bytes it) <? end_ then OptionsIter_fail it (Overrun start) else
          let! (value, it') := OptionsIter_value_slice it start 2 total_len in
          Some (Some (Ok {| or_kind := option_kind; or_value := value; or_at := start + 2 |}), it')
    end.

(** ** Loops over the iterator

    [for_each] is [for item in iter.by_ref() { .. }] with a loop body that may
    continue, [break] or [return]; [drain] collects every item.  The fuel counts
    calls of [next]; one more than the buffer's length always suffices. *)

Inductive flow (S R : Type) : Type :=
| Continue (s : S)
| Break (s : S)
| Return (r : R).

Arguments Continue {S R} s.
Arguments Break {S R} s.
Arguments Return {S R} r.

Section loops.
Context {St R : Type} (body : St -> item -> option (flow St R)).

Fixpoint for_each (fuel : nat) (it : OptionsIter) (s : St) :
    option ((St + R) * OptionsIter) :=
  match fuel with
  | O => None
  | S fuel' =>
      let! (next, it') := OptionsIter_next it in
      match next with
      | None => Some (inl s, it')
      | Some i =>
          let! f := body s i in
          match f with
          | Continue s' => for_each fuel' it' s'
          | Break s' => Some (inl s', it')
          | Return r => Some (inr r, it')
          end
      end
  end.

(** The same loop over a list of items. *)
Fixpoint for_items (items : list item) (s : St) : option (St + R) :=
  match items with
  | [] => Some (inl s)
  | i :: items' =>
      let! f := body s i in
      match f with
      | Continue s' => for_items items' s'
      | Break s' => Some (inl s')
      | Return r => Some (inr r)
      end
  end.
End loops.

Fixpoint drain (fuel : nat) (it : OptionsIter) : option (list item * OptionsIter) :=
  match fuel with
  | O => None
  | S fuel' =>
      let! (next, it') := OptionsIter_next it in
      match next with
      | None => Some ([], it')
      | Some i => let! (items, it'') := drain fuel' it' in Some (i :: items, it'')
      end
  end.

Definition parse_fuel (bs : list Z) : nat := S (S (length bs)).

Definition drain_all (bs : list Z) : option (list item * OptionsIter) :=
  drain (parse_fuel bs) (OptionsIter_new bs).

(** ** The specification *)

Definition option_ref (k : Z) (v : list Z) (at_ : Z) : OptionRef :=
  {| or_kind := from_byte k; or_value := v; or_at := at_ |}.

(** Malformed options: [off] is the offset of [bs] in the buffer. *)
Inductive tlv_malformed (off : Z) : list Z -> ParseError -> Prop :=
| malformed_no_length k :
    tlv_malformed off [k] (Overrun off)
| malformed_short_length k n rest :
    n < 2 -> tlv_malformed off (k :: n :: rest) (InvalidLength k n)
| malformed_short_overrun k n rest :
    2 <= n < 255 -> len (k :: n :: rest) < n ->
    tlv_malformed off (k :: n :: rest) (Overrun off)
| malformed_ext_header k rest :
    len rest < 2 -> tlv_malformed off (k :: 255 :: rest) (Overrun off)
| malformed_ext_length k a b rest :
    u16_from_be a b < 255 ->
    tlv_malformed off (k :: 255 :: a :: b :: rest) (InvalidLength k (u16_from_be a b))
| malformed_ext_overrun k a b rest :
    255 <= u16_from_be a b -> len (k :: 255 :: a :: b :: rest) < u16_from_be a b ->
    tlv_malformed off (k :: 255 :: a :: b :: rest) (Overrun off).

(** One option at the front of [bs]; the last argument is what is left to parse,
    [None] when parsing stops. *)
Inductive tlv_head (off : Z) : list Z -> item -> option (list Z) -> Prop :=
| head_eol rest :
    tlv_head off (KIND_EOL :: rest) (Ok (option_ref KIND_EOL [] 0)) None
| head_nop rest :
    tlv_head off (KIND_NOP :: rest) (Ok (option_ref KIND_NOP [] 0)) (Some rest)
| head_short k v rest :
    k <> KIND_EOL -> k <> KIND_NOP -> len v <= 252 ->
    tlv_head off (k :: (len v + 2) :: v ++ rest) (Ok (option_ref k v (off + 2))) (Some rest)
| head_ext k v rest :
    k <> KIND_EOL -> k <> KIND_NOP -> 251 <= len v <= 65531 ->
    tlv_head off (k :: KIND_EXTENDED_LENGTH_MARKER :: u16_to_be (len v + 4) ++ v ++ rest)
      (Ok (option_ref k v (off + 4))) (Some rest)
| head_err k bs e :
    k <> KIND_EOL -> k <> KIND_NOP -> tlv_malformed off (k :: bs) e ->
    tlv_head off (k :: bs) (Err e) None.

Inductive tlv_stream : Z -> list Z -> list item -> Prop :=
| stream_nil off : tlv_stream off [] []
| stream_last off bs i : tlv_head off bs i None -> tlv_stream off bs [i]
| stream_cons off bs i rest items :
    tlv_head off bs i (Some rest) ->
    tlv_stream (off + (len bs - len rest)) rest items ->
    tlv_stream off bs (i :: items).

(** ** Lemmas *)

(** The iterator stands at the front of [rest]. *)
Definition iter_at (it : OptionsIter) (pre rest : list Z) : Prop :=
  it_bytes it = pre ++ rest /\ it_pos it = len pre /\ it_done it = false.

Lemma iter_at_new bs : iter_at (OptionsIter_new bs) [] bs.
Proof. done. Qed.

Lemma next_at_end it pre : iter_at it pre [] -> OptionsIter_next it = Some (None, it).
Proof.
  intros (Hb & Hp & _). unfold OptionsIter_next. rewrite Hb, Hp, app_nil_r, Z.leb_refl.
  by rewrite orb_true_r.
Qed.

Lemma next_done it : it_done it = true -> OptionsIter_next it = Some (None, it).
Proof. intros Hd. unfold OptionsIter_next. by rewrite Hd. Qed.

(** What one step does, in terms of the grammar: the iterator is finished, or it
    has moved past a non-empty prefix of [rest]. *)
Definition step_ok (pre rest : list Z) (i : item) (it' : OptionsIter) : Prop :=
  (it_done it' = true /\ tlv_head (len pre) rest i None) \/
  (exists mid rest', rest = mid ++ rest' /\ mid <> [] /\
     iter_at it' (pre ++ mid) rest' /\ tlv_head (len pre) rest i (Some rest')).

Lemma fail_step_ok it pre k r e :
  k <> KIND_EOL -> k <> KIND_NOP -> tlv_malformed (len pre) (k :: r) e ->
  exists i it', OptionsIter_fail it e = Some (Some i, it') /\ step_ok pre (k :: r) i it'.
Proof.
  intros ???. do 2 eexists. split; [done|]. left. split; [done|]. by constructor.
Qed.

(** A complete option of [h] framing bytes and value [v]. *)
Lemma value_step_ok it pre fr v rest o :
  iter_at it pre (fr ++ v ++ rest) -> fr <> [] ->
  o = {| or_kind := or_kind o; or_value := v; or_at := len pre + len fr |} ->
  tlv_head (len pre) (fr ++ v ++ rest) (Ok o) (Some rest) ->
  exists i it',
    (let! (value, it') := OptionsIter_value_slice it (len pre) (len fr) (len fr + len v) in
     Some (Some (Ok {| or_kind := or_kind o; or_value := value; or_at := len pre + len fr |}), it'))
    = Some (Some i, it') /\ step_ok pre (fr ++ v ++ rest) i it'.
Proof.
  intros (Hb & Hp & Hd) Hfr -> Hh. pose proof (len_nonneg pre). pose proof (len_nonneg fr).
  pose proof (len_nonneg v). pose proof (len_nonneg rest). cbn [or_kind] in *.
  unfold OptionsIter_value_slice.
  rewrite Hb, slice_Some by (rewrite ?len_app; lia).
  rewrite sub_app_shift, sub_middle by (rewrite ?len_app; lia).
  do 2 eexists. split; [done|]. right. exists (fr ++ v), rest.
  split; [by rewrite app_assoc|]. split; [by destruct fr|]. split; [|done].
  split; [|split; [|done]]; simpl.
  - by rewrite ?Hb, <- !app_assoc.
  - rewrite !len_app. lia.
Qed.

(** A complete option in short framing. *)
Lemma short_step_ok it pre k n r :
  iter_at it pre (k :: n :: r) -> k <> KIND_EOL -> k <> KIND_NOP -> 2 <= n < 255 -> n - 2 <= len r ->
  exists i it',
    (let! (value, it') := OptionsIter_value_slice it (len pre) 2 n in
     Some (Some (Ok {| or_kind := from_byte k; or_value := value; or_at := len pre + 2 |}), it'))
    = Some (Some i, it') /\ step_ok pre (k :: n :: r) i it'.
Proof.
  intros Hat Hk0 Hk1 Hn Hl. pose (v := sub r 0 (n - 2)). pose (rest := sub r (n - 2) (len r)).
  assert (r = v ++ rest) as Hvr by (apply split_at; lia).
  assert (len v = n - 2) as Hv by (unfold v; rewrite len_sub; lia).
  replace n with (len v + 2) in * by lia.
  change (k :: len v + 2 :: r) with ([k; len v + 2] ++ r) in *. rewrite Hvr in Hat |- *.
  rewrite (Z.add_comm (len v) 2).
  apply (value_step_ok it pre [k; 2 + len v] v rest (option_ref k v (len pre + 2))); try done.
  - by rewrite (Z.add_comm 2).
  - rewrite (Z.add_comm 2). apply (head_short _ k v rest); [done..|lia].
Qed.

(** A complete option in extended framing. *)
Lemma ext_step_ok it pre k a b r :
  iter_at it pre (k :: 255 :: a :: b :: r) -> k <> KIND_EOL -> k <> KIND_NOP -> u8 a -> u8 b ->
  255 <= u16_from_be a b -> u16_from_be a b - 4 <= len r ->
  exists i it',
    (let! (value, it') := OptionsIter_value_slice it (len pre) 4 (u16_from_be a b) in
     Some (Some (Ok {| or_kind := from_byte k; or_value := value; or_at := len pre + 4 |}), it'))
    = Some (Some i, it') /\ step_ok pre (k :: 255 :: a :: b :: r) i it'.
Proof.
  intros Hat Hk0 Hk1 Ha Hb Hn Hl. pose proof (u16_from_be_u16 a b Ha Hb) as Hu. unfold u16 in Hu.
  pose (v := sub r 0 (u16_from_be a b - 4)). pose (rest := sub r (u16_from_be a b - 4) (len r)).
  assert (r = v ++ rest) as Hvr by (apply split_at; lia).
  assert (len v = u16_from_be a b - 4) as Hv by (unfold v; rewrite len_sub; lia).
  assert ([a; b] = u16_to_be (len v + 4)) as Hab
    by (rewrite Hv, Z.sub_add; by rewrite u16_to_from_be).
  change (k :: 255 :: a :: b :: r) with ([k; 255] ++ [a; b] ++ r) in *.
  rewrite Hvr, Hab in Hat |- *. replace (u16_from_be a b) with (4 + len v) by lia.
  apply (value_step_ok it pre ([k; 255] ++ u16_to_be (len v + 4)) v rest
           (option_ref k v (len pre + 4))); try done.
  rewrite <- app_assoc. apply head_ext; [done..|]. lia.
Qed.

Lemma next_at_cons it pre rest :
  iter_at it pre rest -> bytes rest -> rest <> [] ->
  exists i it', OptionsIter_next it = Some (Some i, it') /\ step_ok pre rest i it'.
Proof.
  intros Hat Hb Hne. destruct rest as [|k r]; [done|]. pose proof Hat as (Hbytes & Hpos & Hdone).
  pose proof (len_nonneg pre) as Hpre. pose proof (len_nonneg r) as Hr.
  unfold OptionsIter_next. rewrite Hdone, Hpos. cbn [orb].
  assert (len (it_bytes it) = len pre + (1 + len r)) as Hl
    by (rewrite Hbytes, len_app, len_cons; lia).
  destruct (Z.leb_spec (len (it_bytes it)) (len pre)); [lia|].
  assert (forall i, 0 <= i -> get (it_bytes it) (len pre + i) = get (k :: r) i) as Hget
    by (intros; rewrite Hbytes; by apply get_app_shift).
  pose proof (Hget 0 ltac:(lia)) as H0. rewrite Z.add_0_r in H0. rewrite H0.
  change (get (k :: r) 0) with (Some k). cbv beta iota zeta.
  destruct (Z.eqb_spec k KIND_EOL) as [->|Hk0].
  { do 2 eexists. split; [done|]. left. split; [done|]. constructor. }
  destruct (Z.eqb_spec k KIND_NOP) as [->|Hk1].
  { do 2 eexists. split; [done|]. right. exists [KIND_NOP], r.
    split; [done|]. split; [done|]. split; [|constructor].
    repeat split; simpl; [by rewrite Hbytes, <- app_assoc | by rewrite len_app]. }
  rewrite !Hget by lia. destruct r as [|n r].
  { by apply fail_step_ok; [..|constructor]. }
  change (get (k :: n :: r) 1) with (Some n). cbv iota.
  decompose_Forall_hyps. rewrite !len_cons in *. change KIND_EXTENDED_LENGTH_MARKER with 255.
  destruct (Z.eqb_spec n 255) as [->|Hn].
  - destruct (Z.ltb_spec (len (it_bytes it)) (len pre + 4)).
    { apply fail_step_ok; [done..|]. apply malformed_ext_header. lia. }
    destruct r as [|a [|b r]]; [len_lia..|]. decompose_Forall_hyps. rewrite !len_cons in *.
    change (get (k :: 255 :: a :: b :: r) 2) with (Some a).
    change (get (k :: 255 :: a :: b :: r) 3) with (Some b). cbv iota.
    pose proof (u16_from_be_u16 a b) as Hu. unfold u16 in Hu.
    destruct (Z.ltb_spec (u16_from_be a b) 255).
    { by apply fail_step_ok; [..|apply malformed_ext_length]. }
    destruct (Z.ltb_spec (len (it_bytes it)) (len pre + u16_from_be a b)).
    { apply fail_step_ok; [done..|]. apply malformed_ext_overrun; [lia|]. rewrite !len_cons. lia. }
    apply ext_step_ok; done || lia.
  - unfold u8 in *. destruct (Z.ltb_spec n 2).
    { by apply fail_step_ok; [..|constructor]. }
    destruct (Z.ltb_spec (len (it_bytes it)) (len pre + n)).
    { apply fail_step_ok; [done..|]. apply malformed_short_overrun; [lia|]. rewrite !len_cons. lia. }
    apply short_step_ok; done || lia.
Qed.

Lemma tlv_head_shrinks off bs i rest :
  tlv_head off bs i (Some rest) -> len rest < len bs.
Proof.
  inversion 1; subst; unfold u16_to_be; len_lia.
Qed.

Lemma drain_S fuel it :
  drain (S fuel) it =
  (let! (next, it') := OptionsIter_next it in
   match next with
   | None => Some ([], it')
   | Some i => let! (items, it'') := drain fuel it' in Some (i :: items, it'')
   end).
Proof. done. Qed.

(** Draining from any position yields the items the grammar assigns to the rest
    of the buffer, and enough fuel is one more than the bytes left. *)
Lemma drain_at fuel it pre rest :
  iter_at it pre rest -> bytes rest -> (length rest < fuel)%nat ->
  exists items it', drain (S fuel) it = Some (items, it') /\ tlv_stream (len pre) rest items.
Proof.
  revert it pre rest. induction fuel as [|fuel IH]; [lia|]. intros it pre rest Hat Hb Hf.
  destruct (decide (rest = [])) as [->|Hne].
  { cbn [drain]. rewrite (next_at_end _ _ Hat). do 2 eexists. split; [done|constructor]. }
  destruct (next_at_cons it pre rest) as (i & it' & Hn & [[Hd Hh]|(mid & rest' & Hr & Hm & Hat' & Hh)]);
    [done..| |].
  - cbn [drain]. rewrite Hn, (next_done it' Hd). do 2 eexists. split; [done|]. by constructor.
  - destruct (IH it' (pre ++ mid) rest') as (items & it'' & Hdr & Hs); [done|..].
    { rewrite Hr in Hb. by apply Forall_app in Hb as [_ ?]. }
    { rewrite Hr, length_app in Hf. destruct mid; [done|]. simpl in Hf. lia. }
    rewrite drain_S, Hn, Hdr. do 2 eexists. split; [done|].
    apply stream_cons with rest'; [done|]. rewrite Hr, len_app. rewrite len_app in Hs.
    by replace (len pre + (len mid + len rest' - len rest')) with (len pre + len mid) by lia.
Qed.

Lemma drain_all_spec bs :
  bytes bs -> exists items it, drain_all bs = Some (items, it) /\ tlv_stream 0 bs items.
Proof.
  intros Hb. apply (drain_at _ _ [] bs); [apply iter_at_new|done|]. lia.
Qed.

(** ** The grammar is deterministic *)

Lemma tlv_malformed_det off bs e e' :
  tlv_malformed off bs e -> tlv_malformed off bs e' -> e = e'.
Proof.
  intros H H'. inversion H; subst; inversion H'; subst; try done; try lia; len_lia.
Qed.

Lemma tlv_malformed_not_short off k v rest e :
  len v <= 252 -> tlv_malformed off (k :: (len v + 2) :: v ++ rest) e -> False.
Proof.
  pose proof (len_nonneg v). pose proof (len_nonneg rest).
  intros ? Hm. inversion Hm; subst; rewrite ?len_cons, ?len_app in *; lia.
Qed.

Lemma tlv_malformed_not_ext off k v rest e :
  251 <= len v <= 65531 ->
  tlv_malformed off (k :: 255 :: u16_to_be (len v + 4) ++ v ++ rest) e -> False.
Proof.
  pose proof (len_nonneg rest). intros ? Hm. cbn [u16_to_be app] in Hm.
  assert (u16 (len v + 4)) as Hu by (unfold u16; lia).
  inversion Hm; subst; rewrite ?u16_from_to_be, ?len_cons, ?len_app in * by done; lia.
Qed.

Lemma tlv_head_det off bs i i' r r' :
  tlv_head off bs i r -> tlv_head off bs i' r' -> i = i' /\ r = r'.
Proof.
  intros H H'. inversion H; subst; inversion H'; subst; try done.
  - assert (v0 = v /\ rest0 = rest) as [-> ->]; [|done].
    apply app_inj_1; [unfold len in *; lia|done].
  - unfold KIND_EXTENDED_LENGTH_MARKER in *. lia.
  - exfalso. eapply tlv_malformed_not_short; [|eassumption]; done.
  - unfold KIND_EXTENDED_LENGTH_MARKER in *. lia.
  - assert (len v0 = len v) as Hv by dlia.
    assert (v0 = v /\ rest0 = rest) as [-> ->]; [|done].
    apply app_inj_1; [unfold len in *; lia|done].
  - exfalso. by eapply (tlv_malformed_not_ext off k v rest).
  - exfalso. eapply tlv_malformed_not_short; [|eassumption]; done.
  - exfalso. by eapply (tlv_malformed_not_ext off k v rest).
  - split; [|done]. f_equal. by eapply tlv_malformed_det.
Qed.

Lemma tlv_stream_det off bs items items' :
  tlv_stream off bs items -> tlv_stream off bs items' -> items = items'.
Proof.
  intros H. revert items'. induction H as [off|off bs i Hh|off bs i rest items Hh _ IH];
    intros items' H'.
  - inversion H' as [|? ? ? Hx|? ? ? ? ? Hx]; subst; [done|inversion Hx..].
  - inversion H' as [|? ? ? Hx|? ? ? ? ? Hx]; subst; [inversion Hh|..];
      by destruct (tlv_head_det _ _ _ _ _ _ Hh Hx) as [-> ?].
  - inversion H' as [|? ? ? Hx|? ? ? ? ? Hx Hr]; subst; [inversion Hh|..];
      destruct (tlv_head_det _ _ _ _ _ _ Hh Hx) as [-> ?]; [done|].
    simplify_eq. f_equal. by apply IH.
Qed.

Lemma tlv_stream_length off bs items : tlv_stream off bs items -> len items <= len bs.
Proof.
  induction 1 as [|off bs i Hh|off bs i rest items Hh _ IH]; rewrite ?len_cons; [done|..].
  - inversion Hh; subst; len_lia.
  - apply tlv_head_shrinks in Hh. lia.
Qed.

(** Parsing a byte string the grammar derives. *)
Lemma drain_all_stream bs items :
  bytes bs -> tlv_stream 0 bs items -> exists it, drain_all bs = Some (items, it).
Proof.
  intros Hb Hs. destruct (drain_all_spec bs Hb) as (items' & it & Hd & Hs').
  rewrite (tlv_stream_det _ _ _ _ Hs Hs'). by exists it.
Qed.

(** A loop over the iterator is the loop over its items. *)
Lemma for_each_drain {St R} (body : St -> item -> option (flow St R)) fuel it items it' s :
  drain fuel it = Some (items, it') ->
  fst <$> for_each body fuel it s = for_items body items s.
Proof.
  revert it items s. induction fuel as [|fuel IH]; intros it items s; [done|].
  cbn [drain for_each]. destruct (OptionsIter_next it) as [[[i|] it1]|]; [..|done].
  - destruct (drain fuel it1) as [[items1 it2]|] eqn:E; [|done]. intros [= <- <-].
    cbn [for_items]. destruct (body s i) as [[s'|s'|r]|]; [|done..]. by apply IH.
  - by intros [= <- <-].
Qed.

(** An error ends the stream. *)
Lemma tlv_stream_error off bs pre e post :
  tlv_stream off bs (pre ++ Err e :: post) -> post = [].
Proof.
  revert off bs. induction pre as [|x pre IH]; intros off bs H.
  - inversion H as [| |? ? ? ? ? Hh]; subst; [done|]. inversion Hh.
  - inversion H as [|? ? ? Hh|? ? ? ? ? Hh Hr]; subst.
    + by destruct pre.
    + by eapply IH.
Qed.

(** ** What loops over the parser can rely on *)

(** An item of a buffer that spans the offsets [lo] to [hi]. *)
Definition item_wf (lo hi : Z) (i : item) : Prop :=
  match i with
  | Ok o =>
      OptionKind_wf (or_kind o) /\ from_byte (to_byte (or_kind o)) = or_kind o /\
      bytes (or_value o) /\
      (2 <= to_byte (or_kind o) -> lo + 2 <= or_at o /\ or_at o + len (or_value o) <= hi)
  | Err _ => True
  end.

Lemma item_wf_weaken lo lo' hi i : lo <= lo' -> item_wf lo' hi i -> item_wf lo hi i.
Proof.
  unfold item_wf. destruct i as [o|e]; [|done]. intros ? (? & ? & ? & Hp).
  split; [done|]. split; [done|]. split; [done|]. intros Hk. specialize (Hp Hk). lia.
Qed.

Lemma option_ref_wf lo hi k v at_ :
  u8 k -> bytes v -> (2 <= k -> lo + 2 <= at_ /\ at_ + len v <= hi) ->
  item_wf lo hi (Ok (option_ref k v at_)).
Proof.
  intros Hk Hv Hp. unfold item_wf, option_ref, OptionKind_wf. cbn. by rewrite to_byte_from_byte.
Qed.

Lemma tlv_head_wf off bs i r :
  tlv_head off bs i r -> bytes bs -> item_wf off (off + len bs) i.
Proof.
  intros Hh Hb. pose proof (len_nonneg bs). inversion Hh; subst; [..|done].
  - apply option_ref_wf; [unfold u8, KIND_EOL; lia|constructor|unfold KIND_EOL; lia].
  - apply option_ref_wf; [unfold u8, KIND_NOP; lia|constructor|unfold KIND_NOP; lia].
  - apply Forall_cons in Hb as [Hk Hb]. apply Forall_cons in Hb as [_ Hb].
    apply Forall_app in Hb as [Hv _]. apply option_ref_wf; [done..|].
    rewrite !len_cons, len_app. pose proof (len_nonneg rest). lia.
  - apply Forall_cons in Hb as [Hk Hb]. apply Forall_cons in Hb as [_ Hb].
    apply Forall_app in Hb as [_ Hb]. apply Forall_app in Hb as [Hv _]. apply option_ref_wf; [done..|].
    rewrite !len_cons, !len_app. change (len (u16_to_be _)) with 2. pose proof (len_nonneg rest). lia.
Qed.

Lemma tlv_head_rest off bs i rest :
  tlv_head off bs i (Some rest) -> bytes bs -> bytes rest.
Proof.
  intros Hh Hb. inversion Hh; subst; repeat (apply Forall_cons in Hb as [_ Hb]);
    rewrite ?Forall_app in Hb; tauto.
Qed.

Lemma tlv_stream_wf off bs items :
  tlv_stream off bs items -> bytes bs -> Forall (item_wf off (off + len bs)) items.
Proof.
  induction 1 as [|off bs i Hh|off bs i rest items Hh _ IH]; intros Hb; [constructor|..].
  - constructor; [by eapply tlv_head_wf|constructor].
  - constructor; [by eapply tlv_head_wf|]. pose proof (tlv_head_shrinks _ _ _ _ Hh).
    specialize (IH (tlv_head_rest _ _ _ _ Hh Hb)).
    apply (Forall_impl _ _ _ IH). intros j Hj. eapply item_wf_weaken; [|].
    2:{ by replace (off + len bs) with (off + (len bs - len rest) + len rest) by lia. }
    lia.
Qed.

(** The loop rule: a body that never panics, keeps [I] and returns only [Q]. *)
Lemma for_items_rule {St R} (body : St -> item -> option (flow St R)) (I : St -> Prop)
    (Q : R -> Prop) (P : item -> Prop) items s :
  (forall s i, I s -> P i -> exists f, body s i = Some f /\
     match f with Continue s' | Break s' => I s' | Return r => Q r end) ->
  Forall P items -> I s ->
  exists x, for_items body items s = Some x /\
    match x with inl s' => I s' | inr r => Q r end.
Proof.
  intros Hb Hi. revert s. induction Hi as [|i items Hi _ IH]; intros s Hs.
  { exists (inl s). done. }
  cbn [for_items]. destruct (Hb s i Hs Hi) as ([s'|s'|r] & -> & Hf); [by apply IH|by eexists..].
Qed.

Lemma for_each_rule {St R} (body : St -> item -> option (flow St R)) (I : St -> Prop)
    (Q : R -> Prop) bs s :
  bytes bs ->
  (forall s i, I s -> item_wf 0 (len bs) i -> exists f, body s i = Some f /\
     match f with Continue s' | Break s' => I s' | Return r => Q r end) ->
  I s ->
  exists x it, for_each body (parse_fuel bs) (OptionsIter_new bs) s = Some (x, it) /\
    match x with inl s' => I s' | inr r => Q r end.
Proof.
  intros Hb Hbody Hs. destruct (drain_all_spec bs Hb) as (items & it & Hd & Hst).
  pose proof (for_each_drain body _ _ _ _ s Hd) as Hf.
  destruct (for_items_rule body I Q (item_wf 0 (len bs)) items s Hbody) as (x & Hx & Hq); [|done|].
  { by apply (tlv_stream_wf 0). }
  rewrite Hx in Hf. destruct (for_each _ _ _ _) as [[y it']|]; [|done]. simpl in Hf. simplify_eq.
  by exists x, it'.
Qed.

(** ** Properties *)

(** C5. On every byte string the parser terminates without panicking and yields
    exactly the items the TLV grammar assigns to it; the grammar assigns only one
    such list, it has no more items than there are bytes, and an error, if any,
    is its last item. *)
Theorem parser_refines_grammar (bs : list Z) :
  bytes bs ->
  exists items it, drain_all bs = Some (items, it) /\
    tlv_stream 0 bs items /\
    (forall items', tlv_stream 0 bs items' -> items' = items) /\
    len items <= len bs /\
    (forall pre e post, items = pre ++ Err e :: post -> post = []).
Proof.
  intros Hb. destruct (drain_all_spec bs Hb) as (items & it & Hd & Hs).
  exists items, it. split; [done|]. split; [done|]. split; [|split].
  - intros items' Hs'. by eapply tlv_stream_det.
  - by eapply tlv_stream_length.
  - intros pre e post ->. by eapply tlv_stream_error.
Qed.

Lemma parser_refines_grammar_witness :
  (exists it, drain_all [1; 4; 4; 5; 220; 9; 200] =
    Some ([Ok (option_ref 1 [] 0); Ok (option_ref 4 [5; 220] 3); Err (Overrun 5)], it)) /\
  exists items it, drain_all [1; 4; 4; 5; 220; 9; 200] = Some (items, it) /\
    tlv_stream 0 [1; 4; 4; 5; 220; 9; 200] items.
Proof.
  split; [eexists; reflexivity|].
  destruct (parser_refines_grammar [1; 4; 4; 5; 220; 9; 200]) as (items & it & H1 & H2 & _).
  - repeat constructor; unfold u8; lia.
  - exists items, it. split; assumption.
Defined.
