(* ===== verification/Typed.v ===== *)
(** Owned and typed options (src/src/options/mod.rs, src/src/options/typed.rs).

    The [TypedOption] trait is the class [TypedOption]; what its users rely on is
    the class [TypedOptionLaws], proved for the six options.  The struct [Apc] of
    the source is [ApcOption] here (the bare name is the [OptionKind] variant), and
    likewise for the others.  The [crc32c] crate is a parameter, the operation of
    class [Crc32c], of which only the documented result type [u32] is used. *)

From S2P Require Import Prelude Model Kind Parse.

(** ** Raw options *)

Record RawOption : Type := { ro_kind : OptionKind; ro_value : list Z }.

#[export] Instance RawOption_eq_dec : EqDecision RawOption.
Proof. solve_decision. Defined.

Definition RawOption_from (o : OptionRef) : RawOption :=
  {| ro_kind := or_kind o; ro_value := or_value o |}.

(** ** The CRC-32C crate *)

Class Crc32c : Type := crc32c : list Z -> Z.
Class Crc32cSpec `{Crc32c} : Prop := crc32c_u32 : forall d, u32 (crc32c d).

(** A concrete instance for examples: bitwise CRC-32C (reflected Castagnoli
    polynomial, initial value and final complement all ones). *)
Definition crc32c_bit (crc : Z) : Z :=
  if Z.odd crc then Z.lxor (Z.shiftr crc 1) 0x82f63b78 else Z.shiftr crc 1.
Definition crc32c_byte (crc b : Z) : Z := Nat.iter 8 crc32c_bit (Z.lxor crc b).
Definition crc32c_bitwise : Crc32c :=
  fun d => Z.lxor (foldl crc32c_byte 0xffffffff d) 0xffffffff mod 4294967296.

Lemma crc32c_bitwise_u32 : @Crc32cSpec crc32c_bitwise.
Proof. intros d. unfold crc32c, crc32c_bitwise, u32. apply Z.mod_pos_bound. lia. Qed.

(** The check value of the CRC catalogues, for the ASCII string 123456789. *)
Example crc32c_bitwise_check :
  crc32c_bitwise [0x31; 0x32; 0x33; 0x34; 0x35; 0x36; 0x37; 0x38; 0x39] = 0xe3069283.
Proof. reflexivity. Qed.

(** ** The trait *)

Class TypedOption (T : Type) : Type := {
  KIND : OptionKind;
  decode : list Z -> option (result T ParseError);
  encode : T -> list Z -> list Z;
}.
Arguments KIND T {_}.

(** ** Helpers *)

Definition TLV_HEADER_LEN : Z := 2.
Definition APC_VALUE_LEN : Z := LENGTH_APC - TLV_HEADER_LEN.
Definition FRAG_NON_TERMINAL_VALUE_LEN : Z := LENGTH_FRAG_NON_TERMINAL - TLV_HEADER_LEN.
Definition FRAG_TERMINAL_VALUE_LEN : Z := LENGTH_FRAG_TERMINAL - TLV_HEADER_LEN.
Definition MDS_VALUE_LEN : Z := LENGTH_MDS - TLV_HEADER_LEN.
Definition MRDS_VALUE_LEN : Z := LENGTH_MRDS - TLV_HEADER_LEN.
Definition REQ_VALUE_LEN : Z := LENGTH_REQ - TLV_HEADER_LEN.
Definition RES_VALUE_LEN : Z := LENGTH_RES - TLV_HEADER_LEN.

Definition invalid_value_len (kind value_len : Z) : ParseError :=
  InvalidLength kind (value_len + TLV_HEADER_LEN).

Definition expect_value_len (value : list Z) (kind expected : Z) : result unit ParseError :=
  if len value =? expected then Ok tt else Err (invalid_value_len kind (len value)).

Definition write_header (out : list Z) (kind total_len : Z) : list Z :=
  out ++ [kind; total_len].

Definition read_u16 (value : list Z) (offset : Z) : option Z :=
  let! a := get value offset in
  let! b := get value (offset + 1) in
  Some (u16_from_be a b).

Definition read_u32 (value : list Z) (offset : Z) : option Z :=
  let! a := get value offset in
  let! b := get value (offset + 1) in
  let! c := get value (offset + 2) in
  let! d := get value (offset + 3) in
  Some (u32_from_be a b c d).

(** ** APC *)

Record ApcOption : Type := { apc_crc32c : Z }.

#[export] Instance ApcOption_eq_dec : EqDecision ApcOption.
Proof. solve_decision. Defined.

Definition Apc_compute `{Crc32c} (udp_user_data : list Z) : ApcOption :=
  {| apc_crc32c := crc32c udp_user_data |}.

Definition Apc_decode (value : list Z) : option (result ApcOption ParseError) :=
  let? _ := expect_value_len value KIND_APC APC_VALUE_LEN in
  let! c := read_u32 value 0 in
  Some (Ok {| apc_crc32c := c |}).

Definition Apc_encode (o : ApcOption) (out : list Z) : list Z :=
  write_header out KIND_APC LENGTH_APC ++ u32_to_be (apc_crc32c o).

#[export] Instance Apc_typed : TypedOption ApcOption :=
  {| KIND := Apc; decode := Apc_decode; encode := Apc_encode |}.

(** ** MDS *)

Record MdsOption : Type := { max_datagram_size : Z }.

#[export] Instance MdsOption_eq_dec : EqDecision MdsOption.
Proof. solve_decision. Defined.

Definition Mds_decode (value : list Z) : option (result MdsOption ParseError) :=
  let? _ := expect_value_len value KIND_MDS MDS_VALUE_LEN in
  let! n := read_u16 value 0 in
  Some (Ok {| max_datagram_size := n |}).

Definition Mds_encode (o : MdsOption) (out : list Z) : list Z :=
  write_header out KIND_MDS LENGTH_MDS ++ u16_to_be (max_datagram_size o).

#[export] Instance Mds_typed : TypedOption MdsOption :=
  {| KIND := Mds; decode := Mds_decode; encode := Mds_encode |}.

(** ** MRDS *)

Record MrdsOption : Type := { mrds_max_reassembled_size : Z; mrds_max_segments : Z }.

#[export] Instance MrdsOption_eq_dec : EqDecision MrdsOption.
Proof. solve_decision. Defined.

Definition Mrds_decode (value : list Z) : option (result MrdsOption ParseError) :=
  let? _ := expect_value_len value KIND_MRDS MRDS_VALUE_LEN in
  let! n := read_u16 value 0 in
  let! s := get value 2 in
  Some (Ok {| mrds_max_reassembled_size := n; mrds_max_segments := s |}).

Definition Mrds_encode (o : MrdsOption) (out : list Z) : list Z :=
  (write_header out KIND_MRDS LENGTH_MRDS ++ u16_to_be (mrds_max_reassembled_size o))
    ++ [mrds_max_segments o].

#[export] Instance Mrds_typed : TypedOption MrdsOption :=
  {| KIND := Mrds; decode := Mrds_decode; encode := Mrds_encode |}.

(** ** REQ and RES

    A token [[u8; 4]] is a list; [value.try_into().expect(..)] panics unless it
    has four bytes. *)

Definition token_from (value : list Z) : option (list Z) :=
  ensure (len value =? 4); Some value.

Record ReqOption : Type := { req_token : list Z }.

#[export] Instance ReqOption_eq_dec : EqDecision ReqOption.
Proof. solve_decision. Defined.

Definition Req_decode (value : list Z) : option (result ReqOption ParseError) :=
  let? _ := expect_value_len value KIND_REQ REQ_VALUE_LEN in
  let! t := token_from value in
  Some (Ok {| req_token := t |}).

Definition Req_encode (o : ReqOption) (out : list Z) : list Z :=
  write_header out KIND_REQ LENGTH_REQ ++ req_token o.

#[export] Instance Req_typed : TypedOption ReqOption :=
  {| KIND := Req; decode := Req_decode; encode := Req_encode |}.

Record ResOption : Type := { res_token : list Z }.

#[export] Instance ResOption_eq_dec : EqDecision ResOption.
Proof. solve_decision. Defined.

Definition Res_decode (value : list Z) : option (result ResOption ParseError) :=
  let? _ := expect_value_len value KIND_RES RES_VALUE_LEN in
  let! t := token_from value in
  Some (Ok {| res_token := t |}).

Definition Res_encode (o : ResOption) (out : list Z) : list Z :=
  write_header out KIND_RES LENGTH_RES ++ res_token o.

#[export] Instance Res_typed : TypedOption ResOption :=
  {| KIND := Res; decode := Res_decode; encode := Res_encode |}.

(** ** FRAG *)

Record FragOption : Type := {
  frag_start : Z;
  frag_identification : Z;
  frag_offset : Z;
  frag_rdos : option Z;
}.

#[export] Instance FragOption_eq_dec : EqDecision FragOption.
Proof. solve_decision. Defined.

Definition Frag_decode (value : list Z) : option (result FragOption ParseError) :=
  if negb (len value =? FRAG_NON_TERMINAL_VALUE_LEN)
     && negb (len value =? FRAG_TERMINAL_VALUE_LEN)
  then Some (Err (invalid_value_len KIND_FRAG (len value))) else
  let! start := read_u16 value 0 in
  let! id := read_u32 value 2 in
  let! off := read_u16 value 6 in
  let! rdos :=
    if len value =? FRAG_TERMINAL_VALUE_LEN
    then let! r := read_u16 value 8 in Some (Some r)
    else Some None in
  Some (Ok {| frag_start := start; frag_identification := id; frag_offset := off;
              frag_rdos := rdos |}).

Definition Frag_encode (o : FragOption) (out : list Z) : list Z :=
  let out := write_header out KIND_FRAG
    (match frag_rdos o with Some _ => LENGTH_FRAG_TERMINAL | None => LENGTH_FRAG_NON_TERMINAL end) in
  let out := out ++ u16_to_be (frag_start o) in
  let out := out ++ u32_to_be (frag_identification o) in
  let out := out ++ u16_to_be (frag_offset o) in
  match frag_rdos o with Some rdos => out ++ u16_to_be rdos | None => out end.

#[export] Instance Frag_typed : TypedOption FragOption :=
  {| KIND := Frag; decode := Frag_decode; encode := Frag_encode |}.

(** ** What users of the trait rely on

    [typed_wf] says that the integer fields fit their widths, [typed_value] is
    the value part of the encoding. *)

Class TypedOptionLaws (T : Type) `{TypedOption T} : Type := {
  typed_wf : T -> Prop;
  typed_value : T -> list Z;
  typed_kind_ok : from_byte (to_byte (KIND T)) = KIND T /\ 2 <= to_byte (KIND T) < 256;
  typed_value_bytes : forall x, typed_wf x -> bytes (typed_value x) /\ len (typed_value x) <= 252;
  typed_encode : forall x out, typed_wf x ->
    encode x out = out ++ to_byte (KIND T) :: (len (typed_value x) + 2) :: typed_value x;
  typed_decode_value : forall x, typed_wf x -> decode (typed_value x) = Some (Ok x);
  typed_decode_inv : forall v x, bytes v -> decode v = Some (Ok x) ->
    typed_wf x /\ typed_value x = v;
  typed_decode_total : forall v, is_Some (decode (T := T) v);
}.

(** ** The laws hold *)

(** Decoding byte by byte. *)
Lemma Apc_decode_bytes a b c d :
  Apc_decode [a; b; c; d] = Some (Ok {| apc_crc32c := u32_from_be a b c d |}).
Proof. done. Qed.
Lemma Mds_decode_bytes a b :
  Mds_decode [a; b] = Some (Ok {| max_datagram_size := u16_from_be a b |}).
Proof. done. Qed.
Lemma Mrds_decode_bytes a b c :
  Mrds_decode [a; b; c] =
  Some (Ok {| mrds_max_reassembled_size := u16_from_be a b; mrds_max_segments := c |}).
Proof. done. Qed.
Lemma Frag_decode_non_terminal a b c d e f g h :
  Frag_decode [a; b; c; d; e; f; g; h] =
  Some (Ok {| frag_start := u16_from_be a b; frag_identification := u32_from_be c d e f;
              frag_offset := u16_from_be g h; frag_rdos := None |}).
Proof. done. Qed.
Lemma Frag_decode_terminal a b c d e f g h i j :
  Frag_decode [a; b; c; d; e; f; g; h; i; j] =
  Some (Ok {| frag_start := u16_from_be a b; frag_identification := u32_from_be c d e f;
              frag_offset := u16_from_be g h; frag_rdos := Some (u16_from_be i j) |}).
Proof. done. Qed.

(** A list of a given length, element by element. *)
Lemma len_2_inv {A} (l : list A) : len l = 2 -> exists a b, l = [a; b].
Proof. intros H. destruct l as [|a [|b [|]]]; try len_lia. eauto. Qed.
Lemma len_3_inv {A} (l : list A) : len l = 3 -> exists a b c, l = [a; b; c].
Proof. intros H. destruct l as [|a [|b [|c [|]]]]; try len_lia. eauto. Qed.
Lemma len_4_inv {A} (l : list A) : len l = 4 -> exists a b c d, l = [a; b; c; d].
Proof. intros H. destruct l as [|a [|b [|c [|d [|]]]]]; try len_lia. eauto. Qed.
Lemma len_8_inv {A} (l : list A) :
  len l = 8 -> exists a b c d e f g h, l = [a; b; c; d; e; f; g; h].
Proof.
  intros H. destruct l as [|a [|b [|c [|d [|e [|f [|g [|h [|]]]]]]]]]; try len_lia. eauto 10.
Qed.
Lemma len_10_inv {A} (l : list A) :
  len l = 10 -> exists a b c d e f g h i j, l = [a; b; c; d; e; f; g; h; i; j].
Proof.
  intros H. destruct l as [|a [|b [|c [|d [|e [|f [|g [|h [|i [|j [|]]]]]]]]]]]; try len_lia.
  do 10 eexists. done.
Qed.

Lemma expect_value_len_Ok v k n : expect_value_len v k n = Ok tt -> len v = n.
Proof. unfold expect_value_len. destruct (Z.eqb_spec (len v) n); done. Qed.

(** Split off the length check of a decoder. *)
Ltac decoder_length :=
  match goal with
  | |- context [expect_value_len ?v ?k ?n] =>
      destruct (expect_value_len v k n) as [[]|] eqn:Hl;
      [apply expect_value_len_Ok in Hl | done]
  end.

#[export] Instance Apc_laws : TypedOptionLaws ApcOption.
Proof.
  refine {| typed_wf := fun x => u32 (apc_crc32c x);
            typed_value := fun x => u32_to_be (apc_crc32c x) |}.
  - done.
  - intros x Hx. split; [auto with rust | done].
  - intros x out Hx. simpl. unfold Apc_encode, write_header. by rewrite <- app_assoc.
  - intros x Hx. simpl. unfold u32_to_be. rewrite Apc_decode_bytes, u32_from_to_be by done.
    by destruct x.
  - intros v x Hv. simpl. unfold Apc_decode. decoder_length.
    apply len_4_inv in Hl as (a & b & c & d & ->). intros [= <-]. decompose_Forall_hyps.
    split; [by apply u32_from_be_u32 | by apply u32_to_from_be].
  - intros v. simpl. unfold Apc_decode. decoder_length.
    by apply len_4_inv in Hl as (a & b & c & d & ->).
Defined.

#[export] Instance Mds_laws : TypedOptionLaws MdsOption.
Proof.
  refine {| typed_wf := fun x => u16 (max_datagram_size x);
            typed_value := fun x => u16_to_be (max_datagram_size x) |}.
  - done.
  - intros x Hx. split; [auto with rust | done].
  - intros x out Hx. simpl. unfold Mds_encode, write_header. by rewrite <- app_assoc.
  - intros x Hx. simpl. unfold u16_to_be. rewrite Mds_decode_bytes, u16_from_to_be by done.
    by destruct x.
  - intros v x Hv. simpl. unfold Mds_decode. decoder_length.
    apply len_2_inv in Hl as (a & b & ->). intros [= <-]. decompose_Forall_hyps.
    split; [by apply u16_from_be_u16 | by apply u16_to_from_be].
  - intros v. simpl. unfold Mds_decode. decoder_length. by apply len_2_inv in Hl as (a & b & ->).
Defined.

#[export] Instance Mrds_laws : TypedOptionLaws MrdsOption.
Proof.
  refine {| typed_wf := fun x => u16 (mrds_max_reassembled_size x) /\ u8 (mrds_max_segments x);
            typed_value := fun x =>
              u16_to_be (mrds_max_reassembled_size x) ++ [mrds_max_segments x] |}.
  - done.
  - intros x [Hx Hs]. split; [|done]. apply Forall_app. split; [auto with rust|]. by constructor.
  - intros x out Hx. simpl. unfold Mrds_encode, write_header. by rewrite <- !app_assoc.
  - intros x [Hx Hs]. simpl. rewrite Mrds_decode_bytes, u16_from_to_be by done. by destruct x.
  - intros v x Hv. cbn [decode Mrds_typed]. unfold Mrds_decode. decoder_length.
    apply len_3_inv in Hl as (a & b & c & ->). intros [= <-]. decompose_Forall_hyps.
    split; [split; [by apply u16_from_be_u16 | done]|].
    change (u16_to_be (u16_from_be a b) ++ [c] = [a; b] ++ [c]). by rewrite u16_to_from_be.
  - intros v. simpl. unfold Mrds_decode. decoder_length.
    by apply len_3_inv in Hl as (a & b & c & ->).
Defined.

#[export] Instance Req_laws : TypedOptionLaws ReqOption.
Proof.
  refine {| typed_wf := fun x => bytes (req_token x) /\ len (req_token x) = 4;
            typed_value := req_token |}.
  - done.
  - intros x [Hb Hl]. split; [done|lia].
  - intros x out [Hb Hl]. simpl. unfold Req_encode, write_header. rewrite Hl.
    by rewrite <- app_assoc.
  - intros [t] [Hb Hl]. simpl in *. unfold Req_decode, expect_value_len, token_from.
    by rewrite Hl.
  - intros v x Hv. simpl. unfold Req_decode. decoder_length. unfold token_from.
    rewrite Hl. by intros [= <-].
  - intros v. simpl. unfold Req_decode. decoder_length. unfold token_from. by rewrite Hl.
Defined.

#[export] Instance Res_laws : TypedOptionLaws ResOption.
Proof.
  refine {| typed_wf := fun x => bytes (res_token x) /\ len (res_token x) = 4;
            typed_value := res_token |}.
  - done.
  - intros x [Hb Hl]. split; [done|lia].
  - intros x out [Hb Hl]. simpl. unfold Res_encode, write_header. rewrite Hl.
    by rewrite <- app_assoc.
  - intros [t] [Hb Hl]. simpl in *. unfold Res_decode, expect_value_len, token_from.
    by rewrite Hl.
  - intros v x Hv. simpl. unfold Res_decode. decoder_length. unfold token_from.
    rewrite Hl. by intros [= <-].
  - intros v. simpl. unfold Res_decode. decoder_length. unfold token_from. by rewrite Hl.
Defined.

Definition Frag_wf (x : FragOption) : Prop :=
  u16 (frag_start x) /\ u32 (frag_identification x) /\ u16 (frag_offset x) /\
  match frag_rdos x with Some r => u16 r | None => True end.

(** The value part of a FRAG option. *)
Definition Frag_value (x : FragOption) : list Z :=
  u16_to_be (frag_start x) ++ u32_to_be (frag_identification x) ++ u16_to_be (frag_offset x)
    ++ match frag_rdos x with Some r => u16_to_be r | None => [] end.

Lemma len_Frag_value x : len (Frag_value x) = if frag_rdos x is Some _ then 10 else 8.
Proof. unfold Frag_value. by destruct (frag_rdos x). Qed.

Lemma bytes_Frag_value x : bytes (Frag_value x).
Proof.
  unfold Frag_value. repeat (apply Forall_app; split); auto with rust.
  destruct (frag_rdos x); auto with rust.
Qed.

Lemma Frag_decode_value x : Frag_wf x -> Frag_decode (Frag_value x) = Some (Ok x).
Proof.
  destruct x as [s i o [r|]]; intros (? & ? & ? & ?);
    cbn -[u16 u32] in *; unfold Frag_value, u16_to_be, u32_to_be;
    cbn [app frag_start frag_identification frag_offset frag_rdos].
  - rewrite Frag_decode_terminal, !u16_from_to_be, u32_from_to_be by done. done.
  - rewrite Frag_decode_non_terminal, !u16_from_to_be, u32_from_to_be by done. done.
Qed.

Lemma Frag_decode_length v :
  len v <> 8 -> len v <> 10 -> Frag_decode v = Some (Err (InvalidLength KIND_FRAG (len v + 2))).
Proof.
  intros. unfold Frag_decode. change FRAG_NON_TERMINAL_VALUE_LEN with 8.
  change FRAG_TERMINAL_VALUE_LEN with 10.
  destruct (Z.eqb_spec (len v) 8), (Z.eqb_spec (len v) 10); done.
Qed.

#[export] Instance Frag_laws : TypedOptionLaws FragOption.
Proof.
  refine {| typed_wf := Frag_wf; typed_value := Frag_value |}.
  - done.
  - intros x Hx. split; [apply bytes_Frag_value|]. rewrite len_Frag_value. by destruct (frag_rdos x).
  - intros x out Hx. simpl. unfold Frag_encode, write_header. rewrite len_Frag_value.
    unfold Frag_value. by destruct (frag_rdos x); rewrite <- !app_assoc.
  - apply Frag_decode_value.
  - intros v x Hv. simpl.
    destruct (decide (len v = 8)) as [Hl|]; [|destruct (decide (len v = 10)) as [Hl|]].
    + apply len_8_inv in Hl as (a & b & c & d & e & f & g & h & ->).
      rewrite Frag_decode_non_terminal. intros [= <-]. decompose_Forall_hyps.
      unfold Frag_wf, Frag_value;
        cbn [frag_start frag_identification frag_offset frag_rdos].
      rewrite !u16_to_from_be, u32_to_from_be by done. auto 10 with rust.
    + apply len_10_inv in Hl as (a & b & c & d & e & f & g & h & i & j & ->).
      rewrite Frag_decode_terminal. intros [= <-]. decompose_Forall_hyps.
      unfold Frag_wf, Frag_value;
        cbn [frag_start frag_identification frag_offset frag_rdos].
      rewrite !u16_to_from_be, u32_to_from_be by done. auto 10 with rust.
    + by rewrite Frag_decode_length.
  - intros v. simpl.
    destruct (decide (len v = 8)) as [Hl|]; [|destruct (decide (len v = 10)) as [Hl|]].
    + by apply len_8_inv in Hl as (a & b & c & d & e & f & g & h & ->).
    + by apply len_10_inv in Hl as (a & b & c & d & e & f & g & h & i & j & ->).
    + by rewrite Frag_decode_length.
Defined.

(** ** Lemmas *)

Lemma Mds_decode_total v : is_Some (Mds_decode v).
Proof. exact (typed_decode_total (TypedOptionLaws := Mds_laws) v). Qed.
Lemma Mrds_decode_total v : is_Some (Mrds_decode v).
Proof. exact (typed_decode_total (TypedOptionLaws := Mrds_laws) v). Qed.
Lemma Req_decode_total v : is_Some (Req_decode v).
Proof. exact (typed_decode_total (TypedOptionLaws := Req_laws) v). Qed.
Lemma Res_decode_total v : is_Some (Res_decode v).
Proof. exact (typed_decode_total (TypedOptionLaws := Res_laws) v). Qed.
Lemma Apc_decode_total v : is_Some (Apc_decode v).
Proof. exact (typed_decode_total (TypedOptionLaws := Apc_laws) v). Qed.
Lemma Frag_decode_total v : is_Some (Frag_decode v).
Proof. exact (typed_decode_total (TypedOptionLaws := Frag_laws) v). Qed.

Section typed.
Context {T : Type} `{TypedOptionLaws T}.

(** The encoding of a typed option is one complete TLV. *)
Lemma typed_encode_stream (x : T) :
  typed_wf x ->
  bytes (encode x []) /\
  tlv_stream 0 (encode x []) [Ok {| or_kind := KIND T; or_value := typed_value x; or_at := 2 |}].
Proof.
  intros Hx. destruct (typed_value_bytes x Hx) as [Hb Hl].
  destruct (typed_kind_ok (T := T)) as [Hk Hr]. rewrite typed_encode by done. simpl.
  pose proof (len_nonneg (typed_value x)). split.
  - constructor; [unfold u8; lia|]. constructor; [unfold u8; lia|done].
  - apply stream_cons with []; [|constructor].
    rewrite <- (app_nil_r (typed_value x)) at 2.
    replace (Ok _) with (Ok (E := ParseError) (option_ref (to_byte (KIND T)) (typed_value x) (0 + 2)))
      by (unfold option_ref; by rewrite Hk).
    constructor; unfold KIND_EOL, KIND_NOP; lia.
Qed.
End typed.

(** ** Properties *)

(** Every typed option is its own round trip: the bytes [encode] appends
    parse as exactly one option of the type's kind, whose value [decode]s to the
    option again; and conversely a value that decodes re-encodes to itself. *)
Theorem typed_option_roundtrip (T : Type) `{TypedOptionLaws T} (x : T) :
  typed_wf x ->
  exists o it, drain_all (encode x []) = Some ([Ok o], it) /\
    or_kind o = KIND T /\ decode (or_value o) = Some (Ok x) /\
    forall v y, bytes v -> decode v = Some (Ok y) -> typed_value (T := T) y = v.
Proof.
  intros Hx. destruct (typed_encode_stream x Hx) as [Hb Hs].
  destruct (drain_all_stream _ _ Hb Hs) as [it Hd]. do 2 eexists. split; [done|].
  split; [done|]. split; [by apply typed_decode_value|].
  intros v y Hv Hy. by apply typed_decode_inv.
Qed.

Lemma typed_option_roundtrip_witness :
  let x := {| frag_start := 48; frag_identification := 0x11121314; frag_offset := 16;
              frag_rdos := Some 4096 |} in
  (encode x [] = [3; 12; 0; 48; 0x11; 0x12; 0x13; 0x14; 0; 16; 16; 0]) /\
  exists o it, drain_all (encode x []) = Some ([Ok o], it) /\ decode (or_value o) = Some (Ok x).
Proof.
  split; [reflexivity|].
  destruct (typed_option_roundtrip FragOption {| frag_start := 48;
    frag_identification := 0x11121314; frag_offset := 16; frag_rdos := Some 4096 |})
    as (o & it & H1 & _ & H2 & _).
  - repeat split; simpl; lia.
  - exists o, it. split; assumption.
Defined.
