(* ===== verification/Serialize.v ===== *)
(** The option serializer (src/src/options/serialize.rs).

    [OptionsBuilder_finish] composes the source's passes: validation, the stable
    canonical sort, the length computation, the FRAG start patch and the encoding
    loop, with the final [debug_assert_eq!] kept as a panic.  The specification is
    the TLV grammar of the parser: a finished body parses back to the sorted
    options. *)

From S2P Require Import Prelude Model Kind Parse Typed.

(** ** The code *)

Definition OCS_PLACEHOLDER_LEN : Z := LENGTH_OCS.
Definition DEFAULT_VALUE_LEN_MAX : Z := 252.
Definition EXTENDED_VALUE_LEN_MAX : Z := U16_MAX - 4.
Definition BODY_LEN_MAX : Z := U16_MAX - 1.
Definition FRAG_VALUE_LENS : list Z :=
  [LENGTH_FRAG_NON_TERMINAL - 2; LENGTH_FRAG_TERMINAL - 2].

Record OptionsBuilder : Type := { ob_options : list RawOption }.

Definition OptionsBuilder_new : OptionsBuilder := {| ob_options := [] |}.

Definition OptionsBuilder_push (b : OptionsBuilder) (kind : OptionKind) (value : list Z) :
    OptionsBuilder :=
  {| ob_options := ob_options b ++ [{| ro_kind := kind; ro_value := value |}] |}.

Definition OptionsBuilder_push_raw (b : OptionsBuilder) (o : RawOption) : OptionsBuilder :=
  {| ob_options := ob_options b ++ [o] |}.

Definition OptionsBuilder_extend_raw (b : OptionsBuilder) (os : list RawOption) :
    OptionsBuilder :=
  {| ob_options := ob_options b ++ os |}.

Definition is_out_of_scope_assigned_safe_kind (kind : Z) : bool :=
  (kind =? KIND_TIME) || (kind =? KIND_AUTH) || (kind =? KIND_EXP)
  || ((KIND_SAFE_RESERVED_MIN <=? kind) && (kind <=? KIND_SAFE_RESERVED_MAX)).

Definition fixed_value_lens (kind : Z) : list Z :=
  if kind =? KIND_APC then [LENGTH_APC - 2]
  else if kind =? KIND_FRAG then FRAG_VALUE_LENS
  else if kind =? KIND_MDS then [LENGTH_MDS - 2]
  else if kind =? KIND_MRDS then [LENGTH_MRDS - 2]
  else if kind =? KIND_REQ then [LENGTH_REQ - 2]
  else if kind =? KIND_RES then [LENGTH_RES - 2]
  else [].

Definition validate_fixed_value_len (kind value_len : Z) : result unit SerializeError :=
  let expected := fixed_value_lens kind in
  if is_nil expected || existsb (Z.eqb value_len) expected then Ok tt
  else Err (InvalidFixedValueLength kind value_len).

Definition validate_option (o : RawOption) : result unit SerializeError :=
  let raw_kind := to_byte (ro_kind o) in
  if (raw_kind =? KIND_EOL) || (raw_kind =? KIND_NOP) then Err (ReservedKind raw_kind)
  else if (KIND_UNSAFE_MIN <=? raw_kind) && (raw_kind <=? U8_MAX) then Err (UnsafeKind raw_kind)
  else if is_out_of_scope_assigned_safe_kind raw_kind
  then Err (UnsupportedAssignedKind raw_kind)
  else if EXTENDED_VALUE_LEN_MAX <? len (ro_value o)
  then Err (ValueTooLong raw_kind (len (ro_value o)) EXTENDED_VALUE_LEN_MAX)
  else validate_fixed_value_len raw_kind (len (ro_value o)).

(** The loop of [validated_options]. *)
Fixpoint validate_loop (seen_frag : bool) (options : list RawOption) :
    result unit SerializeError :=
  match options with
  | [] => Ok tt
  | o :: rest =>
      let* _ := validate_option o in
      if to_byte (ro_kind o) =? KIND_FRAG
      then if seen_frag then Err SerializeDuplicateFrag else validate_loop true rest
      else validate_loop seen_frag rest
  end.

Definition validated_options (b : OptionsBuilder) : result (list RawOption) SerializeError :=
  let* _ := validate_loop false (ob_options b) in
  Ok (ob_options b).

Definition canonical_rank (kind : Z) : Z * Z :=
  if kind =? KIND_FRAG then (0, kind)
  else if kind =? KIND_APC then (1, kind)
  else if kind =? KIND_MDS then (2, kind)
  else if kind =? KIND_MRDS then (3, kind)
  else if kind =? KIND_REQ then (4, kind)
  else if kind =? KIND_RES then (5, kind)
  else (1000 + kind, kind).

(** [sort_by_key], a stable sort, on the lexicographic order of ranks. *)
Definition rank_leb (a b : Z * Z) : bool :=
  (a.1 <? b.1) || ((a.1 =? b.1) && (a.2 <=? b.2)).

Definition option_rank (o : RawOption) : Z * Z := canonical_rank (to_byte (ro_kind o)).

Fixpoint insert_by_rank (o : RawOption) (l : list RawOption) : list RawOption :=
  match l with
  | [] => [o]
  | x :: r => if rank_leb (option_rank o) (option_rank x) then o :: x :: r
              else x :: insert_by_rank o r
  end.

Fixpoint sort_by_rank (l : list RawOption) : list RawOption :=
  match l with
  | [] => []
  | o :: r => insert_by_rank o (sort_by_rank r)
  end.

Definition encoded_len (value_len : Z) : Z :=
  if value_len <=? DEFAULT_VALUE_LEN_MAX then value_len + 2 else value_len + 4.

Definition checked_body_add (current add : Z) : result Z SerializeError :=
  match checked_add current add with
  | None => Err (BodyTooLong USIZE_MAX BODY_LEN_MAX)
  | Some n => if BODY_LEN_MAX <? n then Err (BodyTooLong n BODY_LEN_MAX) else Ok n
  end.

(** The loop of [serialized_body_len]. *)
Fixpoint body_len_loop (n : Z) (options : list RawOption) : result Z SerializeError :=
  match options with
  | [] => Ok n
  | o :: rest =>
      let* n := (if n mod 2 =? 1 then checked_body_add n 1 else Ok n) in
      let* n := checked_body_add n (encoded_len (len (ro_value o))) in
      body_len_loop n rest
  end.

Definition serialized_body_len (options : list RawOption) : result Z SerializeError :=
  let* n := body_len_loop OCS_PLACEHOLDER_LEN options in
  let* n := checked_body_add n 1 in
  if n mod 2 =? 1 then checked_body_add n 1 else Ok n.

(** The loop of [patch_frag_start]. *)
Fixpoint patch_loop (start : Z) (options : list RawOption) : option (list RawOption) :=
  match options with
  | [] => Some []
  | o :: rest =>
      let! o' :=
        if to_byte (ro_kind o) =? KIND_FRAG then
          let! v := copy_at (ro_value o) 0 (u16_to_be start) in
          Some {| ro_kind := ro_kind o; ro_value := v |}
        else Some o in
      let! rest' := patch_loop start rest in
      Some (o' :: rest')
  end.

Definition patch_frag_start (options : list RawOption) (body_len : Z) :
    option (result (list RawOption) SerializeError) :=
  let start := LENGTH_UDP_HEADER + body_len in
  match u16_try_from start with
  | None => Some (Err (FragmentStartTooLarge start U16_MAX))
  | Some start => let! os := patch_loop start options in Some (Ok os)
  end.

Definition encode_option (out : list Z) (o : RawOption) : result (list Z) SerializeError :=
  let raw_kind := to_byte (ro_kind o) in
  let value_len := len (ro_value o) in
  let out := out ++ [raw_kind] in
  let* out :=
    if value_len <=? DEFAULT_VALUE_LEN_MAX then Ok (out ++ [(value_len + 2) mod 256])
    else
      let total_len := value_len + 4 in
      if U16_MAX <? total_len
      then Err (ValueTooLong raw_kind value_len EXTENDED_VALUE_LEN_MAX)
      else Ok ((out ++ [KIND_EXTENDED_LENGTH_MARKER]) ++ u16_to_be (total_len mod 65536)) in
  Ok (out ++ ro_value o).

(** The encoding loop of [finish]. *)
Fixpoint encode_loop (out : list Z) (options : list RawOption) : result (list Z) SerializeError :=
  match options with
  | [] => Ok out
  | o :: rest =>
      let out := if len out mod 2 =? 1 then out ++ [KIND_NOP] else out in
      let* out := encode_option out o in
      encode_loop out rest
  end.

Definition OptionsBuilder_finish (b : OptionsBuilder) : option (result (list Z) SerializeError) :=
  let? options := validated_options b in
  let options := sort_by_rank options in
  let? body_len := serialized_body_len options in
  let! patched := patch_frag_start options body_len in
  let? options := patched in
  let? out := encode_loop [0; 0] options in
  let out := out ++ [KIND_EOL] in
  let out := if len out mod 2 =? 1 then out ++ [0] else out in
  ensure (len out =? body_len);
  Some (Ok out).

(** ** Specification-side definitions *)

(** An option whose kind is a byte and whose value is a byte string. *)
Definition RawOption_wf (o : RawOption) : Prop :=
  OptionKind_wf (ro_kind o) /\ bytes (ro_value o).

(** The kind as the parser reports it (a named variant, never [Other] of one). *)
Definition normalize (o : RawOption) : RawOption :=
  {| ro_kind := from_byte (to_byte (ro_kind o)); ro_value := ro_value o |}.

(** One option on the wire. *)
Definition tlv (o : RawOption) : list Z :=
  if len (ro_value o) <=? 252
  then to_byte (ro_kind o) :: (len (ro_value o) + 2) :: ro_value o
  else to_byte (ro_kind o) :: 255 :: u16_to_be (len (ro_value o) + 4) ++ ro_value o.

(** The options area after [n] bytes: NOP-aligned TLVs. *)
Fixpoint options_area (n : Z) (options : list RawOption) : list Z :=
  match options with
  | [] => []
  | o :: rest =>
      let pad := if n mod 2 =? 1 then [KIND_NOP] else [] in
      pad ++ tlv o ++ options_area (n + len pad + len (tlv o)) rest
  end.

(** The whole body: OCS placeholder, options, EOL and zero fill. *)
Definition options_body_bytes (options : list RawOption) : list Z :=
  let area := options_area 2 options in
  [0; 0] ++ area ++ KIND_EOL :: (if len area mod 2 =? 0 then [0] else []).

(** FRAG values with the start field set. *)
Definition patch_option (start : Z) (o : RawOption) : RawOption :=
  if to_byte (ro_kind o) =? KIND_FRAG
  then {| ro_kind := ro_kind o;
          ro_value := u16_to_be start ++ sub (ro_value o) 2 (len (ro_value o)) |}
  else o.

(** The options among parsed items, EOL and NOP aside. *)
Definition item_option (i : item) : option RawOption :=
  match i with
  | Ok o => match or_kind o with
            | Eol | Nop => None
            | _ => Some (RawOption_from o)
            end
  | Err _ => None
  end.

(** ** Lemmas: validation and sorting *)

(** What [encode_option] and the parser need of an option. *)
Definition encodable (o : RawOption) : Prop :=
  RawOption_wf o /\ 2 <= to_byte (ro_kind o) /\ len (ro_value o) <= 65531 /\
  (to_byte (ro_kind o) = KIND_FRAG -> len (ro_value o) = 8 \/ len (ro_value o) = 10).

Lemma validate_option_encodable o :
  RawOption_wf o -> validate_option o = Ok tt -> encodable o /\ to_byte (ro_kind o) < 192.
Proof.
  intros Hw. unfold validate_option, validate_fixed_value_len, encodable.
  set (k := to_byte (ro_kind o)). set (n := len (ro_value o)).
  assert (u8 k) as Hk by apply Hw. unfold u8 in Hk.
  change EXTENDED_VALUE_LEN_MAX with 65531. change U8_MAX with 255.
  change KIND_UNSAFE_MIN with 192. change KIND_EOL with 0. change KIND_NOP with 1.
  destruct (Z.eqb_spec k 0); [done|]. destruct (Z.eqb_spec k 1); [done|]. cbn [orb].
  destruct (Z.leb_spec 192 k); [destruct (Z.leb_spec k 255); [done|lia]|]. cbn [andb].
  destruct (is_out_of_scope_assigned_safe_kind k); [done|].
  destruct (Z.ltb_spec 65531 n); [done|].
  destruct (is_nil (fixed_value_lens k) || existsb (Z.eqb n) (fixed_value_lens k)) eqn:E; [|done].
  intros _. split; [|lia]. split; [done|]. split; [lia|]. split; [lia|].
  intros Hf. rewrite Hf in E. cbn in E. bool_cases; try done; auto.
Qed.

Lemma validate_loop_Ok seen os :
  validate_loop seen os = Ok tt -> Forall (fun o => validate_option o = Ok tt) os.
Proof.
  revert seen. induction os as [|o os IH]; intros seen; simpl; [constructor|].
  destruct (validate_option o) as [[]|] eqn:E; [|done].
  repeat case_match; try done; intros Hv; constructor; eauto.
Qed.

Lemma validate_loop_encodable seen os :
  Forall RawOption_wf os -> validate_loop seen os = Ok tt -> Forall encodable os.
Proof.
  intros Hw Hv%validate_loop_Ok. rewrite Forall_forall in *.
  intros o Ho. by apply validate_option_encodable; auto.
Qed.

Lemma insert_by_rank_perm o l : insert_by_rank o l ≡ₚ o :: l.
Proof.
  induction l as [|x l IH]; simpl; [done|]. case_match; [done|].
  rewrite IH. apply Permutation_swap.
Qed.

Lemma sort_by_rank_perm l : sort_by_rank l ≡ₚ l.
Proof. induction l as [|o l IH]; simpl; [done|]. by rewrite insert_by_rank_perm, IH. Qed.

Definition rank_le (a b : RawOption) : Prop := rank_leb (option_rank a) (option_rank b) = true.

Lemma rank_leb_spec a b :
  rank_leb a b = true <-> a.1 < b.1 \/ (a.1 = b.1 /\ a.2 <= b.2).
Proof. unfold rank_leb. bool_cases; simpl; split; intros; try done; lia. Qed.

#[export] Instance rank_le_trans : Transitive rank_le.
Proof. intros a b c. unfold rank_le. rewrite !rank_leb_spec. lia. Qed.

Lemma rank_le_total a b : rank_le a b \/ rank_le b a.
Proof. unfold rank_le. rewrite !rank_leb_spec. lia. Qed.

Lemma insert_by_rank_sorted o l :
  StronglySorted rank_le l -> StronglySorted rank_le (insert_by_rank o l).
Proof.
  induction 1 as [|x l Hs IH Hx]; simpl; [repeat constructor|].
  destruct (rank_leb (option_rank o) (option_rank x)) eqn:E.
  - constructor; [by constructor|]. constructor; [done|].
    apply (Forall_impl _ _ _ Hx). intros y Hy. by etransitivity.
  - constructor; [done|]. rewrite insert_by_rank_perm. constructor; [|done].
    destruct (rank_le_total x o) as [|Ho]; [done|]. unfold rank_le in Ho. congruence.
Qed.

Lemma sort_by_rank_sorted l : StronglySorted rank_le (sort_by_rank l).
Proof. induction l; simpl; [constructor|]. by apply insert_by_rank_sorted. Qed.

(** Options of one rank keep their order. *)
Lemma insert_by_rank_stable r o l :
  filter (fun x => option_rank x = r) (insert_by_rank o l) =
  filter (fun x => option_rank x = r) (o :: l).
Proof.
  induction l as [|x l IH]; [done|]. cbn [insert_by_rank].
  destruct (rank_leb (option_rank o) (option_rank x)) eqn:E; [done|].
  rewrite !filter_cons, IH, filter_cons. repeat case_decide; try done. exfalso.
  assert (rank_leb (option_rank o) (option_rank x) = true); [|congruence].
  apply rank_leb_spec. right. split; congruence || (replace (option_rank o) with (option_rank x) by congruence; lia).
Qed.

Lemma sort_by_rank_stable r l :
  filter (fun x => option_rank x = r) (sort_by_rank l) = filter (fun x => option_rank x = r) l.
Proof.
  induction l as [|o l IH]; [done|]. cbn [sort_by_rank].
  rewrite insert_by_rank_stable, !filter_cons, IH. done.
Qed.

(** ** Lemmas: lengths and encoding *)

Lemma len_tlv o : len (tlv o) = encoded_len (len (ro_value o)).
Proof.
  unfold tlv, encoded_len, DEFAULT_VALUE_LEN_MAX. bool_cases; rewrite !len_cons, ?len_app;
    try change (len (u16_to_be _)) with 2; lia.
Qed.

Lemma encoded_len_pos n : 0 <= n -> n + 2 <= encoded_len n <= n + 4.
Proof. unfold encoded_len. bool_cases; lia. Qed.

Lemma checked_body_add_spec a b :
  0 <= a <= 65534 -> 0 <= b <= 65535 ->
  (a + b <= 65534 -> checked_body_add a b = Ok (a + b)) /\
  (65534 < a + b -> exists e, checked_body_add a b = Err e).
Proof.
  intros. unfold checked_body_add, checked_add. change BODY_LEN_MAX with 65534.
  change USIZE_MAX with 18446744073709551615. bool_cases; try lia; split; intros; eauto; lia.
Qed.

Lemma body_len_loop_spec n os :
  0 <= n <= 65534 -> Forall encodable os ->
  (n + len (options_area n os) <= 65534 ->
     body_len_loop n os = Ok (n + len (options_area n os))) /\
  (65534 < n + len (options_area n os) -> exists e, body_len_loop n os = Err e).
Proof.
  intros Hn Hos. revert n Hn. induction Hos as [|o os (Hw & Hk & Hl & _) _ IH]; intros n Hn.
  { cbn. rewrite len_nil. rewrite Z.add_0_r. split; [done|lia]. }
  cbn [body_len_loop options_area]. pose proof (len_nonneg (ro_value o)) as Hv.
  pose proof (encoded_len_pos _ Hv) as He. rewrite !len_app, len_tlv.
  set (pad := if n mod 2 =? 1 then [KIND_NOP] else []).
  assert (0 <= len pad <= 1) as Hp by (unfold pad; case_match; len_lia).
  set (m := n + len pad + encoded_len (len (ro_value o))).
  pose proof (len_nonneg (options_area m os)).
  assert ((if n mod 2 =? 1 then checked_body_add n 1 else Ok n) =
          (if n + len pad <=? 65534 then Ok (n + len pad) else checked_body_add n 1)) as ->.
  { unfold pad. destruct (n mod 2 =? 1).
    - change (len [KIND_NOP]) with 1. destruct (Z.leb_spec (n + 1) 65534); [|done].
      apply checked_body_add_spec; lia.
    - rewrite len_nil, Z.add_0_r. by destruct (Z.leb_spec n 65534); [|lia]. }
  destruct (Z.leb_spec (n + len pad) 65534).
  - destruct (checked_body_add_spec (n + len pad) (encoded_len (len (ro_value o)))) as [Ha Hb];
      [lia|lia|]. fold m in Ha, Hb.
    destruct (Z.leb_spec m 65534).
    + rewrite Ha by lia. destruct (IH m ltac:(lia)) as [I1 I2].
      replace (n + (len pad + (encoded_len (len (ro_value o)) + len (options_area m os))))
        with (m + len (options_area m os)) by lia. auto.
    + destruct (Hb ltac:(lia)) as [e ->]. split; [lia|]. eauto.
  - split; [lia|]. intros _. unfold pad in *. destruct (n mod 2 =? 1); [|len_lia].
    change (len [KIND_NOP]) with 1 in *.
    destruct (checked_body_add_spec n 1) as [_ [e ->]]; [lia..|]. eauto.
Qed.

Lemma len_options_body_bytes os :
  let n := 3 + len (options_area 2 os) in
  len (options_body_bytes os) = n + n mod 2.
Proof.
  cbv zeta. unfold options_body_bytes. rewrite !len_app, !len_cons, !len_nil.
  generalize (len (options_area 2 os)) as a. intros a.
  destruct (Z.eqb_spec (a mod 2) 0); rewrite ?len_cons, ?(@len_nil Z); dlia.
Qed.

Lemma serialized_body_len_spec os :
  Forall encodable os ->
  (len (options_body_bytes os) <= 65534 ->
     serialized_body_len os = Ok (len (options_body_bytes os))) /\
  (65534 < len (options_body_bytes os) -> exists e, serialized_body_len os = Err e).
Proof.
  intros Hos. rewrite len_options_body_bytes. unfold serialized_body_len.
  change OCS_PLACEHOLDER_LEN with 2. set (a := len (options_area 2 os)).
  destruct (body_len_loop_spec 2 os) as [H1 H2]; [lia|done|]. fold a in H1, H2.
  pose proof (len_nonneg (options_area 2 os)) as Ha. fold a in Ha.
  destruct (Z.leb_spec (2 + a) 65534); [rewrite H1 by done | destruct H2 as [e ->]; [done|];
    split; [|by eauto]; intros; dlia].
  destruct (checked_body_add_spec (2 + a) 1) as [H3 H4]; [lia..|].
  destruct (Z.leb_spec (2 + a + 1) 65534); [rewrite H3 by done | destruct H4 as [e ->]; [done|];
    split; [|by eauto]; intros; dlia].
  replace (2 + a + 1) with (3 + a) by lia.
  destruct (checked_body_add_spec (3 + a) 1) as [H5 H6]; [lia..|].
  destruct (Z.eqb_spec ((3 + a) mod 2) 1) as [Hm|Hm].
  - rewrite Hm. auto.
  - split; intros; [f_equal|]; dlia.
Qed.

Lemma patch_option_len start o :
  encodable o -> len (ro_value (patch_option start o)) = len (ro_value o).
Proof.
  intros (_ & _ & _ & Hf). unfold patch_option. destruct (Z.eqb_spec (to_byte (ro_kind o)) KIND_FRAG); [|done].
  cbn [ro_value]. rewrite len_app, len_sub; [change (len (u16_to_be start)) with 2; lia| |lia].
  destruct Hf; [done|lia..].
Qed.

Lemma patch_option_kind start o : ro_kind (patch_option start o) = ro_kind o.
Proof. unfold patch_option. by case_match. Qed.

Lemma patch_option_encodable start o : encodable o -> encodable (patch_option start o).
Proof.
  intros He. pose proof (patch_option_len start o He) as Hl.
  destruct He as ((Hk & Hb) & ? & ? & ?). unfold encodable, RawOption_wf.
  rewrite Hl, patch_option_kind. split; [|done]. split; [done|].
  unfold patch_option. destruct (_ =? _); [|done]. apply Forall_app. auto with rust.
Qed.

Lemma patch_loop_spec start os :
  Forall encodable os -> patch_loop start os = Some (patch_option start <$> os).
Proof.
  induction 1 as [|o os (_ & _ & _ & Hf) _ IH]; [done|]. cbn [patch_loop fmap list_fmap].
  rewrite IH. unfold patch_option at 2.
  destruct (Z.eqb_spec (to_byte (ro_kind o)) KIND_FRAG) as [E|]; [|done].
  unfold copy_at. change (len (u16_to_be start)) with 2.
  destruct (Z.leb_spec (0 + 2) (len (ro_value o))); [|destruct (Hf E); lia].
  cbn [andb Z.leb Z.compare]. by rewrite sub_empty.
Qed.

Lemma options_area_patch_len n start os :
  Forall encodable os ->
  len (options_area n (patch_option start <$> os)) = len (options_area n os).
Proof.
  intros Hos. revert n. induction Hos as [|o os Ho _ IH]; intros n; [done|].
  cbn [fmap list_fmap options_area]. rewrite !len_app, !len_tlv, (patch_option_len start o Ho).
  by rewrite IH.
Qed.

Lemma encode_option_spec out o :
  len (ro_value o) <= 65531 -> encode_option out o = Ok (out ++ tlv o).
Proof.
  intros Hl. unfold encode_option, tlv. change DEFAULT_VALUE_LEN_MAX with 252.
  pose proof (len_nonneg (ro_value o)). change U16_MAX with 65535.
  destruct (Z.leb_spec (len (ro_value o)) 252).
  - rewrite Z.mod_small by lia. by rewrite <- !app_assoc.
  - destruct (Z.ltb_spec 65535 (len (ro_value o) + 4)); [lia|].
    rewrite (Z.mod_small (_ + 4)) by lia. by rewrite <- !app_assoc.
Qed.

Lemma encode_loop_spec out os :
  Forall encodable os -> encode_loop out os = Ok (out ++ options_area (len out) os).
Proof.
  intros Hos. revert out. induction Hos as [|o os (_ & _ & Hl & _) _ IH]; intros out.
  { cbn. by rewrite app_nil_r. }
  cbn [encode_loop options_area]. rewrite encode_option_spec by done.
  rewrite IH. f_equal. destruct (len out mod 2 =? 1); rewrite !len_app, <- !app_assoc.
  - done.
  - rewrite len_nil, Z.add_0_r. done.
Qed.

(** The bytes of a finished body, with the FRAG start patched to its length. *)
Definition finished (os : list RawOption) : list Z :=
  options_body_bytes (patch_option (8 + len (options_body_bytes os)) <$> os).

Lemma len_finished os :
  Forall encodable os -> len (finished os) = len (options_body_bytes os).
Proof.
  intros Hos. unfold finished. by rewrite len_options_body_bytes, options_area_patch_len,
    <- len_options_body_bytes.
Qed.

Lemma len_options_body_even os : len (options_body_bytes os) mod 2 = 0.
Proof. rewrite len_options_body_bytes. generalize (len (options_area 2 os)). intros. dlia. Qed.

Lemma encode_loop_body os :
  Forall encodable os ->
  (let? out := encode_loop [0; 0] os in
   let out := out ++ [KIND_EOL] in
   let out := if len out mod 2 =? 1 then out ++ [0] else out in
   Some (Ok (E := SerializeError) out)) = Some (Ok (options_body_bytes os)).
Proof.
  intros Hos. rewrite encode_loop_spec by done. cbv zeta. do 2 f_equal.
  unfold options_body_bytes. rewrite !len_app.
  change (len [0; 0]) with 2. change (len [KIND_EOL]) with 1.
  generalize (len (options_area 2 os)) as a. intros a.
  destruct (Z.eqb_spec ((2 + a + 1) mod 2) 1), (Z.eqb_spec (a mod 2) 0);
    [by rewrite <- !app_assoc|exfalso; dlia|exfalso; dlia|by rewrite <- !app_assoc].
Qed.

Lemma finish_spec b :
  Forall RawOption_wf (ob_options b) -> validate_loop false (ob_options b) = Ok tt ->
  let os := sort_by_rank (ob_options b) in
  (len (options_body_bytes os) <= 65526 -> OptionsBuilder_finish b = Some (Ok (finished os))) /\
  (65526 < len (options_body_bytes os) -> exists e, OptionsBuilder_finish b = Some (Err e)).
Proof.
  intros Hw Hv os. pose proof (validate_loop_encodable _ _ Hw Hv) as He.
  rewrite <- (sort_by_rank_perm (ob_options b)) in He. fold os in He.
  unfold OptionsBuilder_finish, validated_options. rewrite Hv. cbv beta iota zeta. fold os.
  destruct (serialized_body_len_spec os He) as [H1 H2].
  set (n := len (options_body_bytes os)) in *.
  pose proof (len_nonneg (options_body_bytes os)) as Hn0. fold n in Hn0.
  destruct (Z.leb_spec n 65534).
  2:{ split; [lia|]. intros _. destruct H2 as [e ->]; [done|]. eauto. }
  pose proof (len_options_body_even os) as Hev. fold n in Hev.
  rewrite H1 by done. unfold patch_frag_start, u16_try_from. change LENGTH_UDP_HEADER with 8.
  change U16_MAX with 65535. destruct (Z.leb_spec (8 + n) 65535).
  - rewrite patch_loop_spec by done. cbv beta iota.
    set (ps := patch_option (8 + n) <$> os).
    assert (Forall encodable ps) as Hps.
    { apply Forall_fmap. apply (Forall_impl _ _ _ He). intros. by apply patch_option_encodable. }
    pose proof (encode_loop_body ps Hps) as Hb. pose proof (len_finished os He) as Hf.
    unfold finished in Hf. fold n in Hf. fold ps in Hf.
    destruct (encode_loop [0; 0] ps) as [out|]; [|done]. cbv beta iota zeta in Hb |- *.
    injection Hb as Hb. rewrite Hb, Hf. split; [|intros; exfalso; dlia].
    intros _. rewrite Z.eqb_refl. unfold finished. fold n. by fold ps.
  - split; [|eauto].
    intros. exfalso. dlia.
Qed.

(** Rejected options and oversized bodies are errors, never panics. *)
Lemma finish_invalid b e :
  validate_loop false (ob_options b) = Err e -> OptionsBuilder_finish b = Some (Err e).
Proof. intros H. unfold OptionsBuilder_finish, validated_options. by rewrite H. Qed.

(** ** Lemmas: parsing a finished body back *)

(** The items the parser yields on an options area at offset [off]. *)
Fixpoint area_items (off n : Z) (os : list RawOption) : list item :=
  match os with
  | [] => [Ok (option_ref KIND_EOL [] 0)]
  | o :: rest =>
      let p := if n mod 2 =? 1 then 1 else 0 in
      (if n mod 2 =? 1 then [Ok (option_ref KIND_NOP [] 0)] else [])
      ++ Ok (option_ref (to_byte (ro_kind o)) (ro_value o)
               (off + p + (if len (ro_value o) <=? 252 then 2 else 4)))
      :: area_items (off + p + len (tlv o)) (n + p + len (tlv o)) rest
  end.

Lemma tlv_head_tlv off o rest :
  encodable o ->
  tlv_head off (tlv o ++ rest)
    (Ok (option_ref (to_byte (ro_kind o)) (ro_value o)
           (off + (if len (ro_value o) <=? 252 then 2 else 4)))) (Some rest).
Proof.
  intros (_ & Hk & Hl & _). unfold tlv. destruct (Z.leb_spec (len (ro_value o)) 252); simpl.
  - apply head_short; unfold_consts; lia.
  - apply (head_ext off _ (ro_value o) rest); unfold_consts; lia.
Qed.

Lemma area_stream off n os fill :
  Forall encodable os ->
  tlv_stream off (options_area n os ++ KIND_EOL :: fill) (area_items off n os).
Proof.
  intros Hos. revert off n. induction Hos as [|o os Ho _ IH]; intros off n.
  { apply stream_last, head_eol. }
  cbn [options_area area_items]. cbv zeta. rewrite <- !app_assoc.
  assert (forall off n, tlv_stream off (tlv o ++ options_area (n + len (tlv o)) os ++ KIND_EOL :: fill)
    (Ok (option_ref (to_byte (ro_kind o)) (ro_value o)
           (off + (if len (ro_value o) <=? 252 then 2 else 4)))
      :: area_items (off + len (tlv o)) (n + len (tlv o)) os)) as Hs.
  { intros off' n'. eapply stream_cons; [by apply tlv_head_tlv|].
    rewrite len_app. rewrite Z.add_simpl_r. apply IH. }
  destruct (n mod 2 =? 1); simpl.
  - eapply stream_cons; [apply head_nop|]. rewrite len_cons.
    rewrite Z.add_simpl_r. change (len [KIND_NOP]) with 1. apply Hs.
  - rewrite (@len_nil Z), !Z.add_0_r. apply Hs.
Qed.

Lemma from_byte_not_pad k : 2 <= k -> from_byte k <> Eol /\ from_byte k <> Nop.
Proof.
  intros. unfold from_byte. unfold_consts. bool_cases; split; done || lia.
Qed.

Lemma item_option_ref o at_ :
  encodable o ->
  item_option (Ok (option_ref (to_byte (ro_kind o)) (ro_value o) at_)) = Some (normalize o).
Proof.
  intros (_ & Hk & _). destruct (from_byte_not_pad _ Hk). unfold item_option, option_ref. simpl.
  unfold RawOption_from, normalize. simpl. by destruct (from_byte _).
Qed.

Lemma area_items_options off n os :
  Forall encodable os ->
  omap item_option (area_items off n os) = normalize <$> os.
Proof.
  intros Hos. revert off n. induction Hos as [|o os Ho _ IH]; intros off n; [done|].
  cbn [area_items]. cbv zeta. rewrite omap_app.
  replace (omap item_option (if n mod 2 =? 1 then [Ok (option_ref KIND_NOP [] 0)] else []))
    with (@nil RawOption) by (by destruct (n mod 2 =? 1)).
  cbn [omap list_omap app]. rewrite item_option_ref by done. by rewrite IH.
Qed.

Lemma area_items_ok off n os : Forall (fun i => is_ok i = true) (area_items off n os).
Proof.
  revert off n. induction os as [|o os IH]; intros off n; cbn [area_items]; cbv zeta.
  - by repeat constructor.
  - apply Forall_app. split; [by destruct (_ =? _); repeat constructor|].
    constructor; [done|apply IH].
Qed.

Lemma tlv_bytes o : encodable o -> bytes (tlv o).
Proof.
  intros ((Hk & Hv) & _ & Hl & _). pose proof (len_nonneg (ro_value o)). unfold tlv.
  destruct (Z.leb_spec (len (ro_value o)) 252).
  - constructor; [apply Hk|]. constructor; [unfold u8; lia|done].
  - constructor; [apply Hk|]. constructor; [unfold u8; lia|].
    apply Forall_app. auto with rust.
Qed.

Lemma options_area_bytes n os : Forall encodable os -> bytes (options_area n os).
Proof.
  intros Hos. revert n. induction Hos as [|o os Ho _ IH]; intros n; cbn [options_area]; [done|].
  rewrite !Forall_app. split; [|split; [by apply tlv_bytes|apply IH]].
  destruct (_ =? _); repeat constructor; unfold u8, KIND_NOP; lia.
Qed.

Lemma options_body_bytes_bytes os : Forall encodable os -> bytes (options_body_bytes os).
Proof.
  intros Hos. unfold options_body_bytes. rewrite !Forall_app.
  split; [repeat constructor; unfold u8; lia|]. split; [by apply options_area_bytes|].
  constructor; [unfold u8, KIND_EOL; lia|].
  destruct (_ =? _); repeat constructor; unfold u8; lia.
Qed.

Lemma encodable_patch start os :
  Forall encodable os -> Forall encodable (patch_option start <$> os).
Proof.
  intros He. apply Forall_fmap. apply (Forall_impl _ _ _ He). intros. by apply patch_option_encodable.
Qed.

(** A body behind its two OCS bytes, whatever they are, parses to its options. *)
Lemma options_body_drain os :
  Forall encodable os ->
  exists it, drain_all (sub (options_body_bytes os) 2 (len (options_body_bytes os)))
    = Some (area_items 0 2 os, it).
Proof.
  intros He. pose proof (options_body_bytes_bytes os He) as Hb.
  unfold options_body_bytes in *. rewrite sub_suffix; [|done|by rewrite len_app].
  apply drain_all_stream.
  - by apply Forall_app in Hb as [_ Hb].
  - by apply area_stream.
Qed.

(** What success of [finish] means. *)
Lemma finish_Ok b body :
  Forall RawOption_wf (ob_options b) -> OptionsBuilder_finish b = Some (Ok body) ->
  let os := sort_by_rank (ob_options b) in
  validate_loop false (ob_options b) = Ok tt /\ Forall encodable os /\
  len (options_body_bytes os) <= 65526 /\ body = finished os.
Proof.
  intros Hw Hf os. destruct (validate_loop false (ob_options b)) as [[]|e] eqn:Hv.
  2:{ by rewrite (finish_invalid _ _ Hv) in Hf. }
  destruct (finish_spec b Hw Hv) as [H1 H2]. fold os in H1, H2.
  destruct (Z.leb_spec (len (options_body_bytes os)) 65526) as [Hl|Hl].
  - rewrite H1 in Hf by done. injection Hf as <-. split; [done|].
    split; [|done]. unfold os. rewrite sort_by_rank_perm. by eapply validate_loop_encodable.
  - destruct (H2 Hl) as [e He]. congruence.
Qed.

Lemma finish_total b : Forall RawOption_wf (ob_options b) -> is_Some (OptionsBuilder_finish b).
Proof.
  intros Hw. destruct (validate_loop false (ob_options b)) as [[]|e] eqn:Hv.
  - destruct (finish_spec b Hw Hv) as [H1 H2].
    destruct (Z.leb_spec (len (options_body_bytes (sort_by_rank (ob_options b)))) 65526) as [Hl|Hl].
    + by rewrite H1.
    + by destruct (H2 Hl) as [e ->].
  - by rewrite (finish_invalid _ _ Hv).
Qed.

(** ** Properties *)

(** C6. A finished options body is a byte string of even length at most 65526
    that starts with the zero OCS placeholder; parsing what follows yields no
    error, and its options are exactly the builder's options in canonical order,
    with the start field of a FRAG option set to 8 plus the body's length. *)
Theorem serializer_roundtrip (b : OptionsBuilder) (body : list Z) :
  Forall RawOption_wf (ob_options b) -> OptionsBuilder_finish b = Some (Ok body) ->
  bytes body /\ len body mod 2 = 0 /\ len body <= 65526 /\ sub body 0 2 = [0; 0] /\
  exists items it, drain_all (sub body 2 (len body)) = Some (items, it) /\
    Forall (fun i => is_ok i = true) items /\
    omap item_option items
      = normalize <$> (patch_option (8 + len body) <$> sort_by_rank (ob_options b)).
Proof.
  intros Hw Hf. destruct (finish_Ok b body Hw Hf) as (Hv & He & Hl & ->).
  set (os := sort_by_rank (ob_options b)) in *. rewrite len_finished by done.
  pose proof (encodable_patch (8 + len (options_body_bytes os)) _ He) as Hp.
  split; [by apply options_body_bytes_bytes|]. split; [apply len_options_body_even|].
  split; [done|]. split; [done|]. rewrite <- (len_finished os He).
  destruct (options_body_drain _ Hp) as [it Hd]. do 2 eexists. split; [exact Hd|].
  split; [apply area_items_ok|]. rewrite len_finished by done. by apply area_items_options.
Qed.

Definition example_builder : OptionsBuilder :=
  OptionsBuilder_push (OptionsBuilder_push (OptionsBuilder_push OptionsBuilder_new
    Mrds [11; 110; 2]) (Other 10) [7; 7; 7])
    Frag [0; 0; 1; 2; 3; 4; 0; 0].

Lemma serializer_roundtrip_witness :
  OptionsBuilder_finish example_builder =
    Some (Ok [0; 0; 3; 10; 0; 32; 1; 2; 3; 4; 0; 0; 5; 5; 11; 110; 2; 1; 10; 5; 7; 7; 7; 0]) /\
  exists items it,
    drain_all [3; 10; 0; 32; 1; 2; 3; 4; 0; 0; 5; 5; 11; 110; 2; 1; 10; 5; 7; 7; 7; 0]
      = Some (items, it) /\
    omap item_option items = [
      {| ro_kind := Frag; ro_value := [0; 32; 1; 2; 3; 4; 0; 0] |};
      {| ro_kind := Mrds; ro_value := [11; 110; 2] |};
      {| ro_kind := Other 10; ro_value := [7; 7; 7] |}].
Proof.
  split; [reflexivity|].
  destruct (serializer_roundtrip example_builder
    [0; 0; 3; 10; 0; 32; 1; 2; 3; 4; 0; 0; 5; 5; 11; 110; 2; 1; 10; 5; 7; 7; 7; 0])
    as (_ & _ & _ & _ & items & it & H1 & _ & H2).
  - repeat constructor; simpl; unfold OptionKind_wf, u8, to_byte; unfold_consts; lia.
  - reflexivity.
  - exists items, it. split; [exact H1|exact H2].
Defined.

(** The options a sender may use, listed by kind: the fixed value lengths of RFC 9868, FRAG with
    or without the RDOS field, and any value that fits an extended length for the unassigned
    SAFE kinds; padding, TIME, AUTH, EXP, the reserved SAFE range and the UNSAFE kinds are not
    to be sent. *)
Definition allowed_option (o : RawOption) : Prop :=
  let k := to_byte (ro_kind o) in
  let n := len (ro_value o) in
  k = 2 /\ n = 4 \/ k = 3 /\ (n = 8 \/ n = 10) \/ k = 4 /\ n = 2 \/ k = 5 /\ n = 3 \/ k = 6 /\ n = 4 \/
  k = 7 /\ n = 4 \/ 10 <= k <= 126 /\ n <= 65531.

Definition frag_count (os : list RawOption) : nat :=
  length (filter (fun o => to_byte (ro_kind o) = KIND_FRAG) os).

(** Validation of one option is membership in that list. *)
Lemma validate_option_allowed o :
  RawOption_wf o -> validate_option o = Ok tt <-> allowed_option o.
Proof.
  intros [Hk _]. unfold OptionKind_wf, u8 in Hk. unfold validate_option, allowed_option, validate_fixed_value_len, fixed_value_lens.
  set (k := to_byte (ro_kind o)) in *. pose proof (len_nonneg (ro_value o)). set (n := len (ro_value o)) in *. clearbody k n.
  unfold is_out_of_scope_assigned_safe_kind. unfold_consts.
  change EXTENDED_VALUE_LEN_MAX with 65531. change FRAG_VALUE_LENS with [8; 10]. change U8_MAX with 255.
  destruct (Z.eqb_spec k 0); [split; [done|lia]|]. destruct (Z.eqb_spec k 1); [split; [done|lia]|]. cbn [orb].
  destruct (Z.leb_spec 192 k), (Z.leb_spec k 255); try lia; [split; [done|lia]|]. cbn [andb].
  destruct (Z.eqb_spec k 8); [split; [done|lia]|]. destruct (Z.eqb_spec k 9); [split; [done|lia]|].
  destruct (Z.eqb_spec k 127); [split; [done|lia]|]. cbn [orb].
  destruct (Z.leb_spec 128 k), (Z.leb_spec k 191); try lia; [split; [done|lia]|]. cbn [andb].
  destruct (Z.ltb_spec 65531 n); [split; [done|lia]|].
  destruct (Z.eqb_spec k 2); [cbn; destruct (Z.eqb_spec n (6 - 2)); (split; [done || lia|done || lia])|].
  destruct (Z.eqb_spec k 3); [cbn; destruct (Z.eqb_spec n 8), (Z.eqb_spec n 10); (split; [done || lia|done || lia])|].
  destruct (Z.eqb_spec k 4); [cbn; destruct (Z.eqb_spec n (4 - 2)); (split; [done || lia|done || lia])|].
  destruct (Z.eqb_spec k 5); [cbn; destruct (Z.eqb_spec n (5 - 2)); (split; [done || lia|done || lia])|].
  destruct (Z.eqb_spec k 6); [cbn; destruct (Z.eqb_spec n (6 - 2)); (split; [done || lia|done || lia])|].
  destruct (Z.eqb_spec k 7); [cbn; destruct (Z.eqb_spec n (6 - 2)); (split; [done || lia|done || lia])|].
  cbn. split; [lia|done].
Qed.

(** Validation of a list: every option allowed, FRAG at most once. *)
Lemma validate_loop_allowed os : forall seen,
  Forall RawOption_wf os ->
  validate_loop seen os = Ok tt <->
  Forall allowed_option os /\ (frag_count os + (if seen then 1 else 0) <= 1)%nat.
Proof.
  induction os as [|o os IH]; intros seen Hw.
  - cbn. split; [|done]. intros _. split; [constructor|]. destruct seen; lia.
  - apply Forall_cons in Hw as [Ho Hw]. cbn [validate_loop]. pose proof (validate_option_allowed o Ho) as Ha.
    destruct (validate_option o) as [[]|e]; cbn -[frag_count].
    2:{ split; [done|]. intros [[Hx _]%Forall_cons _]. by apply Ha in Hx. }
    rewrite Forall_cons. destruct Ha as [Ha _]. specialize (Ha eq_refl). unfold frag_count.
    destruct (Z.eqb_spec (to_byte (ro_kind o)) KIND_FRAG).
    + rewrite filter_cons_True by done. cbn [length]. fold (frag_count os). destruct seen.
      * split; [done|]. intros [_ ?]. lia.
      * rewrite (IH true Hw). split; intros [? ?]; (split; [tauto|lia]).
    + rewrite filter_cons_False by done. fold (frag_count os). rewrite (IH seen Hw). tauto.
Qed.

(** C25. [finish] never panics (its [debug_assert_eq!] on the predicted length
    cannot fail), and it succeeds exactly when every option is one of those a sender
    may use, FRAG occurs at most once and the body is at most 65526 bytes long: the
    bound is the FRAG start check, which applies to bodies without a FRAG option
    too, not [BODY_LEN_MAX]. *)
Theorem serializer_total (b : OptionsBuilder) :
  Forall RawOption_wf (ob_options b) ->
  is_Some (OptionsBuilder_finish b) /\
  ((exists body, OptionsBuilder_finish b = Some (Ok body)) <->
   Forall allowed_option (ob_options b) /\ (frag_count (ob_options b) <= 1)%nat /\
   len (options_body_bytes (sort_by_rank (ob_options b))) <= 65526).
Proof.
  intros Hw. pose proof (validate_loop_allowed (ob_options b) false Hw) as Ha. rewrite Nat.add_0_r in Ha.
  destruct (validate_loop false (ob_options b)) as [[]|e] eqn:Hv.
  2:{ rewrite (finish_invalid _ _ Hv). split; [done|]. split; [by intros []|]. intros (H1 & H2 & _).
      destruct Ha as [_ Ha]. by specialize (Ha (conj H1 H2)). }
  destruct Ha as [Ha _]. destruct (Ha eq_refl) as [Hall Hone]. destruct (finish_spec b Hw Hv) as [H1 H2].
  destruct (Z.leb_spec (len (options_body_bytes (sort_by_rank (ob_options b)))) 65526) as [Hl|Hl].
  - rewrite H1 by done. split; [done|]. split; [done|]. by eauto.
  - destruct (H2 Hl) as [e ->]. split; [done|]. split; [by intros []|lia].
Qed.

(** A single unassigned option of 65522 value bytes makes a body of 65528 bytes. *)
Definition oversized_builder : OptionsBuilder :=
  OptionsBuilder_push OptionsBuilder_new (Other 10) (zeros 65522).

Lemma serializer_total_witness :
  OptionsBuilder_finish oversized_builder = Some (Err (FragmentStartTooLarge 65538 65535)) /\
  is_Some (OptionsBuilder_finish oversized_builder) /\
  exists body, OptionsBuilder_finish example_builder = Some (Ok body).
Proof.
  split; [vm_compute; reflexivity|]. split.
  - apply (serializer_total oversized_builder).
    constructor; [|constructor]. split; [unfold OptionKind_wf, u8; simpl; lia|apply bytes_zeros].
  - apply (serializer_total example_builder).
    + repeat constructor; simpl; unfold OptionKind_wf, u8, to_byte; unfold_consts; lia.
    + split; [repeat constructor; unfold allowed_option; vm_compute; intuition discriminate|].
      split; [vm_compute; lia|vm_compute; discriminate].
Defined.

(** The canonical order is a stable sort: the emitted options are the
    builder's, in nondecreasing rank (FRAG first, then APC, MDS, MRDS, REQ, RES
    and the rest by kind), and options of one kind keep their order. *)
Theorem canonical_order (b : OptionsBuilder) :
  sort_by_rank (ob_options b) ≡ₚ ob_options b /\
  StronglySorted rank_le (sort_by_rank (ob_options b)) /\
  forall r, filter (fun o => option_rank o = r) (sort_by_rank (ob_options b)) =
            filter (fun o => option_rank o = r) (ob_options b).
Proof.
  split; [apply sort_by_rank_perm|]. split; [apply sort_by_rank_sorted|].
  intros r. apply sort_by_rank_stable.
Qed.
