(* ===== verification/Split.v ===== *)
(** Splitting a datagram into FRAG fragments (src/src/frag/split.rs).

    [split_datagram] follows the source's checks in order and then runs the two
    loops, the range computation [chunk_ranges] and the loop that builds one
    [Fragment] per range.  [IdentificationGenerator_from_os_random] reads
    /dev/urandom and is not modelled beyond the pure [bounded_random_seed].

    The specification is [fragments_of]: the fragments of a list of data chunks
    laid out one after the other from offset 8 of the reassembled datagram. *)

From S2P Require Import Prelude Model Kind Parse Typed.

(** ** The code *)

Definition RANDOM_IDENTIFICATION_SEED_MASK : Z := Z.shiftr U32_MAX 1.
Definition IPV4_HEADER_LEN : Z := 20.
Definition FRAGMENT_SURPLUS_LEN_MAX : Z := U16_MAX - IPV4_HEADER_LEN - LENGTH_UDP_HEADER.
Definition FRAG_NON_TERMINAL_BODY_LEN : Z := LENGTH_OCS + LENGTH_FRAG_NON_TERMINAL.
Definition FRAG_TERMINAL_BODY_LEN : Z := LENGTH_OCS + LENGTH_FRAG_TERMINAL.

Record PeerFragmentLimits : Type := {
  pl_max_reassembled_size : Z;
  pl_max_segments : Z;
}.

Definition PeerFragmentLimits_default_ipv4 : PeerFragmentLimits :=
  {| pl_max_reassembled_size := LIMITS_MRDS_DEFAULT_IPV4;
     pl_max_segments := LIMITS_MIN_REASSEMBLY_SEGMENTS |}.

Record SplitConfig : Type := {
  sc_max_fragment_surplus_len : Z;
  sc_peer : PeerFragmentLimits;
  sc_identification : Z;
}.

Record Fragment : Type := {
  fg_offset : Z;
  fg_terminal : bool;
  fg_rdos : option Z;
  fg_surplus_body : list Z;
}.

Record IdentificationGenerator : Type := { ig_next : option Z }.

Definition IdentificationGenerator_new (next : Z) : IdentificationGenerator :=
  {| ig_next := Some next |}.

Definition IdentificationGenerator_next_id (g : IdentificationGenerator) :
    result Z SplitError * IdentificationGenerator :=
  match ig_next g with
  | None => (Err IdentificationExhausted, g)
  | Some id => (Ok id, {| ig_next := if id + 1 <=? U32_MAX then Some (id + 1) else None |})
  end.

(** [u32::from_ne_bytes] is the target's byte order, a parameter here. *)
Definition bounded_random_seed (little_endian : bool) (b0 b1 b2 b3 : Z) : Z :=
  let seed := if little_endian then u32_from_be b3 b2 b1 b0 else u32_from_be b0 b1 b2 b3 in
  Z.land seed RANDOM_IDENTIFICATION_SEED_MASK.

Definition checked_rdos (payload_len : Z) : result Z SplitError :=
  match checked_add LENGTH_UDP_HEADER payload_len with
  | None => Err (RdosTooLarge USIZE_MAX U16_MAX)
  | Some rdos =>
      match u16_try_from rdos with
      | Some r => Ok r
      | None => Err (RdosTooLarge rdos U16_MAX)
      end
  end.

Definition checked_fragment_offset (offset : Z) : result Z SplitError :=
  match u16_try_from offset with
  | Some o => Ok o
  | None => Err (FragmentOffsetTooLarge offset U16_MAX)
  end.

Definition rdos_needs_options_pad (payload_len : Z) : bool :=
  (LENGTH_UDP_HEADER + payload_len) mod 2 =? 1.

Definition reassembled_tail (payload per_datagram_options_body : list Z) : list Z :=
  let pad_len :=
    usize_of_bool (negb (is_nil per_datagram_options_body)
                   && rdos_needs_options_pad (len payload)) in
  let tail := payload in
  let tail := if pad_len =? 1 then tail ++ [0] else tail in
  tail ++ per_datagram_options_body.

(** The [while] loop of [chunk_ranges]: the ranges it pushes and the final
    [start].  The fuel counts iterations; every iteration takes at least a byte. *)
Fixpoint chunk_loop (fuel : nat) (terminal_capacity non_terminal_capacity start remaining : Z) :
    option (list (Z * Z * bool) * Z) :=
  match fuel with
  | O => None
  | S fuel' =>
      if terminal_capacity <? remaining then
        let take := Z.min non_terminal_capacity (remaining - terminal_capacity) in
        let! (ranges, start') :=
          chunk_loop fuel' terminal_capacity non_terminal_capacity (start + take) (remaining - take) in
        Some ((start, start + take, false) :: ranges, start')
      else Some ([], start)
  end.

Definition chunk_ranges (tail_len terminal_capacity non_terminal_capacity non_terminal_body_len : Z)
    (config : SplitConfig) : option (result (list (Z * Z * bool)) SplitError) :=
  if tail_len <=? terminal_capacity then Some (Ok [(0, tail_len, true)])
  else if non_terminal_capacity =? 0 then
    Some (Err (FragmentCapacityTooSmall (non_terminal_body_len + 1)
                 (sc_max_fragment_surplus_len config)))
  else
    let! (ranges, start) :=
      chunk_loop (S (Z.to_nat tail_len)) terminal_capacity non_terminal_capacity 0 tail_len in
    Some (Ok (ranges ++ [(start, tail_len, true)])).

Definition fragment_options_body_len (rdos : option Z) : Z :=
  match rdos with Some _ => FRAG_TERMINAL_BODY_LEN | None => FRAG_NON_TERMINAL_BODY_LEN end.

Definition frag_value (frag_start identification frag_offset : Z) (rdos : option Z) : list Z :=
  let value := [] ++ u16_to_be frag_start in
  let value := value ++ u32_to_be identification in
  let value := value ++ u16_to_be frag_offset in
  match rdos with Some rdos => value ++ u16_to_be rdos | None => value end.

Definition fragment_options_body (identification frag_offset : Z) (rdos : option Z) : list Z :=
  let body_len := fragment_options_body_len rdos in
  let frag_start := LENGTH_UDP_HEADER + body_len mod 65536 in
  let frag_len :=
    match rdos with Some _ => LENGTH_FRAG_TERMINAL | None => LENGTH_FRAG_NON_TERMINAL end in
  let body := [] ++ [0; 0] in
  let body := body ++ [KIND_FRAG] in
  let body := body ++ [frag_len] in
  body ++ frag_value frag_start identification frag_offset rdos.

(** The loop over the ranges. *)
Fixpoint build_fragments (atomic : bool) (tail : list Z) (rdos : Z) (config : SplitConfig)
    (ranges : list (Z * Z * bool)) : option (result (list Fragment) SplitError) :=
  match ranges with
  | [] => Some (Ok [])
  | (start, end_, terminal) :: ranges' =>
      let? offset :=
        if atomic then checked_fragment_offset 0
        else checked_fragment_offset (LENGTH_UDP_HEADER + start) in
      let frag_rdos := if terminal then Some rdos else None in
      let surplus_body := fragment_options_body (sc_identification config) offset frag_rdos in
      let! data := slice tail start end_ in
      let surplus_body := surplus_body ++ data in
      let! rest := build_fragments atomic tail rdos config ranges' in
      let? fragments := rest in
      Some (Ok ({| fg_offset := offset; fg_terminal := terminal; fg_rdos := frag_rdos;
                   fg_surplus_body := surplus_body |} :: fragments))
  end.

Definition split_datagram (payload per_datagram_options_body : list Z) (config : SplitConfig) :
    option (result (list Fragment) SplitError) :=
  if negb (is_nil per_datagram_options_body) && (len per_datagram_options_body <? LENGTH_OCS)
  then Some (Err (OptionsBodyTooShort (len per_datagram_options_body)))
  else if FRAGMENT_SURPLUS_LEN_MAX <? sc_max_fragment_surplus_len config
  then Some (Err (FragmentSurplusTooLarge (sc_max_fragment_surplus_len config)
                    FRAGMENT_SURPLUS_LEN_MAX))
  else
  let? rdos := checked_rdos (len payload) in
  let tail := reassembled_tail payload per_datagram_options_body in
  let reassembled_len := LENGTH_UDP_HEADER + len tail in
  if pl_max_reassembled_size (sc_peer config) <? reassembled_len
  then Some (Err (ReassembledDatagramTooLarge reassembled_len
                    (pl_max_reassembled_size (sc_peer config))))
  else
  let terminal_body_len := fragment_options_body_len (Some rdos) in
  if sc_max_fragment_surplus_len config <? terminal_body_len
  then Some (Err (FragmentCapacityTooSmall terminal_body_len (sc_max_fragment_surplus_len config)))
  else
  let terminal_capacity := sc_max_fragment_surplus_len config - terminal_body_len in
  let non_terminal_body_len := fragment_options_body_len None in
  let non_terminal_capacity :=
    saturating_sub (sc_max_fragment_surplus_len config) non_terminal_body_len in
  let! r := chunk_ranges (len tail) terminal_capacity non_terminal_capacity
              non_terminal_body_len config in
  let? ranges := r in
  if pl_max_segments (sc_peer config) <? len ranges
  then Some (Err (SegmentLimitExceeded (len ranges) (pl_max_segments (sc_peer config))))
  else
  let atomic := len ranges =? 1 in
  build_fragments atomic tail rdos config ranges.

(** ** Specification-side definitions *)

(** The fragment with the given FRAG fields and data. *)
Definition fragment_frag (id off : Z) (rdos : option Z) : FragOption :=
  {| frag_start := match rdos with Some _ => 22 | None => 20 end;
     frag_identification := id; frag_offset := off; frag_rdos := rdos |}.

Definition fragment_of (id off : Z) (rdos : option Z) (data : list Z) : Fragment :=
  {| fg_offset := off;
     fg_terminal := match rdos with Some _ => true | None => false end;
     fg_rdos := rdos;
     fg_surplus_body := [0; 0] ++ encode (fragment_frag id off rdos) [] ++ data |}.

(** Consecutive chunks from offset [off], the last one terminal. *)
Fixpoint fragments_of (id off : Z) (chunks : list (list Z)) (last : list Z) (rdos : Z) :
    list Fragment :=
  match chunks with
  | [] => [fragment_of id off (Some rdos) last]
  | c :: chunks' => fragment_of id off None c :: fragments_of id (off + len c) chunks' last rdos
  end.

(** The fragments of a datagram: one atomic fragment at offset 0, or several. *)
Definition fragment_layout (id : Z) (chunks : list (list Z)) (last : list Z) (rdos : Z) :
    list Fragment :=
  fragments_of id (if is_nil chunks then 0 else 8) chunks last rdos.

(** The non-terminal fragments needed for [n] bytes with the given capacities. *)
Definition non_terminal_count (n terminal_capacity non_terminal_capacity : Z) : Z :=
  if n <=? terminal_capacity then 0
  else (n - terminal_capacity + non_terminal_capacity - 1) / non_terminal_capacity.

(** ** Lemmas: ranges *)

(** [rs] are consecutive nonempty ranges of at most [N] bytes from [s] to [e]. *)
Inductive covers (N : Z) : Z -> list (Z * Z * bool) -> Z -> Prop :=
| covers_nil s : covers N s [] s
| covers_cons s t rs e :
    0 < t <= N -> covers N (s + t) rs e -> covers N s ((s, s + t, false) :: rs) e.

Lemma covers_le N s rs e : covers N s rs e -> s <= e.
Proof. induction 1; lia. Qed.

Lemma chunk_loop_spec fuel T N s r :
  0 <= T -> 0 < N -> 0 <= r -> (Z.to_nat r < fuel)%nat ->
  exists rs e, chunk_loop fuel T N s r = Some (rs, e) /\ covers N s rs e /\
    s + r - T <= e <= s + r /\ len rs = non_terminal_count r T N.
Proof.
  intros HT HN. revert s r. induction fuel as [|fuel IH]; intros s r Hr Hf; [lia|].
  cbn [chunk_loop]. unfold non_terminal_count. destruct (Z.ltb_spec T r), (Z.leb_spec r T); try lia.
  - cbv zeta. set (t := Z.min N (r - T)).
    destruct (IH (s + t) (r - t)) as (rs & e & -> & Hc & He & Hl); [lia..|].
    do 2 eexists. split; [done|]. split; [constructor; [lia|done]|]. split; [lia|].
    rewrite len_cons, Hl. unfold non_terminal_count. destruct (Z.leb_spec (r - t) T).
    + apply Z.div_unique with (r - T - 1); lia.
    + replace (r - T + N - 1) with ((r - t - T + N - 1) + 1 * N) by lia.
      rewrite Z.div_add by lia. lia.
  - do 2 eexists. split; [done|]. split; [constructor|]. split; [lia|done].
Qed.

(** The data of each range. *)
Definition range_chunks (tail : list Z) (rs : list (Z * Z * bool)) : list (list Z) :=
  (fun r => sub tail r.1.1 r.1.2) <$> rs.

Lemma range_chunks_concat N tail s rs e :
  covers N s rs e -> 0 <= s -> e <= len tail ->
  concat (range_chunks tail rs) ++ sub tail e (len tail) = sub tail s (len tail).
Proof.
  induction 1 as [|s t rs e Ht Hc IH]; intros Hs He; [done|]. simpl.
  rewrite <- app_assoc, IH by lia. pose proof (covers_le _ _ _ _ Hc).
  rewrite <- sub_split; [done|lia..].
Qed.

Lemma range_chunks_size N tail s rs e :
  covers N s rs e -> 0 <= s -> e <= len tail ->
  Forall (fun c => 0 < len c <= N) (range_chunks tail rs).
Proof.
  induction 1 as [|s t rs e Ht Hc IH]; intros Hs He; constructor; [|apply IH; lia].
  simpl. pose proof (covers_le _ _ _ _ Hc). rewrite len_sub; lia.
Qed.

(** ** Lemmas: fragments *)

Lemma fragment_body_encode id off rdos :
  fragment_options_body id off rdos = [0; 0] ++ encode (fragment_frag id off rdos) [].
Proof.
  unfold fragment_options_body, frag_value. simpl. unfold Frag_encode, write_header, fragment_frag.
  by destruct rdos; rewrite <- ?app_assoc.
Qed.

Lemma checked_fragment_offset_Ok off : off <= 65535 -> checked_fragment_offset off = Ok off.
Proof.
  intros. unfold checked_fragment_offset, u16_try_from. change U16_MAX with 65535.
  by destruct (Z.leb_spec off 65535); [|lia].
Qed.

Lemma checked_rdos_spec n :
  checked_rdos n =
  if 8 + n <=? 65535 then Ok (8 + n)
  else Err (RdosTooLarge (Z.min (8 + n) USIZE_MAX) U16_MAX).
Proof.
  unfold checked_rdos, checked_add, u16_try_from. change LENGTH_UDP_HEADER with 8.
  change U16_MAX with 65535. change USIZE_MAX with 18446744073709551615.
  bool_cases; try done; try lia; do 2 f_equal; lia.
Qed.

Lemma build_terminal (atomic : bool) tail rdos cfg s off :
  0 <= s <= len tail -> off <= 65535 -> off = (if atomic then 0 else 8 + s) ->
  build_fragments atomic tail rdos cfg [(s, len tail, true)] =
  Some (Ok [fragment_of (sc_identification cfg) off (Some rdos) (sub tail s (len tail))]).
Proof.
  intros Hs Ho ->. cbn [build_fragments]. change LENGTH_UDP_HEADER with 8.
  assert ((if atomic then checked_fragment_offset 0 else checked_fragment_offset (8 + s))
          = Ok (if atomic then 0 else 8 + s)) as -> by (destruct atomic; by apply checked_fragment_offset_Ok).
  rewrite slice_Some by lia. cbv beta iota zeta. rewrite fragment_body_encode.
  by unfold fragment_of; rewrite <- app_assoc.
Qed.

Lemma build_covers N tail rdos cfg s rs e :
  covers N s rs e -> 0 <= s -> e <= len tail -> 8 + len tail <= 65535 ->
  build_fragments false tail rdos cfg (rs ++ [(e, len tail, true)]) =
  Some (Ok (fragments_of (sc_identification cfg) (8 + s) (range_chunks tail rs)
              (sub tail e (len tail)) rdos)).
Proof.
  induction 1 as [s|s t rs e Ht Hc IH]; intros Hs He Hl.
  { apply build_terminal; lia. }
  pose proof (covers_le _ _ _ _ Hc). cbn [build_fragments app]. change LENGTH_UDP_HEADER with 8.
  rewrite checked_fragment_offset_Ok by lia. cbv beta iota zeta. rewrite slice_Some by lia.
  rewrite IH by lia. rewrite fragment_body_encode. simpl. rewrite len_sub by lia.
  by replace (8 + (s + t)) with (8 + s + (s + t - s)) by lia.
Qed.

Lemma len_reassembled_tail payload body :
  len (reassembled_tail payload body) =
  len payload + (if is_nil body then 0 else len payload mod 2) + len body.
Proof.
  unfold reassembled_tail, rdos_needs_options_pad, usize_of_bool. change LENGTH_UDP_HEADER with 8.
  destruct (is_nil body); simpl; rewrite !len_app; [lia|].
  destruct (Z.eqb_spec ((8 + len payload) mod 2) 1); simpl; rewrite ?len_app, ?len_cons, ?(@len_nil Z); dlia.
Qed.

(** ** What [split_datagram] does *)

(** The configuration's fields have their machine widths. *)
Definition SplitConfig_wf (cfg : SplitConfig) : Prop :=
  usize (sc_max_fragment_surplus_len cfg) /\ u32 (sc_identification cfg) /\
  u16 (pl_max_reassembled_size (sc_peer cfg)) /\ u8 (pl_max_segments (sc_peer cfg)).

(** When splitting is possible. *)
Definition splittable (payload body : list Z) (cfg : SplitConfig) : Prop :=
  let budget := sc_max_fragment_surplus_len cfg in
  let n := len (reassembled_tail payload body) in
  len body <> 1 /\ 14 <= budget <= 65507 /\
  8 + n <= pl_max_reassembled_size (sc_peer cfg) /\
  1 + non_terminal_count n (budget - 14) (budget - 12) <= pl_max_segments (sc_peer cfg).

Record split_result (payload body : list Z) (cfg : SplitConfig) (frags : list Fragment)
    (chunks : list (list Z)) (last : list Z) : Prop := {
  split_data : concat chunks ++ last = reassembled_tail payload body;
  split_frags : frags = fragment_layout (sc_identification cfg) chunks last (8 + len payload);
  split_sizes : Forall (fun c => 0 < len c <= sc_max_fragment_surplus_len cfg - 12) chunks;
  split_last : len last <= sc_max_fragment_surplus_len cfg - 14;
  split_count : len chunks = non_terminal_count (len (reassembled_tail payload body))
                  (sc_max_fragment_surplus_len cfg - 14) (sc_max_fragment_surplus_len cfg - 12);
}.

Lemma chunk_ranges_spec n budget cfg :
  0 <= n -> 14 <= budget ->
  exists rs e, chunk_ranges n (budget - 14) (budget - 12) 12 cfg
      = Some (Ok (rs ++ [(e, n, true)])) /\
    covers (budget - 12) 0 rs e /\ n - (budget - 14) <= e <= n /\
    len rs = non_terminal_count n (budget - 14) (budget - 12).
Proof.
  intros Hn Hb. unfold chunk_ranges. destruct (Z.leb_spec n (budget - 14)).
  - exists [], 0. split; [done|]. split; [constructor|]. split; [lia|].
    unfold non_terminal_count. by destruct (Z.leb_spec n (budget - 14)); [|lia].
  - destruct (Z.eqb_spec (budget - 12) 0); [lia|].
    destruct (chunk_loop_spec (S (Z.to_nat n)) (budget - 14) (budget - 12) 0 n)
      as (rs & e & -> & Hc & He & Hl); [lia..|].
    exists rs, e. split; [done|]. split; [done|]. split; [lia|done].
Qed.

Lemma covers_nil_inv N s rs e : covers N s rs e -> len rs = 0 -> e = s.
Proof. destruct 1; [done|]. rewrite len_cons. pose proof (len_nonneg rs). lia. Qed.

Lemma build_layout N tail rdos cfg rs e :
  covers N 0 rs e -> e <= len tail -> 8 + len tail <= 65535 ->
  build_fragments (len rs + 1 =? 1) tail rdos cfg (rs ++ [(e, len tail, true)]) =
  Some (Ok (fragment_layout (sc_identification cfg) (range_chunks tail rs)
              (sub tail e (len tail)) rdos)).
Proof.
  intros Hc He Hl. pose proof (covers_le _ _ _ _ Hc). unfold fragment_layout. destruct rs as [|r rs].
  - rewrite (covers_nil_inv _ _ _ _ Hc) in * by done. cbn [app]. apply build_terminal; simpl; lia.
  - replace (_ =? 1) with false by (symmetry; apply Z.eqb_neq; rewrite len_cons;
      pose proof (len_nonneg rs); lia).
    by rewrite (build_covers _ _ _ _ _ _ _ Hc) by lia.
Qed.

Lemma split_spec payload body cfg :
  SplitConfig_wf cfg ->
  (splittable payload body cfg ->
     exists frags chunks last, split_datagram payload body cfg = Some (Ok frags) /\
       split_result payload body cfg frags chunks last) /\
  (~ splittable payload body cfg -> exists e, split_datagram payload body cfg = Some (Err e)).
Proof.
  intros (Hwb & _ & Hwr & Hws). unfold splittable, split_datagram.
  pose proof (len_nonneg body) as Hb0. pose proof (len_nonneg payload) as Hp0.
  set (tail := reassembled_tail payload body).
  assert (len payload <= len tail) as Hpt.
  { unfold tail. rewrite len_reassembled_tail. destruct (is_nil body); dlia. }
  rewrite is_nil_len. change LENGTH_OCS with 2. change FRAGMENT_SURPLUS_LEN_MAX with 65507.
  change LENGTH_UDP_HEADER with 8. set (budget := sc_max_fragment_surplus_len cfg) in *.
  set (maxr := pl_max_reassembled_size (sc_peer cfg)) in *.
  set (maxs := pl_max_segments (sc_peer cfg)) in *.
  destruct (negb (len body =? 0) && (len body <? 2)) eqn:E1.
  { bool_cases; try done. split; [intros (? & _); lia|eauto]. }
  assert (len body <> 1) as Hb1 by (intros Hb1; rewrite Hb1 in E1; done).
  destruct (Z.ltb_spec 65507 budget); [split; [lia|eauto]|].
  rewrite checked_rdos_spec. unfold_widths. destruct (Z.leb_spec (8 + len payload) 65535).
  2:{ split; [lia|eauto]. }
  cbv beta iota zeta. destruct (Z.ltb_spec maxr (8 + len tail)); [split; [lia|eauto]|].
  change (fragment_options_body_len (Some (8 + len payload))) with 14.
  change (fragment_options_body_len None) with 12.
  destruct (Z.ltb_spec budget 14); [split; [lia|eauto]|].
  unfold saturating_sub. rewrite (Z.max_r 0) by lia.
  destruct (chunk_ranges_spec (len tail) budget cfg) as (rs & e & -> & Hc & He & Hl);
    [apply len_nonneg|lia|].
  rewrite len_app. change (len [(e, len tail, true)]) with 1.
  destruct (Z.ltb_spec maxs (len rs + 1)); [split; [lia|eauto]|]. split; [|lia]. intros _.
  pose proof (covers_le _ _ _ _ Hc) as H0e.
  exists (fragment_layout (sc_identification cfg) (range_chunks tail rs)
            (sub tail e (len tail)) (8 + len payload)),
    (range_chunks tail rs), (sub tail e (len tail)). split.
  - apply (build_layout _ _ _ _ _ _ Hc); lia.
  - split.
    + rewrite (range_chunks_concat _ _ _ _ _ Hc) by lia. apply sub_full.
    + done.
    + apply (range_chunks_size _ _ _ _ _ Hc); lia.
    + rewrite len_sub; fold budget; lia.
    + fold tail budget. rewrite <- Hl. unfold range_chunks. len_lia.
Qed.

(** ** What the receiver reads from a fragment body *)

(** The FRAG option at the front of an OCS-led body, decoded, and the bytes from
    its start field on (offsets count from the UDP header). *)
Definition fragment_view (body : list Z) : option (FragOption * list Z) :=
  let! (next, _) := OptionsIter_next (OptionsIter_new (sub body 2 (len body))) in
  match next with
  | Some (Ok o) =>
      if decide (or_kind o = Frag) then
        let! d := Frag_decode (or_value o) in
        match d with
        | Ok f => Some (f, sub body (frag_start f - 8) (len body))
        | Err _ => None
        end
      else None
  | _ => None
  end.

Definition fragment_wf (id off : Z) (rdos : option Z) : Prop :=
  u32 id /\ u16 off /\ match rdos with Some r => u16 r | None => True end.

Lemma fragment_frag_wf id off rdos :
  fragment_wf id off rdos -> Frag_wf (fragment_frag id off rdos).
Proof.
  unfold fragment_wf, Frag_wf, fragment_frag, u16. cbn.
  destruct rdos; intuition lia.
Qed.

Lemma fragment_body_value id off rdos data :
  fragment_wf id off rdos ->
  fg_surplus_body (fragment_of id off rdos data) =
  [0; 0] ++ KIND_FRAG :: (len (Frag_value (fragment_frag id off rdos)) + 2)
    :: Frag_value (fragment_frag id off rdos) ++ data.
Proof.
  intros Hw. unfold fragment_of. cbn [fg_surplus_body].
  rewrite (typed_encode (T := FragOption)) by (by apply fragment_frag_wf). done.
Qed.

Lemma len_fragment_body id off rdos data :
  len (fg_surplus_body (fragment_of id off rdos data)) =
  fragment_options_body_len rdos + len data.
Proof.
  unfold fragment_of. cbn [fg_surplus_body]. rewrite app_assoc, <- fragment_body_encode, len_app.
  by destruct rdos.
Qed.

(** An iterator at a complete short option yields it. *)
Lemma next_short k v rest :
  k <> KIND_EOL -> k <> KIND_NOP -> len v <= 252 -> bytes (k :: (len v + 2) :: v ++ rest) ->
  exists it, OptionsIter_next (OptionsIter_new (k :: (len v + 2) :: v ++ rest))
    = Some (Some (Ok (option_ref k v 2)), it).
Proof.
  intros H1 H2 H3 Hb. pose proof (head_short 0 k v rest H1 H2 H3) as Hh.
  destruct (next_at_cons (OptionsIter_new (k :: (len v + 2) :: v ++ rest)) [] _
    (iter_at_new _) Hb ltac:(done)) as (i & it & Hn & [[_ Hh']|(? & ? & _ & _ & _ & Hh')]);
    destruct (tlv_head_det _ _ _ _ _ _ Hh Hh') as [<- ?]; [done|]. eauto.
Qed.

Lemma fragment_view_of id off rdos data :
  fragment_wf id off rdos -> bytes data ->
  fragment_view (fg_surplus_body (fragment_of id off rdos data))
  = Some (fragment_frag id off rdos, data).
Proof.
  intros Hw Hd. pose proof (fragment_frag_wf _ _ _ Hw) as Hf.
  pose proof (bytes_Frag_value (fragment_frag id off rdos)) as Hvb.
  unfold fragment_view. rewrite len_fragment_body, fragment_body_value by done.
  pose proof (len_nonneg data) as Hd0.
  set (v := Frag_value (fragment_frag id off rdos)) in *.
  assert (len v = fragment_options_body_len rdos - 4) as Hv.
  { unfold v. rewrite len_Frag_value. by destruct rdos. }
  assert (len v <= 252) as Hvl by (rewrite Hv; by destruct rdos).
  pose proof (len_nonneg v) as Hv0. rewrite sub_suffix; [|done|].
  2:{ change (len [0; 0]) with 2. rewrite len_cons, len_cons, len_app, Hv. lia. }
  destruct (next_short KIND_FRAG v data) as [it ->]; [done..| |].
  { constructor; [unfold u8, KIND_FRAG; lia|]. constructor; [unfold u8; lia|].
    by apply Forall_app. }
  cbv beta iota. rewrite decide_True by done. cbn [or_value option_ref]. unfold v.
  rewrite Frag_decode_value by done. do 2 f_equal.
  change ([0; 0] ++ KIND_FRAG :: ?n :: ?r ++ data) with (([0; 0; KIND_FRAG; n] ++ r) ++ data).
  fold v. apply sub_suffix; rewrite len_app; change (len [0; 0; KIND_FRAG; len v + 2]) with 4;
    rewrite Hv; destruct rdos; simpl; unfold FRAG_TERMINAL_BODY_LEN, FRAG_NON_TERMINAL_BODY_LEN;
    unfold_consts; lia.
Qed.

Lemma reassembled_tail_bytes payload body :
  bytes payload -> bytes body -> bytes (reassembled_tail payload body).
Proof.
  intros. unfold reassembled_tail. apply Forall_app. split; [|done].
  destruct (_ =? 1); [|done]. apply Forall_app. split; [done|]. repeat constructor; unfold u8; lia.
Qed.

(** Each fragment reads back as its chunk and fits the budget. *)
Definition reads_back (id budget : Z) (f : Fragment) (data : list Z) : Prop :=
  fragment_view (fg_surplus_body f) = Some (fragment_frag id (fg_offset f) (fg_rdos f), data) /\
  len (fg_surplus_body f) <= budget.

(** A fragment of chunk [data] with well-formed FRAG fields, within the budget. *)
Definition carries_chunk (id budget : Z) (f : Fragment) (data : list Z) : Prop :=
  f = fragment_of id (fg_offset f) (fg_rdos f) data /\ fragment_wf id (fg_offset f) (fg_rdos f) /\
  bytes data /\ len (fg_surplus_body f) <= budget.

Lemma carries_reads_back id budget f data :
  carries_chunk id budget f data -> reads_back id budget f data.
Proof. intros (Hf & Hw & Hb & Hl). split; [|done]. rewrite Hf at 1. by apply fragment_view_of. Qed.

Lemma fragments_of_carry id budget off chunks last rdos :
  u32 id -> u16 rdos -> 0 <= off -> off + len (concat chunks) < 65536 ->
  bytes (concat chunks ++ last) ->
  Forall (fun c => len c <= budget - 12) chunks -> len last <= budget - 14 ->
  Forall2 (carries_chunk id budget) (fragments_of id off chunks last rdos) (chunks ++ [last]).
Proof.
  intros Hid Hr. revert off. induction chunks as [|c chunks IH]; intros off H0 Ho Hb Hc Hl.
  - change (concat []) with (@nil Z) in *. rewrite (@len_nil Z) in Ho.
    cbn [fragments_of app] in *. constructor; [|constructor]. split; [done|]. split; [|split; [done|]].
    + cbn [fragment_of fg_offset fg_rdos]. unfold fragment_wf, u16. split; [done|]. split; [lia|apply Hr].
    + rewrite len_fragment_body. simpl. change FRAG_TERMINAL_BODY_LEN with 14. lia.
  - cbn [concat fragments_of app] in *. rewrite len_app in Ho. pose proof (len_nonneg c).
    pose proof (len_nonneg (concat chunks)). rewrite <- app_assoc in Hb.
    apply Forall_app in Hb as [Hbc Hb]. apply Forall_cons in Hc as [Hc Hcs].
    constructor; [|apply IH; try done; lia]. split; [done|]. split; [|split; [done|]].
    + cbn [fragment_of fg_offset fg_rdos]. unfold fragment_wf, u16. split; [done|]. split; [lia|done].
    + rewrite len_fragment_body. simpl. change FRAG_NON_TERMINAL_BODY_LEN with 12. lia.
Qed.

Lemma split_carry payload body cfg frags chunks last :
  SplitConfig_wf cfg -> bytes payload -> bytes body -> splittable payload body cfg ->
  split_result payload body cfg frags chunks last ->
  Forall2 (carries_chunk (sc_identification cfg) (sc_max_fragment_surplus_len cfg)) frags
    (chunks ++ [last]).
Proof.
  intros (_ & Hid & Hmax & _) Hp Hb (_ & _ & Hr & _) [Hd -> Hs Hl _].
  pose proof (len_reassembled_tail payload body) as Hlt. pose proof (len_nonneg payload).
  pose proof (len_nonneg body). pose proof (len_nonneg last).
  pose proof (reassembled_tail_bytes payload body Hp Hb) as Htb.
  assert (len (concat chunks) + len last = len (reassembled_tail payload body)) as Hc
    by (by rewrite <- Hd, len_app).
  unfold fragment_layout. unfold u16 in Hmax. apply fragments_of_carry; try done.
  - unfold u16. destruct (is_nil body); dlia.
  - by destruct (is_nil chunks).
  - destruct (is_nil chunks); lia.
  - by rewrite Hd.
  - apply (Forall_impl _ _ _ Hs). intros; lia.
Qed.

Lemma split_read_back payload body cfg frags chunks last :
  SplitConfig_wf cfg -> bytes payload -> bytes body -> splittable payload body cfg ->
  split_result payload body cfg frags chunks last ->
  Forall2 (reads_back (sc_identification cfg) (sc_max_fragment_surplus_len cfg)) frags
    (chunks ++ [last]).
Proof.
  intros Hw Hp Hb Hy Hr. eapply Forall2_impl; [exact (split_carry _ _ _ _ _ _ Hw Hp Hb Hy Hr)|].
  apply carries_reads_back.
Qed.

Lemma split_Ok payload body cfg frags :
  SplitConfig_wf cfg -> split_datagram payload body cfg = Some (Ok frags) ->
  splittable payload body cfg /\ exists chunks last, split_result payload body cfg frags chunks last.
Proof.
  intros Hw Hs. destruct (split_spec payload body cfg Hw) as [H1 H2].
  assert (Decision (splittable payload body cfg)) as [Hy|Hn] by (unfold splittable; apply _).
  - destruct (H1 Hy) as (fr & ch & la & Heq & Hr). rewrite Heq in Hs. simplify_eq. eauto.
  - destruct (H2 Hn) as [e He]. congruence.
Qed.

Lemma split_cover (payload body : list Z) (cfg : SplitConfig) (frags : list Fragment) :
  SplitConfig_wf cfg -> bytes payload -> bytes body ->
  split_datagram payload body cfg = Some (Ok frags) ->
  exists chunks last,
    concat chunks ++ last = reassembled_tail payload body /\
    frags = fragment_layout (sc_identification cfg) chunks last (8 + len payload) /\
    Forall2 (reads_back (sc_identification cfg) (sc_max_fragment_surplus_len cfg)) frags
      (chunks ++ [last]) /\
    Forall (fun c => c <> []) chunks /\
    len frags <= pl_max_segments (sc_peer cfg).
Proof.
  intros Hw Hp Hb Hs. destruct (split_Ok _ _ _ _ Hw Hs) as (Hy & chunks & last & Hr).
  pose proof (split_read_back _ _ _ _ _ _ Hw Hp Hb Hy Hr) as Hrb.
  exists chunks, last. split; [apply Hr|]. split; [apply Hr|]. split; [done|]. split.
  - apply (Forall_impl _ _ _ (split_sizes _ _ _ _ _ _ Hr)). intros c Hc ->.
    change (len []) with 0 in Hc. lia.
  - destruct Hy as (_ & _ & _ & Hn). rewrite <- (split_count _ _ _ _ _ _ Hr) in Hn.
    apply Forall2_length in Hrb. rewrite length_app in Hrb. unfold len in *. simpl in *. lia.
Qed.

Lemma split_answers payload body cfg : SplitConfig_wf cfg -> is_Some (split_datagram payload body cfg).
Proof.
  intros Hw. destruct (split_spec payload body cfg Hw) as [H1 H2].
  assert (Decision (splittable payload body cfg)) as [Hy|Hn] by (unfold splittable; apply _).
  - destruct (H1 Hy) as (fr & ch & la & -> & _). done.
  - by destruct (H2 Hn) as [e ->].
Qed.

(** ** Properties *)

(** C10. The fragments of a datagram, each read back from its own FRAG option,
    carry consecutive pieces of the reassembled tail (user data, alignment pad,
    options body) at the offsets they announce, all with the configured
    identification and none over the surplus budget; only the last one is
    terminal and it announces 8 plus the user data length as its RDOS. *)
Theorem split_fragments_cover (payload body : list Z) (cfg : SplitConfig) (frags : list Fragment) :
  SplitConfig_wf cfg -> bytes payload -> bytes body ->
  split_datagram payload body cfg = Some (Ok frags) ->
  exists chunks last,
    concat chunks ++ last = reassembled_tail payload body /\
    frags = fragment_layout (sc_identification cfg) chunks last (8 + len payload) /\
    Forall2 (reads_back (sc_identification cfg) (sc_max_fragment_surplus_len cfg)) frags
      (chunks ++ [last]) /\
    Forall (fun c => c <> []) chunks /\
    len frags <= pl_max_segments (sc_peer cfg).
Proof. apply split_cover. Qed.

Definition example_split_config : SplitConfig :=
  {| sc_max_fragment_surplus_len := 18;
     sc_peer := {| pl_max_reassembled_size := 2926; pl_max_segments := 3 |};
     sc_identification := 0x01020304 |}.

Lemma split_fragments_cover_witness :
  split_datagram [10; 11; 12; 13; 14] [0; 0; 1; 0] example_split_config =
    Some (Ok [
      {| fg_offset := 8; fg_terminal := false; fg_rdos := None;
         fg_surplus_body := [0; 0; 3; 10; 0; 20; 1; 2; 3; 4; 0; 8; 10; 11; 12; 13; 14; 0] |};
      {| fg_offset := 14; fg_terminal := true; fg_rdos := Some 13;
         fg_surplus_body := [0; 0; 3; 12; 0; 22; 1; 2; 3; 4; 0; 14; 0; 13; 0; 0; 1; 0] |}]) /\
  exists frags chunks last,
    split_datagram [10; 11; 12; 13; 14] [0; 0; 1; 0] example_split_config = Some (Ok frags) /\
    concat chunks ++ last = [10; 11; 12; 13; 14; 0; 0; 0; 1; 0] /\
    Forall2 (reads_back 0x01020304 18) frags (chunks ++ [last]).
Proof.
  split; [reflexivity|].
  destruct (split_datagram [10; 11; 12; 13; 14] [0; 0; 1; 0] example_split_config)
    as [[frags|]|] eqn:E; [|discriminate E..].
  destruct (split_fragments_cover [10; 11; 12; 13; 14] [0; 0; 1; 0] example_split_config frags)
    as (chunks & last & H1 & _ & H2 & _).
  - repeat split; simpl; unfold USIZE_MAX; lia.
  - repeat constructor; unfold u8; lia.
  - repeat constructor; unfold u8; lia.
  - exact E.
  - exists frags, chunks, last. split; [reflexivity|]. split; [exact H1|exact H2].
Defined.

(** C24. [split_datagram] never panics, its range loop terminates, and it succeeds
    exactly when the options body is not a single byte, the budget lies between
    14 and 65507 bytes, the reassembled datagram fits the peer's MRDS size, and
    one terminal fragment plus the computed number of non-terminal fragments
    stays within the peer's segment limit. *)
Theorem split_total (payload body : list Z) (cfg : SplitConfig) :
  SplitConfig_wf cfg ->
  is_Some (split_datagram payload body cfg) /\
  ((exists frags, split_datagram payload body cfg = Some (Ok frags)) <->
   splittable payload body cfg).
Proof.
  intros Hw. destruct (split_spec payload body cfg Hw) as [H1 H2].
  assert (Decision (splittable payload body cfg)) as [Hy|Hn] by (unfold splittable; apply _).
  - destruct (H1 Hy) as (fr & ch & la & -> & _). split; [done|]. split; eauto.
  - destruct (H2 Hn) as [e ->]. split; [done|]. split; [by intros []|done].
Qed.

Lemma split_total_witness :
  is_Some (split_datagram (zeros 100) [] example_split_config) /\
  ~ splittable (zeros 100) [] example_split_config.
Proof.
  destruct (split_total (zeros 100) [] example_split_config) as [H1 H2].
  - repeat split; simpl; unfold USIZE_MAX; lia.
  - split; [exact H1|]. intros Hs. apply H2 in Hs as [frags Hf].
    vm_compute in Hf. discriminate Hf.
Defined.

(** [n] calls of [next_id]. *)
Fixpoint next_ids (n : nat) (g : IdentificationGenerator) : list (result Z SplitError) :=
  match n with
  | O => []
  | S n' => let '(r, g') := IdentificationGenerator_next_id g in r :: next_ids n' g'
  end.

Lemma next_ids_exhausted n :
  next_ids n {| ig_next := None |} = replicate n (Err IdentificationExhausted).
Proof. induction n as [|n IH]; simpl; [done|]. by rewrite IH. Qed.

Lemma next_ids_lookup n seed k :
  seed <= U32_MAX -> (k < n)%nat ->
  next_ids n (IdentificationGenerator_new seed) !! k =
  Some (if seed + Z.of_nat k <=? U32_MAX then Ok (seed + Z.of_nat k)
        else Err IdentificationExhausted).
Proof.
  unfold U32_MAX. revert seed k.
  induction n as [|n IH]; intros seed k Hs Hk; [lia|]. cbn [next_ids].
  unfold IdentificationGenerator_next_id. simpl ig_next. cbv beta iota. destruct k as [|k]; simpl.
  - rewrite Z.add_0_r. by destruct (Z.leb_spec seed 4294967295); [|lia].
  - unfold U32_MAX. destruct (Z.leb_spec (seed + 1) 4294967295).
    + fold (IdentificationGenerator_new (seed + 1)). rewrite (IH (seed + 1) k) by lia.
      by replace (seed + 1 + Z.of_nat k) with (seed + Z.pos (Pos.of_succ_nat k)) by lia.
    + rewrite next_ids_exhausted, lookup_replicate_2 by lia.
      bool_cases; [lia|done].
Qed.

Lemma bounded_random_seed_bound le b0 b1 b2 b3 :
  u8 b0 -> u8 b1 -> u8 b2 -> u8 b3 -> 0 <= bounded_random_seed le b0 b1 b2 b3 < 2147483648.
Proof.
  intros. unfold bounded_random_seed. change RANDOM_IDENTIFICATION_SEED_MASK with (Z.ones 31).
  rewrite Z.land_ones by done. by apply Z.mod_pos_bound.
Qed.

(** Identifications never repeat and never wrap: from a seed, the k-th call
    of [next_id] returns the seed plus k, up to and including [u32::MAX], and
    every later call fails closed; a generator seeded from random bytes has more
    than half of the identification space left. *)
Theorem identification_sequence (seed : Z) (n k : nat) (le : bool) (b0 b1 b2 b3 : Z) :
  u32 seed -> (k < n)%nat -> u8 b0 -> u8 b1 -> u8 b2 -> u8 b3 ->
  next_ids n (IdentificationGenerator_new seed) !! k =
    Some (if seed + Z.of_nat k <=? U32_MAX then Ok (seed + Z.of_nat k)
          else Err IdentificationExhausted) /\
  (Z.of_nat k <= 2147483647 -> exists id,
    next_ids n (IdentificationGenerator_new (bounded_random_seed le b0 b1 b2 b3)) !! k = Some (Ok id)).
Proof.
  intros Hs Hk ????. unfold u32 in Hs.
  assert (0 <= bounded_random_seed le b0 b1 b2 b3 < 2147483648)
    by (by apply bounded_random_seed_bound). split.
  - apply next_ids_lookup; [unfold U32_MAX; lia|done].
  - intros. rewrite next_ids_lookup by (done || (unfold U32_MAX; lia)). unfold U32_MAX.
    destruct (Z.leb_spec (bounded_random_seed le b0 b1 b2 b3 + Z.of_nat k) 4294967295);
      [eauto|lia].
Qed.

Lemma identification_sequence_witness :
  next_ids 3 (IdentificationGenerator_new 4294967294)
    = [Ok 4294967294; Ok 4294967295; Err IdentificationExhausted] /\
  next_ids 3 (IdentificationGenerator_new 4294967294) !! 2%nat
    = Some (Err IdentificationExhausted).
Proof.
  split; [reflexivity|].
  refine (proj1 (identification_sequence 4294967294 3 2 true 0 0 0 0 _ _ _ _ _ _));
    unfold u32, u8; lia.
Defined.
