(* ===== verification/Reassembly.v ===== *)
(** FRAG reassembly (src/src/frag/reassembly.rs).

    The cache is a finite map from [FragKey] to [Partial], the segments of a
    partial are a list kept sorted by the standard library's binary search, and
    every operation threads the cache.  [HashMap::retain] is [filter], an
    [Instant] is a number of nanoseconds and [duration_since] saturates at zero.

    The properties rest on [Partial_wf], the invariant of one incomplete
    datagram: its segments are nonempty, disjoint and sorted, and its counters
    agree with them. *)

From S2P Require Import Prelude Model Kind Parse Typed Ip.

(** ** Data *)

Record FragKey : Type := {
  fk_src : Ipv4Addr;
  fk_dst : Ipv4Addr;
  fk_src_port : Z;
  fk_dst_port : Z;
  fk_identification : Z;
}.

#[export] Instance FragKey_eq_dec : EqDecision FragKey.
Proof. solve_decision. Defined.

#[export] Instance FragKey_countable : Countable FragKey.
Proof.
  refine (inj_countable'
    (fun k => (fk_src k, fk_dst k, fk_src_port k, fk_dst_port k, fk_identification k))
    (fun '(a, b, c, d, e) => {| fk_src := a; fk_dst := b; fk_src_port := c;
                                fk_dst_port := d; fk_identification := e |}) _).
  by intros [].
Defined.

Record ReassemblyLimits : Type := {
  rl_max_reassembled_size : Z;
  rl_max_segments : Z;
  rl_max_pending_partials : Z;
  rl_timeout : Z;
}.

Definition ReassemblyLimits_default : ReassemblyLimits :=
  {| rl_max_reassembled_size := LIMITS_MRDS_DEFAULT_IPV4;
     rl_max_segments := LIMITS_MIN_REASSEMBLY_SEGMENTS;
     rl_max_pending_partials := LIMITS_REASSEMBLY_MAX_PENDING_PARTIALS;
     rl_timeout := LIMITS_REASSEMBLY_TIMEOUT_MAX |}.

Inductive AbortReason : Type := Overlap | LimitExceeded.

#[export] Instance AbortReason_eq_dec : EqDecision AbortReason.
Proof. solve_decision. Defined.

(** The payload of the two [Complete] variants. *)
Record Completed : Type := {
  co_tail : list Z;
  co_udp_length : Z;
  co_fragment_options : list RawOption;
  co_fragment_option_failures : list OptionKind;
  co_fragment_ocs_nonzero : option bool;
}.

Inductive ReassemblyOutcome : Type :=
| Incomplete
| Complete (c : Completed)
| Abort (reason : AbortReason).

Inductive InsertResult : Type :=
| InsertIncomplete
| InsertComplete (c : Completed)
| InsertAbort (reason : AbortReason).

Record FragmentProcessing : Type := {
  fp_options : list RawOption;
  fp_option_failures : list OptionKind;
  fp_ocs_nonzero : option bool;
}.

Record FragmentOptions : Type := {
  fo_mds : option Z;
  fo_mrds_size : option Z;
  fo_mrds_segments : option Z;
  fo_req : option (list Z);
  fo_res : option (list Z);
}.

Definition FragmentOptions_default : FragmentOptions :=
  {| fo_mds := None; fo_mrds_size := None; fo_mrds_segments := None;
     fo_req := None; fo_res := None |}.

Record Segment : Type := {
  sg_start : Z;
  sg_end : Z;
  sg_data : list Z;
  sg_fragment_options : list RawOption;
  sg_fragment_option_failures : list OptionKind;
}.

Record NormalizedFragment : Type := {
  nf_start : Z;
  nf_end : Z;
  nf_udp_length : option Z;
}.

Record Partial : Type := {
  pa_segments : list Segment;
  pa_terminal_end : option Z;
  pa_udp_length : option Z;
  pa_fragment_count : Z;
  pa_byte_total : Z;
  pa_fragment_options : FragmentOptions;
  pa_fragment_option_failures : list OptionKind;
  pa_fragment_ocs_nonzero : option bool;
  pa_empty_terminal_options : option (list RawOption);
  pa_empty_terminal_option_failures : option (list OptionKind);
  pa_received_at : Z;
}.

Record ReassemblyCache : Type := {
  rc_partials : gmap FragKey Partial;
  rc_limits : ReassemblyLimits;
}.

(** ** Coalesced per-fragment options *)

Definition map_or_min (old : option Z) (x : Z) : option Z :=
  Some (match old with Some o => Z.min o x | None => x end).

(** The body of the loop of [FragmentOptions::observe]. *)
Definition FragmentOptions_observe_one (self : FragmentOptions) (o : RawOption) :
    option FragmentOptions :=
  match ro_kind o with
  | Mds =>
      let! d := Mds_decode (ro_value o) in
      Some match d with
      | Ok mds =>
          {| fo_mds := map_or_min (fo_mds self) (max_datagram_size mds);
             fo_mrds_size := fo_mrds_size self; fo_mrds_segments := fo_mrds_segments self;
             fo_req := fo_req self; fo_res := fo_res self |}
      | Err _ => self
      end
  | Mrds =>
      let! d := Mrds_decode (ro_value o) in
      Some match d with
      | Ok mrds =>
          {| fo_mds := fo_mds self;
             fo_mrds_size := map_or_min (fo_mrds_size self) (mrds_max_reassembled_size mrds);
             fo_mrds_segments := map_or_min (fo_mrds_segments self) (mrds_max_segments mrds);
             fo_req := fo_req self; fo_res := fo_res self |}
      | Err _ => self
      end
  | Req =>
      let! d := Req_decode (ro_value o) in
      Some match d with
      | Ok req =>
          {| fo_mds := fo_mds self; fo_mrds_size := fo_mrds_size self;
             fo_mrds_segments := fo_mrds_segments self;
             fo_req := Some (req_token req); fo_res := fo_res self |}
      | Err _ => self
      end
  | Res =>
      let! d := Res_decode (ro_value o) in
      Some match d with
      | Ok res =>
          {| fo_mds := fo_mds self; fo_mrds_size := fo_mrds_size self;
             fo_mrds_segments := fo_mrds_segments self;
             fo_req := fo_req self; fo_res := Some (res_token res) |}
      | Err _ => self
      end
  | _ => Some self
  end.

Fixpoint FragmentOptions_observe (self : FragmentOptions) (options : list RawOption) :
    option FragmentOptions :=
  match options with
  | [] => Some self
  | o :: rest =>
      let! self := FragmentOptions_observe_one self o in
      FragmentOptions_observe self rest
  end.

Definition FragmentOptions_to_raw_options (self : FragmentOptions) : list RawOption :=
  let options := [] in
  let options :=
    match fo_mds self with
    | Some value => options ++ [{| ro_kind := Mds; ro_value := u16_to_be value |}]
    | None => options
    end in
  let options :=
    match fo_mrds_size self, fo_mrds_segments self with
    | Some size, Some segments =>
        options ++ [{| ro_kind := Mrds; ro_value := u16_to_be size ++ [segments] |}]
    | _, _ => options
    end in
  let options :=
    match fo_req self with
    | Some token => options ++ [{| ro_kind := Req; ro_value := token |}]
    | None => options
    end in
  match fo_res self with
  | Some token => options ++ [{| ro_kind := Res; ro_value := token |}]
  | None => options
  end.

(** [FragmentOptionFailures] is its vector of kinds. *)
Fixpoint FragmentOptionFailures_observe (kinds failures : list OptionKind) : list OptionKind :=
  match failures with
  | [] => kinds
  | kind :: rest =>
      FragmentOptionFailures_observe
        (if bool_decide (kind ∈ kinds) then kinds else kinds ++ [kind]) rest
  end.

(** ** One fragment *)

Definition NormalizedFragment_new (frag : FragOption) (data_len : Z) : option NormalizedFragment :=
  match
    (if (frag_offset frag =? 0) && match frag_rdos frag with Some _ => true | None => false end
     then Some 0
     else checked_sub (frag_offset frag) LENGTH_UDP_HEADER)
  with
  | None => None
  | Some start =>
      match checked_add start data_len with
      | None => None
      | Some end_ => Some {| nf_start := start; nf_end := end_; nf_udp_length := frag_rdos frag |}
      end
  end.

(** ** The standard library's binary search

    [slice::binary_search_by_key]: the loop halves [size], and the index is where
    the key was found or where it belongs. *)

Fixpoint bsearch_loop (fuel : nat) (l : list Segment) (key base size : Z) : option Z :=
  match fuel with
  | O => None
  | S fuel' =>
      if 1 <? size then
        let half := size / 2 in
        let mid := base + half in
        let! s := get l mid in
        let base := if key <? sg_start s then base else mid in
        bsearch_loop fuel' l key base (size - half)
      else Some base
  end.

(** [binary_search_by_key(..).unwrap_or_else(|index| index)]. *)
Definition binary_search_index (l : list Segment) (key : Z) : option Z :=
  if len l =? 0 then Some 0 else
  let! base := bsearch_loop (S (length l)) l key 0 (len l) in
  let! s := get l base in
  Some (if sg_start s =? key then base else base + usize_of_bool (sg_start s <? key)).

(** [Vec::insert], which panics past the end. *)
Definition vec_insert {A} (l : list A) (i : Z) (x : A) : option (list A) :=
  if (0 <=? i) && (i <=? len l) then Some (sub l 0 i ++ x :: sub l i (len l)) else None.

(** ** One incomplete datagram *)

Definition Partial_new (received_at : Z) : Partial :=
  {| pa_segments := []; pa_terminal_end := None; pa_udp_length := None;
     pa_fragment_count := 0; pa_byte_total := 0;
     pa_fragment_options := FragmentOptions_default; pa_fragment_option_failures := [];
     pa_fragment_ocs_nonzero := Some false; pa_empty_terminal_options := None;
     pa_empty_terminal_option_failures := None; pa_received_at := received_at |}.

(** [Instant::duration_since]. *)
Definition duration_since (now earlier : Z) : Z := Z.max 0 (now - earlier).

Definition Partial_is_expired (self : Partial) (now timeout : Z) : bool :=
  Z.min timeout LIMITS_REASSEMBLY_TIMEOUT_MAX <=? duration_since now (pa_received_at self).

Definition Partial_is_exact_duplicate (self : Partial) (fragment : NormalizedFragment)
    (data : list Z) (options : list RawOption) (failures : list OptionKind) : bool :=
  let in_segments :=
    existsb (fun s =>
      (sg_start s =? nf_start fragment) && (sg_end s =? nf_end fragment)
      && bool_decide (sg_data s = data) && bool_decide (sg_fragment_options s = options)
      && bool_decide (sg_fragment_option_failures s = failures)) (pa_segments self) in
  match nf_udp_length fragment with
  | Some udp_length =>
      if negb (bool_decide (pa_udp_length self = Some udp_length))
         || negb (bool_decide (pa_terminal_end self = Some (nf_end fragment)))
      then false
      else if is_nil data then
        bool_decide (pa_empty_terminal_options self = Some options)
        && bool_decide (pa_empty_terminal_option_failures self = Some failures)
      else in_segments
  | None => in_segments
  end.

Definition Partial_overlaps (self : Partial) (start end_ : Z) : bool :=
  (start <? end_)
  && existsb (fun s => (start <? sg_end s) && (sg_start s <? end_)) (pa_segments self).

Definition Partial_observe_fragment_ocs (self : Partial) (ocs_nonzero : option bool) : Partial :=
  {| pa_segments := pa_segments self; pa_terminal_end := pa_terminal_end self;
     pa_udp_length := pa_udp_length self; pa_fragment_count := pa_fragment_count self;
     pa_byte_total := pa_byte_total self; pa_fragment_options := pa_fragment_options self;
     pa_fragment_option_failures := pa_fragment_option_failures self;
     pa_fragment_ocs_nonzero :=
       match pa_fragment_ocs_nonzero self, ocs_nonzero with
       | Some accumulated, Some current => Some (accumulated || current)
       | _, _ => None
       end;
     pa_empty_terminal_options := pa_empty_terminal_options self;
     pa_empty_terminal_option_failures := pa_empty_terminal_option_failures self;
     pa_received_at := pa_received_at self |}.

(** The loop of [complete]: the final cursor, or the early return. *)
Fixpoint complete_loop (cursor : Z) (segments : list Segment) : InsertResult + Z :=
  match segments with
  | [] => inr cursor
  | s :: rest =>
      if cursor <? sg_start s then inl InsertIncomplete
      else if sg_start s <? cursor then inl (InsertAbort Overlap)
      else complete_loop (sg_end s) rest
  end.

Definition Partial_complete (self : Partial) : InsertResult :=
  match pa_terminal_end self, pa_udp_length self with
  | Some terminal_end, Some udp_length =>
      match complete_loop 0 (pa_segments self) with
      | inl early => early
      | inr cursor =>
          if negb (cursor =? terminal_end) then InsertIncomplete
          else InsertComplete {|
            co_tail := concat (sg_data <$> pa_segments self);
            co_udp_length := udp_length;
            co_fragment_options := FragmentOptions_to_raw_options (pa_fragment_options self);
            co_fragment_option_failures := pa_fragment_option_failures self;
            co_fragment_ocs_nonzero := pa_fragment_ocs_nonzero self |}
      end
  | _, _ => InsertIncomplete
  end.

(** The assignments of the [(None, None)] arm of [insert]. *)
Definition Partial_set_terminal (self : Partial) (end_ udp_length : Z) (data : list Z)
    (options : list RawOption) (failures : list OptionKind) : Partial :=
  {| pa_segments := pa_segments self; pa_terminal_end := Some end_;
     pa_udp_length := Some udp_length; pa_fragment_count := pa_fragment_count self;
     pa_byte_total := pa_byte_total self; pa_fragment_options := pa_fragment_options self;
     pa_fragment_option_failures := pa_fragment_option_failures self;
     pa_fragment_ocs_nonzero := pa_fragment_ocs_nonzero self;
     pa_empty_terminal_options :=
       if is_nil data then Some options else pa_empty_terminal_options self;
     pa_empty_terminal_option_failures :=
       if is_nil data then Some failures else pa_empty_terminal_option_failures self;
     pa_received_at := pa_received_at self |}.

(** The terminal-metadata block of [insert]: an abort reason, or the partial. *)
Definition Partial_observe_terminal (self : Partial) (fragment : NormalizedFragment)
    (data : list Z) (options : list RawOption) (failures : list OptionKind) :
    option AbortReason * Partial :=
  match nf_udp_length fragment with
  | None => (None, self)
  | Some udp_length =>
      match checked_sub udp_length LENGTH_UDP_HEADER with
      | None => (Some Overlap, self)
      | Some user_tail_len =>
          if nf_end fragment <? user_tail_len then (Some Overlap, self) else
          match pa_terminal_end self, pa_udp_length self with
          | None, None =>
              let self := Partial_set_terminal self (nf_end fragment) udp_length data options failures in
              if existsb (fun s => nf_end fragment <? sg_end s) (pa_segments self)
              then (Some Overlap, self) else (None, self)
          | Some existing_end, Some existing_udp_length =>
              if (existing_end =? nf_end fragment) && (existing_udp_length =? udp_length) then
                if is_nil data
                   && (negb (bool_decide (pa_empty_terminal_options self = Some options))
                       || negb (bool_decide (pa_empty_terminal_option_failures self = Some failures)))
                then (Some Overlap, self) else (None, self)
              else (Some Overlap, self)
          | _, _ => (Some Overlap, self)
          end
      end
  end.

(** The bookkeeping of an accepted fragment, before its segment is stored. *)
Definition Partial_account (self : Partial) (fragment_count byte_total : Z)
    (options : FragmentOptions) (failures : list OptionKind) : Partial :=
  {| pa_segments := pa_segments self; pa_terminal_end := pa_terminal_end self;
     pa_udp_length := pa_udp_length self; pa_fragment_count := fragment_count;
     pa_byte_total := byte_total; pa_fragment_options := options;
     pa_fragment_option_failures := failures;
     pa_fragment_ocs_nonzero := pa_fragment_ocs_nonzero self;
     pa_empty_terminal_options := pa_empty_terminal_options self;
     pa_empty_terminal_option_failures := pa_empty_terminal_option_failures self;
     pa_received_at := pa_received_at self |}.

Definition Partial_set_segments (self : Partial) (segments : list Segment) : Partial :=
  {| pa_segments := segments; pa_terminal_end := pa_terminal_end self;
     pa_udp_length := pa_udp_length self; pa_fragment_count := pa_fragment_count self;
     pa_byte_total := pa_byte_total self; pa_fragment_options := pa_fragment_options self;
     pa_fragment_option_failures := pa_fragment_option_failures self;
     pa_fragment_ocs_nonzero := pa_fragment_ocs_nonzero self;
     pa_empty_terminal_options := pa_empty_terminal_options self;
     pa_empty_terminal_option_failures := pa_empty_terminal_option_failures self;
     pa_received_at := pa_received_at self |}.

Definition Partial_insert (self : Partial) (fragment : NormalizedFragment) (data : list Z)
    (options : list RawOption) (failures : list OptionKind) (ocs_nonzero : option bool)
    (limits : ReassemblyLimits) : option (InsertResult * Partial) :=
  if Partial_is_exact_duplicate self fragment data options failures
  then Some (InsertIncomplete, Partial_observe_fragment_ocs self ocs_nonzero) else
  match checked_add (pa_fragment_count self) 1 with
  | None => Some (InsertAbort LimitExceeded, self)
  | Some fragment_count =>
  if rl_max_segments limits <? fragment_count then Some (InsertAbort LimitExceeded, self) else
  match checked_add (pa_byte_total self) (len data) with
  | None => Some (InsertAbort LimitExceeded, self)
  | Some byte_total =>
  if match checked_add byte_total LENGTH_UDP_HEADER with
     | None => true
     | Some udp_total => rl_max_reassembled_size limits <? udp_total
     end
  then Some (InsertAbort LimitExceeded, self) else
  if Partial_overlaps self (nf_start fragment) (nf_end fragment)
  then Some (InsertAbort Overlap, self) else
  if match pa_terminal_end self with
     | Some terminal_end => terminal_end <? nf_end fragment
     | None => false
     end
  then Some (InsertAbort Overlap, self) else
  match Partial_observe_terminal self fragment data options failures with
  | (Some reason, self) => Some (InsertAbort reason, self)
  | (None, self) =>
      let! fragment_options := FragmentOptions_observe (pa_fragment_options self) options in
      let self := Partial_account self fragment_count byte_total fragment_options
                    (FragmentOptionFailures_observe (pa_fragment_option_failures self) failures) in
      let self := Partial_observe_fragment_ocs self ocs_nonzero in
      let! self :=
        if is_nil data then Some self else
        let! index := binary_search_index (pa_segments self) (nf_start fragment) in
        let! segments := vec_insert (pa_segments self) index
          {| sg_start := nf_start fragment; sg_end := nf_end fragment; sg_data := data;
             sg_fragment_options := options; sg_fragment_option_failures := failures |} in
        Some (Partial_set_segments self segments) in
      Some (Partial_complete self, self)
  end
  end
  end.

(** ** The cache *)

Definition ReassemblyCache_with_limits (limits : ReassemblyLimits) : ReassemblyCache :=
  {| rc_partials := ∅; rc_limits := limits |}.

Definition ReassemblyCache_new : ReassemblyCache :=
  ReassemblyCache_with_limits ReassemblyLimits_default.

Definition ReassemblyCache_len (c : ReassemblyCache) : Z := Z.of_nat (size (rc_partials c)).

Definition ReassemblyCache_is_empty (c : ReassemblyCache) : bool :=
  bool_decide (rc_partials c = ∅).

Definition ReassemblyCache_gc (c : ReassemblyCache) (now : Z) : ReassemblyCache :=
  let timeout := rl_timeout (rc_limits c) in
  {| rc_partials := filter (fun kp => Partial_is_expired kp.2 now timeout = false) (rc_partials c);
     rc_limits := rc_limits c |}.

Definition ReassemblyCache_discard (c : ReassemblyCache) (key : FragKey) : ReassemblyCache :=
  {| rc_partials := delete key (rc_partials c); rc_limits := rc_limits c |}.

Definition ReassemblyCache_abort (c : ReassemblyCache) (key : FragKey) (reason : AbortReason) :
    ReassemblyOutcome * ReassemblyCache :=
  (Abort reason, {| rc_partials := delete key (rc_partials c); rc_limits := rc_limits c |}).

Definition ReassemblyCache_insert_without_retaining (c : ReassemblyCache)
    (fragment : NormalizedFragment) (data : list Z) (processing : FragmentProcessing) (now : Z) :
    option ReassemblyOutcome :=
  let partial := Partial_new now in
  let! (r, _) := Partial_insert partial fragment data (fp_options processing)
                   (fp_option_failures processing) (fp_ocs_nonzero processing) (rc_limits c) in
  Some match r with
  | InsertComplete done => Complete done
  | InsertAbort reason => Abort reason
  | InsertIncomplete => Abort LimitExceeded
  end.

(** The [match partial.insert(..)] of the cache, on the partial under [key]. *)
Definition ReassemblyCache_insert_partial (c : ReassemblyCache) (key : FragKey)
    (partial : Partial) (fragment : NormalizedFragment) (data : list Z)
    (processing : FragmentProcessing) : option (ReassemblyOutcome * ReassemblyCache) :=
  let! (r, partial) := Partial_insert partial fragment data (fp_options processing)
                   (fp_option_failures processing) (fp_ocs_nonzero processing) (rc_limits c) in
  let c := {| rc_partials := <[key := partial]> (rc_partials c); rc_limits := rc_limits c |} in
  Some match r with
  | InsertIncomplete => (Incomplete, c)
  | InsertComplete done => (Complete done, ReassemblyCache_discard c key)
  | InsertAbort reason => (Abort reason, ReassemblyCache_discard c key)
  end.

Definition ReassemblyCache_insert_with_options_and_failures (c : ReassemblyCache) (key : FragKey)
    (frag : FragOption) (data : list Z) (processing : FragmentProcessing) (now : Z) :
    option (ReassemblyOutcome * ReassemblyCache) :=
  let c := ReassemblyCache_gc c now in
  match NormalizedFragment_new frag (len data) with
  | None => Some (ReassemblyCache_abort c key Overlap)
  | Some fragment =>
  if rl_max_reassembled_size (rc_limits c) <? default 0 (nf_udp_length fragment)
  then Some (ReassemblyCache_abort c key LimitExceeded) else
  if match checked_add LENGTH_UDP_HEADER (nf_end fragment) with
     | None => true
     | Some n => rl_max_reassembled_size (rc_limits c) <? n
     end
  then Some (ReassemblyCache_abort c key LimitExceeded) else
  match rc_partials c !! key with
  | None =>
      if rl_max_pending_partials (rc_limits c) <=? ReassemblyCache_len c then
        let! o := ReassemblyCache_insert_without_retaining c fragment data processing now in
        Some (o, c)
      else ReassemblyCache_insert_partial c key (Partial_new now) fragment data processing
  | Some partial => ReassemblyCache_insert_partial c key partial fragment data processing
  end
  end.

Definition ReassemblyCache_insert_with_options (c : ReassemblyCache) (key : FragKey)
    (frag : FragOption) (data : list Z) (options : list RawOption) (now : Z) :
    option (ReassemblyOutcome * ReassemblyCache) :=
  ReassemblyCache_insert_with_options_and_failures c key frag data
    {| fp_options := options; fp_option_failures := []; fp_ocs_nonzero := None |} now.

Definition ReassemblyCache_insert (c : ReassemblyCache) (key : FragKey) (frag : FragOption)
    (data : list Z) (now : Z) : option (ReassemblyOutcome * ReassemblyCache) :=
  ReassemblyCache_insert_with_options c key frag data [] now.

(** ** The invariant of one incomplete datagram *)

(** Nonempty, disjoint segments in increasing order from offset [lo]. *)
Fixpoint segs_from (lo : Z) (l : list Segment) : Prop :=
  match l with
  | [] => True
  | s :: rest =>
      lo <= sg_start s /\ sg_start s < sg_end s /\ len (sg_data s) = sg_end s - sg_start s /\
      segs_from (sg_end s) rest
  end.

Definition seg_total (l : list Segment) : Z := foldr (fun s n => len (sg_data s) + n) 0 l.

(** What is known once the terminal fragment has been seen. *)
Definition terminal_wf (max : Z) (segments : list Segment) (terminal_end udp_length : option Z) :
    Prop :=
  match terminal_end, udp_length with
  | None, None => True
  | Some te, Some ul => Forall (fun s => sg_end s <= te) segments /\ 8 <= ul <= 8 + te /\ 8 + te <= max
  | _, _ => False
  end.

Record Partial_wf (L : ReassemblyLimits) (p : Partial) : Prop := {
  pw_segs : segs_from 0 (pa_segments p);
  pw_bytes : Forall (fun s => bytes (sg_data s)) (pa_segments p);
  pw_ends : Forall (fun s => 8 + sg_end s <= rl_max_reassembled_size L) (pa_segments p);
  pw_total : pa_byte_total p = seg_total (pa_segments p);
  pw_count : len (pa_segments p) <= pa_fragment_count p <= rl_max_segments L;
  pw_terminal : terminal_wf (rl_max_reassembled_size L) (pa_segments p)
                  (pa_terminal_end p) (pa_udp_length p);
}.

Definition ReassemblyLimits_wf (L : ReassemblyLimits) : Prop :=
  usize (rl_max_reassembled_size L) /\ usize (rl_max_segments L) /\
  usize (rl_max_pending_partials L) /\ 0 <= rl_timeout L.

(** ** Lemmas: binary search and insertion *)

Lemma get_app_case {A} (pre post : list A) i x :
  get (pre ++ post) i = Some x -> (i < len pre /\ x ∈ pre) \/ (len pre <= i /\ x ∈ post).
Proof.
  unfold get. destruct (Z.leb_spec 0 i); [|done]. intros Hl.
  apply lookup_app_Some in Hl as [Hl|[Hn Hl]].
  - left. split; [apply lookup_lt_Some in Hl; len_lia|by eapply list_elem_of_lookup_2].
  - right. split; [len_lia|by eapply list_elem_of_lookup_2].
Qed.

(** [pre] are the segments before [key] and [post] those after it. *)
Definition split_around (key : Z) (pre post : list Segment) : Prop :=
  Forall (fun s => sg_start s < key) pre /\ Forall (fun s => key < sg_start s) post.

Lemma bsearch_loop_spec fuel key pre post base size :
  split_around key pre post ->
  0 <= base -> 1 <= size -> base + size <= len (pre ++ post) -> (Z.to_nat size <= fuel)%nat ->
  (base = 0 \/ base < len pre) -> len pre <= base + size ->
  exists b, bsearch_loop fuel (pre ++ post) key base size = Some b /\
    0 <= b < len (pre ++ post) /\ (b = 0 \/ b < len pre) /\ len pre <= b + 1.
Proof.
  intros [Hpre Hpost]. revert base size.
  induction fuel as [|fuel IH]; intros base size Hb Hs Hl Hf Hbn Hn; [lia|]. cbn [bsearch_loop].
  destruct (Z.ltb_spec 1 size).
  - cbv zeta. set (half := size / 2). assert (1 <= half <= size - half) by (unfold half; dlia).
    destruct (get_is_Some (pre ++ post) (base + half)) as [s Hs']; [lia|]. rewrite Hs'.
    destruct (get_app_case _ _ _ _ Hs') as [[Hm Hin]|[Hm Hin]].
    + rewrite Forall_forall in Hpre. specialize (Hpre s Hin). cbv beta in Hpre.
      destruct (Z.ltb_spec key (sg_start s)); [lia|]. apply IH; lia.
    + rewrite Forall_forall in Hpost. specialize (Hpost s Hin). cbv beta in Hpost.
      destruct (Z.ltb_spec key (sg_start s)); [|lia]. apply IH; lia.
  - exists base. split; [done|]. lia.
Qed.

Lemma binary_search_index_spec key pre post :
  split_around key pre post -> binary_search_index (pre ++ post) key = Some (len pre).
Proof.
  intros Hk. unfold binary_search_index. pose proof (len_nonneg pre). pose proof (len_nonneg post).
  pose proof (len_app pre post). destruct (Z.eqb_spec (len (pre ++ post)) 0).
  { f_equal. lia. }
  destruct (bsearch_loop_spec (S (length (pre ++ post))) key pre post 0 (len (pre ++ post)))
    as (b & -> & Hb & Hc & Hn); try done; try lia; [len_lia|].
  destruct (get_is_Some (pre ++ post) b) as [s Hs]; [lia|]. rewrite Hs. f_equal.
  destruct Hk as [Hpre Hpost]. unfold usize_of_bool.
  destruct (get_app_case _ _ _ _ Hs) as [[Hm Hin]|[Hm Hin]].
  - rewrite Forall_forall in Hpre. specialize (Hpre s Hin). cbv beta in Hpre. bool_cases; lia.
  - rewrite Forall_forall in Hpost. specialize (Hpost s Hin). cbv beta in Hpost. bool_cases; lia.
Qed.

Lemma vec_insert_app {A} (pre post : list A) x :
  vec_insert (pre ++ post) (len pre) x = Some (pre ++ x :: post).
Proof.
  unfold vec_insert. pose proof (len_nonneg pre). pose proof (len_nonneg post). rewrite len_app.
  bool_cases; try lia. by rewrite sub_prefix, sub_suffix.
Qed.

(** The place of a range that overlaps nothing. *)
Lemma segs_from_insert lo l x :
  segs_from lo l -> lo <= sg_start x -> sg_start x < sg_end x ->
  len (sg_data x) = sg_end x - sg_start x ->
  Forall (fun s => ~ (sg_start x < sg_end s /\ sg_start s < sg_end x)) l ->
  exists pre post, l = pre ++ post /\ split_around (sg_start x) pre post /\
    segs_from lo (pre ++ x :: post).
Proof.
  intros Hs Hlo Hx Hlen Hno. revert lo Hs Hlo. induction l as [|s l IH]; intros lo Hs Hlo.
  - exists [], []. split; [done|]. split; [split; constructor|]. simpl. tauto.
  - destruct Hs as (H1 & H2 & H3 & H4). apply Forall_cons in Hno as [Hn Hno].
    destruct (Z.le_gt_cases (sg_end s) (sg_start x)) as [Hle|Hgt].
    + destruct (IH Hno (sg_end s) H4 Hle) as (pre & post & -> & [Hp Hq] & Hs').
      exists (s :: pre), post. split; [done|]. split; [split; [constructor; [lia|done]|done]|].
      simpl. tauto.
    + exists [], (s :: l). assert (sg_end x <= sg_start s) by lia.
      split; [done|]. split; [|simpl; tauto]. split; [constructor|].
      constructor; [lia|]. clear -H4 H2 Hx H. assert (sg_start x < sg_end s) as Hlt by lia.
      revert Hlt H4. generalize (sg_end s). induction l as [|t l IH]; intros e Hlt; [constructor|].
      intros (? & ? & ? & ?). constructor; [lia|]. apply (IH (sg_end t)); [lia|done].
Qed.

Lemma seg_total_perm l k : l ≡ₚ k -> seg_total l = seg_total k.
Proof. induction 1; simpl; try lia. Qed.

Lemma seg_total_nonneg l : 0 <= seg_total l.
Proof. induction l as [|s l IH]; simpl; [lia|]. pose proof (len_nonneg (sg_data s)). lia. Qed.

(** ** Lemmas: completion *)

(** Disjoint segments between [c] and [te] hold at most [te - c] bytes. *)
Lemma segs_from_total c te l :
  segs_from c l -> c <= te -> Forall (fun s => sg_end s <= te) l -> seg_total l <= te - c.
Proof.
  revert c. induction l as [|s l IH]; intros c; simpl; [lia|].
  intros (? & ? & ? & Hr) ? (? & Hf)%Forall_cons.
  specialize (IH (sg_end s) Hr ltac:(lia) Hf). lia.
Qed.

(** The cursor reaches [te] without a gap exactly when [te - c] bytes are there. *)
Lemma complete_loop_spec c te l :
  segs_from c l -> c <= te -> Forall (fun s => sg_end s <= te) l ->
  (seg_total l = te - c -> complete_loop c l = inr te) /\
  (seg_total l <> te - c -> complete_loop c l = inl InsertIncomplete \/
     exists cur, complete_loop c l = inr cur /\ cur <> te).
Proof.
  revert c. induction l as [|s l IH]; intros c Hs Hc Hf; simpl in *.
  { split; [intros; f_equal; lia|]. intros. right. exists c. split; [done|lia]. }
  destruct Hs as (H1 & H2 & H3 & H4). apply Forall_cons in Hf as [Hf1 Hf2].
  pose proof (segs_from_total _ te _ H4 ltac:(lia) Hf2).
  destruct (Z.ltb_spec c (sg_start s)); [split; [lia|auto]|].
  destruct (Z.ltb_spec (sg_start s) c); [lia|].
  destruct (IH (sg_end s) H4 ltac:(lia) Hf2) as [I1 I2]. split; intros; [apply I1|apply I2]; lia.
Qed.

Definition completed (p : Partial) (udp_length : Z) : Completed :=
  {| co_tail := concat (sg_data <$> pa_segments p); co_udp_length := udp_length;
     co_fragment_options := FragmentOptions_to_raw_options (pa_fragment_options p);
     co_fragment_option_failures := pa_fragment_option_failures p;
     co_fragment_ocs_nonzero := pa_fragment_ocs_nonzero p |}.

(** The cursor scan is a comparison of byte counts; its abort branch is dead. *)
Lemma Partial_complete_spec L p :
  Partial_wf L p ->
  Partial_complete p =
  match pa_terminal_end p, pa_udp_length p with
  | Some te, Some ul => if pa_byte_total p =? te then InsertComplete (completed p ul)
                        else InsertIncomplete
  | _, _ => InsertIncomplete
  end.
Proof.
  intros [Hs _ _ Ht _ Hterm]. unfold Partial_complete, terminal_wf in *.
  destruct (pa_terminal_end p) as [te|], (pa_udp_length p) as [ul|]; try done.
  destruct Hterm as (Hf & Hul & _).
  destruct (complete_loop_spec 0 te _ Hs ltac:(lia) Hf) as [H1 H2]. rewrite Ht.
  destruct (Z.eqb_spec (seg_total (pa_segments p)) te) as [He|He].
  - rewrite H1 by lia. by rewrite Z.eqb_refl.
  - destruct H2 as [->|(cur & -> & Hc)]; [lia|done|]. by rewrite (proj2 (Z.eqb_neq _ _) Hc).
Qed.

Lemma segs_from_start lo l s : segs_from lo l -> s ∈ l -> lo <= sg_start s.
Proof.
  revert lo. induction l as [|u l IH]; intros lo Hs Hi; [by apply elem_of_nil in Hi|].
  simpl in Hs. destruct Hs as (? & ? & ? & Hr). apply elem_of_cons in Hi as [->|Hi]; [done|].
  specialize (IH _ Hr Hi). lia.
Qed.

(** Contiguous segments are at their offsets in the concatenation. *)
Lemma segs_contiguous_sub c te l s :
  segs_from c l -> complete_loop c l = inr te -> s ∈ l ->
  sub (concat (sg_data <$> l)) (sg_start s - c) (sg_end s - c) = sg_data s.
Proof.
  revert c. induction l as [|t l IH]; intros c Hs Hc Hin; [by apply elem_of_nil in Hin|].
  simpl in *. destruct Hs as (H1 & H2 & H3 & H4).
  destruct (Z.ltb_spec c (sg_start t)); [done|]. destruct (Z.ltb_spec (sg_start t) c); [done|].
  apply list_elem_of_In in Hin. destruct Hin as [<-|Hin%list_elem_of_In].
  - replace (sg_start t - c) with 0 by lia. apply sub_prefix. lia.
  - pose proof (segs_from_start _ _ _ H4 Hin) as Hlo.
    replace (sg_start s - c) with (len (sg_data t) + (sg_start s - sg_end t)) by lia.
    replace (sg_end s - c) with (len (sg_data t) + (sg_end s - sg_end t)) by lia.
    rewrite sub_app_shift by lia. by apply IH.
Qed.

Lemma len_concat_segs l : len (concat (sg_data <$> l)) = seg_total l.
Proof. induction l as [|s l IH]; [done|]. rewrite fmap_cons, concat_cons, len_app, IH. done. Qed.

(** ** Lemmas: inserting into a partial *)

Lemma FragmentOptions_observe_one_total self o : is_Some (FragmentOptions_observe_one self o).
Proof.
  unfold FragmentOptions_observe_one. destruct (ro_kind o); try done.
  - by destruct (Mds_decode_total (ro_value o)) as [? ->].
  - by destruct (Mrds_decode_total (ro_value o)) as [? ->].
  - by destruct (Req_decode_total (ro_value o)) as [? ->].
  - by destruct (Res_decode_total (ro_value o)) as [? ->].
Qed.

Lemma FragmentOptions_observe_total self os : is_Some (FragmentOptions_observe self os).
Proof.
  revert self. induction os as [|o os IH]; intros self; simpl; [done|].
  by destruct (FragmentOptions_observe_one_total self o) as [? ->].
Qed.

Definition new_segment (f : NormalizedFragment) (data : list Z) (o : list RawOption)
    (fl : list OptionKind) : Segment :=
  {| sg_start := nf_start f; sg_end := nf_end f; sg_data := data;
     sg_fragment_options := o; sg_fragment_option_failures := fl |}.

Definition fragment_ok (L : ReassemblyLimits) (f : NormalizedFragment) (data : list Z) : Prop :=
  0 <= nf_start f /\ nf_end f = nf_start f + len data /\
  8 + nf_end f <= rl_max_reassembled_size L /\ bytes data.

(** When a partial accepts a fragment it has not seen. *)
Definition accepts (L : ReassemblyLimits) (p : Partial) (f : NormalizedFragment) (data : list Z)
    (o : list RawOption) (fl : list OptionKind) : Prop :=
  pa_fragment_count p + 1 <= rl_max_segments L /\
  pa_byte_total p + len data + 8 <= rl_max_reassembled_size L /\
  Partial_overlaps p (nf_start f) (nf_end f) = false /\
  match pa_terminal_end p with Some te => nf_end f <= te | None => True end /\
  (Partial_observe_terminal p f data o fl).1 = None.

Record accepted (p : Partial) (f : NormalizedFragment) (data : list Z) (o : list RawOption)
    (fl : list OptionKind) (ocs : option bool) (p' : Partial) : Prop := {
  ac_segs : pa_segments p' ≡ₚ
    (if is_nil data then [] else [new_segment f data o fl]) ++ pa_segments p;
  ac_count : pa_fragment_count p' = pa_fragment_count p + 1;
  ac_total : pa_byte_total p' = pa_byte_total p + len data;
  ac_terminal :
    match nf_udp_length f with
    | Some ul => pa_terminal_end p' = Some (nf_end f) /\ pa_udp_length p' = Some ul /\
        (data = [] -> pa_empty_terminal_options p' = Some o /\
                      pa_empty_terminal_option_failures p' = Some fl)
    | None => pa_terminal_end p' = pa_terminal_end p /\ pa_udp_length p' = pa_udp_length p
    end;
  ac_received : pa_received_at p' = pa_received_at p;
  ac_ocs : pa_fragment_ocs_nonzero p' =
    pa_fragment_ocs_nonzero (Partial_observe_fragment_ocs p ocs);
  ac_options : FragmentOptions_observe (pa_fragment_options p) o = Some (pa_fragment_options p');
  ac_failures : pa_fragment_option_failures p' =
    FragmentOptionFailures_observe (pa_fragment_option_failures p) fl;
}.

(** The terminal block leaves everything but the terminal metadata alone. *)
Lemma observe_terminal_spec L p f data o fl p1 :
  Partial_wf L p -> fragment_ok L f data ->
  match pa_terminal_end p with Some te => nf_end f <= te | None => True end ->
  Partial_observe_terminal p f data o fl = (None, p1) ->
  p1 = {| pa_segments := pa_segments p; pa_terminal_end := pa_terminal_end p1;
          pa_udp_length := pa_udp_length p1; pa_fragment_count := pa_fragment_count p;
          pa_byte_total := pa_byte_total p; pa_fragment_options := pa_fragment_options p;
          pa_fragment_option_failures := pa_fragment_option_failures p;
          pa_fragment_ocs_nonzero := pa_fragment_ocs_nonzero p;
          pa_empty_terminal_options := pa_empty_terminal_options p1;
          pa_empty_terminal_option_failures := pa_empty_terminal_option_failures p1;
          pa_received_at := pa_received_at p |} /\
  match nf_udp_length f with
  | Some ul => pa_terminal_end p1 = Some (nf_end f) /\ pa_udp_length p1 = Some ul /\
      (data = [] -> pa_empty_terminal_options p1 = Some o /\
                    pa_empty_terminal_option_failures p1 = Some fl)
  | None => p1 = p
  end /\
  terminal_wf (rl_max_reassembled_size L) (pa_segments p) (pa_terminal_end p1) (pa_udp_length p1) /\
  match pa_terminal_end p1 with Some te => nf_end f <= te | None => True end.
Proof.
  intros [_ _ _ _ _ Ht] (Hs & He & Hm & _) Hte. unfold Partial_observe_terminal.
  destruct (nf_udp_length f) as [ul|].
  2:{ intros [= <-]. split; [by destruct p|done]. }
  destruct (checked_sub ul LENGTH_UDP_HEADER) as [n|] eqn:E; [|done].
  apply checked_sub_Some in E as [-> H8]. unfold LENGTH_UDP_HEADER in *.
  destruct (Z.ltb_spec (nf_end f) (ul - 8)); [done|]. unfold terminal_wf in Ht.
  destruct (pa_terminal_end p) as [te|] eqn:Et, (pa_udp_length p) as [ul'|] eqn:Eu; try done.
  - destruct (Z.eqb_spec te (nf_end f)) as [->|]; [|done].
    destruct (Z.eqb_spec ul' ul) as [->|]; [|done]. cbn [andb].
    destruct (is_nil data && _) eqn:Hd; [done|]. intros [= <-]. rewrite Et, Eu.
    split; [destruct p; simpl in *; by rewrite Et, Eu|].
    split; [|split; [done|lia]]. split; [done|]. split; [done|]. intros ->. simpl in Hd.
    apply orb_false_iff in Hd as [H1%negb_false_iff%bool_decide_eq_true
      H2%negb_false_iff%bool_decide_eq_true]. done.
  - cbv zeta. destruct (existsb _ _) eqn:Ex; [done|]. intros [= <-]. simpl.
    split; [done|]. split; [split; [done|split; [done|by intros ->]]|]. split; [|done].
    split; [|lia]. apply Forall_forall. intros s Hin.
    destruct (Z.leb_spec (sg_end s) (nf_end f)); [done|]. exfalso.
    enough (existsb (fun s => nf_end f <? sg_end s) (pa_segments p) = true) by (simpl in Ex; congruence).
    apply existsb_exists. exists s. split; [by apply list_elem_of_In|by apply Z.ltb_lt].
Qed.

Lemma overlaps_false p a b :
  a < b -> Partial_overlaps p a b = false ->
  Forall (fun s => ~ (a < sg_end s /\ sg_start s < b)) (pa_segments p).
Proof.
  intros Hab. unfold Partial_overlaps. destruct (Z.ltb_spec a b); [|lia]. cbn [andb]. intros Hx.
  apply Forall_forall. intros s Hin [H1 H2].
  enough (existsb (fun s => (a <? sg_end s) && (sg_start s <? b)) (pa_segments p) = true) by congruence.
  apply existsb_exists. exists s. split; [by apply list_elem_of_In|].
  by rewrite (proj2 (Z.ltb_lt _ _) H1), (proj2 (Z.ltb_lt _ _) H2).
Qed.

(** Storing the segment of an accepted fragment. *)
Lemma store_segment L p f data o fl :
  Partial_wf L p -> fragment_ok L f data ->
  Partial_overlaps p (nf_start f) (nf_end f) = false -> data <> [] ->
  exists segs, (let! index := binary_search_index (pa_segments p) (nf_start f) in
                vec_insert (pa_segments p) index (new_segment f data o fl)) = Some segs /\
    segs_from 0 segs /\ segs ≡ₚ new_segment f data o fl :: pa_segments p.
Proof.
  intros Hw (Hs & He & _) Ho Hd.
  assert (0 < len data) by (destruct data; [done|len_lia]).
  destruct (segs_from_insert 0 (pa_segments p) (new_segment f data o fl)) as (pre & post & Hl & Hsp & Hsf).
  - apply Hw.
  - done.
  - simpl. lia.
  - simpl. lia.
  - apply overlaps_false; [simpl; lia|done].
  - rewrite Hl, binary_search_index_spec by done. rewrite vec_insert_app.
    eexists. split; [done|]. split; [done|]. by rewrite Permutation_middle.
Qed.

Lemma terminal_wf_perm max l k te ul :
  l ≡ₚ k -> terminal_wf max l te ul -> terminal_wf max k te ul.
Proof. intros Hp. unfold terminal_wf. destruct te, ul; try done. by rewrite Hp. Qed.

Lemma terminal_wf_cons max s l te ul :
  terminal_wf max l te ul -> match te with Some te => sg_end s <= te | None => True end ->
  terminal_wf max (s :: l) te ul.
Proof. unfold terminal_wf. destruct te, ul; try done. intros (? & ? & ?) ?. auto using Forall_cons_2. Qed.

(** The fields an accepted fragment leaves behind make a well-formed partial. *)
Lemma accepted_wf L p f data o fl ocs p' :
  Partial_wf L p -> fragment_ok L f data -> pa_fragment_count p + 1 <= rl_max_segments L ->
  accepted p f data o fl ocs p' -> segs_from 0 (pa_segments p') ->
  terminal_wf (rl_max_reassembled_size L) (pa_segments p) (pa_terminal_end p') (pa_udp_length p') ->
  match pa_terminal_end p' with Some te => nf_end f <= te | None => True end ->
  Partial_wf L p'.
Proof.
  intros [Hs Hb He Ht Hc _] (H0 & Hn & Hm & Hd) Hmax [As Ac At _ _ _ _ _] Hsf Hterm Hte.
  destruct data as [|x data]; cbn [is_nil app] in As.
  - split; try done.
    + by rewrite As.
    + by rewrite As.
    + rewrite At, Ht, (seg_total_perm _ _ As). apply Z.add_0_r.
    + rewrite Ac. apply Permutation_length in As. unfold len in *. lia.
    + by eapply terminal_wf_perm.
  - split; try done.
    + rewrite As. by constructor.
    + rewrite As. by constructor.
    + rewrite At, Ht, (seg_total_perm _ _ As). cbn [seg_total foldr sg_data new_segment].
      fold (seg_total (pa_segments p)). lia.
    + rewrite Ac. apply Permutation_length in As. unfold len in *. simpl in As. lia.
    + eapply terminal_wf_perm; [symmetry; exact As|]. by apply terminal_wf_cons.
Qed.

Lemma Partial_insert_accept L p f data o fl ocs :
  ReassemblyLimits_wf L -> Partial_wf L p -> fragment_ok L f data ->
  Partial_is_exact_duplicate p f data o fl = false -> accepts L p f data o fl ->
  exists p', Partial_insert p f data o fl ocs L = Some (Partial_complete p', p') /\
    accepted p f data o fl ocs p' /\ Partial_wf L p'.
Proof.
  intros (Hl1 & Hl2 & _) Hw Hf Hdup (Hc & Ht & Ho & Hte & Hterm). unfold usize in Hl1, Hl2.
  pose proof (len_nonneg data). unfold Partial_insert, checked_add. rewrite Hdup, Ho.
  destruct (Z.leb_spec (pa_fragment_count p + 1) USIZE_MAX); [|lia].
  destruct (Z.ltb_spec (rl_max_segments L) (pa_fragment_count p + 1)); [lia|].
  destruct (Z.leb_spec (pa_byte_total p + len data) USIZE_MAX); [|lia].
  change LENGTH_UDP_HEADER with 8.
  destruct (Z.leb_spec (pa_byte_total p + len data + 8) USIZE_MAX); [|lia].
  destruct (Z.ltb_spec (rl_max_reassembled_size L) (pa_byte_total p + len data + 8)); [lia|].
  assert (match pa_terminal_end p with Some te => te <? nf_end f | None => false end = false) as ->.
  { destruct (pa_terminal_end p); [|done]. apply Z.ltb_ge. lia. }
  destruct (Partial_observe_terminal p f data o fl) as [r p1] eqn:Eo. simpl in Hterm. subst r.
  destruct (observe_terminal_spec L p f data o fl p1 Hw Hf Hte Eo) as (Ep & Ef & Hw1 & Hte1).
  rewrite Ep. cbn [pa_fragment_options].
  destruct (FragmentOptions_observe_total (pa_fragment_options p) o) as [fo Hfo]. rewrite Hfo.
  cbv zeta. destruct (is_nil data) eqn:Hd.
  - eexists. split; [reflexivity|].
    match goal with |- accepted _ _ _ _ _ _ ?q /\ _ => assert (accepted p f data o fl ocs q) as Ha end.
    { split; try done; cbn; [by rewrite Hd|]. destruct (nf_udp_length f); [done|by subst p1]. }
    split; [done|]. eapply (accepted_wf L p); try done. apply Hw.
  - destruct (store_segment L p f data o fl Hw Hf Ho) as (segs & Hst & Hsf & Hp); [by intros ->|].
    destruct (binary_search_index (pa_segments p) (nf_start f)) as [i|] eqn:Ei; [|done].
    cbn [pa_segments Partial_account Partial_observe_fragment_ocs]. rewrite Ei.
    fold (new_segment f data o fl). rewrite Hst. eexists. split; [reflexivity|].
    match goal with |- accepted _ _ _ _ _ _ ?q /\ _ => assert (accepted p f data o fl ocs q) as Ha end.
    { split; try done; cbn; [by rewrite Hd|]. destruct (nf_udp_length f); [done|by subst p1]. }
    split; [done|]. eapply (accepted_wf L p); try done.
Qed.

#[export] Instance accepts_dec L p f data o fl : Decision (accepts L p f data o fl).
Proof. unfold accepts. destruct (pa_terminal_end p); apply _. Defined.

Lemma Partial_insert_reject L p f data o fl ocs :
  Partial_is_exact_duplicate p f data o fl = false -> ~ accepts L p f data o fl ->
  exists reason p', Partial_insert p f data o fl ocs L = Some (InsertAbort reason, p').
Proof.
  intros Hdup Hna. unfold Partial_insert, checked_add. rewrite Hdup. change LENGTH_UDP_HEADER with 8.
  destruct (Z.leb_spec (pa_fragment_count p + 1) USIZE_MAX); [|eauto].
  destruct (Z.ltb_spec (rl_max_segments L) (pa_fragment_count p + 1)); [eauto|].
  destruct (Z.leb_spec (pa_byte_total p + len data) USIZE_MAX); [|eauto].
  destruct (Z.leb_spec (pa_byte_total p + len data + 8) USIZE_MAX); [|eauto].
  destruct (Z.ltb_spec (rl_max_reassembled_size L) (pa_byte_total p + len data + 8)); [eauto|].
  destruct (Partial_overlaps p (nf_start f) (nf_end f)) eqn:Ho; [eauto|].
  destruct (match pa_terminal_end p with Some te => te <? nf_end f | None => false end) eqn:Et; [eauto|].
  destruct (Partial_observe_terminal p f data o fl) as [[reason|] p1] eqn:Eo; [eauto|].
  exfalso. apply Hna. unfold accepts. rewrite Ho, Eo. repeat split; try lia.
  destruct (pa_terminal_end p); [|done]. apply Z.ltb_ge in Et. lia.
Qed.

(** Every insertion is a duplicate, an abort, or an acceptance. *)
Inductive insert_case (L : ReassemblyLimits) (p : Partial) (f : NormalizedFragment) (data : list Z)
    (o : list RawOption) (fl : list OptionKind) (ocs : option bool) :
    option (InsertResult * Partial) -> Prop :=
| case_duplicate :
    Partial_is_exact_duplicate p f data o fl = true ->
    insert_case L p f data o fl ocs
      (Some (InsertIncomplete, Partial_observe_fragment_ocs p ocs))
| case_abort reason p' :
    Partial_is_exact_duplicate p f data o fl = false -> ~ accepts L p f data o fl ->
    insert_case L p f data o fl ocs (Some (InsertAbort reason, p'))
| case_accept p' :
    Partial_is_exact_duplicate p f data o fl = false -> accepts L p f data o fl ->
    accepted p f data o fl ocs p' -> Partial_wf L p' ->
    insert_case L p f data o fl ocs (Some (Partial_complete p', p')).

Lemma Partial_insert_case L p f data o fl ocs :
  ReassemblyLimits_wf L -> Partial_wf L p -> fragment_ok L f data ->
  insert_case L p f data o fl ocs (Partial_insert p f data o fl ocs L).
Proof.
  intros HL Hw Hf. destruct (Partial_is_exact_duplicate p f data o fl) eqn:Hd.
  { unfold Partial_insert. rewrite Hd. by constructor. }
  destruct (decide (accepts L p f data o fl)) as [Ha|Ha].
  - destruct (Partial_insert_accept L p f data o fl ocs HL Hw Hf Hd Ha) as (p' & -> & ? & ?).
    by constructor.
  - destruct (Partial_insert_reject L p f data o fl ocs Hd Ha) as (reason & p' & ->).
    by constructor.
Qed.

Lemma observe_ocs_wf L p ocs : Partial_wf L p -> Partial_wf L (Partial_observe_fragment_ocs p ocs).
Proof. intros []. by split. Qed.

Lemma Partial_new_wf L now : ReassemblyLimits_wf L -> Partial_wf L (Partial_new now).
Proof.
  intros (_ & H & _). unfold usize in H. split; simpl; try done; try constructor. all: try done; lia.
Qed.

(** ** The invariant of the cache *)

(** Every retained partial is well formed and still incomplete, and there are no
    more of them than the limit. *)
Record Cache_wf (c : ReassemblyCache) : Prop := {
  cw_limits : ReassemblyLimits_wf (rc_limits c);
  cw_partials : map_Forall (fun _ p => Partial_wf (rc_limits c) p /\
                  Partial_complete p = InsertIncomplete) (rc_partials c);
  cw_pending : ReassemblyCache_len c <= rl_max_pending_partials (rc_limits c);
}.

Lemma gc_lookup c now k p :
  rc_partials (ReassemblyCache_gc c now) !! k = Some p <->
  rc_partials c !! k = Some p /\ Partial_is_expired p now (rl_timeout (rc_limits c)) = false.
Proof. simpl. apply map_lookup_filter_Some. Qed.

Lemma len_subseteq (m m' : gmap FragKey Partial) :
  dom m ⊆ dom m' -> Z.of_nat (size m) <= Z.of_nat (size m').
Proof. intros H%subseteq_size. rewrite !size_dom in H. lia. Qed.

Lemma gc_dom c now : dom (rc_partials (ReassemblyCache_gc c now)) ⊆ dom (rc_partials c).
Proof. simpl. apply dom_filter_subseteq. Qed.

Lemma gc_wf c now : Cache_wf c -> Cache_wf (ReassemblyCache_gc c now).
Proof.
  intros [HL Hp Hn]. split; [done| |].
  - intros k p [Hk _]%gc_lookup. by apply (Hp k).
  - unfold ReassemblyCache_len in *. pose proof (len_subseteq _ _ (gc_dom c now)). simpl in *. lia.
Qed.

Lemma discard_wf c k : Cache_wf c -> Cache_wf (ReassemblyCache_discard c k).
Proof.
  intros [HL Hp Hn]. split; [done| |].
  - simpl. by apply map_Forall_delete.
  - unfold ReassemblyCache_len in *. simpl.
    assert (dom (delete k (rc_partials c)) ⊆ dom (rc_partials c)) as Hd%len_subseteq
      by (rewrite dom_delete_L; apply subseteq_difference_l; done). lia.
Qed.

Lemma NormalizedFragment_new_spec frag n f :
  0 <= n -> u16 (frag_offset frag) -> NormalizedFragment_new frag n = Some f ->
  0 <= nf_start f /\ nf_end f = nf_start f + n /\ nf_udp_length f = frag_rdos frag.
Proof.
  intros Hn Hu. unfold NormalizedFragment_new, u16 in *. destruct (_ && _).
  - destruct (checked_add _ _) as [e|] eqn:E; [|done]. apply checked_add_Some in E as [-> _].
    intros [= <-]. split; [done|]. by split.
  - destruct (checked_sub _ _) as [a|] eqn:E1; [|done]. apply checked_sub_Some in E1 as [-> ?].
    destruct (checked_add _ _) as [e|] eqn:E; [|done]. apply checked_add_Some in E as [-> _].
    intros [= <-]. cbn. split; [lia|]. by split.
Qed.

(** The checks in front of the partial: either the key is dropped, or the
    fragment satisfies what [Partial_insert] relies on. *)
Lemma cache_insert_spec c k frag data pr now :
  Cache_wf c -> u16 (frag_offset frag) -> bytes data ->
  let c1 := ReassemblyCache_gc c now in
  let r := ReassemblyCache_insert_with_options_and_failures c k frag data pr now in
  (exists reason, r = Some (Abort reason, ReassemblyCache_discard c1 k)) \/
  (exists f, NormalizedFragment_new frag (len data) = Some f /\
     fragment_ok (rc_limits c) f data /\
     match rc_partials c1 !! k with
     | Some p => r = ReassemblyCache_insert_partial c1 k p f data pr
     | None =>
         if rl_max_pending_partials (rc_limits c) <=? ReassemblyCache_len c1
         then r = (let! o := ReassemblyCache_insert_without_retaining c1 f data pr now in Some (o, c1))
         else r = ReassemblyCache_insert_partial c1 k (Partial_new now) f data pr
     end).
Proof.
  intros Hw Hu Hb c1 r. unfold r, ReassemblyCache_insert_with_options_and_failures. fold c1.
  destruct (NormalizedFragment_new frag (len data)) as [f|] eqn:Ef; [|left; by eexists].
  destruct (NormalizedFragment_new_spec _ _ _ (len_nonneg data) Hu Ef) as (H0 & He & _).
  destruct (_ <? default 0 _); [left; by eexists|].
  change (rc_limits c1) with (rc_limits c). unfold checked_add. change LENGTH_UDP_HEADER with 8.
  destruct (Z.leb_spec (8 + nf_end f) USIZE_MAX); [|left; by eexists].
  destruct (Z.ltb_spec (rl_max_reassembled_size (rc_limits c)) (8 + nf_end f)); [left; by eexists|].
  right. exists f. split; [done|]. split; [done|].
  destruct (rc_partials c1 !! k); [done|]. by destruct (_ <=? ReassemblyCache_len c1).
Qed.

Lemma len_insert_le (m : gmap FragKey Partial) k p :
  Z.of_nat (size (<[k:=p]> m)) <= Z.of_nat (size m) + (if decide (is_Some (m !! k)) then 0 else 1).
Proof.
  destruct (m !! k) as [q|] eqn:E.
  - rewrite decide_True by eauto. rewrite map_size_insert_Some by eauto. lia.
  - rewrite decide_False by (by intros []). rewrite map_size_insert_None by done. lia.
Qed.

(** Inserting into the partial under [k] (or a fresh one while there is room). *)
Lemma insert_partial_wf c k p f data pr :
  Cache_wf c -> Partial_wf (rc_limits c) p -> fragment_ok (rc_limits c) f data ->
  Partial_complete p = InsertIncomplete ->
  (is_Some (rc_partials c !! k) \/ ReassemblyCache_len c < rl_max_pending_partials (rc_limits c)) ->
  exists o c', ReassemblyCache_insert_partial c k p f data pr = Some (o, c') /\ Cache_wf c' /\
    rc_limits c' = rc_limits c /\ forall k', k' <> k -> rc_partials c' !! k' = rc_partials c !! k'.
Proof.
  intros Hc Hw Hf Hi Hroom. unfold ReassemblyCache_insert_partial.
  assert (forall q, Partial_wf (rc_limits c) q -> Partial_complete q = InsertIncomplete ->
    Cache_wf {| rc_partials := <[k:=q]> (rc_partials c); rc_limits := rc_limits c |}) as Hins.
  { intros q Hq Hqi. destruct Hc as [HL Hp Hn]. split; [done|by apply map_Forall_insert_2|].
    unfold ReassemblyCache_len in *. simpl. pose proof (len_insert_le (rc_partials c) k q).
    destruct (decide _); [lia|]. destruct Hroom; [done|lia]. }
  assert (forall q, exists c', ReassemblyCache_discard
      {| rc_partials := <[k:=q]> (rc_partials c); rc_limits := rc_limits c |} k = c' /\ Cache_wf c' /\
      rc_limits c' = rc_limits c /\ forall k', k' <> k -> rc_partials c' !! k' = rc_partials c !! k')
    as Hdel.
  { intros q. eexists. split; [done|]. split; [|split; [done|]].
    - unfold ReassemblyCache_discard. simpl. rewrite delete_insert_eq. by apply (discard_wf c k).
    - intros k' Hk. simpl. by rewrite lookup_delete_ne, lookup_insert_ne. }
  destruct (Partial_insert_case (rc_limits c) p f data (fp_options pr) (fp_option_failures pr)
    (fp_ocs_nonzero pr)) as [Hd|reason p' Hd Hna|p' Hd Ha Hacc Hw'];
    [apply Hc|done|done| | |].
  - do 2 eexists. split; [done|]. split; [|split; [done|]].
    + apply Hins; [by apply observe_ocs_wf|]. rewrite (Partial_complete_spec (rc_limits c)) in Hi |- *
        by (try apply observe_ocs_wf; done).
      simpl. destruct (pa_terminal_end p), (pa_udp_length p); try done. by destruct (_ =? _).
    + intros k' Hk. simpl. by rewrite lookup_insert_ne.
  - destruct (Hdel p') as (c' & -> & ?). eauto.
  - destruct (Partial_complete p') eqn:Ec; [|destruct (Hdel p') as (c' & -> & ?); by eauto..].
    do 2 eexists. split; [done|]. split; [by apply Hins|]. split; [done|].
    intros k' Hk. simpl. by rewrite lookup_insert_ne.
Qed.

Lemma insert_without_retaining_total c f data pr now :
  Cache_wf c -> fragment_ok (rc_limits c) f data ->
  is_Some (ReassemblyCache_insert_without_retaining c f data pr now).
Proof.
  intros Hc Hf. unfold ReassemblyCache_insert_without_retaining.
  destruct (Partial_insert_case (rc_limits c) (Partial_new now) f data (fp_options pr)
    (fp_option_failures pr) (fp_ocs_nonzero pr)); try done; [apply Hc|]. apply Partial_new_wf, Hc.
Qed.

(** Insertion never panics and keeps the invariant; other keys see only [gc]. *)
Lemma cache_insert_wf c k frag data pr now :
  Cache_wf c -> u16 (frag_offset frag) -> bytes data ->
  exists o c', ReassemblyCache_insert_with_options_and_failures c k frag data pr now = Some (o, c') /\
    Cache_wf c' /\ rc_limits c' = rc_limits c /\
    forall k', k' <> k -> rc_partials c' !! k' = rc_partials (ReassemblyCache_gc c now) !! k'.
Proof.
  intros Hw Hu Hb. pose proof (gc_wf c now Hw) as Hg.
  destruct (cache_insert_spec c k frag data pr now Hw Hu Hb) as [[reason ->]|(f & _ & Hf & Hr)].
  - do 2 eexists. split; [done|]. split; [by apply discard_wf|]. split; [done|].
    intros k' Hk. simpl. by rewrite lookup_delete_ne.
  - set (c1 := ReassemblyCache_gc c now) in *. change (rc_limits c) with (rc_limits c1) in Hf |- *.
    destruct (rc_partials c1 !! k) as [p|] eqn:Ep.
    + rewrite Hr. destruct (cw_partials _ Hg k p Ep). apply insert_partial_wf; eauto.
    + change (rc_limits c) with (rc_limits c1) in Hr.
      destruct (Z.leb_spec (rl_max_pending_partials (rc_limits c1)) (ReassemblyCache_len c1)).
      * destruct (insert_without_retaining_total c1 f data pr now Hg Hf) as [o Ho].
        rewrite Hr, Ho. eauto 10.
      * rewrite Hr. apply insert_partial_wf; auto. apply Partial_new_wf, Hg.
Qed.

(** ** Runs of the cache *)

(** What callers may do, with byte strings and 16-bit offsets as arguments. *)
Inductive cache_step : ReassemblyCache -> ReassemblyCache -> Prop :=
| step_insert c k frag data pr now o c' :
    u16 (frag_offset frag) -> bytes data ->
    ReassemblyCache_insert_with_options_and_failures c k frag data pr now = Some (o, c') ->
    cache_step c c'
| step_gc c now : cache_step c (ReassemblyCache_gc c now)
| step_discard c k : cache_step c (ReassemblyCache_discard c k).

Lemma cache_step_wf c c' :
  cache_step c c' -> Cache_wf c -> Cache_wf c' /\ rc_limits c' = rc_limits c.
Proof.
  intros [c0 k frag data pr now o c1 Hu Hb Hi|c0 now|c0 k] Hw.
  - destruct (cache_insert_wf c0 k frag data pr now Hw Hu Hb) as (o' & c2 & Hi' & Hw' & HL & _).
    rewrite Hi in Hi'. by simplify_eq.
  - split; [by apply gc_wf|done].
  - split; [by apply discard_wf|done].
Qed.

Lemma with_limits_wf L : ReassemblyLimits_wf L -> Cache_wf (ReassemblyCache_with_limits L).
Proof.
  intros HL. split; [done|apply map_Forall_empty|]. destruct HL as (_ & _ & H & _).
  unfold usize in H. unfold ReassemblyCache_len. simpl. rewrite map_size_empty. lia.
Qed.

Lemma reachable_wf L c :
  ReassemblyLimits_wf L -> rtc cache_step (ReassemblyCache_with_limits L) c ->
  Cache_wf c /\ rc_limits c = L.
Proof.
  intros HL Hr. apply (rtc_ind_r (fun c => Cache_wf c /\ rc_limits c = L) _) in Hr; [done|..].
  - split; [by apply with_limits_wf|done].
  - intros x y _ Hs [Hw Hl]. destruct (cache_step_wf _ _ Hs Hw) as [? ->]. done.
Qed.

Lemma Partial_wf_size L p :
  Partial_wf L p -> pa_segments p <> [] -> seg_total (pa_segments p) + 8 <= rl_max_reassembled_size L.
Proof.
  intros [Hs _ He _ _ _] Hne.
  enough (seg_total (pa_segments p) <= rl_max_reassembled_size L - 8 - 0) by lia.
  apply segs_from_total; [done| |].
  - destruct (pa_segments p) as [|s l]; [done|]. destruct Hs as (? & ? & ?).
    apply Forall_cons in He as [? _]. lia.
  - apply (Forall_impl _ _ _ He). intros; simpl in *; lia.
Qed.

(** ** Completed datagrams *)

(** The partial a fragment is added to. *)
Definition partial_at (c : ReassemblyCache) (k : FragKey) (now : Z) : Partial :=
  default (Partial_new now) (rc_partials (ReassemblyCache_gc c now) !! k).

Lemma partial_at_wf c k now : Cache_wf c -> Partial_wf (rc_limits c) (partial_at c k now).
Proof.
  intros Hc. unfold partial_at. destruct (rc_partials (ReassemblyCache_gc c now) !! k) as [p|] eqn:E; simpl.
  - by apply (gc_wf c now Hc).(cw_partials _) in E as [? _].
  - apply Partial_new_wf, Hc.
Qed.

(** Completion comes from an accepted fragment, and the key is gone after it. *)
Lemma cache_insert_complete c k frag data pr now d c' :
  Cache_wf c -> u16 (frag_offset frag) -> bytes data ->
  ReassemblyCache_insert_with_options_and_failures c k frag data pr now = Some (Complete d, c') ->
  exists f p', NormalizedFragment_new frag (len data) = Some f /\
    fragment_ok (rc_limits c) f data /\
    accepted (partial_at c k now) f data (fp_options pr) (fp_option_failures pr) (fp_ocs_nonzero pr) p' /\
    Partial_wf (rc_limits c) p' /\ Partial_complete p' = InsertComplete d /\
    rc_partials c' !! k = None.
Proof.
  intros Hw Hu Hb Hi.
  destruct (cache_insert_spec c k frag data pr now Hw Hu Hb) as [[reason He]|(f & Hn & Hf & Hr)];
    [rewrite Hi in He; congruence|].
  exists f. pose proof (partial_at_wf c k now Hw) as Hp. unfold partial_at in *.
  pose proof (Partial_insert_case (rc_limits c) _ f data (fp_options pr) (fp_option_failures pr)
    (fp_ocs_nonzero pr) (cw_limits _ Hw) Hp Hf) as Hcase.
  set (c1 := ReassemblyCache_gc c now) in *.
  destruct (rc_partials c1 !! k) as [p|] eqn:Ep; [|destruct (_ <=? _)]; cbn [default] in *;
    rewrite Hi in Hr; symmetry in Hr;
    unfold ReassemblyCache_insert_partial, ReassemblyCache_insert_without_retaining in Hr;
    change (rc_limits c1) with (rc_limits c) in Hr;
    inversion Hcase as [Hd Hx|reason p' Hd Hna Hx|p' Hd Ha Hacc Hw' Hx]; rewrite <- Hx in Hr;
    try (simplify_eq; done);
    (destruct (Partial_complete p') eqn:Ec; simplify_eq; exists p'; do 5 (split; [done|]));
    [by simpl; rewrite lookup_delete_eq|done|by simpl; rewrite lookup_delete_eq].
Qed.

Lemma Partial_complete_inv L p d :
  Partial_wf L p -> Partial_complete p = InsertComplete d ->
  exists ul, pa_terminal_end p = Some (seg_total (pa_segments p)) /\ pa_udp_length p = Some ul /\
    8 <= ul <= 8 + seg_total (pa_segments p) /\
    8 + seg_total (pa_segments p) <= rl_max_reassembled_size L /\
    d = completed p ul /\
    forall s, s ∈ pa_segments p -> sub (co_tail d) (sg_start s) (sg_end s) = sg_data s.
Proof.
  intros Hw Hc. pose proof (Partial_complete_spec L p Hw) as Hs. rewrite Hc in Hs.
  pose proof (pw_terminal _ _ Hw) as Ht. unfold terminal_wf in Ht.
  destruct (pa_terminal_end p) as [te|], (pa_udp_length p) as [ul|]; try done.
  destruct (Z.eqb_spec (pa_byte_total p) te) as [He|]; [|done].
  rewrite (pw_total _ _ Hw) in He. destruct Ht as (Hf & Hul & Hm). simplify_eq.
  exists ul. do 5 (split; [done|]). intros s Hin. simpl.
  replace (sg_start s) with (sg_start s - 0) by lia. replace (sg_end s) with (sg_end s - 0) by lia.
  apply (segs_contiguous_sub 0 (seg_total (pa_segments p))); [apply Hw| |done].
  apply complete_loop_spec; [apply Hw|lia|done|lia].
Qed.

(** ** Insertion in the normal case, and repeated insertion *)

Lemma cache_insert_at c k frag data pr now f :
  NormalizedFragment_new frag (len data) = Some f ->
  default 0 (nf_udp_length f) <= rl_max_reassembled_size (rc_limits c) ->
  8 + nf_end f <= rl_max_reassembled_size (rc_limits c) <= USIZE_MAX ->
  (is_Some (rc_partials (ReassemblyCache_gc c now) !! k) \/
   ReassemblyCache_len (ReassemblyCache_gc c now) < rl_max_pending_partials (rc_limits c)) ->
  ReassemblyCache_insert_with_options_and_failures c k frag data pr now =
  ReassemblyCache_insert_partial (ReassemblyCache_gc c now) k (partial_at c k now) f data pr.
Proof.
  intros Hf Hu He Hroom. unfold ReassemblyCache_insert_with_options_and_failures, partial_at.
  set (c1 := ReassemblyCache_gc c now) in *. rewrite Hf. change (rc_limits c1) with (rc_limits c).
  unfold checked_add. change LENGTH_UDP_HEADER with 8.
  destruct (Z.ltb_spec (rl_max_reassembled_size (rc_limits c)) (default 0 (nf_udp_length f))); [lia|].
  destruct (Z.leb_spec (8 + nf_end f) USIZE_MAX); [|lia].
  destruct (Z.ltb_spec (rl_max_reassembled_size (rc_limits c)) (8 + nf_end f)); [lia|].
  destruct (rc_partials c1 !! k); [done|]. simpl.
  destruct (Z.leb_spec (rl_max_pending_partials (rc_limits c)) (ReassemblyCache_len c1)); [|done].
  destruct Hroom as [[]|]; [done|lia].
Qed.

(** An [Incomplete] outcome: where it comes from and what it leaves. *)
Lemma cache_insert_incomplete c k frag data pr now c' :
  Cache_wf c -> u16 (frag_offset frag) -> bytes data ->
  ReassemblyCache_insert_with_options_and_failures c k frag data pr now = Some (Incomplete, c') ->
  exists f p', NormalizedFragment_new frag (len data) = Some f /\
    fragment_ok (rc_limits c) f data /\
    default 0 (nf_udp_length f) <= rl_max_reassembled_size (rc_limits c) /\
    Partial_insert (partial_at c k now) f data (fp_options pr) (fp_option_failures pr)
      (fp_ocs_nonzero pr) (rc_limits c) = Some (InsertIncomplete, p') /\
    c' = {| rc_partials := <[k := p']> (rc_partials (ReassemblyCache_gc c now));
            rc_limits := rc_limits c |}.
Proof.
  intros Hw Hu Hb Hi.
  destruct (cache_insert_spec c k frag data pr now Hw Hu Hb) as [[reason He]|(f & Hn & Hf & Hr)];
    [rewrite Hi in He; congruence|].
  exists f. unfold partial_at.
  assert (default 0 (nf_udp_length f) <= rl_max_reassembled_size (rc_limits c)) as Hm.
  { unfold ReassemblyCache_insert_with_options_and_failures in Hi. rewrite Hn in Hi. simpl in Hi.
    by destruct (Z.ltb_spec (rl_max_reassembled_size (rc_limits c)) (default 0 (nf_udp_length f))). }
  set (c1 := ReassemblyCache_gc c now) in *.
  destruct (rc_partials c1 !! k) as [p|] eqn:Ep; [|destruct (_ <=? _)]; cbn [default] in *;
    rewrite Hi in Hr; symmetry in Hr;
    unfold ReassemblyCache_insert_partial, ReassemblyCache_insert_without_retaining in Hr;
    change (rc_limits c1) with (rc_limits c) in Hr;
    destruct (Partial_insert _ f data _ _ _ _) as [[[] p']|]; simplify_eq; eauto 10.
Qed.

Lemma observe_ocs_idem p ocs p' :
  pa_fragment_ocs_nonzero p' = pa_fragment_ocs_nonzero (Partial_observe_fragment_ocs p ocs) ->
  Partial_observe_fragment_ocs p' ocs = p'.
Proof.
  destruct p'. unfold Partial_observe_fragment_ocs. simpl. intros ->.
  destruct (pa_fragment_ocs_nonzero p) as [a|], ocs as [b|]; try done. by destruct a, b.
Qed.

(** What was just accepted is an exact duplicate afterwards. *)
Lemma accepted_duplicate p f data o fl ocs p' :
  accepted p f data o fl ocs p' -> (data <> [] \/ is_Some (nf_udp_length f)) ->
  Partial_is_exact_duplicate p' f data o fl = true.
Proof.
  intros [Hs _ _ Ht _ _ _ _] Hd. unfold Partial_is_exact_duplicate.
  assert (data <> [] -> existsb (fun s => (sg_start s =? nf_start f) && (sg_end s =? nf_end f)
    && bool_decide (sg_data s = data) && bool_decide (sg_fragment_options s = o)
    && bool_decide (sg_fragment_option_failures s = fl)) (pa_segments p') = true) as Hex.
  { intros Hne. apply existsb_exists. exists (new_segment f data o fl). split.
    - apply list_elem_of_In. rewrite Hs. destruct data; [done|]. apply elem_of_cons. by left.
    - simpl. by rewrite !Z.eqb_refl, !bool_decide_eq_true_2. }
  destruct (nf_udp_length f) as [ul|].
  - destruct Ht as (-> & -> & He). rewrite !bool_decide_eq_true_2 by done. cbn [negb orb].
    destruct data as [|x data]; simpl; [|by apply Hex].
    destruct (He eq_refl) as [-> ->]. by rewrite !bool_decide_eq_true_2.
  - apply Hex. destruct Hd as [|[]]; done.
Qed.

(** A partial that a fragment left incomplete treats it as a duplicate. *)
Lemma Partial_insert_again L p f data o fl ocs p' :
  ReassemblyLimits_wf L -> Partial_wf L p -> fragment_ok L f data ->
  (data <> [] \/ is_Some (nf_udp_length f)) ->
  Partial_insert p f data o fl ocs L = Some (InsertIncomplete, p') ->
  Partial_insert p' f data o fl ocs L = Some (InsertIncomplete, p') /\
  pa_received_at p' = pa_received_at p.
Proof.
  intros HL Hw Hf Hne Hi. pose proof (Partial_insert_case L p f data o fl ocs HL Hw Hf) as Hcase.
  rewrite Hi in Hcase. unfold Partial_insert. inversion Hcase as [Hd Hx|? ? ? ? Hx|q Hd Ha Hacc Hwq Hx].
  - change (Partial_is_exact_duplicate (Partial_observe_fragment_ocs p ocs) f data o fl)
      with (Partial_is_exact_duplicate p f data o fl). rewrite Hd. split; [|done].
    by rewrite (observe_ocs_idem p ocs).
  - rewrite (accepted_duplicate _ _ _ _ _ _ _ Hacc Hne). split; [|apply Hacc].
    by rewrite (observe_ocs_idem p ocs) by apply Hacc.
Qed.

(** ** Properties *)

(** C9. From an empty cache, through any sequence of insertions (of any FRAG
    option and any data), collections and discards: no operation panics, at most
    [max_pending_partials] datagrams are retained, and each retained datagram has
    sorted, disjoint, nonempty segments, at most [max_segments] of them, whose
    bytes fit [max_reassembled_size], and is really incomplete. *)
Theorem reassembly_invariant (L : ReassemblyLimits) (c : ReassemblyCache) :
  ReassemblyLimits_wf L -> rtc cache_step (ReassemblyCache_with_limits L) c ->
  ReassemblyCache_len c <= rl_max_pending_partials L /\
  map_Forall (fun _ p =>
    segs_from 0 (pa_segments p) /\ len (pa_segments p) <= rl_max_segments L /\
    (pa_segments p <> [] -> seg_total (pa_segments p) + 8 <= rl_max_reassembled_size L) /\
    Partial_complete p = InsertIncomplete) (rc_partials c) /\
  forall k frag data pr now, u16 (frag_offset frag) -> bytes data ->
    is_Some (ReassemblyCache_insert_with_options_and_failures c k frag data pr now).
Proof.
  intros HL Hr. destruct (reachable_wf L c HL Hr) as [Hw <-]. split; [apply Hw|]. split.
  - intros k p Hk. destruct (cw_partials _ Hw k p Hk) as [Hp Hi].
    split; [apply Hp|]. split; [|split; [by apply Partial_wf_size|done]].
    pose proof (pw_count _ _ Hp). lia.
  - intros k frag data pr now Hu Hb.
    destruct (cache_insert_wf c k frag data pr now Hw Hu Hb) as (? & ? & -> & _). done.
Qed.

Definition example_key : FragKey :=
  {| fk_src := Build_Ipv4Addr 10 0 0 1; fk_dst := Build_Ipv4Addr 10 0 0 2;
     fk_src_port := 4000; fk_dst_port := 5000; fk_identification := 7 |}.

Definition example_processing : FragmentProcessing :=
  {| fp_options := []; fp_option_failures := []; fp_ocs_nonzero := Some true |}.

Definition example_frag (off : Z) (rdos : option Z) : FragOption :=
  {| frag_start := 20; frag_identification := 7; frag_offset := off; frag_rdos := rdos |}.

(** The cache after one non-terminal fragment. *)
Definition example_cache : ReassemblyCache :=
  {| rc_partials := <[example_key :=
       {| pa_segments := [{| sg_start := 0; sg_end := 2; sg_data := [65; 66];
                             sg_fragment_options := []; sg_fragment_option_failures := [] |}];
          pa_terminal_end := None; pa_udp_length := None; pa_fragment_count := 1;
          pa_byte_total := 2; pa_fragment_options := FragmentOptions_default;
          pa_fragment_option_failures := []; pa_fragment_ocs_nonzero := Some true;
          pa_empty_terminal_options := None; pa_empty_terminal_option_failures := None;
          pa_received_at := 5 |}]> ∅;
     rc_limits := ReassemblyLimits_default |}.

Lemma ReassemblyLimits_default_wf : ReassemblyLimits_wf ReassemblyLimits_default.
Proof. repeat split; vm_compute; intros; discriminate. Qed.

Lemma example_cache_reachable :
  rtc cache_step (ReassemblyCache_with_limits ReassemblyLimits_default) example_cache.
Proof.
  apply rtc_once. apply (step_insert _ example_key (example_frag 8 None) [65; 66]
    example_processing 5 Incomplete).
  - unfold u16; simpl; lia.
  - repeat constructor; unfold u8; lia.
  - vm_compute. reflexivity.
Qed.

Lemma reassembly_invariant_witness :
  ReassemblyCache_len example_cache = 1 /\
  ReassemblyCache_len example_cache <= rl_max_pending_partials ReassemblyLimits_default.
Proof.
  split; [vm_compute; reflexivity|].
  exact (proj1 (reassembly_invariant ReassemblyLimits_default example_cache
    ReassemblyLimits_default_wf example_cache_reachable)).
Defined.

(** C4. A completed datagram is exactly its fragments: every segment stored
    before and the completing fragment are found at their offsets in the tail,
    the tail has no other bytes and no gaps, it fits the size limit, the UDP
    length it reports lies within it, and the key is forgotten. *)
Theorem reassembly_complete_sound (c : ReassemblyCache) (k : FragKey) (frag : FragOption)
    (data : list Z) (pr : FragmentProcessing) (now : Z) (d : Completed) (c' : ReassemblyCache) :
  Cache_wf c -> u16 (frag_offset frag) -> bytes data ->
  ReassemblyCache_insert_with_options_and_failures c k frag data pr now = Some (Complete d, c') ->
  exists f, NormalizedFragment_new frag (len data) = Some f /\
    sub (co_tail d) (nf_start f) (nf_end f) = data /\
    (forall s, s ∈ pa_segments (partial_at c k now) ->
       sub (co_tail d) (sg_start s) (sg_end s) = sg_data s) /\
    len (co_tail d) = seg_total (pa_segments (partial_at c k now)) + len data /\
    8 + len (co_tail d) <= rl_max_reassembled_size (rc_limits c) /\
    8 <= co_udp_length d <= 8 + len (co_tail d) /\
    rc_partials c' !! k = None.
Proof.
  intros Hw Hu Hb Hi.
  destruct (cache_insert_complete _ _ _ _ _ _ _ _ Hw Hu Hb Hi) as (f & p' & Hn & Hf & Ha & Hw' & Hc & Hk).
  exists f. split; [done|].
  destruct (Partial_complete_inv _ _ _ Hw' Hc) as (ul & _ & _ & H1 & H2 & -> & Hs).
  assert (len (concat (sg_data <$> pa_segments p')) =
          seg_total (pa_segments (partial_at c k now)) + len data) as Hl.
  { rewrite len_concat_segs, (seg_total_perm _ _ (ac_segs _ _ _ _ _ _ _ Ha)).
    destruct data; simpl; [by rewrite Z.add_0_r|]. fold (seg_total (pa_segments (partial_at c k now))). lia. }
  pose proof (len_concat_segs (pa_segments p')) as Hl'. simpl in *.
  split; [|split; [|split; [done|split; [lia|split; [lia|done]]]]].
  - destruct data as [|x data]; [|apply (Hs (new_segment f (x :: data) (fp_options pr) (fp_option_failures pr)));
      rewrite (ac_segs _ _ _ _ _ _ _ Ha); apply elem_of_cons; by left].
    destruct Hf as (_ & He & _). change (len []) with 0 in He. rewrite He, Z.add_0_r. apply sub_empty.
  - intros s Hin. apply Hs. rewrite (ac_segs _ _ _ _ _ _ _ Ha). apply elem_of_app. by right.
Qed.

Definition example_completed : Completed :=
  {| co_tail := [65; 66; 67; 68]; co_udp_length := 11; co_fragment_options := [];
     co_fragment_option_failures := []; co_fragment_ocs_nonzero := Some true |}.

Lemma reassembly_complete_sound_witness :
  ReassemblyCache_insert_with_options_and_failures example_cache example_key
      (example_frag 10 (Some 11)) [67; 68] example_processing 6
    = Some (Complete example_completed, ReassemblyCache_with_limits ReassemblyLimits_default) /\
  len (co_tail example_completed) = 2 + 2.
Proof.
  assert (ReassemblyCache_insert_with_options_and_failures example_cache example_key
      (example_frag 10 (Some 11)) [67; 68] example_processing 6
    = Some (Complete example_completed, ReassemblyCache_with_limits ReassemblyLimits_default)) as E
    by (vm_compute; reflexivity).
  split; [exact E|].
  destruct (reassembly_complete_sound example_cache example_key (example_frag 10 (Some 11)) [67; 68]
    example_processing 6 example_completed (ReassemblyCache_with_limits ReassemblyLimits_default))
    as (f & _ & _ & _ & Hl & _).
  - apply (reachable_wf ReassemblyLimits_default);
      [apply ReassemblyLimits_default_wf | apply example_cache_reachable].
  - unfold u16; simpl; lia.
  - repeat constructor; unfold u8; lia.
  - exact E.
  - rewrite Hl. vm_compute. reflexivity.
Defined.

(** The cache just after an insertion has nothing that has expired. *)
Lemma gc_after_insert c k now p' :
  Partial_is_expired p' now (rl_timeout (rc_limits c)) = false ->
  let c' := {| rc_partials := <[k:=p']> (rc_partials (ReassemblyCache_gc c now)); rc_limits := rc_limits c |} in
  ReassemblyCache_gc c' now = c'.
Proof.
  intros Hexp c'. unfold ReassemblyCache_gc, c' at 1. simpl. f_equal. apply map_filter_id.
  intros k' q [[-> ->]|[_ Hq]]%lookup_insert_Some; [done|]. by apply gc_lookup in Hq as [_ ?].
Qed.

Lemma partial_at_live c k now :
  0 < rl_timeout (rc_limits c) -> Partial_is_expired (partial_at c k now) now (rl_timeout (rc_limits c)) = false.
Proof.
  intros Ht. unfold partial_at. destruct (rc_partials (ReassemblyCache_gc c now) !! k) as [p|] eqn:E; simpl.
  - by apply gc_lookup in E as [_ ?].
  - unfold Partial_is_expired, duration_since. simpl. apply Z.leb_gt.
    unfold LIMITS_REASSEMBLY_TIMEOUT_MAX, duration_from_secs. lia.
Qed.

(** C22. Retransmissions are idempotent: a fragment with data, or a terminal one, that was
    taken in without completing its datagram and comes again, at the same instant or later
    but before the datagram has expired, reports [Incomplete] and changes nothing: the
    cache is the one collection leaves at that instant, its own datagram untouched, and
    exactly the cache it was when no time has passed.  (A fragment without data that is not
    terminal counts again each time it comes.) *)
Theorem duplicate_idempotent (c : ReassemblyCache) (k : FragKey) (frag : FragOption)
    (data : list Z) (pr : FragmentProcessing) (now : Z) (c' : ReassemblyCache) :
  Cache_wf c -> u16 (frag_offset frag) -> bytes data -> 0 < rl_timeout (rc_limits c) ->
  (data <> [] \/ is_Some (frag_rdos frag)) ->
  ReassemblyCache_insert_with_options_and_failures c k frag data pr now = Some (Incomplete, c') ->
  ReassemblyCache_gc c' now = c' /\
  exists p, rc_partials c' !! k = Some p /\
    (forall later,
       later - pa_received_at p < Z.min (rl_timeout (rc_limits c)) (duration_from_secs 120) ->
       ReassemblyCache_insert_with_options_and_failures c' k frag data pr later
         = Some (Incomplete, ReassemblyCache_gc c' later) /\
       rc_partials (ReassemblyCache_gc c' later) !! k = Some p) /\
    now - pa_received_at p < Z.min (rl_timeout (rc_limits c)) (duration_from_secs 120).
Proof.
  intros Hw Hu Hb Ht Hne Hi.
  destruct (cache_insert_incomplete _ _ _ _ _ _ _ Hw Hu Hb Hi) as (f & p' & Hn & Hf & Hm & Hp & ->).
  destruct (NormalizedFragment_new_spec _ _ _ (len_nonneg data) Hu Hn) as (_ & _ & Hr).
  destruct (Partial_insert_again _ _ _ _ _ _ _ _ (cw_limits _ Hw) (partial_at_wf c k now Hw) Hf
    ltac:(by rewrite Hr) Hp) as [Hagain Hat].
  pose proof (partial_at_live c k now Ht) as Hexp.
  assert (Partial_is_expired p' now (rl_timeout (rc_limits c)) = false) as Hexp'
    by (unfold Partial_is_expired; by rewrite Hat).
  split; [by apply gc_after_insert|]. set (c' := Build_ReassemblyCache _ _).
  exists p'. split; [apply lookup_insert_eq|]. split.
  2:{ revert Hexp'. unfold Partial_is_expired, duration_since. rewrite Z.leb_gt.
      unfold LIMITS_REASSEMBLY_TIMEOUT_MAX, duration_from_secs. lia. }
  intros later Hl.
  assert (rc_partials (ReassemblyCache_gc c' later) !! k = Some p') as Hgk.
  { apply gc_lookup. split; [apply lookup_insert_eq|]. unfold Partial_is_expired, duration_since. apply Z.leb_gt.
    unfold LIMITS_REASSEMBLY_TIMEOUT_MAX, duration_from_secs in *. simpl. lia. }
  split; [|done]. rewrite (cache_insert_at c' k frag data pr later f Hn).
  - unfold partial_at. rewrite Hgk. simpl. unfold ReassemblyCache_insert_partial. simpl. rewrite Hagain.
    unfold ReassemblyCache_gc in Hgk |- *. simpl in Hgk |- *. by rewrite (insert_id _ _ _ Hgk).
  - done.
  - destruct Hf as (_ & _ & ? & _). destruct Hw as [[[_ ?] _] _ _]. simpl. lia.
  - left. rewrite Hgk. eauto.
Qed.

(** The same fragment again at the same instant and a minute later. *)
Lemma duplicate_idempotent_witness :
  ReassemblyCache_insert_with_options_and_failures example_cache example_key
    (example_frag 8 None) [65; 66] example_processing 5 = Some (Incomplete, example_cache) /\
  exists c', ReassemblyCache_insert_with_options_and_failures example_cache example_key
    (example_frag 8 None) [65; 66] example_processing (duration_from_secs 60) = Some (Incomplete, c').
Proof.
  destruct (duplicate_idempotent (ReassemblyCache_with_limits ReassemblyLimits_default) example_key
    (example_frag 8 None) [65; 66] example_processing 5 example_cache) as (Hgc & p & Hp & Hlater & Hnow).
  - apply with_limits_wf, ReassemblyLimits_default_wf.
  - unfold u16; simpl; lia.
  - repeat constructor; unfold u8; lia.
  - vm_compute; reflexivity.
  - left; discriminate.
  - vm_compute. reflexivity.
  - split.
    + destruct (Hlater 5 Hnow) as [H5 _]. rewrite Hgc in H5. exact H5.
    + destruct (Hlater (duration_from_secs 60)) as [H60 _]; [|eexists; exact H60].
      vm_compute in Hp. injection Hp as <-. vm_compute. reflexivity.
Defined.

(** C32. Keys are independent and expiry is exact: an insertion leaves every other
    key's datagram as it was unless it is older than the timeout (never more than
    120 s), in which case it is dropped; [discard] removes only its key. *)
Theorem reassembly_isolation (c : ReassemblyCache) (k k' : FragKey) (frag : FragOption)
    (data : list Z) (pr : FragmentProcessing) (now : Z) (o : ReassemblyOutcome)
    (c' : ReassemblyCache) :
  Cache_wf c -> u16 (frag_offset frag) -> bytes data -> k' <> k ->
  ReassemblyCache_insert_with_options_and_failures c k frag data pr now = Some (o, c') ->
  (forall p, rc_partials c' !! k' = Some p <->
     rc_partials c !! k' = Some p /\
     (now - pa_received_at p < Z.min (rl_timeout (rc_limits c)) (duration_from_secs 120) /\
      0 < Z.min (rl_timeout (rc_limits c)) (duration_from_secs 120))) /\
  rc_partials (ReassemblyCache_discard c k) !! k' = rc_partials c !! k'.
Proof.
  intros Hw Hu Hb Hk Hi. split; [|simpl; by rewrite lookup_delete_ne].
  destruct (cache_insert_wf c k frag data pr now Hw Hu Hb) as (o' & c2 & Hi' & _ & _ & Hother).
  rewrite Hi in Hi'. simplify_eq. intros p. rewrite Hother, gc_lookup by done.
  unfold Partial_is_expired, duration_since. rewrite Z.leb_gt. unfold LIMITS_REASSEMBLY_TIMEOUT_MAX.
  split; intros [? ?]; split; try done; lia.
Qed.

Definition other_key : FragKey :=
  {| fk_src := Build_Ipv4Addr 10 0 0 1; fk_dst := Build_Ipv4Addr 10 0 0 2;
     fk_src_port := 4000; fk_dst_port := 5000; fk_identification := 8 |}.

Lemma reassembly_isolation_witness :
  exists o c', ReassemblyCache_insert_with_options_and_failures example_cache other_key
      (example_frag 8 None) [1] example_processing (duration_from_secs 120) = Some (o, c') /\
    rc_partials c' !! example_key = rc_partials example_cache !! example_key.
Proof.
  assert (is_Some (ReassemblyCache_insert_with_options_and_failures example_cache other_key
      (example_frag 8 None) [1] example_processing (duration_from_secs 120))) as [[o c'] E]
    by (eexists; vm_compute; reflexivity).
  exists o, c'. split; [exact E|].
  assert (exists p, rc_partials example_cache !! example_key = Some p /\ pa_received_at p = 5)
    as (p & Ep & Hat) by (eexists; split; vm_compute; reflexivity).
  rewrite Ep. apply (reassembly_isolation example_cache other_key example_key (example_frag 8 None) [1]
    example_processing (duration_from_secs 120) o c').
  - apply (reachable_wf ReassemblyLimits_default);
      [apply ReassemblyLimits_default_wf | apply example_cache_reachable].
  - unfold u16; simpl; lia.
  - repeat constructor; unfold u8; lia.
  - discriminate.
  - exact E.
  - split; [exact Ep|]. rewrite Hat. vm_compute. split; reflexivity.
Defined.
