(* ===== verification/FragRoundtrip.v ===== *)
(** Splitting and reassembling are inverse, in every arrival order.

    The section [layout] takes any list of fragments whose data partition a
    datagram tail and shows that a cache fed with them in an arbitrary order
    reports [Incomplete] until the last one and then the whole tail; the fragments
    [split_datagram] produces are then shown to be such a list. *)

From S2P Require Import Prelude Model Kind Parse Typed Ip Split Reassembly.

(** ** Arrivals *)

(** A fragment as the receive path hands it over: FRAG option and data. *)
Abbreviation arrival := (FragOption * list Z)%type.

(** Feeding arrivals, each with its time, into the cache under one key. *)
Fixpoint feed (c : ReassemblyCache) (k : FragKey) (pr : FragmentProcessing)
    (arrivals : list (Z * arrival)) : option (list ReassemblyOutcome * ReassemblyCache) :=
  match arrivals with
  | [] => Some ([], c)
  | (now, x) :: rest =>
      let! (o, c) := ReassemblyCache_insert_with_options_and_failures c k x.1 x.2 pr now in
      let! (os, c) := feed c k pr rest in
      Some (o :: os, c)
  end.

Definition is_terminal (x : arrival) : bool :=
  match frag_rdos x.1 with Some _ => true | None => false end.

(** The normalized form of an arrival. *)
Definition arrival_start (x : arrival) : Z :=
  if (frag_offset x.1 =? 0) && is_terminal x then 0 else frag_offset x.1 - 8.

Definition arrival_nf (x : arrival) : NormalizedFragment :=
  {| nf_start := arrival_start x; nf_end := arrival_start x + len x.2;
     nf_udp_length := frag_rdos x.1 |}.

Definition arrival_segs (o : list RawOption) (fl : list OptionKind) (l : list arrival) :
    list Segment :=
  omap (fun x => if is_nil x.2 then None else Some (new_segment (arrival_nf x) x.2 o fl)) l.

Definition arrival_bytes (l : list arrival) : Z := foldr (fun x n => len x.2 + n) 0 l.

(** Two arrivals of one datagram: disjoint data, at most one terminal. *)
Definition compatible (x y : arrival) : Prop :=
  (x.2 = [] \/ y.2 = [] \/ arrival_start x + len x.2 <= arrival_start y \/
   arrival_start y + len y.2 <= arrival_start x) /\
  (is_terminal x = true -> is_terminal y = true -> False).

Fixpoint pairwise (l : list arrival) : Prop :=
  match l with [] => True | x :: l => Forall (compatible x) l /\ pairwise l end.

(** ** Lemmas on lists of arrivals *)

Lemma compatible_sym x y : compatible x y -> compatible y x.
Proof. unfold compatible. intuition. Qed.

Lemma pairwise_perm l k : l ≡ₚ k -> pairwise l -> pairwise k.
Proof.
  induction 1 as [|x l k Hp IH|x y l|l k m _ IH1 _ IH2]; simpl; auto.
  - intros [Hx Hl]. rewrite Hp in Hx. auto.
  - intros (Hx & Hy & Hl). apply Forall_cons in Hx as [Hxy Hx].
    split; [constructor; [by apply compatible_sym|done]|done].
Qed.

Lemma pairwise_app_cons l x k :
  pairwise (l ++ x :: k) -> Forall (fun y => compatible y x) l.
Proof.
  induction l as [|y l IH]; simpl; [constructor|]. intros [Hy Hl]. constructor; [|by apply IH].
  apply Forall_app in Hy as [_ Hy]. by apply Forall_cons in Hy as [? _].
Qed.

Lemma arrival_bytes_perm l k : l ≡ₚ k -> arrival_bytes l = arrival_bytes k.
Proof. induction 1; simpl; lia. Qed.

Lemma arrival_bytes_app l k : arrival_bytes (l ++ k) = arrival_bytes l + arrival_bytes k.
Proof. induction l as [|x l IH]; simpl; [done|]. rewrite IH. lia. Qed.

Lemma arrival_bytes_nonneg l : 0 <= arrival_bytes l.
Proof. induction l as [|x l IH]; simpl; [done|]. pose proof (len_nonneg x.2). lia. Qed.

Lemma arrival_segs_perm o fl l k : l ≡ₚ k -> arrival_segs o fl l ≡ₚ arrival_segs o fl k.
Proof. intros. unfold arrival_segs. by apply omap_Permutation. Qed.

Lemma arrival_segs_cons o fl x l :
  arrival_segs o fl (x :: l) =
  (if is_nil x.2 then [] else [new_segment (arrival_nf x) x.2 o fl]) ++ arrival_segs o fl l.
Proof. unfold arrival_segs. cbn. by destruct (is_nil x.2). Qed.

Lemma arrival_segs_total o fl l : seg_total (arrival_segs o fl l) = arrival_bytes l.
Proof.
  induction l as [|x l IH]; [done|]. rewrite arrival_segs_cons. cbn [arrival_bytes foldr].
  fold (arrival_bytes l). rewrite <- IH. destruct (is_nil x.2) eqn:E; [|done].
  apply is_nil_true in E. by rewrite E.
Qed.

Lemma elem_of_arrival_segs o fl l s :
  s ∈ arrival_segs o fl l -> exists x, x ∈ l /\ x.2 <> [] /\ s = new_segment (arrival_nf x) x.2 o fl.
Proof.
  unfold arrival_segs. intros (x & Hx & Hs)%list_elem_of_omap. exists x. split; [done|].
  destruct (is_nil x.2) eqn:E; [done|]. simplify_eq. split; [|done]. intros Hn. by rewrite Hn in E.
Qed.

Lemma segs_sorted lo l :
  segs_from lo l -> StronglySorted (fun a b => sg_start a < sg_start b) l.
Proof.
  revert lo. induction l as [|s l IH]; intros lo Hs; [constructor|].
  destruct Hs as (? & ? & ? & Hr). constructor; [by eapply IH|].
  apply Forall_forall. intros x Hx. pose proof (segs_from_start _ _ _ Hr Hx). lia.
Qed.

(** Well-formed segment lists with the same segments are equal. *)
Lemma segs_from_unique l k : segs_from 0 l -> segs_from 0 k -> l ≡ₚ k -> l = k.
Proof.
  intros Hl Hk Hp. eapply (StronglySorted_unique_strong (fun a b => sg_start a < sg_start b));
    [|by eapply segs_sorted..|done].
  intros a b _ _ ? ?. lia.
Qed.

(** Fragments without options of their own, each with a validated OCS. *)
Definition plain (pr : FragmentProcessing) : Prop :=
  fp_options pr = [] /\ fp_option_failures pr = [] /\ fp_ocs_nonzero pr = Some true.

(** ** Any partition of a datagram tail *)

Section layout.
Context (L : ReassemblyLimits) (M : list arrival) (n rdos : Z) (pr : FragmentProcessing).

(** The arrivals of one datagram of [n] tail bytes and UDP length [rdos]. *)
Record layout_ok : Prop := {
  lo_limits : ReassemblyLimits_wf L;
  lo_size : 8 + n <= rl_max_reassembled_size L;
  lo_segments : len M <= rl_max_segments L;
  lo_rdos : 8 <= rdos <= 8 + n;
  lo_total : arrival_bytes M = n;
  lo_pairwise : pairwise M;
  lo_sorted : segs_from 0 (arrival_segs (fp_options pr) (fp_option_failures pr) M);
  lo_each : Forall (fun x =>
    NormalizedFragment_new x.1 (len x.2) = Some (arrival_nf x) /\
    0 <= arrival_start x /\ arrival_start x + len x.2 <= n /\ bytes x.2 /\
    match frag_rdos x.1 with
    | Some r => r = rdos /\ arrival_start x + len x.2 = n
    | None => x.2 <> []
    end) M;
  lo_terminal : exists x, x ∈ M /\ is_terminal x = true;
}.

(** A partial that has taken exactly the arrivals [fed]. *)
Record tracks (fed : list arrival) (p : Partial) : Prop := {
  tr_wf : Partial_wf L p;
  tr_segs : pa_segments p ≡ₚ arrival_segs (fp_options pr) (fp_option_failures pr) fed;
  tr_count : pa_fragment_count p = len fed;
  tr_terminal : (pa_terminal_end p, pa_udp_length p) =
    if existsb is_terminal fed then (Some n, Some rdos) else (None, None);
  tr_plain : plain pr ->
    pa_fragment_options p = FragmentOptions_default /\ pa_fragment_option_failures p = [] /\
    pa_fragment_ocs_nonzero p = Some (negb (is_nil fed));
}.

Hypothesis HM : layout_ok.

Lemma tracks_new now : tracks [] (Partial_new now).
Proof. split; try done. apply Partial_new_wf, HM. Qed.

Lemma tracks_total fed p : tracks fed p -> pa_byte_total p = arrival_bytes fed.
Proof.
  intros [Hw Hs _ _]. by rewrite (pw_total _ _ Hw), (seg_total_perm _ _ Hs), arrival_segs_total.
Qed.

Lemma no_terminal_yet fed x rest :
  fed ++ x :: rest ≡ₚ M -> is_terminal x = true -> existsb is_terminal fed = false.
Proof.
  intros Hp Ht. destruct (existsb is_terminal fed) eqn:E; [|done].
  apply existsb_exists in E as (y & Hy & Hyt). apply list_elem_of_In in Hy.
  pose proof (pairwise_perm _ _ (symmetry Hp) (lo_pairwise HM)) as Hc%pairwise_app_cons.
  rewrite Forall_forall in Hc. destruct (Hc y Hy) as [_ Hc']. by destruct (Hc' Hyt Ht).
Qed.

Lemma each_fed fed x rest y :
  fed ++ x :: rest ≡ₚ M -> y ∈ fed ++ x :: rest ->
  NormalizedFragment_new y.1 (len y.2) = Some (arrival_nf y) /\
  0 <= arrival_start y /\ arrival_start y + len y.2 <= n /\ bytes y.2 /\
  match frag_rdos y.1 with
  | Some r => r = rdos /\ arrival_start y + len y.2 = n
  | None => y.2 <> []
  end.
Proof.
  intros Hp Hy. rewrite Hp in Hy. pose proof (lo_each HM) as He. rewrite Forall_forall in He.
  by apply He.
Qed.

(** Stored segments are disjoint from an arrival that was not fed yet. *)
Lemma fed_disjoint fed x rest p s :
  fed ++ x :: rest ≡ₚ M -> tracks fed p -> x.2 <> [] -> s ∈ pa_segments p ->
  sg_start s < sg_end s /\
  (sg_end s <= arrival_start x \/ arrival_start x + len x.2 <= sg_start s).
Proof.
  intros Hp [Hw Hs _ _] Hne Hin. rewrite Hs in Hin.
  apply elem_of_arrival_segs in Hin as (y & Hy & Hyne & ->). simpl.
  pose proof (pairwise_perm _ _ (symmetry Hp) (lo_pairwise HM)) as Hc%pairwise_app_cons.
  rewrite Forall_forall in Hc. destruct (Hc y Hy) as [Hd _].
  assert (0 < len y.2) by (destruct (y.2); [done|len_lia]). split; [lia|]. tauto.
Qed.

Lemma not_duplicate fed x rest p :
  fed ++ x :: rest ≡ₚ M -> tracks fed p ->
  Partial_is_exact_duplicate p (arrival_nf x) x.2 (fp_options pr) (fp_option_failures pr) = false.
Proof.
  intros Hp Ht. unfold Partial_is_exact_duplicate. cbn [nf_udp_length arrival_nf].
  destruct (each_fed fed x rest x Hp) as (_ & _ & _ & _ & Hx);
    [apply elem_of_app; right; by left|].
  destruct (frag_rdos x.1) as [r|] eqn:Er.
  - rewrite (bool_decide_eq_false_2 (pa_udp_length p = Some r)); [done|].
    pose proof (tr_terminal _ _ Ht) as Hterm.
    rewrite (no_terminal_yet fed x rest Hp) in Hterm by (unfold is_terminal; by rewrite Er).
    by injection Hterm as _ ->.
  - apply not_true_iff_false. intros (s & Hs%list_elem_of_In & Hq)%existsb_exists.
    destruct (fed_disjoint fed x rest p s Hp Ht Hx Hs) as [H1 H2]. cbn in Hq.
    assert (0 < len x.2) by (destruct (x.2); [done|len_lia]).
    destruct (Z.eqb_spec (sg_start s) (arrival_start x)); [|done].
    destruct (Z.eqb_spec (sg_end s) (arrival_start x + len x.2)); [lia|done].
Qed.

Lemma fed_bytes fed x rest :
  fed ++ x :: rest ≡ₚ M -> arrival_bytes fed + len x.2 + arrival_bytes rest = n.
Proof.
  intros Hp. rewrite <- (lo_total HM), <- (arrival_bytes_perm _ _ Hp), arrival_bytes_app. simpl. lia.
Qed.

Lemma will_accept fed x rest p :
  fed ++ x :: rest ≡ₚ M -> tracks fed p ->
  accepts L p (arrival_nf x) x.2 (fp_options pr) (fp_option_failures pr).
Proof.
  intros Hp Ht. pose proof (fed_bytes _ _ _ Hp) as Hb. pose proof (arrival_bytes_nonneg rest).
  destruct (each_fed fed x rest x Hp) as (_ & H0 & Hn & _ & Hx);
    [apply elem_of_app; right; by left|].
  pose proof (lo_size HM). pose proof (lo_rdos HM). pose proof (lo_segments HM).
  pose proof (tr_terminal _ _ Ht) as Hterm. unfold accepts.
  split; [|split; [|split; [|split]]].
  - rewrite (tr_count _ _ Ht). apply Permutation_length in Hp. rewrite length_app in Hp.
    simpl in Hp. unfold len in *. lia.
  - rewrite (tracks_total _ _ Ht). lia.
  - unfold Partial_overlaps. cbn. destruct (Z.ltb_spec (arrival_start x) (arrival_start x + len x.2));
      [|done]. cbn [andb]. apply not_true_iff_false.
    intros (s & Hs%list_elem_of_In & Hq)%existsb_exists.
    destruct (fed_disjoint fed x rest p s Hp Ht) as [Hd1 Hd2];
      [intros E; rewrite E, (@len_nil Z) in *; lia|done|].
    bool_cases; done || lia.
  - by destruct (existsb is_terminal fed); injection Hterm as -> _.
  - unfold Partial_observe_terminal. cbn. destruct (frag_rdos x.1) as [r|] eqn:Er; [|done].
    destruct Hx as [-> Hend].
    rewrite (no_terminal_yet fed x rest Hp) in Hterm by (unfold is_terminal; by rewrite Er).
    injection Hterm as -> ->. unfold checked_sub. change LENGTH_UDP_HEADER with 8.
    destruct (Z.leb_spec 8 rdos); [|lia].
    destruct (Z.ltb_spec (arrival_start x + len x.2) (rdos - 8)); [lia|]. cbn.
    destruct (existsb _ _) eqn:Ex; [exfalso|done].
    apply existsb_exists in Ex as (s & Hs%list_elem_of_In & Hq%Z.ltb_lt).
    rewrite (tr_segs _ _ Ht) in Hs. apply elem_of_arrival_segs in Hs as (y & Hy & _ & ->).
    destruct (each_fed fed x rest y Hp) as (_ & _ & Hy' & _); [apply elem_of_app; by left|].
    cbn in Hq. lia.
Qed.


(** The tail of the datagram, and its completion. *)
Definition layout_tail : list Z :=
  concat (sg_data <$> arrival_segs (fp_options pr) (fp_option_failures pr) M).

Definition completion (d : Completed) : Prop :=
  co_tail d = layout_tail /\ co_udp_length d = rdos /\
  (plain pr -> co_fragment_options d = [] /\ co_fragment_option_failures d = [] /\
               co_fragment_ocs_nonzero d = Some true).

Definition completes (o : ReassemblyOutcome) : Prop :=
  exists d, o = Complete d /\ completion d.

(** Accepting the next arrival keeps track. *)
Lemma tracks_accepted fed x rest p p' :
  fed ++ x :: rest ≡ₚ M -> tracks fed p ->
  accepted p (arrival_nf x) x.2 (fp_options pr) (fp_option_failures pr) (fp_ocs_nonzero pr) p' ->
  Partial_wf L p' -> tracks (fed ++ [x]) p'.
Proof.
  intros Hp Ht Ha Hw'.
  destruct (each_fed fed x rest x Hp) as (_ & _ & _ & _ & Hx); [apply elem_of_app; right; by left|].
  split; [done| | | |].
  - rewrite (ac_segs _ _ _ _ _ _ _ Ha), (tr_segs _ _ Ht). unfold arrival_segs at 2.
    rewrite omap_app. fold (arrival_segs (fp_options pr) (fp_option_failures pr) fed).
    fold (arrival_segs (fp_options pr) (fp_option_failures pr) [x]).
    rewrite arrival_segs_cons, app_nil_r. apply Permutation_app_comm.
  - rewrite (ac_count _ _ _ _ _ _ _ Ha), (tr_count _ _ Ht), len_app. done.
  - pose proof (ac_terminal _ _ _ _ _ _ _ Ha) as Hat. pose proof (tr_terminal _ _ Ht) as Htt.
    rewrite existsb_app. cbn [existsb nf_udp_length arrival_nf] in *. unfold is_terminal at 2.
    destruct (frag_rdos x.1) as [r|].
    + destruct Hx as [-> He], Hat as (-> & -> & _). rewrite orb_true_r. simpl. by rewrite He.
    + destruct Hat as (-> & ->). by rewrite orb_false_r.
  - intros Hpl. destruct (tr_plain _ _ Ht Hpl) as (H1 & H2 & H3). destruct Hpl as (P1 & P2 & P3).
    pose proof (ac_options _ _ _ _ _ _ _ Ha) as Ho. rewrite P1, H1 in Ho. injection Ho as <-.
    rewrite (ac_failures _ _ _ _ _ _ _ Ha), (ac_ocs _ _ _ _ _ _ _ Ha), P2, P3, H2. simpl.
    rewrite H3, orb_true_r. split; [done|]. split; [done|]. by destruct fed.
Qed.

(** One more arrival: the partial tracks it and is complete with the last one. *)
Lemma tracks_step fed x rest p :
  fed ++ x :: rest ≡ₚ M -> tracks fed p ->
  exists r p', Partial_insert p (arrival_nf x) x.2 (fp_options pr) (fp_option_failures pr)
      (fp_ocs_nonzero pr) L = Some (r, p') /\
    tracks (fed ++ [x]) p' /\ pa_received_at p' = pa_received_at p /\
    (rest <> [] -> r = InsertIncomplete) /\
    (rest = [] -> exists d, r = InsertComplete d /\ completion d).
Proof.
  intros Hp Ht. pose proof (fed_bytes _ _ _ Hp) as Hb.
  destruct (each_fed fed x rest x Hp) as (_ & H0 & Hn & Hbx & Hx); [apply elem_of_app; right; by left|].
  destruct (Partial_insert_accept L p (arrival_nf x) x.2 (fp_options pr) (fp_option_failures pr)
    (fp_ocs_nonzero pr)) as (p' & Hi & Ha & Hw').
  { apply HM. }
  { apply Ht. }
  { split; [done|]. split; [done|]. split; [|done]. pose proof (lo_size HM). simpl. lia. }
  { by apply (not_duplicate fed x rest). }
  { by apply (will_accept fed x rest). }
  pose proof (tracks_accepted fed x rest p p' Hp Ht Ha Hw') as Ht'.
  exists (Partial_complete p'), p'. split; [done|]. split; [done|]. split; [apply Ha|].
  rewrite (Partial_complete_spec L p' Hw').
  pose proof (tr_terminal _ _ Ht') as Htt. rewrite (tracks_total _ _ Ht'), arrival_bytes_app.
  change (arrival_bytes [x]) with (len x.2 + 0). split.
  - intros Hne. destruct (existsb is_terminal (fed ++ [x])) eqn:Ex; injection Htt as Hte Hul;
      rewrite Hte, ?Hul; [|done].
    destruct (Z.eqb_spec (arrival_bytes fed + (len x.2 + 0)) n); [|done]. exfalso.
    destruct rest as [|y rest]; [done|].
    assert ((fed ++ [x]) ++ y :: rest ≡ₚ M) as Hp' by (by rewrite <- app_assoc).
    destruct (each_fed (fed ++ [x]) y rest y Hp') as (_ & _ & _ & _ & Hy); [apply elem_of_app; right; by left|].
    destruct (is_terminal y) eqn:Ey; [by rewrite (no_terminal_yet _ y rest Hp' Ey) in Ex|].
    unfold is_terminal in Ey. destruct (frag_rdos y.1); [done|].
    assert (0 < len y.2) by (destruct (y.2); [done|len_lia]).
    simpl in Hb. fold (arrival_bytes rest) in Hb. pose proof (arrival_bytes_nonneg rest). lia.
  - intros ->. destruct (lo_terminal HM) as (t & Htm & Htt'). rewrite <- Hp in Htm.
    rewrite (proj2 (existsb_exists is_terminal (fed ++ [x]))) in Htt
      by (exists t; split; [by apply list_elem_of_In|done]).
    injection Htt as -> ->. simpl in Hb.
    destruct (Z.eqb_spec (arrival_bytes fed + (len x.2 + 0)) n); [|lia].
    eexists. split; [done|]. split; [|split; [done|]].
    2:{ intros Hpl. destruct (tr_plain _ _ Ht' Hpl) as (P1 & P2 & P3). cbn. rewrite P1, P2, P3.
        split; [done|]. split; [done|]. by destruct fed. }
    unfold layout_tail, completed. simpl. do 2 f_equal.
    apply segs_from_unique; [apply Ht'|apply (lo_sorted HM)|].
    rewrite (tr_segs _ _ Ht'). by apply arrival_segs_perm.
Qed.

(** ** The cache *)

Definition window (t0 t : Z) : Prop :=
  t0 <= t < t0 + Z.min (rl_timeout L) LIMITS_REASSEMBLY_TIMEOUT_MAX.

Lemma window_live p t :
  window (pa_received_at p) t -> Partial_is_expired p t (rl_timeout L) = false.
Proof. unfold window, Partial_is_expired, duration_since. intros. apply Z.leb_gt. lia. Qed.

(** At time [t] the cache will insert into [p] under [k]. *)
Definition ready (c : ReassemblyCache) (k : FragKey) (t : Z) (p : Partial) : Prop :=
  rc_limits c = L /\ partial_at c k t = p /\
  (is_Some (rc_partials (ReassemblyCache_gc c t) !! k) \/
   ReassemblyCache_len (ReassemblyCache_gc c t) < rl_max_pending_partials L).

Lemma ready_insert c k t p x fed rest :
  ready c k t p -> fed ++ x :: rest ≡ₚ M ->
  ReassemblyCache_insert_with_options_and_failures c k x.1 x.2 pr t =
  ReassemblyCache_insert_partial (ReassemblyCache_gc c t) k p (arrival_nf x) x.2 pr.
Proof.
  intros (HL & <- & Hroom) Hp.
  destruct (each_fed fed x rest x Hp) as (Hnf & H0 & Hn & _ & Hx); [apply elem_of_app; right; by left|].
  pose proof (lo_size HM). pose proof (lo_rdos HM). destruct (lo_limits HM) as ([_ ?] & _).
  apply cache_insert_at; rewrite ?HL; [done| |simpl; lia|done].
  cbn. destruct (frag_rdos x.1); simpl; [lia|]. pose proof (len_nonneg x.2). lia.
Qed.

Lemma ready_next c k t t' p :
  rc_limits c = L -> window (pa_received_at p) t' ->
  ready {| rc_partials := <[k:=p]> (rc_partials (ReassemblyCache_gc c t)); rc_limits := rc_limits c |}
    k t' p.
Proof.
  intros HL Hw. apply window_live in Hw. unfold ready, partial_at.
  assert (rc_partials (ReassemblyCache_gc
    {| rc_partials := <[k:=p]> (rc_partials (ReassemblyCache_gc c t)); rc_limits := rc_limits c |} t') !! k
    = Some p) as ->.
  { apply gc_lookup. simpl. by rewrite lookup_insert_eq, HL. }
  split; [done|]. split; [done|]. left. eauto.
Qed.

Lemma feed_layout arrivals : forall fed c k p t x,
  fed ++ (snd <$> ((t, x) :: arrivals)) ≡ₚ M -> tracks fed p -> ready c k t p ->
  Forall (fun a => window (pa_received_at p) a.1) arrivals ->
  exists o c', feed c k pr ((t, x) :: arrivals)
      = Some (replicate (length arrivals) Incomplete ++ [o], c') /\
    completes o /\ rc_partials c' !! k = None.
Proof.
  induction arrivals as [|[t' x'] arrivals IH]; intros fed c k p t x Hp Ht Hr Hw.
  - destruct (tracks_step fed x [] p Hp Ht) as (r & p' & Hi & _ & _ & _ & Hc).
    destruct (Hc eq_refl) as (d & -> & Hd). cbn [feed].
    rewrite (ready_insert c k t p x fed []) by done.
    unfold ReassemblyCache_insert_partial. cbn [rc_limits ReassemblyCache_gc].
    rewrite (proj1 Hr), Hi. do 2 eexists. split; [done|]. split; [by exists d|].
    simpl. apply lookup_delete_eq.
  - destruct (tracks_step fed x (x' :: arrivals.*2) p Hp Ht)
      as (r & p' & Hi & Ht' & Hat & Hinc & _).
    rewrite (Hinc ltac:(done)) in Hi. apply Forall_cons in Hw as [Hw1 Hw2].
    destruct (IH (fed ++ [x]) {| rc_partials := <[k:=p']> (rc_partials (ReassemblyCache_gc c t));
      rc_limits := rc_limits c |} k p' t' x') as (o & c' & Hf & Ho & Hk).
    { rewrite <- app_assoc. exact Hp. }
    { done. }
    { apply ready_next; [apply Hr|by rewrite Hat]. }
    { by rewrite Hat. }
    exists o, c'. split; [|done].
    change (feed c k pr ((t, x) :: (t', x') :: arrivals)) with
      (let! (o, c) := ReassemblyCache_insert_with_options_and_failures c k x.1 x.2 pr t in
       let! (os, c) := feed c k pr ((t', x') :: arrivals) in Some (o :: os, c)).
    rewrite (ready_insert c k t p x fed (x' :: arrivals.*2)) by done.
    unfold ReassemblyCache_insert_partial. cbn [rc_limits ReassemblyCache_gc].
    rewrite (proj1 Hr), Hi. cbv beta iota zeta. rewrite (proj1 Hr) in Hf.
    rewrite Hf. done.
Qed.
End layout.

(** ** The fragments of [split_datagram] *)

(** What the receiver reads from the fragments of a layout. *)
Fixpoint layout_arrivals (id off : Z) (chunks : list (list Z)) (last : list Z) (rdos : Z) :
    list arrival :=
  match chunks with
  | [] => [(fragment_frag id off (Some rdos), last)]
  | c :: chunks' =>
      (fragment_frag id off None, c) :: layout_arrivals id (off + len c) chunks' last rdos
  end.

(** The first fragment lies at tail offset [s]. *)
Definition layout_from (off s : Z) (chunks : list (list Z)) : Prop :=
  0 <= s /\ (off = 8 + s \/ (off = 0 /\ s = 0 /\ chunks = [])).

Section arrivals.
Context (id rdos : Z) (last : list Z).
Implicit Types (chunks : list (list Z)) (c : list Z).

Lemma start_terminal off s : layout_from off s [] ->
  arrival_start (fragment_frag id off (Some rdos), last) = s.
Proof.
  intros (? & [->|(-> & -> & _)]); unfold arrival_start, is_terminal; cbn.
  - destruct (Z.eqb_spec (8 + s) 0); [lia|]. cbn. lia.
  - done.
Qed.

Lemma start_chunk off s c chunks : layout_from off s (c :: chunks) ->
  off = 8 + s /\ arrival_start (fragment_frag id off None, c) = s /\
  layout_from (off + len c) (s + len c) chunks.
Proof.
  intros (? & [->|(_ & _ & ?)]); [|done]. pose proof (len_nonneg c).
  unfold arrival_start, is_terminal, layout_from. cbn. rewrite andb_false_r.
  split; [done|]. split; [lia|]. split; [lia|]. left. lia.
Qed.

Lemma layout_bytes off chunks :
  arrival_bytes (layout_arrivals id off chunks last rdos) = len (concat chunks) + len last.
Proof.
  revert off. induction chunks as [|c chunks IH]; intros off.
  - cbn [layout_arrivals concat]. rewrite (@len_nil Z). cbn. lia.
  - cbn [layout_arrivals arrival_bytes foldr]. fold (arrival_bytes
      (layout_arrivals id (off + len c) chunks last rdos)). rewrite IH, concat_cons, len_app. cbn. lia.
Qed.

(** Every arrival from [s] on lies between [s] and the end of the tail. *)
Lemma layout_within off s chunks : layout_from off s chunks ->
  Forall (fun x => s <= arrival_start x /\
    arrival_start x + len x.2 <= s + len (concat chunks) + len last)
    (layout_arrivals id off chunks last rdos).
Proof.
  revert off s. induction chunks as [|c chunks IH]; intros off s Hs.
  - cbn [layout_arrivals concat]. rewrite (@len_nil Z). constructor; [|constructor].
    rewrite (start_terminal off s Hs). cbn. lia.
  - destruct (start_chunk _ _ _ _ Hs) as (_ & Hst & Hs'). rewrite concat_cons, len_app.
    pose proof (len_nonneg (concat chunks)). pose proof (len_nonneg last). pose proof (len_nonneg c).
    constructor.
    + rewrite Hst. cbn. lia.
    + apply (Forall_impl _ _ _ (IH _ _ Hs')). intros x [? ?]. lia.
Qed.

Lemma layout_pairwise off s chunks : layout_from off s chunks ->
  pairwise (layout_arrivals id off chunks last rdos).
Proof.
  revert off s. induction chunks as [|c chunks IH]; intros off s Hs; [done|].
  destruct (start_chunk _ _ _ _ Hs) as (_ & Hst & Hs'). split; [|by eapply IH].
  apply (Forall_impl _ _ _ (layout_within _ _ _ Hs')). intros x [? ?]. unfold compatible.
  rewrite Hst. split; [|done]. right. right. left. cbn. lia.
Qed.

Lemma layout_segs o fl off s chunks :
  layout_from off s chunks -> Forall (fun c => c <> []) chunks ->
  segs_from s (arrival_segs o fl (layout_arrivals id off chunks last rdos)) /\
  concat (sg_data <$> arrival_segs o fl (layout_arrivals id off chunks last rdos))
    = concat chunks ++ last.
Proof.
  intros Hs Hne. revert off s Hs. induction Hne as [|c chunks Hc _ IH]; intros off s Hs.
  - cbn [layout_arrivals]. rewrite arrival_segs_cons. cbn [snd].
    pose proof (start_terminal off s Hs) as Hst.
    destruct last as [|b l] eqn:El; cbn [is_nil app arrival_segs]; [done|]. rewrite <- El in *.
    assert (0 < len last) by (rewrite El; len_lia).
    split; [|cbn; by rewrite app_nil_r]. cbn. rewrite Hst. split; [lia|]. split; [lia|]. split; [lia|done].
  - destruct (start_chunk _ _ _ _ Hs) as (_ & Hst & Hs'). destruct (IH _ _ Hs') as [I1 I2].
    cbn [layout_arrivals]. rewrite arrival_segs_cons. cbn [snd].
    assert (0 < len c) by (destruct c; [done|len_lia]).
    destruct (is_nil c) eqn:En; [by apply is_nil_true in En|]. cbn [app].
    rewrite fmap_cons, !concat_cons, I2, app_assoc. split; [|done].
    cbn [segs_from new_segment sg_start sg_end sg_data nf_start nf_end arrival_nf snd].
    rewrite Hst. split; [lia|]. split; [lia|]. split; [lia|done].
Qed.

Lemma layout_each n off s chunks :
  layout_from off s chunks -> Forall (fun c => c <> []) chunks ->
  bytes (concat chunks ++ last) -> n = s + len (concat chunks) + len last -> n <= USIZE_MAX ->
  Forall (fun x =>
    NormalizedFragment_new x.1 (len x.2) = Some (arrival_nf x) /\
    0 <= arrival_start x /\ arrival_start x + len x.2 <= n /\ bytes x.2 /\
    match frag_rdos x.1 with
    | Some r => r = rdos /\ arrival_start x + len x.2 = n
    | None => x.2 <> []
    end) (layout_arrivals id off chunks last rdos).
Proof.
  intros Hs Hne. revert off s n Hs. induction Hne as [|c chunks Hc _ IH]; intros off s n Hs Hb Hn Hm.
  - cbn [layout_arrivals concat app] in *. rewrite (@len_nil Z) in Hn. constructor; [|constructor].
    pose proof (start_terminal off s Hs) as Hst. destruct Hs as (H0 & Hs). cbn [fst snd frag_rdos fragment_frag].
    rewrite Hst. split; [|split; [lia|split; [lia|split; [done|lia]]]].
    unfold arrival_nf. rewrite Hst. unfold NormalizedFragment_new, checked_sub, checked_add. cbn [frag_offset frag_rdos fragment_frag fst snd].
    destruct Hs as [->|(-> & -> & _)].
    + destruct (Z.eqb_spec (8 + s) 0); [lia|]. cbn [andb]. change LENGTH_UDP_HEADER with 8.
      destruct (Z.leb_spec 8 (8 + s)); [|lia]. replace (8 + s - 8) with s by lia.
      by destruct (Z.leb_spec (s + len last) USIZE_MAX); [|lia].
    + cbn [Z.eqb andb]. by destruct (Z.leb_spec (0 + len last) USIZE_MAX); [|lia].
  - destruct (start_chunk _ _ _ _ Hs) as (-> & Hst & Hs'). destruct Hs as (H0 & _).
    cbn [layout_arrivals]. rewrite concat_cons, <- app_assoc in Hb. apply Forall_app in Hb as [Hbc Hb].
    rewrite concat_cons, len_app in Hn. pose proof (len_nonneg (concat chunks)).
    pose proof (len_nonneg last). constructor; [|by apply (IH _ (s + len c)); try done; lia].
    cbn [fst snd frag_rdos fragment_frag]. rewrite Hst.
    split; [|split; [lia|split; [lia|by split]]].
    unfold arrival_nf. rewrite Hst. unfold NormalizedFragment_new, checked_sub, checked_add.
    cbn [frag_offset frag_rdos fragment_frag fst snd]. rewrite andb_false_r. change LENGTH_UDP_HEADER with 8.
    destruct (Z.leb_spec 8 (8 + s)); [|lia]. replace (8 + s - 8) with s by lia.
    by destruct (Z.leb_spec (s + len c) USIZE_MAX); [|lia].
Qed.

Lemma layout_last off chunks :
  exists x, x ∈ layout_arrivals id off chunks last rdos /\ is_terminal x = true.
Proof.
  revert off. induction chunks as [|c chunks IH]; intros off; cbn [layout_arrivals].
  - eexists. split; [by left|done].
  - destruct (IH (off + len c)) as (x & Hx & ?). exists x. split; [by right|done].
Qed.

Lemma len_layout off chunks : len (layout_arrivals id off chunks last rdos) = len chunks + 1.
Proof.
  revert off. induction chunks as [|c chunks IH]; intros off; [done|].
  cbn [layout_arrivals]. rewrite !len_cons, IH. lia.
Qed.
End arrivals.

Lemma fragments_views id budget off chunks last rdos :
  Forall2 (reads_back id budget) (fragments_of id off chunks last rdos) (chunks ++ [last]) ->
  omap (fun f => fragment_view (fg_surplus_body f)) (fragments_of id off chunks last rdos)
  = layout_arrivals id off chunks last rdos.
Proof.
  revert off. induction chunks as [|c chunks IH]; intros off; cbn [fragments_of layout_arrivals app].
  - intros [[Hv _] _]%Forall2_cons. cbn [omap list_omap]. by rewrite Hv.
  - intros [[Hv _] Hr]%Forall2_cons. cbn [omap list_omap]. rewrite Hv. cbn. f_equal. by apply IH.
Qed.

Lemma layout_from_start (chunks : list (list Z)) :
  layout_from (if is_nil chunks then 0 else 8) 0 chunks.
Proof. split; [done|]. destruct chunks; simpl; auto. Qed.

(** The fragments of a split datagram are a layout of its tail. *)
Lemma split_layout L pr payload body cfg frags :
  SplitConfig_wf cfg -> bytes payload -> bytes body ->
  split_datagram payload body cfg = Some (Ok frags) ->
  ReassemblyLimits_wf L -> 8 + len (reassembled_tail payload body) <= rl_max_reassembled_size L ->
  len frags <= rl_max_segments L ->
  let M := omap (fun f => fragment_view (fg_surplus_body f)) frags in
  layout_ok L M (len (reassembled_tail payload body)) (8 + len payload) pr /\
  layout_tail M pr = reassembled_tail payload body /\ length M = length frags.
Proof.
  intros Hw Hp Hb Hs HL Hsz Hseg. destruct (split_Ok _ _ _ _ Hw Hs) as (Hy & chunks & last & Hr).
  pose proof (split_read_back _ _ _ _ _ _ Hw Hp Hb Hy Hr) as Hrb.
  pose proof (len_reassembled_tail payload body) as Hlt. pose proof (len_nonneg payload).
  pose proof (len_nonneg body). destruct Hr as [Hd -> Hsz' _ _]. unfold fragment_layout in *.
  pose proof (layout_from_start chunks) as Hst. set (off := if is_nil chunks then 0 else 8) in *.
  assert (Forall (fun c => c <> []) chunks) as Hne.
  { apply (Forall_impl _ _ _ Hsz'). intros c Hc ->. rewrite (@len_nil Z) in Hc. lia. }
  assert (len (reassembled_tail payload body) = 0 + len (concat chunks) + len last) as Hn
    by (rewrite <- Hd, len_app; lia).
  cbv zeta. rewrite (fragments_views _ _ _ _ _ _ Hrb).
  pose proof (Forall2_length _ _ _ Hrb) as Hlen. rewrite length_app in Hlen. simpl in Hlen.
  pose proof (len_layout (sc_identification cfg) (8 + len payload) last off chunks) as Hll.
  pose proof (reassembled_tail_bytes payload body Hp Hb) as Htb.
  destruct (layout_segs (sc_identification cfg) (8 + len payload) last (fp_options pr)
    (fp_option_failures pr) off 0 chunks Hst Hne) as [Hsf Hcat].
  split; [split|split].
  - done.
  - done.
  - rewrite Hll. unfold len in *. lia.
  - destruct (is_nil body); dlia.
  - rewrite layout_bytes, Hn. lia.
  - by eapply layout_pairwise.
  - done.
  - apply (layout_each _ _ _ _ off 0); try done; [by rewrite Hd|]. destruct HL as ([_ ?] & _). lia.
  - apply layout_last.
  - unfold layout_tail. by rewrite Hcat.
  - unfold len in *. lia.
Qed.

(** Feeding the fragments of a split datagram in any order. *)
Lemma feed_split (payload body : list Z) (cfg : SplitConfig)
    (frags : list Fragment) (c : ReassemblyCache) (k : FragKey) (pr : FragmentProcessing)
    (t0 : Z) (x0 : arrival) (arrivals : list (Z * arrival)) :
  SplitConfig_wf cfg -> bytes payload -> bytes body ->
  split_datagram payload body cfg = Some (Ok frags) ->
  ReassemblyLimits_wf (rc_limits c) ->
  8 + len (reassembled_tail payload body) <= rl_max_reassembled_size (rc_limits c) ->
  len frags <= rl_max_segments (rc_limits c) ->
  rc_partials c !! k = None -> ReassemblyCache_len c < rl_max_pending_partials (rc_limits c) ->
  x0 :: arrivals.*2 ≡ₚ omap (fun f => fragment_view (fg_surplus_body f)) frags ->
  Forall (fun a => window (rc_limits c) t0 a.1) arrivals ->
  exists d c', feed c k pr ((t0, x0) :: arrivals)
      = Some (replicate (length frags - 1) Incomplete ++ [Complete d], c') /\
    co_tail d = reassembled_tail payload body /\ co_udp_length d = 8 + len payload /\
    (plain pr -> co_fragment_options d = [] /\ co_fragment_option_failures d = [] /\
                 co_fragment_ocs_nonzero d = Some true) /\
    rc_partials c' !! k = None.
Proof.
  intros Hw Hp Hb Hs HL Hsz Hseg Hk Hroom Harr Hwin.
  destruct (split_layout (rc_limits c) pr payload body cfg frags Hw Hp Hb Hs HL Hsz Hseg)
    as (HM & Htail & Hlen).
  assert (rc_partials (ReassemblyCache_gc c t0) !! k = None) as Hk'.
  { destruct (rc_partials (ReassemblyCache_gc c t0) !! k) as [p|] eqn:E; [|done].
    apply gc_lookup in E as [E _]. congruence. }
  destruct (feed_layout (rc_limits c) _ _ _ pr HM arrivals [] c k (Partial_new t0) t0 x0)
    as (o & c' & Hf & (d & -> & Hd1 & Hd2 & Hd3) & Hgone).
  - exact Harr.
  - by apply (tracks_new _ _ _ _ _ HM).
  - split; [done|]. unfold partial_at. rewrite Hk'. split; [done|]. right.
    pose proof (len_subseteq _ _ (gc_dom c t0)). unfold ReassemblyCache_len in *. lia.
  - done.
  - exists d, c'. apply Permutation_length in Harr. rewrite Hlen in Harr. simpl in Harr.
    rewrite length_fmap in Harr. replace (length frags - 1)%nat with (length arrivals) by lia.
    split; [done|]. by rewrite <- Htail.
Qed.

(** ** Properties *)

(** C2. Fragmentation is lossless in every arrival order: feeding all fragments
    of a split datagram, read back from their wire form, in any order and within
    the timeout to a cache that has room and admits the datagram's size, yields
    [Incomplete] for each but the last and then the exact tail (user data, pad,
    options body) with UDP length 8 plus the user data length, and the cache
    forgets the key. *)
Theorem split_reassemble_any_order (payload body : list Z) (cfg : SplitConfig)
    (frags : list Fragment) (c : ReassemblyCache) (k : FragKey) (pr : FragmentProcessing)
    (t0 : Z) (x0 : arrival) (arrivals : list (Z * arrival)) :
  SplitConfig_wf cfg -> bytes payload -> bytes body ->
  split_datagram payload body cfg = Some (Ok frags) ->
  ReassemblyLimits_wf (rc_limits c) ->
  8 + len (reassembled_tail payload body) <= rl_max_reassembled_size (rc_limits c) ->
  len frags <= rl_max_segments (rc_limits c) ->
  rc_partials c !! k = None -> ReassemblyCache_len c < rl_max_pending_partials (rc_limits c) ->
  x0 :: arrivals.*2 ≡ₚ omap (fun f => fragment_view (fg_surplus_body f)) frags ->
  Forall (fun a => window (rc_limits c) t0 a.1) arrivals ->
  exists d c', feed c k pr ((t0, x0) :: arrivals)
      = Some (replicate (length frags - 1) Incomplete ++ [Complete d], c') /\
    co_tail d = reassembled_tail payload body /\ co_udp_length d = 8 + len payload /\
    (plain pr -> co_fragment_options d = [] /\ co_fragment_option_failures d = [] /\
                 co_fragment_ocs_nonzero d = Some true) /\
    rc_partials c' !! k = None.
Proof. apply feed_split. Qed.

Lemma split_reassemble_any_order_witness :
  exists d c', feed ReassemblyCache_new example_key example_processing
      [(100, ({| frag_start := 22; frag_identification := 0x01020304; frag_offset := 14;
                 frag_rdos := Some 13 |}, [0; 0; 1; 0]));
       (200, ({| frag_start := 20; frag_identification := 0x01020304; frag_offset := 8;
                 frag_rdos := None |}, [10; 11; 12; 13; 14; 0]))]
    = Some ([Incomplete; Complete d], c') /\
    co_tail d = [10; 11; 12; 13; 14; 0; 0; 0; 1; 0] /\ co_udp_length d = 13.
Proof.
  destruct (split_reassemble_any_order [10; 11; 12; 13; 14] [0; 0; 1; 0] example_split_config
    [{| fg_offset := 8; fg_terminal := false; fg_rdos := None;
        fg_surplus_body := [0; 0; 3; 10; 0; 20; 1; 2; 3; 4; 0; 8; 10; 11; 12; 13; 14; 0] |};
     {| fg_offset := 14; fg_terminal := true; fg_rdos := Some 13;
        fg_surplus_body := [0; 0; 3; 12; 0; 22; 1; 2; 3; 4; 0; 14; 0; 13; 0; 0; 1; 0] |}]
    ReassemblyCache_new example_key example_processing 100
    ({| frag_start := 22; frag_identification := 0x01020304; frag_offset := 14;
        frag_rdos := Some 13 |}, [0; 0; 1; 0])
    [(200, ({| frag_start := 20; frag_identification := 0x01020304; frag_offset := 8;
               frag_rdos := None |}, [10; 11; 12; 13; 14; 0]))])
    as (d & c' & Hf & H1 & H2 & _).
  - repeat split; simpl; unfold USIZE_MAX; lia.
  - repeat constructor; unfold u8; lia.
  - repeat constructor; unfold u8; lia.
  - reflexivity.
  - apply ReassemblyLimits_default_wf.
  - vm_compute. intros; discriminate.
  - vm_compute. intros; discriminate.
  - reflexivity.
  - vm_compute. reflexivity.
  - exact (perm_swap _ _ _).
  - repeat constructor; vm_compute; intros; discriminate.
  - exists d, c'. split; [exact Hf|]. split; [exact H1|exact H2].
Defined.
