(* ===== verification/Coalesce.v ===== *)
(** Options on fragments: what a completed datagram says about them
    (src/src/frag/reassembly.rs, [FragmentOptions], [FragmentOptionFailures] and
    [observe_fragment_ocs], across a whole run of the cache).

    A fragment may carry options of its own, next to FRAG.  The cache folds them into one
    set as the fragments come in; the specification here folds nothing: it looks at the list
    of fragments that were taken in for a key since its datagram began ([heard]), drops the
    retransmissions ([distinct]) and reads the answer off that list. *)

From S2P Require Import Prelude Model Kind Parse Typed Ip Reassembly.

(** ** The specification *)

(** A fragment that was taken in. *)
Record Piece : Type := {
  pc_fragment : NormalizedFragment;
  pc_data : list Z;
  pc_processing : FragmentProcessing;
}.

(** [x] retransmits [y]: the same data at the same place with the same options; without
    data, the same end of the datagram. *)
Definition repeats (x y : Piece) : bool :=
  (nf_start (pc_fragment x) =? nf_start (pc_fragment y))
  && bool_decide (pc_data x = pc_data y)
  && bool_decide (fp_options (pc_processing x) = fp_options (pc_processing y))
  && bool_decide (fp_option_failures (pc_processing x) = fp_option_failures (pc_processing y))
  && (negb (is_nil (pc_data x))
      || match nf_udp_length (pc_fragment x), nf_udp_length (pc_fragment y) with
         | Some a, Some b => a =? b
         | _, _ => false
         end).

(** The fragments that do not repeat an earlier one. *)
Fixpoint distinct_from (seen h : list Piece) : list Piece :=
  match h with
  | [] => []
  | x :: rest =>
      (if existsb (repeats x) seen then [] else [x]) ++ distinct_from (seen ++ [x]) rest
  end.

Definition distinct (h : list Piece) : list Piece := distinct_from [] h.

Definition least (l : list Z) : option Z :=
  match l with [] => None | x :: rest => Some (foldr Z.min x rest) end.

(** The value of an option, if it is of the right kind and well formed. *)
Definition mds_of (o : RawOption) : option Z :=
  match ro_kind o, Mds_decode (ro_value o) with
  | Mds, Some (Ok m) => Some (max_datagram_size m)
  | _, _ => None
  end.

Definition mrds_of (o : RawOption) : option MrdsOption :=
  match ro_kind o, Mrds_decode (ro_value o) with
  | Mrds, Some (Ok m) => Some m
  | _, _ => None
  end.

Definition req_of (o : RawOption) : option (list Z) :=
  match ro_kind o, Req_decode (ro_value o) with
  | Req, Some (Ok r) => Some (req_token r)
  | _, _ => None
  end.

Definition res_of (o : RawOption) : option (list Z) :=
  match ro_kind o, Res_decode (ro_value o) with
  | Res, Some (Ok r) => Some (res_token r)
  | _, _ => None
  end.

Definition raw_list (kind : OptionKind) (value : option (list Z)) : list RawOption :=
  match value with Some v => [{| ro_kind := kind; ro_value := v |}] | None => [] end.

(** The smallest MDS, the smallest size and the smallest segment count of all MRDS, the
    last REQ and the last RES, in this order. *)
Definition coalesced_options (os : list RawOption) : list RawOption :=
  let mrds := omap mrds_of os in
  raw_list Mds (u16_to_be <$> least (omap mds_of os))
  ++ match least (mrds_max_reassembled_size <$> mrds), least (mrds_max_segments <$> mrds) with
     | Some size, Some segments => [{| ro_kind := Mrds; ro_value := u16_to_be size ++ [segments] |}]
     | _, _ => []
     end
  ++ raw_list Req (last (omap req_of os))
  ++ raw_list Res (last (omap res_of os)).

(** Every kind once, where it first occurs. *)
Fixpoint first_occurrences (l : list OptionKind) : list OptionKind :=
  match l with
  | [] => []
  | x :: rest => x :: filter (fun y => y <> x) (first_occurrences rest)
  end.

(** Unknown as soon as one fragment's OCS use is, else whether any was nonzero. *)
Definition coalesced_ocs (l : list (option bool)) : option bool :=
  if forallb (fun b => match b with Some _ => true | None => false end) l
  then Some (existsb (fun b => bool_decide (b = Some true)) l) else None.

Definition coalesced (h : list Piece) (d : Completed) : Prop :=
  co_fragment_options d = coalesced_options (concat (fp_options ∘ pc_processing <$> distinct h)) /\
  co_fragment_option_failures d =
    first_occurrences (concat (fp_option_failures ∘ pc_processing <$> distinct h)) /\
  co_fragment_ocs_nonzero d = coalesced_ocs (fp_ocs_nonzero ∘ pc_processing <$> h).

(** ** Runs of the cache *)

(** What the cache's user can do. *)
Inductive CacheOp : Type :=
| OpInsert (key : FragKey) (frag : FragOption) (data : list Z) (processing : FragmentProcessing) (now : Z)
| OpGc (now : Z)
| OpDiscard (key : FragKey).

Definition CacheOp_wf (op : CacheOp) : Prop :=
  match op with
  | OpInsert _ frag data _ _ => u16 (frag_offset frag) /\ bytes data
  | _ => True
  end.

(** The pieces of [k] that still count at [now]: none once its datagram has expired. *)
Definition alive (k : FragKey) (c : ReassemblyCache) (now : Z) (h : list Piece) : list Piece :=
  match rc_partials (ReassemblyCache_gc c now) !! k with Some _ => h | None => [] end.

Definition piece_of (frag : FragOption) (data : list Z) (processing : FragmentProcessing) : list Piece :=
  match NormalizedFragment_new frag (len data) with
  | Some f => [{| pc_fragment := f; pc_data := data; pc_processing := processing |}]
  | None => []
  end.

(** One operation, with the pieces heard under key [k]: a fragment of [k] is heard when it
    leaves the datagram incomplete; completion, an abort and a discard forget. *)
Definition hear (k : FragKey) (c : ReassemblyCache) (h : list Piece) (op : CacheOp) :
    option (ReassemblyCache * list Piece) :=
  match op with
  | OpInsert key frag data processing now =>
      let! (o, c') := ReassemblyCache_insert_with_options_and_failures c key frag data processing now in
      let h := alive k c now h in
      Some (c', if negb (bool_decide (key = k)) then h else
                match o with Incomplete => h ++ piece_of frag data processing | _ => [] end)
  | OpGc now => Some (ReassemblyCache_gc c now, alive k c now h)
  | OpDiscard key => Some (ReassemblyCache_discard c key, if bool_decide (key = k) then [] else h)
  end.

Fixpoint heard (k : FragKey) (c : ReassemblyCache) (h : list Piece) (ops : list CacheOp) :
    option (ReassemblyCache * list Piece) :=
  match ops with
  | [] => Some (c, h)
  | op :: rest => let! (c, h) := hear k c h op in heard k c h rest
  end.

(** ** Lemmas: the specification, fragment by fragment *)

Lemma distinct_from_snoc seen h x :
  distinct_from seen (h ++ [x]) =
  distinct_from seen h ++ (if existsb (repeats x) (seen ++ h) then [] else [x]).
Proof.
  revert seen. induction h as [|y h IH]; intros seen; simpl.
  - by rewrite !app_nil_r.
  - by rewrite IH, <- !app_assoc.
Qed.

Lemma distinct_snoc h x :
  distinct (h ++ [x]) = distinct h ++ (if existsb (repeats x) h then [] else [x]).
Proof. apply distinct_from_snoc. Qed.

Lemma least_snoc l x : least (l ++ [x]) = map_or_min (least l) x.
Proof.
  destruct l as [|y l]; [done|]. unfold least, map_or_min. simpl. f_equal.
  induction l as [|z l IH]; simpl; [lia|]. rewrite IH. lia.
Qed.

(** [least] is the least element. *)
Lemma least_spec l m : least l = Some m <-> m ∈ l /\ forall x, x ∈ l -> m <= x.
Proof.
  assert (forall y l, foldr Z.min y l ∈ y :: l /\ forall x, x ∈ y :: l -> foldr Z.min y l <= x) as Hf.
  { clear l m. intros y l. induction l as [|z l [IH1 IH2]]; simpl.
    - split; [by left|]. intros x Hx%list_elem_of_singleton. lia.
    - split.
      + destruct (Z.min_spec z (foldr Z.min y l)) as [[_ ->]|[_ ->]]; set_solver.
      + intros x Hx. assert (x = z \/ x ∈ y :: l) as [->|Hx'] by set_solver; [lia|].
        specialize (IH2 x Hx'). lia. }
  destruct l as [|y l]; simpl.
  - split; [done|]. intros [Hm _]. by apply not_elem_of_nil in Hm.
  - destruct (Hf y l) as [H1 H2]. split.
    + by intros [= <-].
    + intros [H3 H4]. f_equal. pose proof (H4 _ H1). pose proof (H2 _ H3). lia.
Qed.

Lemma first_occurrences_observe l : forall ks,
  FragmentOptionFailures_observe ks l = ks ++ filter (fun y => y ∉ ks) (first_occurrences l).
Proof.
  induction l as [|x l IH]; intros ks; simpl; [by rewrite app_nil_r|]. rewrite IH.
  destruct (bool_decide_reflect (x ∈ ks)) as [Hx|Hx].
  - rewrite filter_cons_False by tauto. f_equal. rewrite list_filter_filter.
    apply list_filter_iff. intros y. split; [|tauto]. intros Hy. split; [done|]. by intros ->.
  - rewrite filter_cons_True by done. rewrite <- app_assoc. simpl. do 2 f_equal.
    rewrite list_filter_filter. apply list_filter_iff. intros y.
    rewrite elem_of_app, list_elem_of_singleton. tauto.
Qed.

Lemma filter_all (l : list OptionKind) : filter (fun y => y ∉ []) l = l.
Proof.
  induction l as [|x l IH]; [done|]. by rewrite filter_cons_True, IH by apply not_elem_of_nil.
Qed.

Lemma coalesced_ocs_snoc l b :
  coalesced_ocs (l ++ [b]) =
  match coalesced_ocs l, b with Some x, Some y => Some (x || y) | _, _ => None end.
Proof.
  unfold coalesced_ocs. rewrite forallb_app, existsb_app. cbn [forallb existsb].
  destruct (forallb _ l); [|done]. destruct b as [[]|]; simpl; [|by rewrite !orb_false_r|done].
  done.
Qed.

Lemma failures_observe_app ks l l' :
  FragmentOptionFailures_observe ks (l ++ l') =
  FragmentOptionFailures_observe (FragmentOptionFailures_observe ks l) l'.
Proof. revert ks. induction l as [|x l IH]; intros ks; [done|]. apply IH. Qed.

Lemma options_observe_app self l l' :
  FragmentOptions_observe self (l ++ l') =
  let! self := FragmentOptions_observe self l in FragmentOptions_observe self l'.
Proof.
  revert self. induction l as [|o l IH]; intros self; [done|]. simpl.
  by destruct (FragmentOptions_observe_one self o).
Qed.

(** What [FragmentOptions::observe] has gathered after the options [os]. *)
Definition gathered (os : list RawOption) : FragmentOptions :=
  let mrds := omap mrds_of os in
  {| fo_mds := least (omap mds_of os);
     fo_mrds_size := least (mrds_max_reassembled_size <$> mrds);
     fo_mrds_segments := least (mrds_max_segments <$> mrds);
     fo_req := last (omap req_of os); fo_res := last (omap res_of os) |}.

Lemma gathered_one os o : FragmentOptions_observe_one (gathered os) o = Some (gathered (os ++ [o])).
Proof.
  unfold FragmentOptions_observe_one, gathered. rewrite !omap_app. cbn [omap list_omap].
  set (a := omap mds_of os). set (b := omap mrds_of os).
  set (c := omap req_of os). set (d := omap res_of os).
  unfold mds_of, mrds_of, req_of, res_of.
  destruct (ro_kind o); cbn [omap list_omap]; rewrite ?app_nil_r; try done.
  - destruct (Mds_decode_total (ro_value o)) as [[] ->]; by rewrite ?least_snoc, ?app_nil_r.
  - destruct (Mrds_decode_total (ro_value o)) as [[] ->]; rewrite ?fmap_app, ?app_nil_r; [|done].
    cbn [fmap list_fmap]. by rewrite !least_snoc.
  - destruct (Req_decode_total (ro_value o)) as [[] ->]; by rewrite ?last_snoc, ?app_nil_r.
  - destruct (Res_decode_total (ro_value o)) as [[] ->]; by rewrite ?last_snoc, ?app_nil_r.
Qed.

Lemma observe_gathered os : FragmentOptions_observe FragmentOptions_default os = Some (gathered os).
Proof.
  induction os as [|o os IH] using rev_ind; [done|].
  rewrite options_observe_app, IH. simpl. by rewrite gathered_one.
Qed.

Lemma gathered_raw os : FragmentOptions_to_raw_options (gathered os) = coalesced_options os.
Proof.
  unfold FragmentOptions_to_raw_options, coalesced_options, gathered, raw_list. cbn -[least].
  set (b := omap mrds_of os).
  destruct (least (omap mds_of os)), (least (mrds_max_reassembled_size <$> b)),
    (least (mrds_max_segments <$> b)), (last (omap req_of os)), (last (omap res_of os)); done.
Qed.

(** ** Lemmas: a partial follows its pieces *)

Definition piece_segment (x : Piece) : Segment :=
  new_segment (pc_fragment x) (pc_data x) (fp_options (pc_processing x))
    (fp_option_failures (pc_processing x)).

(** Insertion of a piece. *)
Definition insert_piece (L : ReassemblyLimits) (p : Partial) (x : Piece) : option (InsertResult * Partial) :=
  Partial_insert p (pc_fragment x) (pc_data x) (fp_options (pc_processing x))
    (fp_option_failures (pc_processing x)) (fp_ocs_nonzero (pc_processing x)) L.

Definition empty_terminal (x : Piece) : Prop := pc_data x = [] /\ is_Some (nf_udp_length (pc_fragment x)).

(** What a partial remembers of an end without data. *)
Definition remembered (p : Partial) (x : Piece) : Prop :=
  pa_empty_terminal_options p = Some (fp_options (pc_processing x)) /\
  pa_empty_terminal_option_failures p = Some (fp_option_failures (pc_processing x)).

Record follows (L : ReassemblyLimits) (h : list Piece) (p : Partial) : Prop := {
  fw_ok : Forall (fun x => fragment_ok L (pc_fragment x) (pc_data x)) h;
  fw_options : pa_fragment_options p = gathered (concat (fp_options ∘ pc_processing <$> distinct h));
  fw_failures : pa_fragment_option_failures p =
    FragmentOptionFailures_observe [] (concat (fp_option_failures ∘ pc_processing <$> distinct h));
  fw_ocs : pa_fragment_ocs_nonzero p = coalesced_ocs (fp_ocs_nonzero ∘ pc_processing <$> h);
  fw_segments : forall s, s ∈ pa_segments p <-> exists x, x ∈ h /\ pc_data x <> [] /\ s = piece_segment x;
  fw_terminal : forall x, x ∈ h -> is_Some (nf_udp_length (pc_fragment x)) ->
    pa_udp_length p = nf_udp_length (pc_fragment x) /\ pa_terminal_end p = Some (nf_end (pc_fragment x));
  fw_remembered : forall x, x ∈ h -> empty_terminal x -> remembered p x;
  fw_remembers : pa_empty_terminal_options p = None /\ pa_empty_terminal_option_failures p = None \/
    exists x, x ∈ h /\ empty_terminal x /\ remembered p x;
}.

Lemma follows_new L now : follows L [] (Partial_new now).
Proof.
  split; simpl; try done; try (intros x Hx; by apply not_elem_of_nil in Hx).
  - intros s. split; [by intros ?%not_elem_of_nil|]. intros (x & Hx & _). by apply not_elem_of_nil in Hx.
  - by left.
Qed.

Lemma repeats_true x y :
  repeats x y = true <->
  nf_start (pc_fragment x) = nf_start (pc_fragment y) /\ pc_data x = pc_data y /\
  fp_options (pc_processing x) = fp_options (pc_processing y) /\
  fp_option_failures (pc_processing x) = fp_option_failures (pc_processing y) /\
  (pc_data x <> [] \/ empty_terminal x /\ nf_udp_length (pc_fragment x) = nf_udp_length (pc_fragment y)).
Proof.
  unfold repeats, empty_terminal. rewrite !andb_true_iff, orb_true_iff, Z.eqb_eq, !bool_decide_eq_true.
  assert (negb (is_nil (pc_data x)) = true <-> pc_data x <> []) as -> by (by destruct (pc_data x)).
  destruct (pc_data x) eqn:Ed; [|naive_solver].
  destruct (nf_udp_length (pc_fragment x)) as [a|], (nf_udp_length (pc_fragment y)) as [b|];
    rewrite ?Z.eqb_eq; split; try (intros (? & [?|?]); done); naive_solver eauto.
Qed.

Lemma elem_of_snoc {A} (l : list A) x y : y ∈ l ++ [x] <-> y ∈ l \/ y = x.
Proof. by rewrite elem_of_app, list_elem_of_singleton. Qed.

Definition duplicate (p : Partial) (x : Piece) : bool :=
  Partial_is_exact_duplicate p (pc_fragment x) (pc_data x) (fp_options (pc_processing x))
    (fp_option_failures (pc_processing x)).

(** What the code's test for duplicates checks. *)
Lemma duplicate_true p x :
  duplicate p x = true ->
  match nf_udp_length (pc_fragment x) with
  | Some ul => pa_udp_length p = Some ul /\ pa_terminal_end p = Some (nf_end (pc_fragment x)) /\
      (pc_data x = [] /\ remembered p x \/ pc_data x <> [] /\ piece_segment x ∈ pa_segments p)
  | None => piece_segment x ∈ pa_segments p
  end.
Proof.
  unfold duplicate, Partial_is_exact_duplicate, remembered.
  assert (existsb (fun s => (sg_start s =? nf_start (pc_fragment x)) && (sg_end s =? nf_end (pc_fragment x))
      && bool_decide (sg_data s = pc_data x) && bool_decide (sg_fragment_options s = fp_options (pc_processing x))
      && bool_decide (sg_fragment_option_failures s = fp_option_failures (pc_processing x)))
    (pa_segments p) = true -> piece_segment x ∈ pa_segments p) as Hs.
  { intros (s & Hin%list_elem_of_In & Hq)%existsb_exists.
    rewrite !andb_true_iff, !Z.eqb_eq, !bool_decide_eq_true in Hq. destruct Hq as ((((H1 & H2) & H3) & H4) & H5).
    enough (s = piece_segment x) by congruence. destruct s. simpl in *. by subst. }
  destruct (nf_udp_length (pc_fragment x)) as [ul|]; [|done].
  destruct (bool_decide_reflect (pa_udp_length p = Some ul)) as [Hu|]; [|done].
  destruct (bool_decide_reflect (pa_terminal_end p = Some (nf_end (pc_fragment x)))) as [Ht|]; [|done].
  cbn [negb orb]. intros Hd. split; [done|]. split; [done|]. destruct (pc_data x) eqn:Ed; simpl in Hd.
  - left. rewrite andb_true_iff, !bool_decide_eq_true in Hd. done.
  - right. split; [done|]. by apply Hs.
Qed.

(** Only an end without data changes what is remembered of one. *)
Lemma insert_empties L p x r p' :
  insert_piece L p x = Some (r, p') -> ~ empty_terminal x ->
  pa_empty_terminal_options p' = pa_empty_terminal_options p /\
  pa_empty_terminal_option_failures p' = pa_empty_terminal_option_failures p.
Proof.
  unfold insert_piece, Partial_insert, empty_terminal. intros Hi Hx.
  assert (forall reason q, Partial_observe_terminal p (pc_fragment x) (pc_data x) (fp_options (pc_processing x))
      (fp_option_failures (pc_processing x)) = (reason, q) ->
    pa_empty_terminal_options q = pa_empty_terminal_options p /\
    pa_empty_terminal_option_failures q = pa_empty_terminal_option_failures p) as Ho.
  { unfold Partial_observe_terminal. intros reason q Hq. repeat case_match; simplify_eq; try done;
      simpl; destruct (pc_data x); try done; naive_solver. }
  repeat (case_match; simplify_eq; try done); exact (Ho _ _ eq_refl).
Qed.

Section Follows.
Context {L : ReassemblyLimits} {h : list Piece} {p : Partial}.
Hypothesis Hf : follows L h p.

Lemma heard_ok x : x ∈ h -> fragment_ok L (pc_fragment x) (pc_data x).
Proof. pose proof (fw_ok _ _ _ Hf) as Ho. rewrite Forall_forall in Ho. apply Ho. Qed.

(** A duplicate repeats a piece that was heard, and the partial knows it already. *)
Lemma duplicate_heard x :
  fragment_ok L (pc_fragment x) (pc_data x) -> duplicate p x = true ->
  exists y, y ∈ h /\ repeats x y = true.
Proof.
  intros (_ & Hend & _) Hd%duplicate_true.
  assert (piece_segment x ∈ pa_segments p -> exists y, y ∈ h /\ repeats x y = true) as Hs.
  { intros (y & Hy & Hne & He)%(fw_segments _ _ _ Hf). exists y. split; [done|]. apply repeats_true.
    unfold piece_segment, new_segment in He. injection He as H1 _ H3 H4 H5. rewrite H3. tauto. }
  destruct (nf_udp_length (pc_fragment x)) as [ul|] eqn:Eu; [|by apply Hs].
  destruct Hd as (Hul & Hte & [[Hnil [Ho Hfl]]|[_ Hin]]); [|by apply Hs].
  destruct (fw_remembers _ _ _ Hf) as [[Hn _]|(y & Hy & [Hyn Hyt] & [Hyo Hyf])]; [congruence|].
  exists y. split; [done|]. destruct (fw_terminal _ _ _ Hf y Hy Hyt) as [Htu Hty].
  destruct (heard_ok y Hy) as (_ & Hyend & _). rewrite Hnil, Hyn, (@len_nil Z) in *.
  apply repeats_true. unfold empty_terminal. rewrite Hnil, Hyn, Eu.
  split; [simplify_eq; lia|]. do 3 (split; [congruence|]). right. split; [by split|congruence].
Qed.

Lemma follows_duplicate x :
  fragment_ok L (pc_fragment x) (pc_data x) -> duplicate p x = true ->
  follows L (h ++ [x]) (Partial_observe_fragment_ocs p (fp_ocs_nonzero (pc_processing x))).
Proof.
  intros Hok Hd. destruct (duplicate_heard x Hok Hd) as (y & Hy & Hr). apply duplicate_true in Hd.
  assert (distinct (h ++ [x]) = distinct h) as Hdis.
  { rewrite distinct_snoc, (proj2 (existsb_exists _ _)); [apply app_nil_r|].
    exists y. by rewrite <- list_elem_of_In. }
  split; cbn [Partial_observe_fragment_ocs pa_fragment_options pa_fragment_option_failures
    pa_fragment_ocs_nonzero pa_segments pa_udp_length pa_terminal_end]; rewrite ?Hdis; try apply Hf.
  - apply Forall_app. split; [apply Hf|by constructor].
  - rewrite fmap_app. cbn [fmap list_fmap]. rewrite coalesced_ocs_snoc, <- (fw_ocs _ _ _ Hf). done.
  - intros s. rewrite (fw_segments _ _ _ Hf). setoid_rewrite elem_of_snoc.
    split; [naive_solver|]. intros (z & [Hz| ->] & Hne & ->); [eauto|]. apply (fw_segments _ _ _ Hf).
    destruct (nf_udp_length (pc_fragment x)); [|done]. naive_solver.
  - intros z [Hz| ->]%elem_of_snoc [ul Hul]; [apply (fw_terminal _ _ _ Hf z Hz); eauto|].
    rewrite Hul in Hd |- *. naive_solver.
  - intros z [Hz| ->]%elem_of_snoc Ht; [by apply (fw_remembered _ _ _ Hf z Hz)|].
    destruct Ht as [Hn [ul Hul]]. rewrite Hul in Hd. naive_solver.
  - destruct (fw_remembers _ _ _ Hf) as [Hn|(z & Hz & Hr')]; [by left|right]. exists z. by rewrite elem_of_snoc; auto.
Qed.


(** *** A fragment that is no duplicate *)

Lemma terminal_agrees f data o fl te ul ul' :
  (Partial_observe_terminal p f data o fl).1 = None -> nf_udp_length f = Some ul ->
  pa_terminal_end p = Some te -> pa_udp_length p = Some ul' ->
  te = nf_end f /\ ul' = ul /\
  (data = [] -> pa_empty_terminal_options p = Some o /\ pa_empty_terminal_option_failures p = Some fl).
Proof.
  unfold Partial_observe_terminal. intros Hn Hul Et Eu. rewrite Hul, Et, Eu in Hn.
  destruct (checked_sub ul LENGTH_UDP_HEADER); [|done]. destruct (_ <? _); [done|].
  destruct (Z.eqb_spec te (nf_end f)) as [->|]; [|done]. destruct (Z.eqb_spec ul' ul) as [->|]; [|done].
  split; [done|]. split; [done|]. intros ->. simpl in Hn.
  destruct (bool_decide_reflect (pa_empty_terminal_options p = Some o)); [|done].
  by destruct (bool_decide_reflect (pa_empty_terminal_option_failures p = Some fl)).
Qed.

Section Accepted.
Context {x : Piece} {p' : Partial}.
Let f := pc_fragment x.
Let data := pc_data x.
Let o := fp_options (pc_processing x).
Let fl := fp_option_failures (pc_processing x).
Hypothesis Hok : fragment_ok L f data.
Hypothesis Hnd : duplicate p x = false.
Hypothesis Hacc : accepts L p f data o fl.

Lemma heard_terminal y :
  y ∈ h -> is_Some (nf_udp_length (pc_fragment y)) -> is_Some (nf_udp_length f) ->
  nf_udp_length (pc_fragment y) = nf_udp_length f /\ nf_end (pc_fragment y) = nf_end f /\ data <> [].
Proof.
  intros Hy [a Ha] [b Hb]. destruct (fw_terminal _ _ _ Hf y Hy) as [Hu Ht]; [eauto|]. rewrite Ha in Hu.
  destruct (terminal_agrees f data o fl (nf_end (pc_fragment y)) b a) as (He & -> & Hn); [apply Hacc|done..|].
  split; [congruence|]. split; [done|]. intros Hnil. destruct (Hn Hnil) as [Ho Hfl].
  unfold duplicate, Partial_is_exact_duplicate in Hnd. fold f data o fl in Hnd.
  rewrite Hb, Hu, Ht, He, Hnil, Ho, Hfl in Hnd. by rewrite !bool_decide_eq_true_2 in Hnd.
Qed.

Lemma not_repeated : existsb (repeats x) h = false.
Proof.
  apply not_true_iff_false. intros (y & Hy%list_elem_of_In & Hr)%existsb_exists.
  apply repeats_true in Hr as (Hs & Hd & _ & _ & [Hne|[[Hn [ul Hul]] Hu]]).
  - destruct Hacc as (_ & _ & Ho & _), Hok as (_ & He & _), (heard_ok y Hy) as (_ & Hey & _).
    fold f data in Hs, Hd, Hne. assert (0 < len data) by (destruct data; [done|len_lia]).
    apply overlaps_false in Ho; [|lia]. rewrite Forall_forall in Ho.
    apply (Ho (piece_segment y)); [|simpl; rewrite <- Hs, Hey, <- Hd; lia].
    apply (fw_segments _ _ _ Hf). exists y. by rewrite <- Hd.
  - destruct (heard_terminal y Hy) as (_ & _ & H3); [rewrite <- Hu|..]; eauto.
Qed.

Lemma elem_of_stored s :
  s ∈ (if is_nil data then [] else [new_segment f data o fl]) <-> data <> [] /\ s = piece_segment x.
Proof.
  change (new_segment f data o fl) with (piece_segment x).
  destruct data; cbn [is_nil]; [|rewrite list_elem_of_singleton; naive_solver].
  rewrite elem_of_nil. naive_solver.
Qed.

Lemma follows_accepted :
  accepted p f data o fl (fp_ocs_nonzero (pc_processing x)) p' ->
  (~ empty_terminal x -> pa_empty_terminal_options p' = pa_empty_terminal_options p /\
     pa_empty_terminal_option_failures p' = pa_empty_terminal_option_failures p) ->
  follows L (h ++ [x]) p'.
Proof.
  intros [As _ _ At _ Ac Ao Af] He.
  assert (distinct (h ++ [x]) = distinct h ++ [x]) as Hdis by (by rewrite distinct_snoc, not_repeated).
  split; rewrite ?Hdis, ?fmap_app, ?concat_app.
  - apply Forall_app. split; [apply Hf|by constructor].
  - pose proof (observe_gathered (concat (fp_options ∘ pc_processing <$> distinct h))) as Hg.
    rewrite (fw_options _ _ _ Hf) in Ao. cbn [fmap list_fmap concat]. rewrite app_nil_r.
    pose proof (observe_gathered (concat (fp_options ∘ pc_processing <$> distinct h) ++ o)) as Hg'.
    rewrite options_observe_app, Hg, Ao in Hg'. by injection Hg'.
  - cbn [fmap list_fmap concat]. by rewrite app_nil_r, failures_observe_app, <- (fw_failures _ _ _ Hf).
  - cbn [fmap list_fmap]. rewrite coalesced_ocs_snoc, <- (fw_ocs _ _ _ Hf). done.
  - intros s. rewrite As, elem_of_app, (fw_segments _ _ _ Hf). setoid_rewrite elem_of_snoc.
    rewrite elem_of_stored. unfold data. naive_solver.
  - intros y [Hy| ->]%elem_of_snoc Ht; fold f in Ht |- *.
    + destruct (fw_terminal _ _ _ Hf y Hy Ht) as [H1 H2].
      destruct (nf_udp_length f) as [ul|] eqn:Eu; [|by destruct At as [-> ->]].
      destruct (heard_terminal y Hy Ht) as (-> & -> & _); [by rewrite Eu|]. rewrite Eu. by destruct At as (-> & -> & _).
    + destruct Ht as [ul Hul]. rewrite Hul in At |- *. by destruct At as (-> & -> & _).
  - intros y [Hy| ->]%elem_of_snoc Ht.
    + destruct (He) as [H1 H2]; [|unfold remembered; rewrite H1, H2; by apply (fw_remembered _ _ _ Hf)].
      intros [Hn Hx]. by destruct (heard_terminal y Hy (proj2 Ht) Hx) as (_ & _ & []).
    + destruct Ht as [Hn [ul Hul]]. fold f in Hul. rewrite Hul in At. by apply At.
  - destruct (decide (data = [] /\ is_Some (nf_udp_length f))) as [[Hn [ul Hul]]|Hx].
    + right. exists x. rewrite elem_of_snoc. split; [by right|]. split; [by split; [|eexists]|].
      rewrite Hul in At. by apply At.
    + unfold remembered. destruct (He Hx) as [-> ->].
      destruct (fw_remembers _ _ _ Hf) as [?|(y & Hy & ?)]; [by left|right].
      exists y. rewrite elem_of_snoc. auto.
Qed.

End Accepted.

(** Whatever an insertion does to a partial short of aborting, the partial follows. *)
Lemma follows_insert x r p' :
  ReassemblyLimits_wf L -> Partial_wf L p -> fragment_ok L (pc_fragment x) (pc_data x) ->
  insert_piece L p x = Some (r, p') -> (forall reason, r <> InsertAbort reason) ->
  follows L (h ++ [x]) p'.
Proof.
  intros HL Hw Hok Hi Hna.
  assert (~ empty_terminal x -> pa_empty_terminal_options p' = pa_empty_terminal_options p /\
    pa_empty_terminal_option_failures p' = pa_empty_terminal_option_failures p) as He by (by eapply insert_empties).
  pose proof (Partial_insert_case L p (pc_fragment x) (pc_data x) (fp_options (pc_processing x))
    (fp_option_failures (pc_processing x)) (fp_ocs_nonzero (pc_processing x)) HL Hw Hok) as Hc.
  unfold insert_piece in Hi. rewrite Hi in Hc. inversion Hc as [Hd Hx|reason q ? ? Hx|q Hd Ha Hacc Hwq Hx]; subst.
  - by apply follows_duplicate.
  - by destruct (Hna reason).
  - by apply follows_accepted.
Qed.

End Follows.

(** ** Lemmas: runs of the cache *)

(** The pieces logged for [k] are those of the partial the cache holds, if any. *)
Definition logged (k : FragKey) (c : ReassemblyCache) (h : list Piece) : Prop :=
  match rc_partials c !! k with Some p => follows (rc_limits c) h p | None => h = [] end.

Lemma logged_at k c now h : logged k c h -> follows (rc_limits c) (alive k c now h) (partial_at c k now).
Proof.
  intros Hl. unfold alive, partial_at.
  destruct (rc_partials (ReassemblyCache_gc c now) !! k) as [p|] eqn:E; [|apply follows_new].
  apply gc_lookup in E as [E _]. unfold logged in Hl. by rewrite E in Hl.
Qed.

Lemma logged_gc k c now h : logged k c h -> logged k (ReassemblyCache_gc c now) (alive k c now h).
Proof.
  intros Hl%(logged_at k c now). unfold logged, alive, partial_at in *.
  by destruct (rc_partials (ReassemblyCache_gc c now) !! k).
Qed.

(** After an abort or a completion nothing is left under the key. *)
Lemma insert_forgets c k frag data pr now o c' :
  Cache_wf c -> u16 (frag_offset frag) -> bytes data ->
  ReassemblyCache_insert_with_options_and_failures c k frag data pr now = Some (o, c') ->
  o <> Incomplete -> rc_partials c' !! k = None.
Proof.
  intros Hw Hu Hb Hi Ho.
  destruct (cache_insert_spec c k frag data pr now Hw Hu Hb) as [[reason He]|(f & _ & _ & Hr)].
  { rewrite Hi in He. simplify_eq. simpl. apply lookup_delete_eq. }
  set (c1 := ReassemblyCache_gc c now) in *.
  destruct (rc_partials c1 !! k) as [p|] eqn:Ep; [|destruct (_ <=? _)]; rewrite Hi in Hr; symmetry in Hr;
    unfold ReassemblyCache_insert_partial, ReassemblyCache_insert_without_retaining in Hr;
    destruct (Partial_insert _ f data _ _ _ _) as [[[] p']|]; simplify_eq; try done; simpl; apply lookup_delete_eq.
Qed.

(** A fragment of [k] that leaves the datagram incomplete is logged. *)
Lemma logged_incomplete k c h frag data pr now c' :
  Cache_wf c -> logged k c h -> u16 (frag_offset frag) -> bytes data ->
  ReassemblyCache_insert_with_options_and_failures c k frag data pr now = Some (Incomplete, c') ->
  logged k c' (alive k c now h ++ piece_of frag data pr).
Proof.
  intros Hw Hl Hu Hb Hi.
  destruct (cache_insert_incomplete _ _ _ _ _ _ _ Hw Hu Hb Hi) as (f & p' & Hn & Hok & _ & Hp & ->).
  unfold logged, piece_of. rewrite Hn. simpl. rewrite lookup_insert_eq.
  eapply (follows_insert (logged_at k c now h Hl)
    {| pc_fragment := f; pc_data := data; pc_processing := pr |} InsertIncomplete);
    [apply Hw|by apply partial_at_wf|done|done|done].
Qed.

Lemma hear_logged k c h op :
  Cache_wf c -> logged k c h -> CacheOp_wf op ->
  exists c' h', hear k c h op = Some (c', h') /\ Cache_wf c' /\ rc_limits c' = rc_limits c /\ logged k c' h'.
Proof.
  intros Hw Hl Hop. destruct op as [key frag data pr now|now|key]; simpl in *.
  - destruct Hop as [Hu Hb].
    destruct (cache_insert_wf c key frag data pr now Hw Hu Hb) as (o & c' & Hi & Hw' & HL & Hother).
    rewrite Hi. do 2 eexists. split; [reflexivity|]. do 2 (split; [done|]).
    destruct (bool_decide_reflect (key = k)) as [->|Hne]; cbn [negb].
    + destruct o; [by apply (logged_incomplete k c h frag data pr now c')|..]; unfold logged;
        by rewrite (insert_forgets _ _ _ _ _ _ _ _ Hw Hu Hb Hi).
    + pose proof (logged_gc k c now h Hl) as Hg. unfold logged in *. rewrite Hother, HL by congruence. done.
  - do 2 eexists. split; [reflexivity|]. split; [by apply gc_wf|]. split; [done|]. by apply logged_gc.
  - do 2 eexists. split; [reflexivity|]. split; [by apply discard_wf|]. split; [done|].
    unfold logged in *. simpl. destruct (bool_decide_reflect (key = k)) as [->|Hne];
      [by rewrite lookup_delete_eq|by rewrite lookup_delete_ne].
Qed.

Lemma heard_logged k ops : forall c h,
  Cache_wf c -> logged k c h -> Forall CacheOp_wf ops ->
  exists c' h', heard k c h ops = Some (c', h') /\ Cache_wf c' /\ rc_limits c' = rc_limits c /\ logged k c' h'.
Proof.
  induction ops as [|op ops IH]; intros c h Hw Hl Hops; simpl; [by eauto 10|].
  apply Forall_cons in Hops as [Hop Hops].
  destruct (hear_logged k c h op Hw Hl Hop) as (c1 & h1 & -> & Hw1 & HL1 & Hl1).
  destruct (IH c1 h1 Hw1 Hl1 Hops) as (c2 & h2 & -> & Hw2 & HL2 & Hl2). exists c2, h2.
  repeat (split; [congruence || done|]). done.
Qed.

(** A [Complete] outcome comes from the partial under the key. *)
Lemma insert_completes c k frag data pr now d c' :
  Cache_wf c -> u16 (frag_offset frag) -> bytes data ->
  ReassemblyCache_insert_with_options_and_failures c k frag data pr now = Some (Complete d, c') ->
  exists f p', NormalizedFragment_new frag (len data) = Some f /\ fragment_ok (rc_limits c) f data /\
    insert_piece (rc_limits c) (partial_at c k now)
      {| pc_fragment := f; pc_data := data; pc_processing := pr |} = Some (InsertComplete d, p').
Proof.
  intros Hw Hu Hb Hi.
  destruct (cache_insert_spec c k frag data pr now Hw Hu Hb) as [[reason He]|(f & Hn & Hf & Hr)];
    [rewrite Hi in He; congruence|].
  exists f. unfold partial_at, insert_piece. set (c1 := ReassemblyCache_gc c now) in *.
  destruct (rc_partials c1 !! k) as [p|] eqn:Ep; [|destruct (_ <=? _)]; cbn [default] in *;
    rewrite Hi in Hr; symmetry in Hr;
    unfold ReassemblyCache_insert_partial, ReassemblyCache_insert_without_retaining in Hr;
    change (rc_limits c1) with (rc_limits c) in Hr; cbn [pc_fragment pc_data pc_processing];
    destruct (Partial_insert _ f data _ _ _ _) as [[[] p']|]; simplify_eq; eauto.
Qed.

(** The completing fragment is the last piece. *)
Lemma complete_coalesced k c h frag data pr now d c' :
  Cache_wf c -> logged k c h -> u16 (frag_offset frag) -> bytes data ->
  ReassemblyCache_insert_with_options_and_failures c k frag data pr now = Some (Complete d, c') ->
  coalesced (alive k c now h ++ piece_of frag data pr) d.
Proof.
  intros Hw Hl Hu Hb Hi.
  destruct (insert_completes _ _ _ _ _ _ _ _ Hw Hu Hb Hi) as (f & p' & Hn & Hok & Hp).
  unfold piece_of. rewrite Hn. set (x := {| pc_fragment := f; pc_data := data; pc_processing := pr |}) in *.
  pose proof (partial_at_wf c k now Hw) as Hw0.
  pose proof (follows_insert (logged_at k c now h Hl) x _ _ (cw_limits _ Hw) Hw0 Hok Hp) as Hfw.
  pose proof (Partial_insert_case _ _ f data (fp_options pr) (fp_option_failures pr)
    (fp_ocs_nonzero pr) (cw_limits _ Hw) Hw0 Hok) as Hc.
  unfold insert_piece in Hp. cbn [pc_fragment pc_data pc_processing x] in Hp. rewrite Hp in Hc.
  inversion Hc as [|reason q Hd Hna|q Hd Ha Hacc Hwq Hcomp]; subst.
  apply (Partial_complete_inv _ _ _ Hwq) in Hcomp as (ul & _ & _ & _ & _ & -> & _).
  destruct Hfw as [_ Ho Hfl Hocs _ _ _ _]; [done|]. unfold coalesced, completed. cbn.
  rewrite Ho, gathered_raw, Hfl, first_occurrences_observe, Hocs. split; [done|]. split; [|done].
  apply filter_all.
Qed.

(** ** Property *)

(** C23. Options on fragments.  After any sequence of insertions (of any key), collections and
    discards, none of which panics, a fragment that completes the datagram of key [k] reports
    options that can be read off the fragments taken in for [k] since its datagram began,
    retransmissions left out: the smallest MDS, the smallest size and segment count of the
    MRDS, the last REQ and the last RES, malformed ones ignored; the kinds that failed, each
    once, in the order they first failed; and whether any fragment (retransmissions
    included) used a nonzero OCS, unless that is unknown of one. *)
Theorem fragment_options_coalesced (L : ReassemblyLimits) (k : FragKey) (ops : list CacheOp) :
  ReassemblyLimits_wf L -> Forall CacheOp_wf ops ->
  exists c h, heard k (ReassemblyCache_with_limits L) [] ops = Some (c, h) /\
  forall (frag : FragOption) (data : list Z) (pr : FragmentProcessing) (now : Z) (d : Completed)
      (c' : ReassemblyCache),
    u16 (frag_offset frag) -> bytes data ->
    ReassemblyCache_insert_with_options_and_failures c k frag data pr now = Some (Complete d, c') ->
    coalesced (alive k c now h ++ piece_of frag data pr) d.
Proof.
  intros HL Hops.
  destruct (heard_logged k ops (ReassemblyCache_with_limits L) [] (with_limits_wf L HL)) as (c & h & Hh & Hw & _ & Hl);
    [done..|].
  exists c, h. split; [done|]. intros frag data pr now d c' Hu Hb. by apply complete_coalesced.
Qed.

(** Two fragments with options, the first one twice, and the end without data. *)
Definition example_fragment_options (mds token : Z) (ocs : bool) : FragmentProcessing :=
  {| fp_options := [{| ro_kind := Mds; ro_value := u16_to_be mds |};
                    {| ro_kind := Req; ro_value := [0; 0; 0; token] |}];
     fp_option_failures := [Apc; Mrds]; fp_ocs_nonzero := Some ocs |}.

Definition example_ops : list CacheOp :=
  [ OpInsert example_key (example_frag 8 None) [65; 66] (example_fragment_options 1400 1 false) 5;
    OpInsert example_key (example_frag 10 None) [67; 68] (example_fragment_options 1200 2 false) 6;
    OpInsert example_key (example_frag 8 None) [65; 66] (example_fragment_options 1400 1 true) 7 ].

Definition example_end : FragmentProcessing :=
  {| fp_options := []; fp_option_failures := [Res]; fp_ocs_nonzero := Some false |}.

Definition example_coalesced : Completed :=
  {| co_tail := [65; 66; 67; 68]; co_udp_length := 12;
     co_fragment_options := [{| ro_kind := Mds; ro_value := u16_to_be 1200 |};
                             {| ro_kind := Req; ro_value := [0; 0; 0; 2] |}];
     co_fragment_option_failures := [Apc; Mrds; Res]; co_fragment_ocs_nonzero := Some true |}.

Definition example_limits : ReassemblyLimits :=
  {| rl_max_reassembled_size := 65535; rl_max_segments := 8; rl_max_pending_partials := 4;
     rl_timeout := LIMITS_REASSEMBLY_TIMEOUT_MAX |}.

Lemma fragment_options_coalesced_witness :
  exists c h,
    heard example_key (ReassemblyCache_with_limits example_limits) [] example_ops = Some (c, h) /\
    ReassemblyCache_insert_with_options_and_failures c example_key (example_frag 12 (Some 12)) []
      example_end 8 = Some (Complete example_coalesced, ReassemblyCache_with_limits example_limits) /\
    coalesced (alive example_key c 8 h ++ piece_of (example_frag 12 (Some 12)) [] example_end) example_coalesced.
Proof.
  destruct (fragment_options_coalesced example_limits example_key example_ops) as (c & h & Hh & Hc).
  - repeat split; vm_compute; intros; discriminate.
  - repeat constructor; vm_compute; intros; discriminate.
  - assert ((let! (c, _) := heard example_key (ReassemblyCache_with_limits example_limits) [] example_ops in
      ReassemblyCache_insert_with_options_and_failures c example_key (example_frag 12 (Some 12)) [] example_end 8) =
      Some (Complete example_coalesced, ReassemblyCache_with_limits example_limits)) as Hi
      by (vm_compute; reflexivity).
    rewrite Hh in Hi. exists c, h. split; [exact Hh|]. split; [exact Hi|].
    refine (Hc (example_frag 12 (Some 12)) [] example_end 8 example_coalesced _ _ _ Hi);
      [unfold u16; simpl; lia|constructor].
Defined.
