(* ===== verification/RecvOptions.v ===== *)
(** Option processing on receive: [parse_options] and its helpers
    (src/src/recv/pipeline.rs, lines 108 to 189 and 500 to 794).

    The loop over the option iterator is [for_each] with [parse_body]; the state
    of the loop is the record [parse_state] of its mutable locals, and an early
    [return] of the source is a [Return].  The [seen] array is a list of 256
    booleans indexed with bounds checks.  The warnings of the loop, and the
    local [seen_non_must_support_safe] that only they read, are in [PipelineLog];
    [should_log_sampled] decides which are written.  The [crc32c] crate is the
    parameter [Crc32c]. *)

From S2P Require Import Prelude Model Kind Parse Typed.

(** ** Sampled warnings *)

Definition WARN_SAMPLE_INTERVAL : Z := 64.

(** The value of a [u64] counter, before and after; [fetch_add] wraps around, the
    addition after it would panic in a debug build. *)
Definition should_log_sampled (counter : Z) : option (option Z * Z) :=
  ensure (counter + 1 <=? 18446744073709551615);
  let sample := counter + 1 in
  Some (if (sample =? 1) || (sample mod WARN_SAMPLE_INTERVAL =? 0) then Some sample else None,
        (counter + 1) mod 18446744073709551616).

(** ** Data *)

Inductive OptionStatus : Type := Success | Failed | Ignored.
Inductive OptionSource : Type := Datagram | FragmentSet.

(** [OcsStatus], with [St] in front of each constructor. *)
Inductive OcsStatus : Type :=
  StAbsent | StValid | StUnused | StFailed | StInvalidZero | StUnobserved.

Record OcsReport : Type := { ocr_status : OcsStatus; ocr_source : OptionSource }.

Record OptionReport : Type := {
  opr_kind : OptionKind;
  opr_status : OptionStatus;
  opr_source : OptionSource;
}.

Record ParsedOptions : Type := {
  po_options : list RawOption;
  po_reports : list OptionReport;
  po_frag : option FragOption;
  po_unsupported_unsafe_seen : bool;
  po_fragment_failed : bool;
}.

Inductive FragmentOptionLimit : Type :=
| Full
| End_ (end_ : Z)
| MalformedFrag (frag : FragOption).

#[export] Instance OptionStatus_eq_dec : EqDecision OptionStatus.
Proof. solve_decision. Defined.
#[export] Instance OptionSource_eq_dec : EqDecision OptionSource.
Proof. solve_decision. Defined.
#[export] Instance OcsStatus_eq_dec : EqDecision OcsStatus.
Proof. solve_decision. Defined.
#[export] Instance OcsReport_eq_dec : EqDecision OcsReport.
Proof. solve_decision. Defined.
#[export] Instance OptionReport_eq_dec : EqDecision OptionReport.
Proof. solve_decision. Defined.

Definition report (kind : OptionKind) (status : OptionStatus) : OptionReport :=
  {| opr_kind := kind; opr_status := status; opr_source := Datagram |}.

(** ** Helpers *)

Fixpoint list_min (l : list Z) : option Z :=
  match l with
  | [] => None
  | x :: r => Some (match list_min r with Some m => Z.min x m | None => x end)
  end.

Definition minimum_known_tlv_len (option_kind : OptionKind) : option Z :=
  let b := to_byte option_kind in
  if b =? KIND_TIME then Some LENGTH_TIME
  else if b =? KIND_EXP then Some LENGTH_EXP_MIN
  else list_min (fixed_tlv_lengths option_kind).

Definition reject_sub_minimum (o : OptionRef) : result unit ParseError :=
  match minimum_known_tlv_len (or_kind o) with
  | None => Ok tt
  | Some min_len =>
      let total_len := len (or_value o) + TLV_HEADER_LEN in
      if total_len <? min_len then Err (InvalidLength (to_byte (or_kind o)) total_len) else Ok tt
  end.

(** Whether the slot was free, and the array with the slot taken. *)
Definition mark_seen_once (seen : list bool) (raw_kind : Z) : option (bool * list bool) :=
  let! slot := get seen raw_kind in
  if slot then Some (false, seen)
  else let! seen := set_at seen raw_kind true in Some (true, seen).

(** The offset just past an option's value, from the slice pointers. *)
Definition option_end_offset (o : OptionRef) : Z := or_at o + len (or_value o).

(** ** Where a fragment's options end *)

Definition limit_body (options_bytes : list Z) (options_offset : Z) (_ : unit) (i : item) :
    option (flow unit FragmentOptionLimit) :=
  match i with
  | Err _ => Some (Return Full)
  | Ok o =>
      match or_kind o with
      | Frag =>
          let! d := Frag_decode (or_value o) in
          match d with
          | Err _ => Some (Return Full)
          | Ok frag =>
              match checked_sub (frag_start frag) options_offset with
              | None => Some (Return (MalformedFrag frag))
              | Some end_ =>
                  if (len options_bytes <? end_) || (end_ <? option_end_offset o)
                  then Some (Return (MalformedFrag frag)) else Some (Return (End_ end_))
              end
          end
      | Other _ => if is_unsafe (or_kind o) then Some (Return Full) else Some (Continue tt)
      | Eol => Some (Return Full)
      | _ => Some (Continue tt)
      end
  end.

Definition fragment_option_limit (options_bytes : list Z) (user_data_empty : bool)
    (options_offset : Z) : option FragmentOptionLimit :=
  if negb user_data_empty then Some Full else
  let! (r, _) := for_each (limit_body options_bytes options_offset) (parse_fuel options_bytes)
                   (OptionsIter_new options_bytes) tt in
  Some match r with inl _ => Full | inr limit => limit end.

(** ** The option loop *)

Record parse_state : Type := {
  ps_options : list RawOption;
  ps_reports : list OptionReport;
  ps_seen : list bool;
  ps_frag : option FragOption;
  ps_unsupported_unsafe_seen : bool;
}.

Definition parse_state_init : parse_state :=
  {| ps_options := []; ps_reports := []; ps_seen := replicate 256 false; ps_frag := None;
     ps_unsupported_unsafe_seen := false |}.

Definition ps_report (s : parse_state) (kind : OptionKind) (status : OptionStatus) : parse_state :=
  {| ps_options := ps_options s; ps_reports := ps_reports s ++ [report kind status];
     ps_seen := ps_seen s; ps_frag := ps_frag s;
     ps_unsupported_unsafe_seen := ps_unsupported_unsafe_seen s |}.

Definition ps_accept (s : parse_state) (o : OptionRef) : parse_state :=
  {| ps_options := ps_options s ++ [RawOption_from o]; ps_reports := ps_reports s;
     ps_seen := ps_seen s; ps_frag := ps_frag s;
     ps_unsupported_unsafe_seen := ps_unsupported_unsafe_seen s |}.

Definition ps_set_seen (s : parse_state) (seen : list bool) : parse_state :=
  {| ps_options := ps_options s; ps_reports := ps_reports s; ps_seen := seen;
     ps_frag := ps_frag s; ps_unsupported_unsafe_seen := ps_unsupported_unsafe_seen s |}.

Definition ps_set_frag (s : parse_state) (frag : FragOption) : parse_state :=
  {| ps_options := ps_options s; ps_reports := ps_reports s; ps_seen := ps_seen s;
     ps_frag := Some frag; ps_unsupported_unsafe_seen := ps_unsupported_unsafe_seen s |}.

Definition ps_set_unsafe (s : parse_state) : parse_state :=
  {| ps_options := ps_options s; ps_reports := ps_reports s; ps_seen := ps_seen s;
     ps_frag := ps_frag s; ps_unsupported_unsafe_seen := true |}.

(** A [ParsedOptions] that drops options and reports. *)
Definition parsed_drop (frag : option FragOption) (unsafe_seen failed : bool) : ParsedOptions :=
  {| po_options := []; po_reports := []; po_frag := frag;
     po_unsupported_unsafe_seen := unsafe_seen; po_fragment_failed := failed |}.

Section parse_options.
Context `{Crc32c}.

Definition accepts_apc (o : OptionRef) (user_data : list Z) : option OptionStatus :=
  let! d := Apc_decode (or_value o) in
  Some match d with
  | Ok apc => if decide (apc = Apc_compute user_data) then Success else Failed
  | Err _ => Failed
  end.

Context (fragment_option_context : bool) (user_data : list Z).

(** A reportable option: the first one with a good value is accepted, the first
    one with a bad value fails, and repetitions are ignored. *)
Definition parse_once (s : parse_state) (o : OptionRef) (status : option OptionStatus) :
    option (flow parse_state (result ParsedOptions ParseError)) :=
  let! (first, seen) := mark_seen_once (ps_seen s) (to_byte (or_kind o)) in
  let s := ps_set_seen s seen in
  if first then
    let! status := status in
    match status with
    | Success => Some (Continue (ps_accept (ps_report s (or_kind o) Success) o))
    | _ => Some (Continue (ps_report s (or_kind o) status))
    end
  else Some (Continue (ps_report s (or_kind o) Ignored)).

(** [if X::decode(..).is_ok() { Success } else { Failed }]. *)
Definition decode_status {A} (d : option (result A ParseError)) : option OptionStatus :=
  let! d := d in Some (if is_ok d then Success else Failed).

Definition parse_frag (s : parse_state) (o : OptionRef) :
    option (flow parse_state (result ParsedOptions ParseError)) :=
  let! slot := get (ps_seen s) (to_byte (or_kind o)) in
  if slot then
    match ps_frag s with
    | Some _ =>
        if is_nil user_data then Some (Return (Ok (parsed_drop (ps_frag s) false true)))
        else Some (Return (Err DuplicateFrag))
    | None => Some (Return (Err DuplicateFrag))
    end
  else
    let! seen := set_at (ps_seen s) (to_byte (or_kind o)) true in
    let s := ps_set_seen s seen in
    let! d := Frag_decode (or_value o) in
    match d with
    | Ok frag => Some (Continue (ps_set_frag s frag))
    | Err _ => Some (Break (ps_set_unsafe s))
    end.

(** The [match option.kind] of the loop. *)
Definition parse_kind (s : parse_state) (o : OptionRef) :
    option (flow parse_state (result ParsedOptions ParseError)) :=
  match or_kind o with
  | Eol | Nop => Some (Continue s)
  | Frag => parse_frag s o
  | Apc =>
      if fragment_option_context then Some (Continue (ps_report s (or_kind o) Ignored))
      else parse_once s o (accepts_apc o user_data)
  | Mds => parse_once s o (decode_status (Mds_decode (or_value o)))
  | Mrds => parse_once s o (decode_status (Mrds_decode (or_value o)))
  | Req => parse_once s o (decode_status (Req_decode (or_value o)))
  | Res => parse_once s o (decode_status (Res_decode (or_value o)))
  | Other _ =>
      if is_safe (or_kind o) then Some (Continue (ps_report s (or_kind o) Ignored))
      else Some (Break (ps_report (ps_set_unsafe s) (or_kind o) Failed))
  end.

Definition parse_body (s : parse_state) (i : item) :
    option (flow parse_state (result ParsedOptions ParseError)) :=
  match i with
  | Err error =>
      Some (Return
        (if ps_unsupported_unsafe_seen s
         then Ok (parsed_drop (ps_frag s) (ps_unsupported_unsafe_seen s) false)
         else match ps_frag s with
              | Some _ =>
                  if is_nil user_data then Ok (parsed_drop (ps_frag s) false true) else Err error
              | None => Err error
              end))
  | Ok o =>
      match
        (if negb (fragment_option_context && bool_decide (or_kind o = Apc))
         then reject_sub_minimum o else Ok tt)
      with
      | Err error =>
          match ps_frag s with
          | Some _ =>
              if is_nil user_data then Some (Return (Ok (parsed_drop (ps_frag s) false true)))
              else Some (Return (Err error))
          | None => Some (Return (Err error))
          end
      | Ok _ => parse_kind s o
      end
  end.
End parse_options.

Definition parse_options `{Crc32c} (options_bytes user_data : list Z) (options_offset : Z) :
    option (result ParsedOptions ParseError) :=
  let! option_limit := fragment_option_limit options_bytes (is_nil user_data) options_offset in
  let fragment_option_context :=
    match option_limit with End_ _ => true | _ => false end in
  match option_limit with
  | MalformedFrag frag => Some (Ok (parsed_drop (Some frag) true true))
  | _ =>
      let! options_bytes :=
        match option_limit with End_ end_ => slice options_bytes 0 end_ | _ => Some options_bytes end in
      let! (r, _) := for_each (parse_body fragment_option_context user_data)
                       (parse_fuel options_bytes) (OptionsIter_new options_bytes) parse_state_init in
      match r with
      | inr ret => Some ret
      | inl s =>
          Some (Ok {| po_options := ps_options s; po_reports := ps_reports s; po_frag := ps_frag s;
                      po_unsupported_unsafe_seen := ps_unsupported_unsafe_seen s;
                      po_fragment_failed := false |})
      end
  end.

(** ** Lemmas: helpers *)

Lemma mark_seen_once_spec seen k :
  len seen = 256 -> u8 k ->
  exists first seen', mark_seen_once seen k = Some (first, seen') /\ len seen' = 256 /\
    get seen k = Some (negb first) /\
    forall j, 0 <= j -> get seen' j = if k =? j then Some true else get seen j.
Proof.
  intros Hl Hk. unfold u8 in Hk. unfold mark_seen_once.
  destruct (get_is_Some seen k) as [b Hb]; [lia|]. rewrite Hb. destruct b.
  - exists false, seen. do 3 (split; [done|]). intros j Hj. by destruct (Z.eqb_spec k j) as [<-|].
  - rewrite set_at_insert by lia. exists true, (<[Z.to_nat k:=true]> seen). split; [done|].
    split; [unfold len in *; by rewrite length_insert|]. split; [done|].
    intros j Hj. by rewrite get_insert by lia.
Qed.

(** Every value the typed decoders accept has the fixed length. *)
Lemma Mds_decode_Ok v x : Mds_decode v = Some (Ok x) -> len v = 2.
Proof. unfold Mds_decode. by decoder_length. Qed.
Lemma Mrds_decode_Ok v x : Mrds_decode v = Some (Ok x) -> len v = 3.
Proof. unfold Mrds_decode. by decoder_length. Qed.
Lemma Req_decode_Ok v x : Req_decode v = Some (Ok x) -> len v = 4.
Proof. unfold Req_decode. by decoder_length. Qed.
Lemma Res_decode_Ok v x : Res_decode v = Some (Ok x) -> len v = 4.
Proof. unfold Res_decode. by decoder_length. Qed.
Lemma Apc_decode_Ok v x : bytes v -> Apc_decode v = Some (Ok x) -> v = u32_to_be (apc_crc32c x).
Proof. intros Hb Hd. symmetry. by apply (typed_decode_inv (TypedOptionLaws := Apc_laws) v x Hb). Qed.
Lemma Frag_decode_Ok v x : bytes v -> Frag_decode v = Some (Ok x) -> Frag_wf x /\ Frag_value x = v.
Proof. intros Hb Hd. by apply (typed_decode_inv (TypedOptionLaws := Frag_laws) v x Hb). Qed.

Lemma fragment_option_limit_spec bs empty off :
  bytes bs -> exists l, fragment_option_limit bs empty off = Some l /\
    match l with
    | Full => True
    | End_ end_ => empty = true /\ 0 <= end_ <= len bs
    | MalformedFrag frag => empty = true /\ Frag_wf frag
    end.
Proof.
  intros Hb. unfold fragment_option_limit. destruct empty; cbn [negb]; [|by eexists].
  destruct (for_each_rule (limit_body bs off) (fun _ => True)
    (fun l => match l with
              | Full => True | End_ end_ => 0 <= end_ <= len bs | MalformedFrag frag => Frag_wf frag
              end) bs tt Hb) as (x & it & -> & Hx); [|done|].
  - intros [] [o|e] _ Hw; simpl; [|by eexists]. destruct Hw as (_ & _ & Hv & Hp).
    destruct (or_kind o) eqn:Ek; try (by eexists); [|by destruct (is_unsafe _); eexists].
    destruct (Frag_decode_total (or_value o)) as [d Hd]. rewrite Hd. destruct d as [frag|]; [|by eexists].
    destruct (Frag_decode_Ok _ _ Hv Hd) as [Hf _].
    destruct (checked_sub _ _) as [e|]; [|by eexists].
    destruct (Z.ltb_spec (len bs) e); [by eexists|].
    destruct (Z.ltb_spec e (option_end_offset o)); [by eexists|]. eexists. split; [done|].
    unfold option_end_offset in *. pose proof (len_nonneg (or_value o)).
    specialize (Hp ltac:(done)). lia.
  - eexists. split; [done|]. destruct x as [|l]; [done|]. by destruct l.
Qed.

(** ** The invariant of the option loop *)

Section parse_inv.
Context `{Crc32c} (user_data : list Z).

(** A delivered option: a known kind with a good value. *)
Definition delivered_ok (o : RawOption) : Prop :=
  bytes (ro_value o) /\
  match ro_kind o with
  | Apc => ro_value o = u32_to_be (crc32c user_data)
  | Mds => len (ro_value o) = 2
  | Mrds => len (ro_value o) = 3
  | Req | Res => len (ro_value o) = 4
  | _ => False
  end.

Definition successes (reports : list OptionReport) : list OptionKind :=
  opr_kind <$> filter (fun r => opr_status r = Success) reports.

(** A report names a kind that fits a byte. *)
Definition report_wf (r : OptionReport) : Prop := OptionKind_wf (opr_kind r).

Record parse_inv (s : parse_state) : Prop := {
  pi_seen : len (ps_seen s) = 256;
  pi_options : Forall delivered_ok (ps_options s);
  pi_nodup : NoDup (ro_kind <$> ps_options s);
  pi_marked : Forall (fun o => get (ps_seen s) (to_byte (ro_kind o)) = Some true) (ps_options s);
  pi_reports : successes (ps_reports s) = ro_kind <$> ps_options s;
  pi_frag : match ps_frag s with Some f => Frag_wf f | None => True end;
  pi_kinds : Forall report_wf (ps_reports s);
}.

Definition parsed_inv (po : ParsedOptions) : Prop :=
  Forall delivered_ok (po_options po) /\ NoDup (ro_kind <$> po_options po) /\
  successes (po_reports po) = ro_kind <$> po_options po /\
  match po_frag po with Some f => Frag_wf f | None => True end /\
  Forall report_wf (po_reports po) /\
  (po_fragment_failed po = true -> user_data = []).

Definition parse_flow_ok (f : flow parse_state (result ParsedOptions ParseError)) : Prop :=
  match f with
  | Continue s | Break s => parse_inv s
  | Return (Ok po) => parsed_inv po
  | Return (Err _) => True
  end.

Lemma parsed_drop_inv f b1 b2 :
  match f with Some f => Frag_wf f | None => True end -> (b2 = true -> is_nil user_data = true) ->
  parsed_inv (parsed_drop f b1 b2).
Proof.
  intros Hf Hb. split; [constructor|]. split; [constructor|]. split; [done|]. split; [done|]. split; [constructor|].
  intros E. by apply is_nil_true, Hb.
Qed.

Lemma report_inv s k st :
  parse_inv s -> OptionKind_wf k -> st <> Success -> parse_inv (ps_report s k st).
Proof.
  intros [] Hk Hst. split; try done; simpl; [|apply Forall_app; split; [done|by apply Forall_singleton]].
  unfold successes. rewrite filter_app, filter_cons, filter_nil.
  simpl. rewrite decide_False by done. by rewrite app_nil_r.
Qed.

Lemma parse_inv_init : parse_inv parse_state_init.
Proof. split; try done; constructor. Qed.

(** Marking a kind as seen. *)
Lemma set_seen_inv s k seen' :
  parse_inv s -> u8 k -> len seen' = 256 ->
  (forall j, 0 <= j -> get seen' j = if k =? j then Some true else get (ps_seen s) j) ->
  parse_inv (ps_set_seen s seen').
Proof.
  intros [Hl Ho Hn Hm Hr Hf Ht] Hk Hl' Hg. split; try done. simpl.
  apply (Forall_impl _ _ _ Hm). intros o Hs. rewrite Hg.
  - by destruct (k =? _).
  - by apply get_Some_lt in Hs as [? _].
Qed.

Lemma parse_once_ok s o status :
  parse_inv s -> OptionKind_wf (or_kind o) -> is_Some status ->
  (status = Some Success -> delivered_ok (RawOption_from o)) ->
  exists f, parse_once s o status = Some f /\ parse_flow_ok f.
Proof.
  intros Hs Hk [st ->] Hok. unfold parse_once.
  destruct (mark_seen_once_spec (ps_seen s) (to_byte (or_kind o)) (pi_seen _ Hs) Hk)
    as (first & seen' & -> & Hl & Hf & Hg).
  pose proof (set_seen_inv s _ seen' Hs Hk Hl Hg) as Hs'.
  destruct first; [|eexists; split; [done|]; by apply report_inv].
  assert (parse_inv (ps_set_seen s seen')) as [H1 H2 H3 H4 H5 H6 H7] by done.
  destruct st; [|eexists; split; [done|]; by apply report_inv..].
  eexists. split; [done|]. split; simpl in *; try done.
  - apply Forall_app. split; [done|]. constructor; [by apply Hok|constructor].
  - rewrite fmap_app. apply NoDup_app. split; [done|]. split; [|apply NoDup_singleton].
    simpl. intros k (x & -> & Hx)%list_elem_of_fmap Hin%list_elem_of_singleton.
    pose proof (pi_marked _ Hs) as Hm. rewrite Forall_forall in Hm. specialize (Hm x Hx).
    cbv beta in Hm. rewrite Hin, Hf in Hm. done.
  - apply Forall_app. split; [done|]. constructor; [|constructor]. simpl.
    rewrite Hg, Z.eqb_refl; [done|]. by destruct Hk.
  - unfold successes in *. rewrite filter_app, !fmap_app, H5. f_equal.
  - apply Forall_app. split; [done|by apply Forall_singleton].
Qed.

Lemma decode_status_Success {A} (d : option (result A ParseError)) :
  decode_status d = Some Success -> exists x, d = Some (Ok x).
Proof. destruct d as [[x|]|]; simpl; naive_solver. Qed.

Lemma decode_status_total {A} (d : option (result A ParseError)) :
  is_Some d -> is_Some (decode_status d).
Proof. by intros [[] ->]. Qed.

Lemma accepts_apc_total o : is_Some (accepts_apc o user_data).
Proof. unfold accepts_apc. by destruct (Apc_decode_total (or_value o)) as [? ->]. Qed.

Lemma accepts_apc_Success o :
  bytes (or_value o) -> accepts_apc o user_data = Some Success ->
  or_value o = u32_to_be (crc32c user_data).
Proof.
  intros Hb. unfold accepts_apc. destruct (Apc_decode (or_value o)) as [[x|]|] eqn:E; try done.
  destruct (decide _) as [->|]; [|done]. intros _. by apply (Apc_decode_Ok _ _ Hb) in E.
Qed.

Lemma parse_frag_ok s o :
  parse_inv s -> OptionKind_wf (or_kind o) -> bytes (or_value o) ->
  exists f, parse_frag user_data s o = Some f /\ parse_flow_ok f.
Proof.
  intros Hs Hk Hv. unfold parse_frag.
  destruct (mark_seen_once_spec (ps_seen s) (to_byte (or_kind o)) (pi_seen _ Hs) Hk)
    as (first & seen' & Hm & Hl & Hf & Hg). rewrite Hf. unfold mark_seen_once in Hm. rewrite Hf in Hm.
  pose proof (set_seen_inv s _ seen' Hs Hk Hl Hg) as Hs'. pose proof (pi_frag _ Hs) as Hfr.
  destruct first; simpl in *.
  - destruct (set_at _ _ _) as [sn|]; [|done]. simplify_eq.
    destruct (Frag_decode_total (or_value o)) as [d Hd]. rewrite Hd.
    destruct d as [frag|]; eexists; (split; [done|]); simpl; destruct Hs'; split; try done.
    simpl. by apply (Frag_decode_Ok _ _ Hv) in Hd as [? _].
  - destruct (ps_frag s) as [f|]; [|by eexists]. destruct (is_nil user_data) eqn:En; [|by eexists].
    eexists. split; [done|]. by apply parsed_drop_inv.
Qed.

Lemma parse_kind_ok ctx s o :
  parse_inv s -> OptionKind_wf (or_kind o) -> bytes (or_value o) ->
  exists f, parse_kind ctx user_data s o = Some f /\ parse_flow_ok f.
Proof.
  intros Hs Hk Hv. unfold parse_kind. destruct (or_kind o) eqn:Ek; rewrite <- Ek in *.
  - by eexists.
  - by eexists.
  - destruct ctx; [eexists; split; [done|]; by apply report_inv|].
    apply parse_once_ok; [done..|apply accepts_apc_total|]. intros Ha. split; [done|]. simpl.
    rewrite Ek. by apply accepts_apc_Success.
  - by apply parse_frag_ok.
  - apply parse_once_ok; [done..|apply decode_status_total, Mds_decode_total|].
    intros [x Hx]%decode_status_Success. split; [done|]. simpl. rewrite Ek. by eapply Mds_decode_Ok.
  - apply parse_once_ok; [done..|apply decode_status_total, Mrds_decode_total|].
    intros [x Hx]%decode_status_Success. split; [done|]. simpl. rewrite Ek. by eapply Mrds_decode_Ok.
  - apply parse_once_ok; [done..|apply decode_status_total, Req_decode_total|].
    intros [x Hx]%decode_status_Success. split; [done|]. simpl. rewrite Ek. by eapply Req_decode_Ok.
  - apply parse_once_ok; [done..|apply decode_status_total, Res_decode_total|].
    intros [x Hx]%decode_status_Success. split; [done|]. simpl. rewrite Ek. by eapply Res_decode_Ok.
  - destruct (is_safe _); eexists; (split; [done|]); simpl; apply report_inv; try done.
    by destruct Hs.
Qed.

Lemma parse_body_ok ctx n s i :
  parse_inv s -> item_wf 0 n i ->
  exists f, parse_body ctx user_data s i = Some f /\ parse_flow_ok f.
Proof.
  intros Hs Hi. pose proof (pi_frag _ Hs) as Hfr. unfold parse_body. destruct i as [o|e].
  - destruct Hi as (Hk & _ & Hv & _).
    destruct (if negb _ then reject_sub_minimum o else Ok tt); [by apply parse_kind_ok|].
    destruct (ps_frag s); [|by eexists]. destruct (is_nil user_data) eqn:En; [|by eexists].
    eexists. split; [done|]. by apply parsed_drop_inv.
  - eexists. split; [done|]. simpl. destruct (ps_unsupported_unsafe_seen s);
      [by apply parsed_drop_inv|]. destruct (ps_frag s); [|done].
    destruct (is_nil user_data) eqn:En; [|done]. by apply parsed_drop_inv.
Qed.

Lemma parse_options_spec bs off :
  bytes bs -> exists r, parse_options bs user_data off = Some r /\
    match r with Ok po => parsed_inv po | Err _ => True end.
Proof.
  intros Hb. unfold parse_options.
  destruct (fragment_option_limit_spec bs (is_nil user_data) off Hb) as (l & -> & Hl).
  assert (forall ctx bs', bytes bs' -> exists r,
    (let! (r, _) := for_each (parse_body ctx user_data) (parse_fuel bs') (OptionsIter_new bs')
                     parse_state_init in
     match r with
     | inr ret => Some ret
     | inl s => Some (Ok {| po_options := ps_options s; po_reports := ps_reports s; po_frag := ps_frag s;
                    po_unsupported_unsafe_seen := ps_unsupported_unsafe_seen s;
                    po_fragment_failed := false |})
     end) = Some r /\ match r with Ok po => parsed_inv po | Err _ => True end) as Hloop.
  { intros ctx bs' Hb'. destruct (for_each_rule (parse_body ctx user_data) parse_inv
      (fun r => match r with Ok po => parsed_inv po | Err _ => True end) bs' parse_state_init Hb')
      as (x & it & -> & Hx).
    - intros s i Hs Hi. destruct (parse_body_ok ctx _ s i Hs Hi) as (f & -> & Hf).
      exists f. split; [done|]. by destruct f as [| |[]].
    - apply parse_inv_init.
    - destruct x as [s|r]; [|by eexists]. eexists. split; [done|]. destruct Hx. by split. }
  cbv zeta. destruct l as [|e|frag].
  - by apply Hloop.
  - destruct Hl as [_ Hl]. rewrite slice_Some by lia. apply Hloop. auto with rust.
  - destruct Hl as [Hn Hl]. eexists. split; [done|]. by apply parsed_drop_inv.
Qed.
End parse_inv.

(** ** Options that must not be ignored

    With user data present, a receiver may ignore any SAFE option, but an UNSAFE one, or a
    FRAG whose value has neither of its two lengths, makes it withhold the data.  It stops
    earlier, and keeps the data, at a malformed option, at one shorter than its kind
    allows, and behind a good FRAG, which is ignored with all options next to user data. *)

(** The smallest length of an option by kind, header included. *)
Definition smallest_length (k : Z) : Z :=
  if k =? 2 then 6 else if k =? 3 then 10 else if k =? 4 then 4 else if k =? 5 then 5
  else if k =? 6 then 6 else if k =? 7 then 6 else if k =? 8 then 10 else if k =? 127 then 4 else 2.

Definition long_enough (o : OptionRef) : Prop :=
  smallest_length (to_byte (or_kind o)) <= len (or_value o) + 2.

Definition not_to_ignore (o : OptionRef) : Prop :=
  192 <= to_byte (or_kind o) \/
  to_byte (or_kind o) = 3 /\ len (or_value o) <> 8 /\ len (or_value o) <> 10.

Definition ignorable (o : OptionRef) : Prop := to_byte (or_kind o) < 192 /\ to_byte (or_kind o) <> 3.

Inductive refusal : list item -> Prop :=
| refusal_here o rest : long_enough o -> not_to_ignore o -> refusal (Ok o :: rest)
| refusal_later o rest : long_enough o -> ignorable o -> refusal rest -> refusal (Ok o :: rest).

Lemma reject_sub_minimum_iff o : reject_sub_minimum o = Ok tt <-> long_enough o.
Proof.
  unfold reject_sub_minimum, long_enough, minimum_known_tlv_len, smallest_length, fixed_tlv_lengths.
  change TLV_HEADER_LEN with 2. pose proof (len_nonneg (or_value o)).
  set (k := to_byte (or_kind o)). set (n := len (or_value o)) in *. clearbody k n. unfold_consts.
  destruct (Z.eqb_spec k 8) as [->|]; [simpl; by destruct (Z.ltb_spec (n + 2) 10); split; [|lia| |]|].
  destruct (Z.eqb_spec k 127) as [->|]; [simpl; by destruct (Z.ltb_spec (n + 2) 4); split; [|lia| |]|].
  repeat match goal with |- context [k =? ?c] => destruct (Z.eqb_spec k c) as [->|] end; cbn [list_min];
    try (match goal with |- context [?a <? ?b] => destruct (Z.ltb_spec a b) end); split; (done || lia).
Qed.

Lemma Frag_decode_accepts v d :
  Frag_decode v = Some d -> is_ok d = true <-> len v = 8 \/ len v = 10.
Proof.
  unfold Frag_decode. change FRAG_NON_TERMINAL_VALUE_LEN with 8. change FRAG_TERMINAL_VALUE_LEN with 10.
  destruct (Z.eqb_spec (len v) 8) as [H8|H8]; destruct (Z.eqb_spec (len v) 10) as [H10|H10]; [lia|..]; cbn [negb andb].
  - destruct (read_u16 v 0), (read_u32 v 2), (read_u16 v 6); try done. intros [= <-]. split; [by left|done].
  - destruct (read_u16 v 0), (read_u32 v 2), (read_u16 v 6), (read_u16 v 8); try done. intros [= <-]. split; [by right|done].
  - intros [= <-]. split; [done|lia].
Qed.

Section refusal.
Context `{Crc32c} (user_data : list Z).
Hypothesis Hdata : is_nil user_data = false.

(** The loop ends with data to be withheld. *)
Definition withheld (x : parse_state + result ParsedOptions ParseError) : Prop :=
  match x with
  | inl s => ps_frag s = None /\ ps_unsupported_unsafe_seen s = true
  | inr (Ok po) => po_frag po = None /\ po_unsupported_unsafe_seen po = true
  | inr (Err _) => False
  end.

(** Behind a FRAG nothing is withheld. *)
Lemma parse_once_keeps s o status f :
  parse_once s o status = Some f ->
  exists s', f = Continue s' /\ ps_frag s' = ps_frag s /\
    ps_unsupported_unsafe_seen s' = ps_unsupported_unsafe_seen s /\
    exists first, mark_seen_once (ps_seen s) (to_byte (or_kind o)) = Some (first, ps_seen s').
Proof.
  unfold parse_once. destruct (mark_seen_once _ _) as [[first seen]|]; [|done].
  destruct first; [|intros [= <-]; by repeat (eexists || split)].
  destruct status as [[]|]; intros Hx; try done; injection Hx as <-; by repeat (eexists || split).
Qed.

Lemma frag_not_withheld items : forall s x,
  is_Some (ps_frag s) -> for_items (parse_body false user_data) items s = Some x -> ~ withheld x.
Proof.
  induction items as [|i items IH]; intros s x [fr Hfr]; cbn [for_items]; [intros [= <-]; simpl; rewrite Hfr; by intros []|].
  destruct (parse_body false user_data s i) as [f|] eqn:Ef; [|done].
  assert (match f with Continue s' | Break s' => is_Some (ps_frag s')
    | Return (Ok po) => is_Some (po_frag po) | Return (Err _) => True end) as Hf.
  { unfold parse_body in Ef. destruct i as [o|e].
    2:{ injection Ef as <-. rewrite Hfr, Hdata. destruct (ps_unsupported_unsafe_seen s); [|done]. simpl. eauto. }
    cbn [andb negb] in Ef. destruct (reject_sub_minimum o); [|rewrite Hfr, Hdata in Ef; by injection Ef as <-].
    unfold parse_kind, parse_frag in Ef. rewrite Hfr, Hdata in Ef.
    destruct (or_kind o); try (injection Ef as <-; by eauto);
      try (apply parse_once_keeps in Ef as (s' & -> & -> & _); by eauto).
    - destruct (get _ _) as [[]|]; [by injection Ef as <-| |done]. destruct (set_at _ _ _); [|done].
      destruct (Frag_decode _) as [[]|]; [|..|done]; injection Ef as <-; simpl; eauto.
    - destruct (is_safe _); injection Ef as <-; simpl; eauto. }
  destruct f as [s'|s'|r]; [by apply IH| |]; intros [= <-].
  - destruct Hf as [y Hy]. simpl. rewrite Hy. by intros [].
  - destruct r; [|by intros []]. destruct Hf as [y Hy]. simpl. rewrite Hy. by intros [].
Qed.

(** Before any FRAG or UNSAFE option. *)
Definition calm (s : parse_state) : Prop :=
  len (ps_seen s) = 256 /\ ps_frag s = None /\ ps_unsupported_unsafe_seen s = false /\
  get (ps_seen s) KIND_FRAG = Some false.

Lemma calm_once s o status f :
  calm s -> u8 (to_byte (or_kind o)) -> to_byte (or_kind o) <> KIND_FRAG ->
  parse_once s o status = Some f -> exists s', f = Continue s' /\ calm s'.
Proof.
  intros (Hl & Hf & Hu & Hg) Hk Hne. intros (s' & -> & Hf' & Hu' & first & Hm)%parse_once_keeps.
  destruct (mark_seen_once_spec (ps_seen s) (to_byte (or_kind o)) Hl Hk) as (first' & seen & Hm' & Hl' & _ & Hs).
  rewrite Hm in Hm'. injection Hm' as <- <-. exists s'. split; [done|]. split; [done|]. split; [congruence|].
  split; [congruence|]. rewrite Hs by done. by destruct (Z.eqb_spec (to_byte (or_kind o)) KIND_FRAG).
Qed.

(** An option that may be ignored leaves it so. *)
Lemma parse_kind_ignorable s o f :
  calm s -> u8 (to_byte (or_kind o)) -> from_byte (to_byte (or_kind o)) = or_kind o -> ignorable o ->
  parse_kind false user_data s o = Some f -> exists s', f = Continue s' /\ calm s'.
Proof.
  intros Hs Hk Hc [Hsafe Hne]. unfold parse_kind.
  destruct (or_kind o) as [| | | | | | | |k] eqn:Ek; try (by intros [= <-]; eauto);
    try (apply calm_once; [done|by rewrite Ek|by rewrite Ek]).
  - by destruct Hne.
  - unfold is_safe. cbn [to_byte] in *. unfold KIND_UNSAFE_MIN.
    destruct (Z.ltb_spec k 192); [|lia]. intros [= <-]. eexists. split; [done|]. done.
Qed.

(** The loop withholds the data exactly when it meets such an option. *)
Lemma withheld_refusal n items : forall s x,
  calm s -> Forall (item_wf 0 n) items ->
  for_items (parse_body false user_data) items s = Some x -> withheld x <-> refusal items.
Proof.
  induction items as [|i items IH]; intros s x Hs Hw; cbn [for_items].
  { intros [= <-]. destruct Hs as (_ & _ & Hu & _). simpl. rewrite Hu. split; [by intros []|inversion 1]. }
  apply Forall_cons in Hw as [Hi Hw]. destruct (parse_body false user_data s i) as [f|] eqn:Ef; [|done].
  pose proof Hs as (Hl & Hf & Hu & Hg). unfold parse_body in Ef. destruct i as [o|e].
  2:{ rewrite Hu, Hf in Ef. injection Ef as <-. intros [= <-]. split; [done|inversion 1]. }
  destruct Hi as (Hk & Hc & _). cbn [andb negb] in Ef. pose proof (reject_sub_minimum_iff o) as Hrej.
  destruct (reject_sub_minimum o) as [[]|e].
  2:{ rewrite Hf in Ef. injection Ef as <-. intros [= <-]. split; [done|].
      inversion 1 as [? ? Hlong|? ? Hlong]; subst; by apply Hrej in Hlong. }
  destruct Hrej as [Hlong _]. specialize (Hlong eq_refl).
  assert (ignorable o \/ 192 <= to_byte (or_kind o) \/ to_byte (or_kind o) = 3) as [Hign|[Huns|Hfrag]]
    by (unfold ignorable; lia).
  - destruct (parse_kind_ignorable s o f Hs Hk Hc Hign Ef) as (s' & -> & Hs').
    intros Hx. rewrite (IH s' x Hs' Hw Hx). split; [by constructor 2|].
    inversion 1 as [? ? _ Hnot|]; subst; [|done]. unfold ignorable, not_to_ignore in *. lia.
  - assert (f = Break (ps_report (ps_set_unsafe s) (or_kind o) Failed)) as ->.
    { unfold parse_kind, is_safe in Ef. destruct (or_kind o) as [| | | | | | | |k]; try (by destruct Huns).
      cbn [to_byte] in Ef, Huns. unfold KIND_UNSAFE_MIN in Ef. destruct (Z.ltb_spec k 192); [lia|congruence]. }
    intros [= <-]. simpl. split; [|by rewrite Hf]. intros _. constructor; [done|by left].
  - assert (or_kind o = Frag) as Ek by (rewrite <- Hc, Hfrag; done). unfold parse_kind, parse_frag in Ef.
    rewrite Ek in Ef. change (to_byte Frag) with KIND_FRAG in Ef. rewrite Hg in Ef.
    destruct (set_at _ _ _) as [seen|]; [|done]. destruct (Frag_decode (or_value o)) as [d|] eqn:Ed; [|done].
    pose proof (Frag_decode_accepts _ _ Ed) as Hlen. unfold is_ok in Hlen.
    destruct d as [fr|e]; injection Ef as <-.
    + intros Hx. apply frag_not_withheld in Hx; [|by eexists]. split; [done|].
      inversion 1 as [? ? _ Hnot|? ? _ [_ Hnot]]; subst; [|done]. exfalso. unfold not_to_ignore in Hnot. lia.
    + intros [= <-]. simpl. split; [|by rewrite Hf]. intros _. constructor; [done|]. right.
      split; [done|]. destruct Hlen as [_ Hlen]. split; intros Hn; discriminate Hlen; auto.
Qed.

(** What [parse_options] says of the options of [bs] next to user data. *)
Lemma parse_options_withheld bs off items :
  bytes bs -> tlv_stream 0 bs items ->
  exists r, parse_options bs user_data off = Some r /\
    match r with Ok po => parsed_inv user_data po | Err _ => True end /\ (withheld (inr r) <-> refusal items).
Proof.
  intros Hb Hs. destruct (parse_options_spec user_data bs off Hb) as (r & Hr & Hi).
  exists r. split; [done|]. split; [done|]. destruct (drain_all_stream bs items Hb Hs) as [it Hd].
  unfold parse_options, fragment_option_limit in Hr. rewrite Hdata in Hr. cbn [negb] in Hr. cbv zeta iota in Hr.
  pose proof (for_each_drain (parse_body false user_data) _ _ _ _ parse_state_init Hd) as He.
  destruct (for_each _ _ _ _) as [[x it']|]; [|done]. cbn in He. symmetry in He.
  assert (calm parse_state_init) as Hc by done.
  pose proof (withheld_refusal _ items _ x Hc (tlv_stream_wf _ _ _ Hs Hb) He) as Hw.
  destruct x as [s|ret]; injection Hr as <-; exact Hw.
Qed.
End refusal.

(** ** Properties *)

(** C8. Option processing never panics, on any bytes; what it delivers are only
    APC, MDS, MRDS, REQ and RES options, each kind at most once, each with a value
    of its fixed length, APC only with the CRC-32C of the user data, and exactly
    these kinds are reported as successes. *)
Theorem parse_options_sound `{Crc32c} (options_bytes user_data : list Z) (off : Z) :
  bytes options_bytes ->
  exists r, parse_options options_bytes user_data off = Some r /\
    forall po, r = Ok po ->
      Forall (delivered_ok user_data) (po_options po) /\ NoDup (ro_kind <$> po_options po) /\
      successes (po_reports po) = ro_kind <$> po_options po /\
      (po_fragment_failed po = true -> user_data = []).
Proof.
  intros Hb. destruct (parse_options_spec user_data options_bytes off Hb) as (r & Hr & Hi).
  exists r. split; [done|]. intros po ->. destruct Hi as (? & ? & ? & _ & _ & ?). auto.
Qed.

Lemma parse_options_sound_witness :
  let bs := [1; 4; 4; 5; 220; 6; 6; 9; 9; 9; 9; 4; 4; 0; 1; 10; 2; 0] in
  @parse_options crc32c_bitwise bs [7] 10 = Some (Ok
    {| po_options := [{| ro_kind := Mds; ro_value := [5; 220] |};
                      {| ro_kind := Req; ro_value := [9; 9; 9; 9] |}];
       po_reports := [report Mds Success; report Req Success; report Mds Ignored;
                      report (Other 10) Ignored];
       po_frag := None; po_unsupported_unsafe_seen := false; po_fragment_failed := false |}) /\
  exists r, @parse_options crc32c_bitwise bs [7] 10 = Some r /\
    forall po, r = Ok po -> NoDup (ro_kind <$> po_options po).
Proof.
  split; [vm_compute; reflexivity|].
  destruct (@parse_options_sound crc32c_bitwise
    [1; 4; 4; 5; 220; 6; 6; 9; 9; 9; 9; 4; 4; 0; 1; 10; 2; 0] [7] 10) as (r & H1 & H2).
  - repeat constructor; unfold u8; lia.
  - exists r. split; [exact H1|]. intros po Hpo. apply (H2 po Hpo).
Defined.
