(* ===== verification/Pipeline.v ===== *)
(** The receive pipeline (src/src/recv/pipeline.rs, lines 85 to 106 and 191 to 498).

    [process_datagram_inner] is split along its stages: [receive_udp] (headers and
    UDP checksum), [receive_options] (pad, OCS, option processing) and
    [receive_fragment] (buffering and the second pass).  Each stage either ends
    with a result or hands over to the next one.  The function calls itself once,
    on a reassembled datagram and with reassembly switched off; the model bounds
    the depth of the recursion by fuel and two levels are enough, which is part of
    the totality theorem.  The cache is threaded through. *)

From S2P Require Import Prelude Model Kind Parse Typed Checksum Ip Udp Surplus Ocs RecvOptions.
From S2P Require Import Reassembly.

(** ** Data *)

Record Payload : Type := {
  pl_data : list Z;
  pl_options : list RawOption;
  pl_option_bearing : bool;
  pl_reports : list OptionReport;
  pl_ocs_reports : list OcsReport;
}.

Inductive Delivery : Type :=
| DeliverPayload (p : Payload)
| Buffered
| Dropped.

(** ** Helpers *)

Definition frag_key (ip : IpRepr) (udp : UdpHeader) (frag : FragOption) : FragKey :=
  {| fk_src := ip_src ip; fk_dst := ip_dst ip; fk_src_port := udp_src_port udp;
     fk_dst_port := udp_dst_port udp; fk_identification := frag_identification frag |}.

Definition merge_fragment_options (fragment_options : list RawOption)
    (fragment_option_failures : list OptionKind) (datagram_options : list RawOption) :
    list RawOption :=
  filter (fun o => ro_kind o ∉ fragment_option_failures) fragment_options ++ datagram_options.

(** The loop of [merge_fragment_reports]. *)
Fixpoint merge_reports_loop (reports : list OptionReport) (fragment_options : list RawOption) :
    list OptionReport :=
  match fragment_options with
  | [] => reports
  | o :: rest =>
      if existsb (fun r => bool_decide (opr_kind r = ro_kind o)) reports
      then merge_reports_loop reports rest
      else merge_reports_loop
        (reports ++ [{| opr_kind := ro_kind o; opr_status := Success; opr_source := FragmentSet |}])
        rest
  end.

Definition merge_fragment_reports (fragment_options : list RawOption)
    (fragment_option_failures : list OptionKind) (datagram_reports : list OptionReport) :
    list OptionReport :=
  let reports :=
    (fun kind => {| opr_kind := kind; opr_status := Failed; opr_source := FragmentSet |})
      <$> fragment_option_failures in
  merge_reports_loop reports fragment_options ++ datagram_reports.

Fixpoint failures_loop (failures : list OptionKind) (reports : list OptionReport) :
    list OptionKind :=
  match reports with
  | [] => failures
  | r :: rest =>
      if bool_decide (opr_status r = Failed) && negb (bool_decide (opr_kind r ∈ failures))
      then failures_loop (failures ++ [opr_kind r]) rest
      else failures_loop failures rest
  end.

Definition fragment_option_failures (reports : list OptionReport) : list OptionKind :=
  failures_loop [] reports.

(** Outer [option]: panic; inner [option]: the source's return type. *)
Definition reassembled_datagram (ip : IpRepr) (udp : UdpHeader) (udp_length : Z) (tail : list Z) :
    option (option (list Z)) :=
  let udp_len := udp_length in
  match checked_sub udp_len UDP_HEADER_LEN with
  | None => Some None
  | Some user_len =>
      if len tail <? user_len then Some None else
      match checked_add 20 UDP_HEADER_LEN with
      | None => Some None
      | Some n =>
          match checked_add n (len tail) with
          | None => Some None
          | Some total_len =>
              match u16_try_from total_len with
              | None => Some None
              | Some total_len =>
                  let reassembled_ip := {| ip_src := ip_src ip; ip_dst := ip_dst ip;
                                           ip_ihl := 5; ip_total_len := total_len |} in
                  let reassembled_udp :=
                    {| udp_src_port := udp_src_port udp; udp_dst_port := udp_dst_port udp;
                       udp_length := udp_length; udp_checksum := 0 |} in
                  let datagram := zeros total_len in
                  let! ip_part := slice datagram 0 20 in
                  let! ip_part := IpRepr_write reassembled_ip ip_part in
                  let! datagram := copy_at datagram 0 ip_part in
                  let! udp_part := slice datagram 20 (20 + UDP_HEADER_LEN) in
                  let! udp_part := UdpHeader_write reassembled_udp udp_part in
                  let! datagram := copy_at datagram 20 udp_part in
                  let! rest := slice datagram (20 + UDP_HEADER_LEN) (len datagram) in
                  ensure (len rest =? len tail);
                  let! datagram := copy_at datagram (20 + UDP_HEADER_LEN) tail in
                  Some (Some datagram)
              end
          end
      end
  end.

(** ** The stages *)

(** The locals the later stages use. *)
Record udp_view : Type := {
  uv_ip : IpRepr;
  uv_udp_at : Z;
  uv_ip_end : Z;
  uv_datagram : list Z;
  uv_udp : UdpHeader;
  uv_user_data : list Z;
}.

(** From the IP header to the UDP checksum. *)
Definition receive_udp (ip_datagram : list Z) : option (result udp_view RecvError) :=
  let! parsed := IpRepr_parse ip_datagram in
  let? (ip, udp_at) := map_err RecvHeader parsed in
  let ip_end := IpRepr_header_len ip + IpRepr_transport_payload_len ip in
  let! datagram := slice ip_datagram 0 ip_end in
  let! udp_bytes := slice datagram udp_at (len datagram) in
  let! parsed := UdpHeader_parse udp_bytes in
  let? udp := map_err RecvHeader parsed in
  let udp_len := udp_length udp in
  if IpRepr_transport_payload_len ip <? udp_len
  then Some (Err (UdpLengthExceedsIpPayload (udp_length udp) (IpRepr_transport_payload_len ip)))
  else
  let user_data_at := udp_at + UDP_HEADER_LEN in
  let surplus_start := udp_at + udp_len in
  let! user_data := slice datagram user_data_at surplus_start in
  let v := {| uv_ip := ip; uv_udp_at := udp_at; uv_ip_end := ip_end; uv_datagram := datagram;
              uv_udp := udp; uv_user_data := user_data |} in
  if udp_checksum udp =? 0 then Some (Ok v) else
  let! expected := UdpHeader_compute_checksum (UdpHeader_with_checksum udp 0) ip user_data in
  if expected =? udp_checksum udp then Some (Ok v)
  else Some (Err (UdpChecksumMismatch expected (udp_checksum udp))).

Definition deliver_without_options (user_data : list Z) (option_bearing : bool)
    (ocs_status : OcsStatus) : Delivery :=
  DeliverPayload {| pl_data := user_data; pl_options := []; pl_option_bearing := option_bearing;
                    pl_reports := [];
                    pl_ocs_reports := [{| ocr_status := ocs_status; ocr_source := Datagram |}] |}.

(** From the surplus area to the processed options: a final delivery, or the
    options with the OCS status. *)
Definition receive_options `{Crc32c} (v : udp_view) :
    option (Delivery + (ParsedOptions * OcsStatus)) :=
  match locate_surplus (uv_ip v) (uv_udp v) with
  | None => Some (inl (deliver_without_options (uv_user_data v) false StAbsent))
  | Some layout =>
      let! pad := get (uv_datagram v) (starts_at layout) in
      match check_pad pad (needs_pad layout) with
      | Err _ => Some (inl (deliver_without_options (uv_user_data v) true StFailed))
      | Ok _ =>
          let! body := slice (uv_datagram v) (SurplusLayout_ocs_at layout) (uv_ip_end v) in
          let! check := ocs_validate body (surplus_len layout mod 65536) (udp_checksum (uv_udp v)) in
          match check with
          | OcsIgnoreOptions =>
              Some (inl (deliver_without_options (uv_user_data v) true StInvalidZero))
          | OcsError _ => Some (inl (deliver_without_options (uv_user_data v) true StFailed))
          | OcsValid | OcsUnused =>
              let ocs_status := match check with OcsValid => StValid | _ => StUnused end in
              let options_offset_from_udp_header :=
                SurplusLayout_ocs_at layout + LENGTH_OCS - uv_udp_at v in
              let! options_bytes := slice body LENGTH_OCS (len body) in
              let! parsed := parse_options options_bytes (uv_user_data v)
                               options_offset_from_udp_header in
              Some match parsed with
              | Ok parsed => inr (parsed, ocs_status)
              | Err _ => inl (deliver_without_options (uv_user_data v) true ocs_status)
              end
          end
      end
  end.

(** The report put in front of a reassembled datagram's OCS reports. *)
Definition fragment_set_ocs (fragment_ocs_nonzero : option bool) : OcsReport :=
  {| ocr_status := match fragment_ocs_nonzero with
                   | Some true => StValid
                   | Some false => StUnused
                   | None => StUnobserved
                   end;
     ocr_source := FragmentSet |}.

Definition merge_delivery (done : Completed) (d : Delivery) : Delivery :=
  match d with
  | DeliverPayload p =>
      DeliverPayload
        {| pl_data := pl_data p;
           pl_options := merge_fragment_options (co_fragment_options done)
                           (co_fragment_option_failures done) (pl_options p);
           pl_option_bearing := pl_option_bearing p;
           pl_reports := merge_fragment_reports (co_fragment_options done)
                           (co_fragment_option_failures done) (pl_reports p);
           pl_ocs_reports := fragment_set_ocs (co_fragment_ocs_nonzero done) :: pl_ocs_reports p |}
  | delivery => delivery
  end.

Abbreviation outcome := (option (result Delivery RecvError * ReassemblyCache)).

Section stages.
Context `{Crc32c}.

(** The recursive call, [process_datagram_inner(&reassembled, cache, now, false)]. *)
Context (reprocess : list Z -> ReassemblyCache -> outcome).

(** An empty-payload datagram with a FRAG option. *)
Definition receive_fragment (v : udp_view) (cache : ReassemblyCache) (now : Z)
    (reassembly_allowed : bool) (frag : FragOption) (parsed : ParsedOptions)
    (ocs_status : OcsStatus) : outcome :=
  if negb reassembly_allowed then Some (Ok Dropped, cache) else
  let key := frag_key (uv_ip v) (uv_udp v) frag in
  let fragment_data_at := uv_udp_at v + frag_start frag in
  match slice (uv_datagram v) fragment_data_at (uv_ip_end v) with
  | None => Some (Ok Dropped, ReassemblyCache_discard cache key)
  | Some fragment_data =>
      let! (o, cache) := ReassemblyCache_insert_with_options_and_failures cache key frag
        fragment_data
        {| fp_options := po_options parsed;
           fp_option_failures := fragment_option_failures (po_reports parsed);
           fp_ocs_nonzero := Some (bool_decide (ocs_status = StValid)) |} now in
      match o with
      | Incomplete => Some (Ok Buffered, cache)
      | Abort _ => Some (Ok Dropped, cache)
      | Complete done =>
          let! reassembled := reassembled_datagram (uv_ip v) (uv_udp v) (co_udp_length done)
                                (co_tail done) in
          match reassembled with
          | None => Some (Ok Dropped, cache)
          | Some reassembled =>
              let! (r, cache) := reprocess reassembled cache in
              match r with
              | Err e => Some (Err e, cache)
              | Ok d => Some (Ok (merge_delivery done d), cache)
              end
          end
      end
  end.

(** What happens with processed options. *)
Definition dispatch (v : udp_view) (cache : ReassemblyCache) (now : Z)
    (reassembly_allowed : bool) (parsed : ParsedOptions) (ocs_status : OcsStatus) : outcome :=
  let user_data := uv_user_data v in
  let frag := po_frag parsed in
  let valid_frag_seen := match frag with Some _ => true | None => false end in
  if valid_frag_seen && negb (is_nil user_data)
  then Some (Ok (deliver_without_options user_data true ocs_status), cache) else
  let empty_frag := if is_nil user_data then frag else None in
  let fragment_key := frag_key (uv_ip v) (uv_udp v) <$> empty_frag in
  let unsafe_seen := po_unsupported_unsafe_seen parsed in
  if po_fragment_failed parsed
     || (match fragment_key with Some _ => true | None => false end && unsafe_seen)
  then Some (Ok Dropped,
             match fragment_key with
             | Some key => ReassemblyCache_discard cache key
             | None => cache
             end)
  else if unsafe_seen then
    Some (Ok (DeliverPayload
      {| pl_data := []; pl_options := []; pl_option_bearing := true;
         pl_reports := po_reports parsed;
         pl_ocs_reports := [{| ocr_status := ocs_status; ocr_source := Datagram |}] |}), cache)
  else
  match empty_frag with
  | Some frag => receive_fragment v cache now reassembly_allowed frag parsed ocs_status
  | None =>
      Some (Ok (DeliverPayload
        {| pl_data := user_data; pl_options := po_options parsed; pl_option_bearing := true;
           pl_reports := po_reports parsed;
           pl_ocs_reports := [{| ocr_status := ocs_status; ocr_source := Datagram |}] |}), cache)
  end.
End stages.

Fixpoint process_datagram_inner `{Crc32c} (fuel : nat) (ip_datagram : list Z)
    (cache : ReassemblyCache) (now : Z) (reassembly_allowed : bool) : outcome :=
  match fuel with
  | O => None
  | S fuel' =>
      let! r := receive_udp ip_datagram in
      match r with
      | Err e => Some (Err e, cache)
      | Ok v =>
          let! r := receive_options v in
          match r with
          | inl d => Some (Ok d, cache)
          | inr (parsed, ocs_status) =>
              dispatch (fun datagram cache => process_datagram_inner fuel' datagram cache now false)
                v cache now reassembly_allowed parsed ocs_status
          end
      end
  end.

Definition process_datagram `{Crc32c} (ip_datagram : list Z) (cache : ReassemblyCache) (now : Z) :
    outcome :=
  process_datagram_inner 2 ip_datagram cache now true.

(** Datagrams arriving one after the other, each with its time. *)
Fixpoint process_all `{Crc32c} (c : ReassemblyCache) (arrivals : list (Z * list Z)) :
    option (list (result Delivery RecvError) * ReassemblyCache) :=
  match arrivals with
  | [] => Some ([], c)
  | (now, d) :: rest =>
      let! (r, c) := process_datagram d c now in
      let! (rs, c) := process_all c rest in
      Some (r :: rs, c)
  end.

(** ** Lemmas: headers *)

Record view_wf (v : udp_view) : Prop := {
  vw_ip : IpRepr_wf (uv_ip v);
  vw_udp : UdpHeader_wf (uv_udp v);
  vw_at : uv_udp_at v = IpRepr_header_len (uv_ip v);
  vw_end : uv_ip_end v = uv_udp_at v + IpRepr_transport_payload_len (uv_ip v);
  vw_len : len (uv_datagram v) = uv_ip_end v;
  vw_max : uv_ip_end v <= 65535;
  vw_bytes : bytes (uv_datagram v);
  vw_length : 8 <= udp_length (uv_udp v) <= IpRepr_transport_payload_len (uv_ip v);
  vw_data : uv_user_data v =
    sub (uv_datagram v) (uv_udp_at v + 8) (uv_udp_at v + udp_length (uv_udp v));
}.

Lemma transport_payload_len ip :
  IpRepr_header_len ip <= ip_total_len ip ->
  IpRepr_header_len ip + IpRepr_transport_payload_len ip = ip_total_len ip.
Proof. unfold IpRepr_header_len, IpRepr_transport_payload_len, saturating_sub. lia. Qed.

Lemma header_len_bounds ip : IpRepr_wf ip -> 20 <= IpRepr_header_len ip <= 60.
Proof. intros (_ & _ & ? & _). unfold IpRepr_header_len. lia. Qed.

Lemma view_data_bytes v : view_wf v -> bytes (uv_user_data v).
Proof. intros Hv. rewrite (vw_data _ Hv). apply Forall_sub, Hv. Qed.

Lemma view_data_len v : view_wf v -> len (uv_user_data v) = udp_length (uv_udp v) - 8.
Proof.
  intros Hv. pose proof (header_len_bounds _ (vw_ip _ Hv)). pose proof (vw_at _ Hv).
  pose proof (vw_end _ Hv). pose proof (vw_len _ Hv). pose proof (vw_length _ Hv).
  rewrite (vw_data _ Hv), len_sub; lia.
Qed.

Lemma receive_udp_spec bs :
  bytes bs ->
  exists r, receive_udp bs = Some r /\
    match r with
    | Ok v => view_wf v /\
        (udp_checksum (uv_udp v) <> 0 ->
         udp_checksum_value (uv_udp v) (uv_ip v) (uv_user_data v) = udp_checksum (uv_udp v))
    | Err (UdpChecksumMismatch expected actual) => u16 expected /\ u16 actual
    | Err (RecvHeader _ | UdpLengthExceedsIpPayload _ _) => True
    | Err _ => False
    end.
Proof.
  intros Hb. unfold receive_udp. destruct (IpRepr_parse_total bs Hb) as (r & -> & Hr).
  destruct r as [[ip off]|e]; [|by eexists]. destruct (Hr _ _ eq_refl) as (Hw & -> & Hl).
  cbn [map_err]. pose proof (transport_payload_len ip (proj1 Hl)) as Htl.
  pose proof (header_len_bounds ip Hw) as Hh.
  assert (ip_total_len ip <= 65535) by (destruct Hw as (_ & _ & _ & Hu); unfold u16 in Hu; lia).
  rewrite slice_Some by lia. set (dg := sub bs 0 _).
  assert (len dg = ip_total_len ip) as Hdg by (unfold dg; rewrite len_sub; lia).
  assert (bytes dg) as Hbd by (unfold dg; auto with rust).
  rewrite slice_Some by lia. destruct (UdpHeader_parse_total (sub dg (IpRepr_header_len ip) (len dg)))
    as (r & -> & Hu); [auto with rust|].
  destruct r as [udp|e]; [|by eexists]. destruct (Hu _ eq_refl) as (Hwu & H8 & _). cbn [map_err].
  destruct (Z.ltb_spec (IpRepr_transport_payload_len ip) (udp_length udp)); [by eexists|].
  change UDP_HEADER_LEN with 8. rewrite slice_Some by lia.
  set (data := sub dg _ _). set (v := Build_udp_view _ _ _ _ _ _).
  assert (view_wf v) as Hv by (split; simpl; done || lia).
  pose proof (view_data_len v Hv) as Hdl. pose proof (view_data_bytes v Hv) as Hdb. simpl in Hdl, Hdb.
  destruct (Z.eqb_spec (udp_checksum udp) 0); [eexists; split; [done|]; by split|].
  destruct (UdpHeader_compute_checksum_spec (UdpHeader_with_checksum udp 0) ip data) as [-> _].
  { destruct Hwu as (? & ? & ? & ?). split; [done|]. split; [done|]. split; [done|]. unfold u16; simpl; lia. }
  { done. }
  { done. }
  { simpl. lia. }
  rewrite udp_checksum_value_with_checksum.
  destruct (Z.eqb_spec (udp_checksum_value udp ip data) (udp_checksum udp)); eexists; (split; [done|]);
    [by split|]. destruct Hwu as (_ & _ & _ & ?). split; [apply udp_checksum_value_u16|done].
Qed.

(** ** Lemmas: options *)

(** The surplus area passed the pad and OCS checks. *)
Definition surplus_trusted (v : udp_view) : Prop :=
  exists l pad, locate_surplus (uv_ip v) (uv_udp v) = Some l /\
    get (uv_datagram v) (starts_at l) = Some pad /\ check_pad pad (needs_pad l) = Ok tt /\
    (ocs_validate (sub (uv_datagram v) (SurplusLayout_ocs_at l) (uv_ip_end v)) (surplus_len l)
       (udp_checksum (uv_udp v)) = Some OcsValid \/
     ocs_validate (sub (uv_datagram v) (SurplusLayout_ocs_at l) (uv_ip_end v)) (surplus_len l)
       (udp_checksum (uv_udp v)) = Some OcsUnused /\ udp_checksum (uv_udp v) = 0).

Lemma ocs_validate_unused body n udp : ocs_validate body n udp = Some OcsUnused -> udp = 0.
Proof.
  unfold ocs_validate. destruct (_ <? _); [done|]. destruct (get body 0), (get body 1); try done.
  destruct (_ =? 0); [|by destruct (_ =? _)]. by destruct (Z.eqb_spec udp 0).
Qed.

(** The option bytes of a trusted surplus area, behind the OCS. *)
Definition trusted_area (v : udp_view) (area : list Z) : Prop :=
  exists l pad, locate_surplus (uv_ip v) (uv_udp v) = Some l /\
    get (uv_datagram v) (starts_at l) = Some pad /\ check_pad pad (needs_pad l) = Ok tt /\
    (ocs_validate (sub (uv_datagram v) (SurplusLayout_ocs_at l) (uv_ip_end v)) (surplus_len l)
       (udp_checksum (uv_udp v)) = Some OcsValid \/
     ocs_validate (sub (uv_datagram v) (SurplusLayout_ocs_at l) (uv_ip_end v)) (surplus_len l)
       (udp_checksum (uv_udp v)) = Some OcsUnused /\ udp_checksum (uv_udp v) = 0) /\
    area = sub (uv_datagram v) (SurplusLayout_ocs_at l + 2) (uv_ip_end v).

Lemma trusted_area_trusted v area : trusted_area v area -> surplus_trusted v.
Proof. intros (l & pad & H1 & H2 & H3 & H4 & _). by exists l, pad. Qed.

Lemma trusted_area_det v area area' : trusted_area v area -> trusted_area v area' -> area = area'.
Proof. intros (l & _ & Hl & _ & _ & _ & ->) (l' & _ & Hl' & _ & _ & _ & ->). congruence. Qed.

(** The option stage: no trusted area and the data alone, or the options of the area. *)
Lemma receive_options_cases `{Crc32c} v :
  view_wf v ->
  (exists b st, receive_options v = Some (inl (deliver_without_options (uv_user_data v) b st)) /\
     forall area, ~ trusted_area v area) \/
  (exists area off st, trusted_area v area /\ bytes area /\
     receive_options v =
     (let! parsed := parse_options area (uv_user_data v) off in
      Some match parsed with
           | Ok parsed => inr (parsed, st)
           | Err _ => inl (deliver_without_options (uv_user_data v) true st)
           end)).
Proof.
  intros Hv. unfold receive_options. destruct (locate_surplus _ _) as [l|] eqn:El.
  2:{ left. do 2 eexists. split; [done|]. intros area (l & _ & Hl & _). congruence. }
  pose proof El as El'. apply locate_surplus_Some in El as (Hs & _ & Hn & Hp).
  pose proof (header_len_bounds _ (vw_ip _ Hv)). pose proof (vw_at _ Hv).
  pose proof (vw_end _ Hv). pose proof (vw_len _ Hv). pose proof (vw_length _ Hv).
  assert (0 <= usize_of_bool (needs_pad l)) by (by destruct (needs_pad l)).
  destruct (get_is_Some (uv_datagram v) (starts_at l)) as [pad Epad]; [lia|]. rewrite Epad.
  destruct (check_pad pad (needs_pad l)) as [[]|] eqn:Echk.
  2:{ left. do 2 eexists. split; [done|]. intros area (l' & pad' & Hl & Hpad & Hok & _). congruence. }
  assert (SurplusLayout_ocs_at l = starts_at l + usize_of_bool (needs_pad l)) as Hat by done.
  rewrite slice_Some by lia. set (body := sub _ _ _).
  assert (2 <= len body) as Hbl by (unfold body; rewrite len_sub; lia).
  pose proof (vw_max _ Hv). rewrite (Z.mod_small (surplus_len l)) by lia.
  destruct (ocs_validate_total body (surplus_len l) (udp_checksum (uv_udp v))) as [chk Eocs]. rewrite Eocs.
  destruct (decide (chk = OcsValid \/ chk = OcsUnused)) as [Hor|Hnot].
  - right. exists (sub body 2 (len body)), (SurplusLayout_ocs_at l + LENGTH_OCS - uv_udp_at v),
      (match chk with OcsValid => StValid | _ => StUnused end). split; [|split].
    + exists l, pad. do 3 (split; [done|]). fold body. split.
      * destruct Hor as [->| ->]; [by left|]. right. split; [done|]. by eapply ocs_validate_unused.
      * unfold body. rewrite sub_sub by (rewrite ?len_sub; lia). f_equal. rewrite len_sub by lia. lia.
    + unfold body. pose proof (vw_bytes _ Hv). auto with rust.
    + change LENGTH_OCS with 2. rewrite slice_Some by lia. by destruct Hor as [->| ->].
  - left. assert (forall area, ~ trusted_area v area) as Hno.
    { intros area (l' & pad' & Hl & _ & _ & Hocs & _). rewrite El' in Hl. injection Hl as <-. fold body in Hocs.
      rewrite Eocs in Hocs. destruct Hocs as [[= ->]|[[= ->] _]]; tauto. }
    destruct chk; [tauto|tauto|by do 2 eexists|by do 2 eexists].
Qed.

Lemma receive_options_spec `{Crc32c} v :
  view_wf v ->
  exists r, receive_options v = Some r /\
    match r with
    | inl d => exists b st, d = deliver_without_options (uv_user_data v) b st
    | inr (po, st) => parsed_inv (uv_user_data v) po /\ surplus_trusted v
    end.
Proof.
  intros Hv. destruct (receive_options_cases v Hv) as [(b & st & -> & _)|(area & off & st & Ha & Hb & ->)].
  { eexists. split; [done|]. by do 2 eexists. }
  destruct (parse_options_spec (uv_user_data v) area off Hb) as (r & -> & Hpo).
  destruct r; eexists; (split; [done|]); [split; [done|by eapply trusted_area_trusted]|by do 2 eexists].
Qed.

(** The datagram has an option that must not be ignored in a trusted area. *)
Definition refuses_data (v : udp_view) : Prop :=
  exists area items, trusted_area v area /\ tlv_stream 0 area items /\ refusal items.

Lemma receive_options_refusal `{Crc32c} v :
  view_wf v -> is_nil (uv_user_data v) = false ->
  exists r, receive_options v = Some r /\
    match r with
    | inl d => (exists b st, d = deliver_without_options (uv_user_data v) b st) /\ ~ refuses_data v
    | inr (po, st) => parsed_inv (uv_user_data v) po /\ surplus_trusted v /\
        (po_frag po = None /\ po_unsupported_unsafe_seen po = true <-> refuses_data v)
    end.
Proof.
  intros Hv Hne. destruct (receive_options_cases v Hv) as [(b & st & -> & Hno)|(area & off & st & Ha & Hb & ->)].
  { eexists. split; [done|]. split; [by do 2 eexists|]. intros (area & items & Ha & _). by destruct (Hno area). }
  destruct (drain_all_spec area Hb) as (items & it & _ & Hs).
  assert (refuses_data v <-> refusal items) as Hiff.
  { split; [|by exists area, items]. intros (area' & items' & Ha' & Hs' & Hr).
    rewrite (trusted_area_det _ _ _ Ha' Ha) in Hs'. by rewrite (tlv_stream_det _ _ _ _ Hs Hs'). }
  destruct (parse_options_withheld _ Hne area off items Hb Hs) as (r & -> & Hpo & Hwh).
  destruct r as [po|e]; eexists; (split; [done|]); cbn in Hwh.
  - split; [done|]. split; [by eapply trusted_area_trusted|]. by rewrite Hiff.
  - split; [by do 2 eexists|]. rewrite Hiff. tauto.
Qed.

(** ** Lemmas: the second pass *)

Definition reassembled_ip (ip : IpRepr) (n : Z) : IpRepr :=
  {| ip_src := ip_src ip; ip_dst := ip_dst ip; ip_ihl := 5; ip_total_len := 28 + n |}.

Definition reassembled_udp (udp : UdpHeader) (ul : Z) : UdpHeader :=
  {| udp_src_port := udp_src_port udp; udp_dst_port := udp_dst_port udp;
     udp_length := ul; udp_checksum := 0 |}.

Definition reassembled_bytes (ip : IpRepr) (udp : UdpHeader) (ul : Z) (tail : list Z) : list Z :=
  ip_header (reassembled_ip ip (len tail)) ++ udp_header (reassembled_udp udp ul) ++ tail.

Lemma reassembled_datagram_spec ip udp ul tail :
  8 <= ul <= 8 + len tail ->
  reassembled_datagram ip udp ul tail =
  Some (if 28 + len tail <=? 65535 then Some (reassembled_bytes ip udp ul tail) else None).
Proof.
  intros Hul. unfold reassembled_datagram, checked_sub, checked_add, u16_try_from.
  change UDP_HEADER_LEN with 8. change U16_MAX with 65535.
  change USIZE_MAX with 18446744073709551615. pose proof (len_nonneg tail).
  destruct (Z.leb_spec 8 ul); [|lia]. destruct (Z.ltb_spec (len tail) (ul - 8)); [lia|].
  change (20 + 8) with 28. change (28 <=? 18446744073709551615) with true. cbv iota.
  destruct (Z.leb_spec (28 + len tail) 18446744073709551615).
  2:{ by destruct (Z.leb_spec (28 + len tail) 65535); [lia|]. }
  destruct (Z.leb_spec (28 + len tail) 65535); [|done]. cbv zeta.
  assert (zeros (28 + len tail) = zeros 20 ++ zeros 8 ++ zeros (len tail)) as ->.
  { rewrite <- !zeros_app by lia. f_equal. lia. }
  rewrite (slice_prefix (zeros 20)) by done. fold (reassembled_ip ip (len tail)).
  rewrite IpRepr_write_zeros by done. rewrite (copy_at_front (zeros 20)) by done.
  set (h := ip_header _). assert (len h = 20) as Hh by apply len_ip_header.
  rewrite (slice_middle h (zeros 8)) by (by rewrite Hh). fold (reassembled_udp udp ul).
  rewrite UdpHeader_write_zeros, copy_at_middle by (rewrite ?Hh; done).
  set (g := udp_header _). assert (len g = 8) as Hg by done.
  assert (len (h ++ g ++ zeros (len tail)) = 28 + len tail) as Hl
    by (rewrite !len_app, Hh, Hg, len_zeros by lia; lia).
  rewrite slice_Some by lia. rewrite len_sub by lia.
  replace (len (h ++ g ++ zeros (len tail)) - 28 =? len tail) with true
    by (symmetry; apply Z.eqb_eq; lia).
  rewrite app_assoc. rewrite <- (app_nil_r (zeros (len tail))).
  rewrite copy_at_middle by (rewrite ?len_app, ?Hh, ?Hg, ?len_zeros by lia; lia).
  by rewrite app_nil_r, <- app_assoc.
Qed.

(** ** Lemmas: receiving a datagram built from its parts *)

Definition wire (ip : IpRepr) (udp : UdpHeader) (tail : list Z) : list Z :=
  ip_header ip ++ udp_header udp ++ tail.

Definition wire_view (ip : IpRepr) (udp : UdpHeader) (tail : list Z) : udp_view :=
  {| uv_ip := ip; uv_udp_at := 20; uv_ip_end := 28 + len tail; uv_datagram := wire ip udp tail;
     uv_udp := udp; uv_user_data := sub tail 0 (udp_length udp - 8) |}.

Definition wire_wf (ip : IpRepr) (udp : UdpHeader) (tail : list Z) : Prop :=
  IpRepr_wf ip /\ ip_ihl ip = 5 /\ ip_total_len ip = 28 + len tail /\ UdpHeader_wf udp /\
  8 <= udp_length udp <= 8 + len tail /\ bytes tail.

Lemma len_wire ip udp tail : len (wire ip udp tail) = 28 + len tail.
Proof. unfold wire. rewrite !len_app, len_ip_header, len_udp_header. lia. Qed.

Lemma sub_wire ip udp tail i j :
  0 <= i -> sub (wire ip udp tail) (28 + i) (28 + j) = sub tail i j.
Proof.
  intros Hi. unfold wire. rewrite app_assoc.
  assert (len (ip_header ip ++ udp_header udp) = 28) as Hl
    by (by rewrite len_app, len_ip_header, len_udp_header).
  rewrite <- Hl. by apply sub_app_shift.
Qed.

Lemma receive_udp_wire ip udp tail :
  wire_wf ip udp tail ->
  (udp_checksum udp <> 0 ->
   udp_checksum udp = udp_checksum_value udp ip (sub tail 0 (udp_length udp - 8))) ->
  receive_udp (wire ip udp tail) = Some (Ok (wire_view ip udp tail)).
Proof.
  intros (Hip & Hihl & Htl & Hudp & Hul & Hb) Hck. unfold receive_udp.
  pose proof (len_nonneg tail) as Ht0. pose proof (len_wire ip udp tail) as Hlw.
  assert (IpRepr_parse (wire ip udp tail) = Some (Ok (ip, 20))) as ->.
  { apply IpRepr_parse_header; [done..|]. rewrite len_app, len_udp_header. lia. }
  cbn [map_err]. assert (IpRepr_header_len ip = 20) as Hhl by (unfold IpRepr_header_len; lia).
  assert (IpRepr_transport_payload_len ip = 8 + len tail) as Htp
    by (unfold IpRepr_transport_payload_len, saturating_sub; lia).
  rewrite Hhl, Htp. replace (20 + (8 + len tail)) with (len (wire ip udp tail)) by lia.
  rewrite (slice_Some (wire ip udp tail) 0), sub_full by lia. rewrite slice_Some by lia.
  assert (sub (wire ip udp tail) 20 (len (wire ip udp tail)) = udp_header udp ++ tail) as ->.
  { unfold wire. apply sub_suffix; [done|]. by rewrite len_app. }
  rewrite UdpHeader_parse_header by (done || lia). cbn [map_err].
  destruct (Z.ltb_spec (8 + len tail) (udp_length udp)); [lia|].
  change UDP_HEADER_LEN with 8. rewrite slice_Some by lia.
  replace (20 + 8) with (28 + 0) by lia.
  replace (20 + udp_length udp) with (28 + (udp_length udp - 8)) by lia. rewrite sub_wire by lia.
  cbv zeta. rewrite Hlw. fold (wire_view ip udp tail).
  destruct (Z.eqb_spec (udp_checksum udp) 0) as [|Hne]; [done|].
  destruct (UdpHeader_compute_checksum_spec (UdpHeader_with_checksum udp 0) ip
    (sub tail 0 (udp_length udp - 8))) as [-> _].
  { destruct Hudp as (? & ? & ? & ?). split; [done|]. split; [done|]. split; [done|]. unfold u16; simpl; lia. }
  { done. }
  { auto with rust. }
  { simpl. rewrite len_sub; lia. }
  rewrite udp_checksum_value_with_checksum, <- (Hck Hne). by rewrite Z.eqb_refl.
Qed.

Lemma wire_view_wf ip udp tail : wire_wf ip udp tail -> view_wf (wire_view ip udp tail).
Proof.
  intros (Hip & Hihl & Htl & Hudp & Hul & Hb). pose proof (len_nonneg tail).
  assert (IpRepr_header_len ip = 20) as Hhl by (unfold IpRepr_header_len; lia).
  assert (IpRepr_transport_payload_len ip = 8 + len tail) as Htp
    by (unfold IpRepr_transport_payload_len, saturating_sub; lia).
  split; cbn [wire_view uv_ip uv_udp uv_udp_at uv_ip_end uv_datagram uv_user_data]; try done; try lia.
  - apply len_wire.
  - destruct Hip as (_ & _ & _ & Hu). unfold u16 in Hu. lia.
  - unfold wire. rewrite !Forall_app. split; [by apply bytes_ip_header|].
    split; [apply bytes_udp_header|done].
  - replace (20 + 8) with (28 + 0) by lia.
    replace (20 + udp_length udp) with (28 + (udp_length udp - 8)) by lia. by rewrite sub_wire by lia.
Qed.

Lemma reassembled_wire_wf v ul tail :
  view_wf v -> 8 <= ul <= 8 + len tail -> 28 + len tail <= 65535 -> bytes tail ->
  wire_wf (reassembled_ip (uv_ip v) (len tail)) (reassembled_udp (uv_udp v) ul) tail.
Proof.
  intros Hv Hul Hm Hb. destruct (vw_ip _ Hv) as (? & ? & _). destruct (vw_udp _ Hv) as (? & ? & _).
  pose proof (len_nonneg tail). unfold wire_wf, IpRepr_wf, UdpHeader_wf, u16. simpl. unfold u16 in *. lia || auto 20 with lia.
Qed.

(** ** Lemmas: the whole pipeline *)

(** What a completed reassembly hands to the second pass. *)
Lemma reassembled_completed c k frag data pr now d c' :
  Cache_wf c -> u16 (frag_offset frag) -> bytes data ->
  ReassemblyCache_insert_with_options_and_failures c k frag data pr now = Some (Complete d, c') ->
  8 <= co_udp_length d <= 8 + len (co_tail d) /\ bytes (co_tail d) /\ Cache_wf c'.
Proof.
  intros Hc Hu Hd Hi.
  destruct (cache_insert_complete _ _ _ _ _ _ _ _ Hc Hu Hd Hi) as (f & p' & _ & _ & _ & Hw' & Hcomp & _).
  destruct (Partial_complete_inv _ _ _ Hw' Hcomp) as (ul & _ & _ & Hul & _ & -> & _).
  destruct (cache_insert_wf c k frag data pr now Hc Hu Hd) as (o & c2 & Hi' & Hc2 & _).
  rewrite Hi in Hi'. simplify_eq. cbn [co_udp_length co_tail completed].
  split; [by rewrite len_concat_segs|]. split; [|done]. apply Forall_concat, Forall_fmap, Hw'.
Qed.

Section total.
Context `{Crc32c}.

(** A computation on the cache that keeps its invariant. *)
Definition outcome_ok (c : ReassemblyCache) (o : outcome) : Prop :=
  exists r c', o = Some (r, c') /\ Cache_wf c' /\ rc_limits c' = rc_limits c.

Lemma receive_fragment_ok reprocess v c now allowed frag po st :
  view_wf v -> Cache_wf c -> Frag_wf frag ->
  (allowed = true -> forall d c, bytes d -> Cache_wf c -> outcome_ok c (reprocess d c)) ->
  outcome_ok c (receive_fragment reprocess v c now allowed frag po st).
Proof.
  intros Hv Hc Hf Hre. unfold receive_fragment. destruct allowed; cbn [negb].
  2:{ do 2 eexists. by split. }
  destruct (slice (uv_datagram v) _ _) as [data|] eqn:Es.
  2:{ do 2 eexists. split; [done|]. split; [by apply discard_wf|done]. }
  assert (bytes data) as Hd.
  { apply slice_inv in Es as (-> & _). apply Forall_sub, Hv. }
  destruct (cache_insert_wf c (frag_key (uv_ip v) (uv_udp v) frag) frag data
    {| fp_options := po_options po; fp_option_failures := fragment_option_failures (po_reports po);
       fp_ocs_nonzero := Some (bool_decide (st = StValid)) |} now Hc) as (o & c' & Hi & Hc' & HL & _);
    [apply Hf|done|].
  rewrite Hi. destruct o as [|d|reason]; [do 2 eexists; by split| |do 2 eexists; by split].
  destruct (reassembled_completed _ _ _ _ _ _ _ _ Hc (proj1 (proj2 (proj2 Hf))) Hd Hi) as (Hul & Hb & _).
  rewrite reassembled_datagram_spec by lia.
  destruct (Z.leb_spec (28 + len (co_tail d)) 65535); [|do 2 eexists; by split].
  pose proof (reassembled_wire_wf v (co_udp_length d) (co_tail d) Hv Hul ltac:(lia) Hb) as Hwire.
  destruct (Hre eq_refl (reassembled_bytes (uv_ip v) (uv_udp v) (co_udp_length d) (co_tail d)) c')
    as (r & c2 & -> & Hc2 & HL2); [apply (vw_bytes _ (wire_view_wf _ _ _ Hwire))|done|].
  rewrite HL in HL2. destruct r; do 2 eexists; by split.
Qed.

Lemma dispatch_ok reprocess v c now allowed po st :
  view_wf v -> Cache_wf c -> parsed_inv (uv_user_data v) po ->
  (allowed = true -> forall d c, bytes d -> Cache_wf c -> outcome_ok c (reprocess d c)) ->
  outcome_ok c (dispatch reprocess v c now allowed po st).
Proof.
  intros Hv Hc (_ & _ & _ & Hf & _) Hre. unfold dispatch.
  destruct (_ && negb _); [do 2 eexists; by split|].
  set (ef := if is_nil (uv_user_data v) then po_frag po else None).
  destruct (po_fragment_failed po || _).
  { do 2 eexists. split; [done|]. destruct (_ <$> ef); [split; [by apply discard_wf|done]|done]. }
  destruct (po_unsupported_unsafe_seen po); [do 2 eexists; by split|].
  destruct ef as [frag|] eqn:Ee; [|do 2 eexists; by split].
  apply receive_fragment_ok; [done..| |done]. unfold ef in Ee.
  destruct (is_nil _); [|done]. by rewrite Ee in Hf.
Qed.

Lemma process_inner_step fuel d c now allowed :
  bytes d -> Cache_wf c ->
  (allowed = true -> forall d c, bytes d -> Cache_wf c ->
     outcome_ok c (process_datagram_inner fuel d c now false)) ->
  outcome_ok c (process_datagram_inner (S fuel) d c now allowed).
Proof.
  intros Hb Hc Hre. cbn [process_datagram_inner].
  destruct (receive_udp_spec d Hb) as (r & -> & Hr). destruct r as [v|e]; [|do 2 eexists; by split].
  destruct Hr as [Hv _]. destruct (receive_options_spec v Hv) as (r & -> & Hr).
  destruct r as [dl|[po st]]; [do 2 eexists; by split|]. apply dispatch_ok; [done..|apply Hr|done].
Qed.

Lemma process_datagram_ok d c now :
  bytes d -> Cache_wf c -> outcome_ok c (process_datagram d c now).
Proof.
  intros. apply process_inner_step; [done..|]. intros _ d' c' ? ?.
  by apply process_inner_step.
Qed.
End total.

(** ** Lemmas: errors and ordinary datagrams *)

Section ordinary.
Context `{Crc32c}.

(** Past the headers nothing is an error. *)
Lemma dispatch_no_error reprocess v c now allowed po st e c' :
  view_wf v -> Cache_wf c -> parsed_inv (uv_user_data v) po ->
  (allowed = true -> forall ip udp tail c e c', wire_wf ip udp tail -> udp_checksum udp = 0 ->
     Cache_wf c -> reprocess (wire ip udp tail) c <> Some (Err e, c')) ->
  dispatch reprocess v c now allowed po st <> Some (Err e, c').
Proof.
  intros Hv Hc (_ & _ & _ & Hf & _) Hre. unfold dispatch.
  destruct (_ && negb _); [done|]. set (ef := if is_nil (uv_user_data v) then po_frag po else None).
  destruct (po_fragment_failed po || _); [done|]. destruct (po_unsupported_unsafe_seen po); [done|].
  destruct ef as [frag|] eqn:Ee; [|done]. unfold receive_fragment. destruct allowed; [|done].
  cbn [negb]. destruct (slice (uv_datagram v) _ _) as [data|] eqn:Es; [|done].
  assert (Frag_wf frag) as Hfw by (unfold ef in Ee; destruct (is_nil _); [by rewrite Ee in Hf|done]).
  assert (bytes data) as Hd by (apply slice_inv in Es as (-> & _); apply Forall_sub, Hv).
  set (pr := Build_FragmentProcessing _ _ _).
  destruct (ReassemblyCache_insert_with_options_and_failures _ _ _ _ pr _) as [[o c1]|] eqn:Hi; [|done].
  destruct o as [|d|]; [done| |done].
  destruct (reassembled_completed c (frag_key (uv_ip v) (uv_udp v) frag) frag data pr now d c1)
    as (Hul & Hb & Hc1); [done|apply Hfw|done..|].
  rewrite reassembled_datagram_spec by done.
  destruct (Z.leb_spec (28 + len (co_tail d)) 65535); [|done].
  pose proof (reassembled_wire_wf v (co_udp_length d) (co_tail d) Hv Hul ltac:(lia) Hb) as Hwire.
  intros Heq. unfold reassembled_bytes in Heq. fold (wire (reassembled_ip (uv_ip v) (len (co_tail d)))
    (reassembled_udp (uv_udp v) (co_udp_length d)) (co_tail d)) in Heq.
  destruct (reprocess _ c1) as [[[dl|e'] c2]|] eqn:Er; simplify_eq.
  by eapply Hre.
Qed.

(** The second pass accepts the headers it was given. *)
Lemma second_pass_no_error fuel ip udp tail c now e c' :
  wire_wf ip udp tail -> udp_checksum udp = 0 -> Cache_wf c ->
  process_datagram_inner (S fuel) (wire ip udp tail) c now false <> Some (Err e, c').
Proof.
  intros Hw Hz Hc. cbn [process_datagram_inner]. rewrite receive_udp_wire by done.
  destruct (receive_options_spec _ (wire_view_wf _ _ _ Hw)) as (r & -> & Hr).
  destruct r as [dl|[po st]]; [done|]. apply dispatch_no_error; [by apply wire_view_wf|done|apply Hr|done].
Qed.

Lemma process_datagram_error d c now e c' :
  bytes d -> Cache_wf c ->
  process_datagram d c now = Some (Err e, c') <-> receive_udp d = Some (Err e) /\ c' = c.
Proof.
  intros Hb Hc. unfold process_datagram.
  change (process_datagram_inner 2 d c now true) with
    (let! r := receive_udp d in
     match r with
     | Err e => Some (Err e, c)
     | Ok v =>
         let! r := receive_options v in
         match r with
         | inl dl => Some (Ok dl, c)
         | inr (po, st) =>
             dispatch (fun d c => process_datagram_inner 1 d c now false) v c now true po st
         end
     end).
  destruct (receive_udp_spec d Hb) as (r & -> & Hr).
  destruct r as [v|e']; [|split; [by intros [= -> ->]|by intros [[= ->] ->]]].
  destruct Hr as [Hv _]. destruct (receive_options_spec v Hv) as (r & -> & Hr).
  split; [|by intros []]. destruct r as [dl|[po st]]; [done|]. intros Hd. exfalso. revert Hd.
  apply dispatch_no_error; [done..|apply Hr|]. intros. by apply second_pass_no_error.
Qed.

(** A datagram with user data is delivered on the spot. *)
Lemma dispatch_data reprocess v c now allowed po st :
  uv_user_data v <> [] -> parsed_inv (uv_user_data v) po ->
  exists p, dispatch reprocess v c now allowed po st = Some (Ok (DeliverPayload p), c) /\
    (po_frag po = None /\ po_unsupported_unsafe_seen po = true -> pl_data p = [] /\ pl_options p = []) /\
    (~ (po_frag po = None /\ po_unsupported_unsafe_seen po = true) -> pl_data p = uv_user_data v) /\
    Forall (delivered_ok (uv_user_data v)) (pl_options p) /\ NoDup (ro_kind <$> pl_options p).
Proof.
  intros Hne (Hd & Hn & _ & _ & _ & Hff). unfold dispatch.
  assert (is_nil (uv_user_data v) = false) as -> by (by destruct (uv_user_data v)). cbn [negb].
  rewrite andb_true_r. destruct (po_frag po).
  { eexists. split; [done|]. split; [by intros []|]. split; [done|]. split; constructor. }
  cbn [fmap option_fmap option_map]. rewrite andb_false_l, orb_false_r.
  destruct (po_fragment_failed po); [by destruct Hne; apply Hff|].
  destruct (po_unsupported_unsafe_seen po) eqn:Eu; eexists; (split; [done|]); cbn [pl_data pl_options].
  - split; [done|]. split; [tauto|]. split; constructor.
  - split; [by intros []|]. by split.
Qed.
End ordinary.

(** ** Properties *)

(** C3. The receive pipeline is total: on any byte string and any cache state it
    returns, without panicking and with at most one nested pass, and it leaves the
    reassembly cache in a valid state with the same limits. *)
Theorem pipeline_total `{Crc32c} (d : list Z) (c : ReassemblyCache) (now : Z) :
  bytes d -> Cache_wf c ->
  exists r c', process_datagram d c now = Some (r, c') /\ Cache_wf c' /\ rc_limits c' = rc_limits c.
Proof. intros Hb Hc. exact (process_datagram_ok d c now Hb Hc). Qed.

(** An ordinary datagram: 3 bytes of user data, a pad, and an MDS option behind
    its OCS. *)
Definition example_wire_ip : IpRepr :=
  {| ip_src := Build_Ipv4Addr 10 0 0 1; ip_dst := Build_Ipv4Addr 10 0 0 2; ip_ihl := 5;
     ip_total_len := 40 |}.
Definition example_wire_udp : UdpHeader :=
  {| udp_src_port := 4000; udp_dst_port := 5000; udp_length := 11; udp_checksum := 0 |}.
Definition example_wire : list Z :=
  wire example_wire_ip example_wire_udp [97; 98; 99; 0; 0xf6; 0x16; 4; 4; 5; 0xdc; 0; 0].

Lemma example_wire_bytes : bytes example_wire.
Proof.
  unfold example_wire, wire. rewrite !Forall_app. split; [|split].
  - apply bytes_ip_header. repeat split; simpl; try lia; repeat constructor; simpl; unfold u8; lia.
  - apply bytes_udp_header.
  - repeat constructor; unfold u8; lia.
Qed.

Definition example_payload : Payload :=
  {| pl_data := [97; 98; 99]; pl_options := [{| ro_kind := Mds; ro_value := [5; 0xdc] |}];
     pl_option_bearing := true; pl_reports := [report Mds Success];
     pl_ocs_reports := [{| ocr_status := StValid; ocr_source := Datagram |}] |}.

Lemma pipeline_total_witness :
  @process_datagram crc32c_bitwise example_wire ReassemblyCache_new 0
    = Some (Ok (DeliverPayload example_payload), ReassemblyCache_new) /\
  exists r c', @process_datagram crc32c_bitwise example_wire ReassemblyCache_new 0 = Some (r, c') /\
    Cache_wf c'.
Proof.
  split; [vm_compute; reflexivity|].
  destruct (@pipeline_total crc32c_bitwise example_wire ReassemblyCache_new 0) as (r & c' & H1 & H2 & _).
  - apply example_wire_bytes.
  - apply with_limits_wf, ReassemblyLimits_default_wf.
  - exists r, c'. split; [exact H1|exact H2].
Defined.

(** C18. Only the headers can make reception fail: [process_datagram] returns an
    error exactly when the IP or UDP header checks or a nonzero UDP checksum
    reject the datagram, and then the cache is untouched; whatever passes has a
    matching UDP checksum or none. *)
Theorem pipeline_errors `{Crc32c} (d : list Z) (c : ReassemblyCache) (now : Z) :
  bytes d -> Cache_wf c ->
  (forall e c', process_datagram d c now = Some (Err e, c') <->
     receive_udp d = Some (Err e) /\ c' = c) /\
  (forall v, receive_udp d = Some (Ok v) -> udp_checksum (uv_udp v) <> 0 ->
     ones_complement (udp_word_total (uv_udp v) (uv_ip v) (uv_user_data v)
                      + udp_checksum (uv_udp v)) = 0xffff).
Proof.
  intros Hb Hc. split; [intros; by apply process_datagram_error|].
  intros v Hv Hne. destruct (receive_udp_spec d Hb) as (r & Hr & Hok). rewrite Hv in Hr. simplify_eq.
  destruct Hok as [Hw Hck]. rewrite <- (Hck Hne).
  apply udp_checksum_cancel; [apply Hw|apply Hw|by apply view_data_bytes|].
  rewrite view_data_len by done. lia.
Qed.

Lemma pipeline_errors_witness :
  let d := wire example_wire_ip (UdpHeader_with_checksum example_wire_udp 1) (replicate 12 0) in
  @process_datagram crc32c_bitwise d ReassemblyCache_new 0
    = Some (Err (UdpChecksumMismatch 0xc8ad 1), ReassemblyCache_new) /\
  receive_udp d = Some (Err (UdpChecksumMismatch 0xc8ad 1)).
Proof.
  assert (@process_datagram crc32c_bitwise
    (wire example_wire_ip (UdpHeader_with_checksum example_wire_udp 1) (replicate 12 0))
    ReassemblyCache_new 0 = Some (Err (UdpChecksumMismatch 0xc8ad 1), ReassemblyCache_new)) as E
    by (vm_compute; reflexivity).
  split; [exact E|].
  refine (proj1 (proj1 (proj1 (@pipeline_errors crc32c_bitwise _ _ _ _ _) _ _) E)).
  - unfold wire. rewrite !Forall_app. split; [|split].
    + apply bytes_ip_header. repeat split; simpl; try lia; repeat constructor; simpl; unfold u8; lia.
    + apply bytes_udp_header.
    + apply Forall_replicate. unfold u8; lia.
  - apply with_limits_wf, ReassemblyLimits_default_wf.
Defined.

(** C19. A datagram with user data is delivered at once and leaves the cache alone,
    whatever its surplus area holds: with its user data, except exactly when the area
    is trusted (the pad and the OCS are right, or the OCS is unused with a zero UDP
    checksum) and its options have, behind options that may be ignored and before
    anything malformed or too short, an UNSAFE option or a FRAG with a wrong length:
    then data and options are withheld.  Options come along only from a trusted area;
    they are sound, each kind once. *)
Theorem user_data_delivered `{Crc32c} (d : list Z) (c : ReassemblyCache) (now : Z) (v : udp_view) :
  bytes d -> receive_udp d = Some (Ok v) -> uv_user_data v <> [] ->
  exists p, process_datagram d c now = Some (Ok (DeliverPayload p), c) /\
    (refuses_data v -> pl_data p = [] /\ pl_options p = []) /\
    (~ refuses_data v -> pl_data p = uv_user_data v) /\
    (pl_options p <> [] -> surplus_trusted v) /\
    Forall (delivered_ok (uv_user_data v)) (pl_options p) /\ NoDup (ro_kind <$> pl_options p).
Proof.
  intros Hb Hv Hne. destruct (receive_udp_spec d Hb) as (r & Hr & Hok). rewrite Hv in Hr. simplify_eq.
  destruct Hok as [Hw _]. unfold process_datagram. cbn [process_datagram_inner]. rewrite Hv.
  assert (is_nil (uv_user_data v) = false) as Hnil by (by destruct (uv_user_data v)).
  destruct (receive_options_refusal v Hw Hnil) as (r & -> & Hr).
  destruct r as [dl|[po st]].
  - destruct Hr as [(b & st & ->) Hno]. eexists. split; [done|]. split; [done|]. split; [done|]. split; [done|].
    split; constructor.
  - destruct Hr as (Hpo & Htr & Hiff).
    destruct (dispatch_data (fun d c => process_datagram_inner 1 d c now false) v c now true po st Hne Hpo)
      as (p & Hd & H1 & H2 & Hrest).
    exists p. split; [exact Hd|]. rewrite <- Hiff. by auto.
Qed.

(** User data behind which an UNSAFE option stands, the OCS unused. *)
Definition unsafe_wire_ip : IpRepr :=
  {| ip_src := Build_Ipv4Addr 10 0 0 1; ip_dst := Build_Ipv4Addr 10 0 0 2; ip_ihl := 5; ip_total_len := 38 |}.
Definition unsafe_tail : list Z := [97; 98; 99; 0; 0; 0; 192; 2; 0; 0].

Lemma unsafe_wire_refuses : refuses_data (wire_view unsafe_wire_ip example_wire_udp unsafe_tail).
Proof.
  exists [192; 2; 0; 0], [Ok (option_ref 192 [] 2); Ok (option_ref 0 [] 0)]. split; [|split].
  - exists {| starts_at := 31; needs_pad := true; surplus_len := 7 |}, 0.
    split; [reflexivity|]. split; [vm_compute; reflexivity|]. split; [reflexivity|].
    split; [right; split; vm_compute; reflexivity|vm_compute; reflexivity].
  - apply (stream_cons 0 [192; 2; 0; 0] _ [0; 0]); [|apply stream_last, head_eol].
    apply (head_short 0 192 [] [0; 0]); done.
  - apply refusal_here; [unfold long_enough; vm_compute; discriminate|left; vm_compute; discriminate].
Qed.

Lemma user_data_delivered_witness :
  (exists p, @process_datagram crc32c_bitwise example_wire ReassemblyCache_new 0
      = Some (Ok (DeliverPayload p), ReassemblyCache_new) /\
    Forall (@delivered_ok crc32c_bitwise [97; 98; 99]) (pl_options p)) /\
  exists p, @process_datagram crc32c_bitwise (wire unsafe_wire_ip example_wire_udp unsafe_tail) ReassemblyCache_new 0
      = Some (Ok (DeliverPayload p), ReassemblyCache_new) /\ pl_data p = [].
Proof.
  split.
  - destruct (@user_data_delivered crc32c_bitwise example_wire ReassemblyCache_new 0
      (wire_view example_wire_ip example_wire_udp [97; 98; 99; 0; 0xf6; 0x16; 4; 4; 5; 0xdc; 0; 0]))
      as (p & H1 & _ & _ & _ & H2 & _).
    + apply example_wire_bytes.
    + vm_compute. reflexivity.
    + discriminate.
    + exists p. split; [exact H1|exact H2].
  - destruct (@user_data_delivered crc32c_bitwise (wire unsafe_wire_ip example_wire_udp unsafe_tail)
      ReassemblyCache_new 0 (wire_view unsafe_wire_ip example_wire_udp unsafe_tail)) as (p & H1 & H2 & _).
    + evaluate.
    + vm_compute. reflexivity.
    + discriminate.
    + exists p. split; [exact H1|]. exact (proj1 (H2 unsafe_wire_refuses)).
Defined.
