(* ===== verification/Typing.v ===== *)
(** Typing of the receive path.

    The model keeps every machine integer as a [Z], so that nothing but the proofs
    says that a value which the source stores in a [u8], [u16] or [\[u8; 4\]] fits.
    [Payload_typed] and [Partial_typed] state the source's field types, and what
    the option kinds promise of their values, for deliveries and for the reassembly
    cache; the theorem follows them through option processing, the coalescing of
    per-fragment options, reassembly and the second pass. *)

From S2P Require Import Prelude Model Kind Parse Typed Checksum Ip Udp Surplus Ocs RecvOptions.
From S2P Require Import Reassembly Pipeline.

(** ** The types *)

(** A reported option: one of the five reportable kinds, with a value of bytes of
    that kind's length. *)
Definition option_typed (o : RawOption) : Prop :=
  bytes (ro_value o) /\
  match ro_kind o with
  | Mds => len (ro_value o) = MDS_VALUE_LEN
  | Mrds => len (ro_value o) = MRDS_VALUE_LEN
  | Apc => len (ro_value o) = APC_VALUE_LEN
  | Req => len (ro_value o) = REQ_VALUE_LEN
  | Res => len (ro_value o) = RES_VALUE_LEN
  | _ => False
  end.

Definition token_typed (t : list Z) : Prop := bytes t /\ len t = 4.

Definition field {A} (P : A -> Prop) (x : option A) : Prop :=
  match x with Some a => P a | None => True end.

Record FragmentOptions_typed (fo : FragmentOptions) : Prop := {
  ft_mds : field u16 (fo_mds fo);
  ft_mrds_size : field u16 (fo_mrds_size fo);
  ft_mrds_segments : field u8 (fo_mrds_segments fo);
  ft_req : field token_typed (fo_req fo);
  ft_res : field token_typed (fo_res fo);
}.

Definition Partial_typed (p : Partial) : Prop :=
  FragmentOptions_typed (pa_fragment_options p) /\
  Forall OptionKind_wf (pa_fragment_option_failures p).

Definition Cache_typed (c : ReassemblyCache) : Prop :=
  map_Forall (fun _ p => Partial_typed p) (rc_partials c).

Definition processing_typed (pr : FragmentProcessing) : Prop :=
  Forall option_typed (fp_options pr) /\ Forall OptionKind_wf (fp_option_failures pr).

Definition Completed_typed (d : Completed) : Prop :=
  Forall option_typed (co_fragment_options d) /\ Forall OptionKind_wf (co_fragment_option_failures d).

(** The OCS reports of a delivery: the datagram's, behind the fragment set's when
    it was reassembled. *)
Definition ocs_reports_typed (l : list OcsReport) : Prop :=
  ocr_source <$> l = [Datagram] \/ ocr_source <$> l = [FragmentSet; Datagram].

Record Payload_typed (p : Payload) : Prop := {
  pt_data : bytes (pl_data p);
  pt_len : len (pl_data p) <= 65507;
  pt_options : Forall option_typed (pl_options p);
  pt_reports : Forall report_wf (pl_reports p);
  pt_ocs : ocs_reports_typed (pl_ocs_reports p);
}.

Definition Delivery_typed (d : Delivery) : Prop :=
  match d with DeliverPayload p => Payload_typed p | _ => True end.

(** ** Coalesced options *)

Lemma delivered_typed `{Crc32c} ud o : delivered_ok ud o -> option_typed o.
Proof. intros [Hb Hk]. split; [done|]. destruct (ro_kind o); try done. by rewrite Hk. Qed.

Lemma field_min (P : Z -> Prop) old x : field P old -> P x -> field P (map_or_min old x).
Proof. unfold map_or_min. destruct old as [y|]; [|done]. simpl. by destruct (Z.min_spec y x) as [[_ ->]|[_ ->]]. Qed.

(** What a decoder that satisfies the laws returns is typed. *)
Ltac decoded laws Hb H :=
  destruct (typed_decode_inv (TypedOptionLaws := laws) _ _ Hb H) as [? _].

Lemma observe_one_typed fo o fo' :
  FragmentOptions_typed fo -> bytes (ro_value o) ->
  FragmentOptions_observe_one fo o = Some fo' -> FragmentOptions_typed fo'.
Proof.
  intros [H1 H2 H3 H4 H5] Hb. unfold FragmentOptions_observe_one.
  destruct (ro_kind o); try (intros [= <-]; by split).
  - destruct (Mds_decode _) as [[x|]|] eqn:E; intros [= <-]; [|by split]. decoded Mds_laws Hb E.
    split; try done. by apply field_min.
  - destruct (Mrds_decode _) as [[x|]|] eqn:E; intros [= <-]; [|by split].
    destruct (typed_decode_inv (TypedOptionLaws := Mrds_laws) _ _ Hb E) as [[? ?] _].
    split; try done; by apply field_min.
  - destruct (Req_decode _) as [[x|]|] eqn:E; intros [= <-]; [|by split]. decoded Req_laws Hb E. by split.
  - destruct (Res_decode _) as [[x|]|] eqn:E; intros [= <-]; [|by split]. decoded Res_laws Hb E. by split.
Qed.

Lemma observe_typed os fo fo' :
  FragmentOptions_typed fo -> Forall option_typed os ->
  FragmentOptions_observe fo os = Some fo' -> FragmentOptions_typed fo'.
Proof.
  revert fo. induction os as [|o os IH]; intros fo Hf Ho; [by intros [= <-]|]. cbn.
  apply Forall_cons in Ho as [[Hb _] Ho]. destruct (FragmentOptions_observe_one fo o) as [f1|] eqn:E; [|done].
  apply IH; [|done]. by eapply observe_one_typed.
Qed.

Lemma to_raw_options_typed fo :
  FragmentOptions_typed fo -> Forall option_typed (FragmentOptions_to_raw_options fo).
Proof.
  intros [H1 H2 H3 H4 H5]. unfold FragmentOptions_to_raw_options. cbv zeta.
  assert (forall v, option_typed {| ro_kind := Mds; ro_value := u16_to_be v |}) as Hm
    by (split; [apply u16_to_be_bytes|done]).
  assert (forall v s, u8 s -> option_typed {| ro_kind := Mrds; ro_value := u16_to_be v ++ [s] |}) as Hr.
  { intros v s Hs. split; [|done]. apply Forall_app. split; [apply u16_to_be_bytes|by apply Forall_singleton]. }
  assert (forall t, token_typed t -> option_typed {| ro_kind := Req; ro_value := t |}) as Hq
    by (intros t []; by split).
  assert (forall t, token_typed t -> option_typed {| ro_kind := Res; ro_value := t |}) as Hs
    by (intros t []; by split).
  destruct (fo_mds fo), (fo_mrds_size fo), (fo_mrds_segments fo), (fo_req fo), (fo_res fo);
    cbn [app]; rewrite ?Forall_cons, ?Forall_nil; cbn [field] in *; auto 10.
Qed.

Lemma failures_observe_wf fl kinds :
  Forall OptionKind_wf kinds -> Forall OptionKind_wf fl ->
  Forall OptionKind_wf (FragmentOptionFailures_observe kinds fl).
Proof.
  revert kinds. induction fl as [|k fl IH]; intros kinds Hk Hf; [done|]. cbn.
  apply Forall_cons in Hf as [? ?]. apply IH; [|done]. case_bool_decide; [done|].
  apply Forall_app. split; [done|by apply Forall_singleton].
Qed.

(** ** The cache *)

Lemma Partial_new_typed now : Partial_typed (Partial_new now).
Proof. split; [by split|constructor]. Qed.

Lemma accepted_typed p f data o fl ocs p' :
  Partial_typed p -> Forall option_typed o -> Forall OptionKind_wf fl ->
  accepted p f data o fl ocs p' -> Partial_typed p'.
Proof.
  intros [Hp Hk] Ho Hf Ha. split; [by eapply observe_typed, ac_options|].
  rewrite (ac_failures _ _ _ _ _ _ _ Ha). by apply failures_observe_wf.
Qed.

Lemma gc_typed c now : Cache_typed c -> Cache_typed (ReassemblyCache_gc c now).
Proof. intros Hc k p [Hk _]%gc_lookup. by apply (Hc k). Qed.

Lemma discard_typed c k : Cache_typed c -> Cache_typed (ReassemblyCache_discard c k).
Proof. intros Hc. by apply map_Forall_delete. Qed.

Lemma partial_at_typed c k now : Cache_typed c -> Partial_typed (partial_at c k now).
Proof.
  intros Hc. unfold partial_at. destruct (rc_partials (ReassemblyCache_gc c now) !! k) eqn:E; simpl.
  - by apply (gc_typed c now Hc k).
  - apply Partial_new_typed.
Qed.

(** Only [Incomplete] stores something under the key. *)
Lemma cache_insert_not_stored c k frag data pr now o c' p :
  Cache_wf c -> u16 (frag_offset frag) -> bytes data ->
  ReassemblyCache_insert_with_options_and_failures c k frag data pr now = Some (o, c') ->
  rc_partials c' !! k = Some p -> o = Incomplete.
Proof.
  intros Hw Hu Hb Hi Hk.
  destruct (cache_insert_spec c k frag data pr now Hw Hu Hb) as [[reason He]|(f & _ & _ & Hr)].
  { rewrite Hi in He. injection He as -> ->. simpl in Hk. by rewrite lookup_delete_eq in Hk. }
  rewrite Hi in Hr. set (c1 := ReassemblyCache_gc c now) in *.
  unfold ReassemblyCache_insert_partial in Hr.
  destruct (rc_partials c1 !! k) as [q|] eqn:Eq; [|destruct (_ <=? _)]; symmetry in Hr.
  2:{ destruct (ReassemblyCache_insert_without_retaining _ _ _ _ _); simplify_eq. }
  all: destruct (Partial_insert _ _ _ _ _ _ _) as [[[] q']|]; simplify_eq; try done;
    simpl in Hk; by rewrite lookup_delete_eq in Hk.
Qed.

Lemma cache_insert_typed c k frag data pr now o c' :
  Cache_wf c -> Cache_typed c -> u16 (frag_offset frag) -> bytes data -> processing_typed pr ->
  ReassemblyCache_insert_with_options_and_failures c k frag data pr now = Some (o, c') ->
  Cache_typed c' /\ match o with Complete d => Completed_typed d | _ => True end.
Proof.
  intros Hw Ht Hu Hb [Ho Hf] Hi. pose proof (partial_at_typed c k now Ht) as Hp. split.
  - intros k' p Hk. destruct (decide (k' = k)) as [->|Hne].
    + pose proof (cache_insert_not_stored _ _ _ _ _ _ _ _ _ Hw Hu Hb Hi Hk) as ->.
      destruct (cache_insert_incomplete _ _ _ _ _ _ _ Hw Hu Hb Hi) as (f & p' & _ & Hok & _ & Hpi & ->).
      simpl in Hk. rewrite lookup_insert_eq in Hk. injection Hk as ->.
      pose proof (Partial_insert_case _ _ f data (fp_options pr) (fp_option_failures pr)
        (fp_ocs_nonzero pr) (cw_limits _ Hw) (partial_at_wf c k now Hw) Hok) as Hc.
      rewrite Hpi in Hc. inversion Hc; subst; [done|by eapply accepted_typed].
    + destruct (cache_insert_wf c k frag data pr now Hw Hu Hb) as (o2 & c2 & Hi2 & _ & _ & Hsame).
      rewrite Hi in Hi2. injection Hi2 as <- <-. rewrite Hsame in Hk by done.
      by apply (gc_typed c now Ht k').
  - destruct o as [|d|]; [done| |done].
    destruct (cache_insert_complete _ _ _ _ _ _ _ _ Hw Hu Hb Hi) as (f & p' & _ & _ & Ha & Hw' & Hc & _).
    destruct (Partial_complete_inv _ _ _ Hw' Hc) as (ul & _ & _ & _ & _ & -> & _).
    destruct (accepted_typed _ _ _ _ _ _ _ Hp Ho Hf Ha). split; [by apply to_raw_options_typed|done].
Qed.

(** ** The pipeline *)

Lemma fragment_option_failures_wf reports :
  Forall report_wf reports -> Forall OptionKind_wf (fragment_option_failures reports).
Proof.
  unfold fragment_option_failures. generalize (Forall_nil_2 OptionKind_wf). generalize (@nil OptionKind).
  induction reports as [|r rs IH]; intros fl Hf Hr; [done|]. cbn.
  apply Forall_cons in Hr as [Hr1 Hr]. destruct (_ && _); apply IH; try done.
  apply Forall_app. split; [done|by apply Forall_singleton].
Qed.

Lemma option_typed_kind o : option_typed o -> OptionKind_wf (ro_kind o).
Proof. unfold OptionKind_wf. intros [_ H]. destruct (ro_kind o); try done. Qed.

Lemma merge_reports_wf os reports :
  Forall option_typed os -> Forall report_wf reports -> Forall report_wf (merge_reports_loop reports os).
Proof.
  revert reports. induction os as [|o os IH]; intros rs Ho Hr; [done|]. cbn.
  apply Forall_cons in Ho as [Ho1 Ho]. destruct (existsb _ _); apply IH; try done.
  apply Forall_app. split; [done|]. apply Forall_singleton. by apply option_typed_kind.
Qed.

(** What a pass delivers; the second pass, which may not reassemble, reports the
    OCS of the datagram alone. *)
Definition pass_typed (allowed : bool) (d : Delivery) : Prop :=
  Delivery_typed d /\
  match d with
  | DeliverPayload p => allowed = false -> ocr_source <$> pl_ocs_reports p = [Datagram]
  | _ => True
  end.

Lemma merge_delivery_typed done d :
  Completed_typed done -> pass_typed false d -> pass_typed true (merge_delivery done d).
Proof.
  intros [Ho Hf] [Hd Hs]. destruct d as [p| |]; try done. destruct Hd as [H1 H2 H3 H4 _].
  split; [|done]. split; try done.
  - apply Forall_app. split; [|done]. apply Forall_forall.
    intros o [_ Hin]%list_elem_of_filter. by eapply Forall_forall in Ho.
  - apply Forall_app. split; [|done]. apply merge_reports_wf; [done|]. by apply Forall_fmap.
  - right. cbn [merge_delivery pl_ocs_reports]. rewrite fmap_cons. by rewrite Hs.
Qed.

Section typing.
Context `{Crc32c}.

Definition outcome_typed (allowed : bool) (o : outcome) : Prop :=
  forall r c', o = Some (r, c') ->
    Cache_typed c' /\ match r with Ok d => pass_typed allowed d | Err _ => True end.

Lemma outcome_typed_Ok allowed d c : Cache_typed c -> pass_typed allowed d -> outcome_typed allowed (Some (Ok d, c)).
Proof. intros Hc Hd r c' [= <- <-]. by split. Qed.

Lemma view_data_bound v : view_wf v -> len (uv_user_data v) <= 65507.
Proof.
  intros Hv. rewrite view_data_len by done. pose proof (vw_length _ Hv). pose proof (vw_max _ Hv).
  pose proof (vw_at _ Hv). pose proof (vw_end _ Hv). pose proof (header_len_bounds _ (vw_ip _ Hv)). lia.
Qed.

(** A delivery of the user data, or of none, with the processed options. *)
Lemma payload_typed v data os rs b st allowed :
  view_wf v -> data = uv_user_data v \/ data = [] -> Forall option_typed os -> Forall report_wf rs ->
  pass_typed allowed (DeliverPayload
    {| pl_data := data; pl_options := os; pl_option_bearing := b; pl_reports := rs;
       pl_ocs_reports := [{| ocr_status := st; ocr_source := Datagram |}] |}).
Proof.
  intros Hv Hd Ho Hr. split; [|done]. split; try done; simpl; [| |by left].
  - destruct Hd as [->| ->]; [by apply view_data_bytes|constructor].
  - destruct Hd as [->| ->]; [by apply view_data_bound|done].
Qed.

Definition reprocess_typed (reprocess : list Z -> ReassemblyCache -> outcome) : Prop :=
  forall d c, bytes d -> Cache_wf c -> Cache_typed c -> outcome_typed false (reprocess d c).

Lemma receive_fragment_typed reprocess v c now allowed frag po st :
  view_wf v -> Cache_wf c -> Cache_typed c -> Frag_wf frag -> parsed_inv (uv_user_data v) po ->
  (allowed = true -> reprocess_typed reprocess) ->
  outcome_typed allowed (receive_fragment reprocess v c now allowed frag po st).
Proof.
  intros Hv Hc Ht Hf Hpo Hre. unfold receive_fragment. destruct allowed; cbn [negb];
    [|by apply outcome_typed_Ok].
  destruct (slice (uv_datagram v) _ _) as [data|] eqn:Es;
    [|apply outcome_typed_Ok; [by apply discard_typed|done]].
  assert (bytes data) as Hd by (apply slice_inv in Es as (-> & _); apply Forall_sub, Hv).
  set (pr := Build_FragmentProcessing _ _ _).
  assert (processing_typed pr) as Hpr.
  { destruct Hpo as (Ho & _ & _ & _ & Hr & _).
    split; [by apply (Forall_impl _ _ _ Ho), delivered_typed|by apply fragment_option_failures_wf]. }
  destruct (ReassemblyCache_insert_with_options_and_failures _ _ _ _ pr _) as [[o c1]|] eqn:Hi; [|done].
  destruct (cache_insert_typed _ _ _ _ _ _ _ _ Hc Ht (proj1 (proj2 (proj2 Hf))) Hd Hpr Hi) as [Ht1 Hdone].
  destruct o as [|dn|reason]; [by apply outcome_typed_Ok| |by apply outcome_typed_Ok].
  destruct (reassembled_completed _ _ _ _ _ _ _ _ Hc (proj1 (proj2 (proj2 Hf))) Hd Hi) as (Hul & Hb & Hc1).
  rewrite reassembled_datagram_spec by lia.
  destruct (Z.leb_spec (28 + len (co_tail dn)) 65535); [|by apply outcome_typed_Ok].
  pose proof (reassembled_wire_wf v (co_udp_length dn) (co_tail dn) Hv Hul ltac:(lia) Hb) as Hwire.
  pose proof (Hre eq_refl (reassembled_bytes (uv_ip v) (uv_udp v) (co_udp_length dn) (co_tail dn)) c1
    (vw_bytes _ (wire_view_wf _ _ _ Hwire)) Hc1 Ht1) as Hout.
  destruct (reprocess _ c1) as [[[dl|e] c2]|]; [| |done];
    destruct (Hout _ _ eq_refl) as [Ht2 Hdl]; intros r c' [= <- <-]; [|done].
  split; [done|]. by apply merge_delivery_typed.
Qed.

Lemma dispatch_typed reprocess v c now allowed po st :
  view_wf v -> Cache_wf c -> Cache_typed c -> parsed_inv (uv_user_data v) po ->
  (allowed = true -> reprocess_typed reprocess) ->
  outcome_typed allowed (dispatch reprocess v c now allowed po st).
Proof.
  intros Hv Hc Ht Hpo Hre. pose proof Hpo as (Ho & _ & _ & Hf & Hr & _). unfold dispatch.
  destruct (_ && negb _); [apply outcome_typed_Ok; [done|]; apply (payload_typed v); auto|].
  set (ef := if is_nil (uv_user_data v) then po_frag po else None).
  destruct (po_fragment_failed po || _).
  { apply outcome_typed_Ok; [|done]. destruct (_ <$> ef); [by apply discard_typed|done]. }
  destruct (po_unsupported_unsafe_seen po);
    [apply outcome_typed_Ok; [done|]; apply (payload_typed v); auto|].
  destruct ef as [frag|] eqn:Ee.
  - apply receive_fragment_typed; try done. unfold ef in Ee. destruct (is_nil _); [|done]. by rewrite Ee in Hf.
  - apply outcome_typed_Ok; [done|]. apply (payload_typed v); auto.
    by apply (Forall_impl _ _ _ Ho), delivered_typed.
Qed.

Lemma process_inner_typed fuel d c now allowed :
  bytes d -> Cache_wf c -> Cache_typed c ->
  (allowed = true -> reprocess_typed (fun d c => process_datagram_inner fuel d c now false)) ->
  outcome_typed allowed (process_datagram_inner (S fuel) d c now allowed).
Proof.
  intros Hb Hc Ht Hre. cbn [process_datagram_inner].
  destruct (receive_udp_spec d Hb) as (r & -> & Hr). destruct r as [v|e]; [|by intros ? ? [= <- <-]].
  destruct Hr as [Hv _]. destruct (receive_options_spec v Hv) as (r & -> & Hr).
  destruct r as [dl|[po st]]; [|apply dispatch_typed; [done..|apply Hr|done]].
  destruct Hr as (b & st & ->). apply outcome_typed_Ok; [done|]. apply (payload_typed v); auto.
Qed.

Lemma process_datagram_typed d c now :
  bytes d -> Cache_wf c -> Cache_typed c -> outcome_typed true (process_datagram d c now).
Proof.
  intros. apply process_inner_typed; [done..|]. intros _ d' c' ? ? ?. by apply process_inner_typed.
Qed.
End typing.

(** ** Runs *)

Lemma empty_typed L : Cache_typed (ReassemblyCache_with_limits L).
Proof. apply map_Forall_empty. Qed.

Definition result_typed (r : result Delivery RecvError) : Prop :=
  match r with
  | Ok d => Delivery_typed d
  | Err (UdpChecksumMismatch expected actual) => u16 expected /\ u16 actual
  | Err (RecvHeader _ | UdpLengthExceedsIpPayload _ _) => True
  | Err _ => False
  end.

Lemma process_step_typed `{Crc32c} d c now :
  bytes d -> Cache_wf c -> Cache_typed c ->
  exists r c', process_datagram d c now = Some (r, c') /\ result_typed r /\ Cache_wf c' /\ Cache_typed c' /\
    rc_limits c' = rc_limits c.
Proof.
  intros Hb Hc Ht. destruct (process_datagram_ok d c now Hb Hc) as (r & c' & Hp & Hc' & HL).
  exists r, c'. split; [done|]. destruct (process_datagram_typed d c now Hb Hc Ht r c' Hp) as [Ht' Hr].
  split; [|done]. destruct r as [dl|e]; [apply Hr|].
  apply process_datagram_error in Hp as [Hu _]; [|done..].
  destruct (receive_udp_spec d Hb) as (r & Hu' & He). rewrite Hu in Hu'. by injection Hu' as <-.
Qed.

Lemma process_all_typed `{Crc32c} arrivals : forall c,
  Cache_wf c -> Cache_typed c -> Forall (fun a => bytes a.2) arrivals ->
  exists rs c', process_all c arrivals = Some (rs, c') /\ length rs = length arrivals /\
    Forall result_typed rs /\ Cache_wf c' /\ Cache_typed c' /\ rc_limits c' = rc_limits c.
Proof.
  induction arrivals as [|[now d] l IH]; intros c Hc Ht Hb; [by exists [], c|].
  apply Forall_cons in Hb as [Hb1 Hb]. cbn [process_all].
  destruct (process_step_typed d c now Hb1 Hc Ht) as (r & c1 & -> & Hr & Hc1 & Ht1 & HL1).
  destruct (IH c1 Hc1 Ht1 Hb) as (rs & c2 & -> & Hl & Hrs & Hc2 & Ht2 & HL2).
  exists (r :: rs), c2. split; [done|]. split; [simpl; lia|]. split; [by constructor|]. by rewrite HL2.
Qed.

(** ** Property *)

(** C28. The receive path is type safe along every run: whatever datagrams arrive in
    whatever order, each one gets an answer; a delivered payload holds bytes, at
    most 65507 of them, options of the five reportable kinds with values of exactly
    their kind's length, reports on kinds that fit a byte, and the OCS report of the
    datagram, preceded by the fragment set's when it was reassembled; an error is a
    header, length or checksum error with 16-bit checksums; and the cache only ever
    holds coalesced options whose fields fit their source types. *)
Theorem receive_type_safety `{Crc32c} (L : ReassemblyLimits) (arrivals : list (Z * list Z)) :
  ReassemblyLimits_wf L -> Forall (fun a => bytes a.2) arrivals ->
  exists rs c', process_all (ReassemblyCache_with_limits L) arrivals = Some (rs, c') /\
    length rs = length arrivals /\ Forall result_typed rs /\ Cache_typed c'.
Proof.
  intros HL Hb.
  destruct (process_all_typed arrivals _ (with_limits_wf _ HL) (empty_typed L) Hb)
    as (rs & c' & Hp & Hn & Hr & _ & Ht & _). by exists rs, c'.
Qed.

Lemma receive_type_safety_witness :
  let arrivals := [(0, example_wire); (1, [0x45; 0])] in
  exists rs c', @process_all crc32c_bitwise (ReassemblyCache_with_limits ReassemblyLimits_default) arrivals
      = Some (rs, c') /\
    rs = [Ok (DeliverPayload example_payload); Err (RecvHeader (IpTruncated 20 2))] /\
    Forall result_typed rs.
Proof.
  cbv zeta.
  destruct (@receive_type_safety crc32c_bitwise ReassemblyLimits_default [(0, example_wire); (1, [0x45; 0])])
    as (rs & c' & Hp & _ & Hr & _).
  - apply ReassemblyLimits_default_wf.
  - constructor; [apply example_wire_bytes|]. constructor; [|constructor]. evaluate.
  - exists rs, c'. split; [exact Hp|]. split; [|exact Hr]. vm_compute in Hp. injection Hp as <- _. reflexivity.
Defined.
