(* ===== verification/Socket.v ===== *)
(** The raw-socket layer (src/src/socket/send.rs, src/src/socket/recv.rs).

    Pure parts: [assemble_datagram] builds one IPv4 datagram, [filter_datagram]
    is the demultiplexing decision.  The receive loop [recv_with_deadline] talks
    to the kernel; what the kernel and the clock answer in each iteration is a
    [Tick], and the loop's own calls of [set_read_timeout] are recorded in a
    trace.  Opening sockets, [setsockopt], [bind] and [sendto] are system calls
    whose answers are arguments; the library's part is their order, the error
    mapping and what is kept. *)

From S2P Require Import Prelude Model Kind Parse Typed Checksum Ip Udp Surplus Ocs.

(** ** Sending *)

Definition assemble_datagram (src dst : Ipv4Addr) (src_port dst_port : Z)
    (user_data options_body : list Z) : option (list Z) :=
  ensure (is_nil options_body || (LENGTH_OCS <=? len options_body));
  let! udp_len := checked_add UDP_HEADER_LEN (len user_data) in
  let! udp_len := u16_try_from udp_len in
  let natural_start := LENGTH_UDP_HEADER + 20 + len user_data in
  let needs_pad := negb (is_nil options_body) && (natural_start mod 2 =? 1) in
  let! surplus_len :=
    if is_nil options_body then Some 0
    else checked_add (usize_of_bool needs_pad) (len options_body) in
  let! surplus_len_u16 := u16_try_from surplus_len in
  let! total_len :=
    match checked_add 20 udp_len with
    | Some n => checked_add n surplus_len
    | None => None
    end in
  let! total_len_u16 := u16_try_from total_len in
  let ip := {| ip_src := src; ip_dst := dst; ip_ihl := 5; ip_total_len := total_len_u16 |} in
  let datagram := zeros total_len in
  let! part := slice datagram 0 20 in
  let! part := IpRepr_write ip part in
  let! datagram := copy_at datagram 0 part in
  let udp_header := {| udp_src_port := src_port; udp_dst_port := dst_port;
                       udp_length := udp_len; udp_checksum := 0 |} in
  let! checksum := UdpHeader_compute_checksum udp_header ip user_data in
  let udp_header := UdpHeader_with_checksum udp_header checksum in
  let! part := slice datagram 20 (20 + UDP_HEADER_LEN) in
  let! part := UdpHeader_write udp_header part in
  let! datagram := copy_at datagram 20 part in
  let user_at := 20 + UDP_HEADER_LEN in
  let! datagram := copy_at datagram user_at user_data in
  let ocs_at := natural_start + usize_of_bool needs_pad in
  let! datagram :=
    if is_nil options_body then Some datagram
    else
      let! datagram := copy_at datagram ocs_at options_body in
      let! part := slice datagram ocs_at (ocs_at + len options_body) in
      let! part := ocs_compute part surplus_len_u16 in
      copy_at datagram ocs_at part in
  ensure (len datagram =? ip_total_len ip);
  ensure (IpRepr_transport_payload_len ip =? udp_len + surplus_len);
  ensure (if is_nil options_body then udp_len =? IpRepr_transport_payload_len ip
          else udp_len <? IpRepr_transport_payload_len ip);
  Some datagram.

(** [ret] is what [setsockopt(IP_HDRINCL)] returned, [last_os_error] its errno. *)
Definition set_hdrincl (ret : Z) (last_os_error : IoError) : result unit IoError :=
  if ret =? 0 then Ok tt else Err last_os_error.

(** The raw socket itself carries no state of the program: a sender is [tt]. *)
Definition RawSender_new (socket : result unit IoError) (ret : Z) (last_os_error : IoError) :
    result unit SocketError :=
  let* _ := map_err map_socket_error socket in
  let* _ := map_err map_socket_error (set_hdrincl ret last_os_error) in
  Ok tt.

(** [send_to] answers a datagram for an address and a port; the port is always 0. *)
Definition RawSender_send (send_to : Ipv4Addr -> Z -> list Z -> result Z IoError) (dst : Ipv4Addr)
    (datagram : list Z) : result Z SocketError :=
  map_err map_socket_error (send_to dst 0 datagram).

(** ** Receiving *)

Inductive FilterVerdict : Type :=
| Deliver (n : Z)
| Filtered.

Definition filter_datagram (data : list Z) (dst_port : Z) (src_port : option Z)
    (own_src : option Ipv4Addr) : option FilterVerdict :=
  let! parsed := IpRepr_parse data in
  match parsed with
  | Err _ => Some Filtered
  | Ok (ip, udp_at) =>
      let! udp_bytes := slice data udp_at (len data) in
      let! parsed := UdpHeader_parse udp_bytes in
      match parsed with
      | Err _ => Some Filtered
      | Ok udp =>
          if decide (own_src = Some (ip_src ip)) then Some Filtered
          else if negb (udp_dst_port udp =? dst_port) then Some Filtered
          else if match src_port with
                  | Some src_port => negb (udp_src_port udp =? src_port)
                  | None => false
                  end then Some Filtered
          else Some (Deliver (ip_total_len ip))
      end
  end.

Definition MIN_READ_TIMEOUT : Z := 1000000.

Record RawReceiver : Type := {
  rr_dst_port : Z;
  rr_src_port : option Z;
  rr_own_src : option Ipv4Addr;
}.

(** [socket] and [icmp_sink] are the answers of opening the raw socket and of binding
    the UDP socket that keeps the kernel from answering with ICMP. *)
Definition RawReceiver_bind (socket icmp_sink : result unit IoError) (dst_port : Z) (src_port : option Z)
    (own_src : option Ipv4Addr) : result RawReceiver SocketError :=
  let* _ := map_err map_socket_error socket in
  let* _ := map_err map_socket_error icmp_sink in
  Ok {| rr_dst_port := dst_port; rr_src_port := src_port; rr_own_src := own_src |}.

Definition RawReceiver_set_read_timeout (answer : result unit IoError) : result unit SocketError :=
  map_err map_socket_error answer.

(** What one iteration of the loop observes: the clock, the result of
    [set_read_timeout], and the bytes or the error of [recv]. *)
Record Tick : Type := {
  tk_now : Z;
  tk_set : result unit IoError;
  tk_recv : result (list Z) IoError;
}.

(** The OS errors the standard library maps to [WouldBlock] and [TimedOut]. *)
Definition EAGAIN : Z := 11.
Definition ETIMEDOUT : Z := 110.
Definition is_timeout (e : IoError) : bool :=
  match raw_os_error e with
  | Some code => (code =? EAGAIN) || (code =? ETIMEDOUT)
  | None => false
  end.

(** A run of the loop: still blocked when the ticks are used up, or returned. *)
Inductive recv_run : Type :=
| Blocked
| Returned (r : result (option (list Z)) SocketError).

(** The loop, with the trace of timeouts it sets; [None] is a panic. *)
Fixpoint recv_with_deadline (self : RawReceiver) (deadline : option Z) (ticks : list Tick) :
    option (recv_run * list (option Z)) :=
  match ticks with
  | [] => Some (Blocked, [])
  | t :: ticks' =>
      let armed :=
        match deadline with
        | None => inr []
        | Some deadline =>
            let remaining := Z.max 0 (deadline - tk_now t) in
            if remaining =? 0 then inl (Returned (Ok None), [])
            else
              let trace := [Some (Z.max remaining MIN_READ_TIMEOUT)] in
              match tk_set t with
              | Ok _ => inr trace
              | Err e => inl (Returned (Err (map_socket_error e)), trace)
              end
        end in
      match armed with
      | inl early => Some early
      | inr trace =>
          match tk_recv t with
          | Err e =>
              if is_timeout e then Some (Returned (Ok None), trace)
              else Some (Returned (Err (map_socket_error e)), trace)
          | Ok data =>
              let! verdict := filter_datagram data (rr_dst_port self) (rr_src_port self)
                                (rr_own_src self) in
              match verdict with
              | Deliver n => let! d := slice data 0 n in Some (Returned (Ok (Some d)), trace)
              | Filtered =>
                  let! (r, trace') := recv_with_deadline self deadline ticks' in
                  Some (r, trace ++ trace')
              end
          end
      end
  end.

(** [recv]: [configured] is what [read_timeout] answered, [now] the clock at
    entry, [instant_max] the last instant the clock can represent, [restore] the
    answer to the final [set_read_timeout]. *)
Definition RawReceiver_recv (self : RawReceiver) (configured : result (option Z) IoError)
    (now instant_max : Z) (ticks : list Tick) (restore : result unit IoError) : option (recv_run * list (option Z)) :=
  match configured with
  | Err e => Some (Returned (Err (map_socket_error e)), [])
  | Ok None => recv_with_deadline self None ticks
  | Ok (Some timeout) =>
      if instant_max <? now + timeout then recv_with_deadline self None ticks else
      let! (run, trace) := recv_with_deadline self (Some (now + timeout)) ticks in
      match run with
      | Blocked => Some (Blocked, trace)
      | Returned result =>
          let trace := trace ++ [Some timeout] in
          let restored := map_err map_socket_error restore in
          Some (Returned
            match result, restored with
            | Ok value, Ok _ => Ok value
            | Err error, _ => Err error
            | Ok _, Err error => Err error
            end, trace)
      end
  end.

(** ** What [assemble_datagram] builds *)

Definition assembled_pad (user_data options_body : list Z) : list Z :=
  if negb (is_nil options_body) && (len user_data mod 2 =? 1) then [0] else [].

(** The surplus length, pad included. *)
Definition assembled_surplus (user_data options_body : list Z) : Z :=
  len (assembled_pad user_data options_body) + len options_body.

Definition assembled_body (options_body : list Z) (n : Z) : list Z :=
  match options_body with
  | _ :: _ :: rest => u16_to_be (ocs_value rest n) ++ rest
  | _ => []
  end.

Definition assembled_tail (user_data options_body : list Z) : list Z :=
  user_data ++ assembled_pad user_data options_body
    ++ assembled_body options_body (assembled_surplus user_data options_body).

Definition assembled_ip (src dst : Ipv4Addr) (user_data options_body : list Z) : IpRepr :=
  {| ip_src := src; ip_dst := dst; ip_ihl := 5;
     ip_total_len := 28 + len user_data + assembled_surplus user_data options_body |}.

Definition assembled_udp (src dst : Ipv4Addr) (src_port dst_port : Z)
    (user_data options_body : list Z) : UdpHeader :=
  let h := {| udp_src_port := src_port; udp_dst_port := dst_port;
              udp_length := 8 + len user_data; udp_checksum := 0 |} in
  UdpHeader_with_checksum h
    (udp_checksum_value h (assembled_ip src dst user_data options_body) user_data).

(** ** Lemmas *)

Lemma len_assembled_body body n : len body <> 1 -> len (assembled_body body n) = len body.
Proof.
  intros Hl. destruct body as [|a [|b rest]]; [done|done|]. simpl. by rewrite !len_cons.
Qed.

Lemma assembled_pad_zeros data body :
  assembled_pad data body =
  zeros (usize_of_bool (negb (is_nil body) && ((28 + len data) mod 2 =? 1))).
Proof.
  unfold assembled_pad, usize_of_bool.
  replace ((28 + len data) mod 2) with (len data mod 2) by dlia. by destruct (_ && _).
Qed.

Lemma len_assembled_pad data body : 0 <= len (assembled_pad data body) <= 1.
Proof. unfold assembled_pad. destruct (_ && _); [done|]. rewrite (@len_nil Z). lia. Qed.

(** The OCS patch at the end of the datagram. *)
Lemma patch_ocs pre body n :
  bytes body -> u16 n -> 2 <= len body ->
  (let! d := copy_at (pre ++ zeros (len body)) (len pre) body in
   let! part := slice d (len pre) (len pre + len body) in
   let! part := ocs_compute part n in
   copy_at d (len pre) part) = Some (pre ++ assembled_body body n).
Proof.
  intros Hb Hn Hl. pose proof (len_nonneg pre).
  pose proof (copy_at_middle pre (zeros (len body)) [] body (len pre) eq_refl) as Hc.
  rewrite !app_nil_r in Hc. rewrite Hc; [|rewrite len_zeros; lia].
  rewrite slice_Some by (rewrite ?len_app; lia). rewrite sub_suffix by done.
  destruct body as [|a [|b rest]]; [len_lia..|]. decompose_Forall_hyps.
  rewrite ocs_compute_spec by done. cbn [assembled_body].
  pose proof (copy_at_middle pre (a :: b :: rest) [] (u16_to_be (ocs_value rest n) ++ rest) (len pre)
    eq_refl) as Hc2. rewrite !app_nil_r in Hc2. apply Hc2.
  rewrite len_app, !len_cons. change (len (u16_to_be (ocs_value rest n))) with 2. lia.
Qed.

(** The conditional patch of the source. *)
Lemma patch_body pre body n :
  bytes body -> u16 n -> len body <> 1 ->
  (if is_nil body then Some (pre ++ zeros (len body)) else
   let! d := copy_at (pre ++ zeros (len body)) (len pre) body in
   let! part := slice d (len pre) (len pre + len body) in
   let! part := ocs_compute part n in
   copy_at d (len pre) part) = Some (pre ++ assembled_body body n).
Proof.
  intros Hb Hn Hl. destruct (is_nil body) eqn:En.
  - by apply is_nil_true in En as ->.
  - apply patch_ocs; [done..|]. destruct body as [|a [|b r]]; [done|done|len_lia].
Qed.

Lemma assembled_surplus_bounds user_data options_body :
  0 <= len options_body <= assembled_surplus user_data options_body /\
  (options_body = [] -> assembled_surplus user_data options_body = 0).
Proof.
  unfold assembled_surplus. pose proof (len_assembled_pad user_data options_body).
  pose proof (len_nonneg options_body). split; [lia|]. by intros ->.
Qed.

Section assemble.
Context (src dst : Ipv4Addr) (src_port dst_port : Z) (user_data options_body : list Z).

Definition assemble_wf : Prop :=
  Ipv4Addr_wf src /\ Ipv4Addr_wf dst /\ u16 src_port /\ u16 dst_port /\
  bytes user_data /\ bytes options_body /\ len options_body <> 1 /\
  28 + len user_data + assembled_surplus user_data options_body <= 65535.

Let ip := assembled_ip src dst user_data options_body.
Let udp := assembled_udp src dst src_port dst_port user_data options_body.

Lemma assembled_ip_wf : assemble_wf -> IpRepr_wf ip.
Proof.
  intros (Hs & Hd & _ & _ & _ & _ & _ & Hm). destruct (assembled_surplus_bounds user_data options_body) as [? _].
  pose proof (len_nonneg user_data). split; [done|]. split; [done|]. split; [simpl; lia|].
  unfold u16. simpl. lia.
Qed.

Lemma assembled_udp_wf : assemble_wf -> UdpHeader_wf udp.
Proof.
  intros (_ & _ & Hsp & Hdp & _ & _ & _ & Hm). destruct (assembled_surplus_bounds user_data options_body) as [? _].
  pose proof (len_nonneg user_data). split; [done|]. split; [done|].
  split; [unfold u16; simpl; lia|]. apply udp_checksum_value_u16.
Qed.

Lemma len_assembled_tail :
  len options_body <> 1 ->
  len (assembled_tail user_data options_body) =
  len user_data + assembled_surplus user_data options_body.
Proof.
  intros Hb. unfold assembled_tail. rewrite !len_app, len_assembled_body by done. done.
Qed.

Lemma assembled_tail_bytes : assemble_wf -> bytes (assembled_tail user_data options_body).
Proof.
  intros (_ & _ & _ & _ & Hu & Hb & _). unfold assembled_tail. rewrite !Forall_app.
  split; [done|]. split; [rewrite assembled_pad_zeros; apply bytes_zeros|].
  destruct options_body as [|a [|b rest]]; [constructor..|]. decompose_Forall_hyps. simpl.
  apply (Forall_app _ (u16_to_be _)). auto with rust.
Qed.

(** Pad and surplus length as the code computes them. *)
Definition pad_needed : bool := negb (is_nil options_body) && ((28 + len user_data) mod 2 =? 1).

Lemma pad_flag : usize_of_bool pad_needed = len (assembled_pad user_data options_body).
Proof. rewrite assembled_pad_zeros. fold pad_needed. by destruct pad_needed. Qed.

Lemma surplus_len_checked :
  assembled_surplus user_data options_body <= 65535 ->
  (if is_nil options_body then Some 0 else checked_add (usize_of_bool pad_needed) (len options_body))
  = Some (assembled_surplus user_data options_body).
Proof.
  intros Hm. destruct (assembled_surplus_bounds user_data options_body) as [_ Hz].
  destruct (is_nil options_body) eqn:En; [apply is_nil_true in En; by rewrite Hz|].
  unfold checked_add, USIZE_MAX. rewrite pad_flag. fold (assembled_surplus user_data options_body).
  by destruct (Z.leb_spec (assembled_surplus user_data options_body) 18446744073709551615); [|lia].
Qed.

(** The zeroed buffer, cut where the code writes. *)
Lemma zeros_layout :
  zeros (28 + len user_data + assembled_surplus user_data options_body) =
  zeros 20 ++ zeros 8 ++ zeros (len user_data) ++ zeros (usize_of_bool pad_needed) ++ zeros (len options_body).
Proof.
  pose proof (len_nonneg user_data). pose proof (len_nonneg options_body).
  unfold assembled_surplus. rewrite <- pad_flag.
  rewrite <- !zeros_app; [f_equal; lia|destruct pad_needed; simpl; lia..].
Qed.

(** The two closing length assertions. *)
Lemma payload_len_asserts :
  IpRepr_transport_payload_len ip
    = 8 + len user_data + assembled_surplus user_data options_body /\
  (if is_nil options_body
   then 8 + len user_data =? 8 + len user_data + assembled_surplus user_data options_body
   else 8 + len user_data <? 8 + len user_data + assembled_surplus user_data options_body) = true.
Proof.
  destruct (assembled_surplus_bounds user_data options_body) as [Hsb Hz].
  pose proof (len_nonneg user_data). split.
  - unfold IpRepr_transport_payload_len, saturating_sub. simpl. lia.
  - destruct (is_nil options_body) eqn:En.
    + apply is_nil_true in En. rewrite (Hz En). apply Z.eqb_eq. lia.
    + apply Z.ltb_lt. destruct options_body as [|x r]; [done|]. rewrite len_cons in Hsb.
      pose proof (len_nonneg r). lia.
Qed.

Lemma assemble_spec :
  assemble_wf ->
  assemble_datagram src dst src_port dst_port user_data options_body
  = Some (ip_header ip ++ udp_header udp ++ assembled_tail user_data options_body).
Proof.
  intros Hw. pose proof (assembled_ip_wf Hw) as Hip. pose proof (assembled_udp_wf Hw) as Hudp.
  destruct Hw as (Hs & Hd & Hsp & Hdp & Hu & Hb & Hb1 & Hm).
  destruct (assembled_surplus_bounds user_data options_body) as [Hsb _].
  pose proof (len_nonneg user_data) as Hu0. pose proof pad_flag as Hnp.
  destruct payload_len_asserts as [Htp Has]. pose proof zeros_layout as Hzeros.
  pose proof (surplus_len_checked ltac:(lia)) as Hsl.
  unfold assemble_datagram. change LENGTH_OCS with 2. change (LENGTH_UDP_HEADER + 20) with 28.
  change UDP_HEADER_LEN with 8. change (20 + 8) with 28. cbv zeta. fold pad_needed.
  replace (is_nil options_body || (2 <=? len options_body)) with true.
  2:{ symmetry. destruct options_body as [|a [|b rest]]; [done|done|]. apply Z.leb_le. len_lia. }
  rewrite Hsl. unfold checked_add, u16_try_from, U16_MAX, USIZE_MAX.
  set (n := assembled_surplus user_data options_body) in *.
  destruct (Z.leb_spec (8 + len user_data) 18446744073709551615); [|lia].
  destruct (Z.leb_spec (8 + len user_data) 65535); [|lia].
  destruct (Z.leb_spec n 65535); [|lia].
  destruct (Z.leb_spec (20 + (8 + len user_data)) 18446744073709551615); [|lia].
  destruct (Z.leb_spec (20 + (8 + len user_data) + n) 18446744073709551615); [|lia].
  destruct (Z.leb_spec (20 + (8 + len user_data) + n) 65535); [|lia].
  replace (20 + (8 + len user_data) + n) with (28 + len user_data + n) by lia. rewrite Hzeros.
  fold n in ip. change {| ip_src := src; ip_dst := dst; ip_ihl := 5;
    ip_total_len := 28 + len user_data + n |} with ip.
  rewrite (slice_prefix (zeros 20)), IpRepr_write_zeros, (copy_at_front (zeros 20)) by done.
  set (h := ip_header ip). assert (len h = 20) as Hh by apply len_ip_header.
  set (u0 := Build_UdpHeader _ _ _ 0).
  destruct (UdpHeader_compute_checksum_spec u0 ip user_data) as [-> _];
    [split; [done|split; [done|split; unfold u16; simpl; lia]]|done..|].
  rewrite (slice_middle h (zeros 8)), UdpHeader_write_zeros, copy_at_middle by (rewrite ?Hh; done).
  change (UdpHeader_with_checksum u0 (udp_checksum_value u0 ip user_data)) with udp.
  set (g := udp_header udp). assert (len g = 8) as Hg by apply len_udp_header.
  rewrite (app_assoc h g), copy_at_middle by (rewrite ?len_app, ?Hh, ?Hg, ?len_zeros by lia; done).
  set (pre := (h ++ g) ++ user_data ++ zeros (usize_of_bool pad_needed)).
  assert (len pre = 28 + len user_data + usize_of_bool pad_needed) as Hpre
    by (unfold pre; rewrite !len_app, Hh, Hg, len_zeros by (destruct pad_needed; simpl; lia); lia).
  replace ((h ++ g) ++ user_data ++ zeros (usize_of_bool pad_needed) ++ zeros (len options_body))
    with (pre ++ zeros (len options_body)) by (unfold pre; by rewrite <- !app_assoc).
  rewrite <- Hpre, (patch_body pre options_body n) by (done || (unfold u16; lia)).
  rewrite Htp, Z.eqb_refl, Has, len_app, len_assembled_body by done.
  replace (len pre + len options_body =? ip_total_len ip) with true
    by (symmetry; apply Z.eqb_eq; simpl; fold n; unfold n, assembled_surplus; lia).
  f_equal. unfold assembled_tail, pre. rewrite assembled_pad_zeros. fold pad_needed n. by rewrite <- !app_assoc.
Qed.
End assemble.

(** ** The receive loop *)

(** The filter decides from the headers alone. *)
Definition demux_accepts (data : list Z) (dst_port : Z) (src_port : option Z) (own_src : option Ipv4Addr)
    (ip : IpRepr) (udp : UdpHeader) : Prop :=
  IpRepr_parse data = Some (Ok (ip, IpRepr_header_len ip)) /\
  UdpHeader_parse (sub data (IpRepr_header_len ip) (len data)) = Some (Ok udp) /\
  own_src <> Some (ip_src ip) /\ udp_dst_port udp = dst_port /\
  (src_port = None \/ src_port = Some (udp_src_port udp)).

Lemma filter_datagram_spec data dst_port src_port own_src :
  bytes data ->
  exists v, filter_datagram data dst_port src_port own_src = Some v /\
    match v with
    | Deliver n => exists ip udp, demux_accepts data dst_port src_port own_src ip udp /\
        n = ip_total_len ip /\ 0 <= n <= len data
    | Filtered => forall ip udp, ~ demux_accepts data dst_port src_port own_src ip udp
    end.
Proof.
  intros Hb. unfold filter_datagram, demux_accepts. destruct (IpRepr_parse_total data Hb) as (r & Hr & Hok).
  rewrite Hr. destruct r as [[ip off]|e]; [|eexists; split; [done|]; by intros ip udp []].
  destruct (Hok _ _ eq_refl) as (Hw & -> & Hl).
  assert (20 <= IpRepr_header_len ip) by (destruct Hw as (_ & _ & ? & _); unfold IpRepr_header_len; lia).
  rewrite slice_Some by lia.
  destruct (UdpHeader_parse_total (sub data (IpRepr_header_len ip) (len data))) as (u & Hu & _);
    [auto with rust|].
  rewrite Hu. destruct u as [udp|e].
  2:{ eexists. split; [done|]. intros ip' udp ([= <-] & Hu' & _). congruence. }
  destruct (decide (own_src = Some (ip_src ip))).
  { eexists. split; [done|]. by intros ip' udp' ([= <-] & _ & ? & _). }
  destruct (Z.eqb_spec (udp_dst_port udp) dst_port); cbn [negb].
  2:{ eexists. split; [done|]. intros ip' udp' ([= <-] & Hu' & _ & ? & _). congruence. }
  destruct src_port as [sp|]; [destruct (Z.eqb_spec (udp_src_port udp) sp); cbn [negb]|].
  - eexists. split; [done|]. exists ip, udp. split; [|lia]. subst. by auto 10.
  - eexists. split; [done|]. intros ip' udp' ([= <-] & Hu' & _ & _ & [?|?]); congruence.
  - eexists. split; [done|]. exists ip, udp. split; [by auto 10|lia].
Qed.

Section recv_loop.
Context (self : RawReceiver) (deadline : option Z).

(** The timeout an iteration sets, if any. *)
Definition armed (t : Tick) : list (option Z) :=
  match deadline with
  | None => []
  | Some d => [Some (Z.max (d - tk_now t) MIN_READ_TIMEOUT)]
  end.

(** The iteration reaches [recv]. *)
Definition live (t : Tick) : Prop :=
  match deadline with None => True | Some d => tk_now t < d /\ tk_set t = Ok tt end.

Definition verdict (data : list Z) : option FilterVerdict :=
  filter_datagram data (rr_dst_port self) (rr_src_port self) (rr_own_src self).

Definition noise (t : Tick) : Prop :=
  live t /\ exists data, tk_recv t = Ok data /\ verdict data = Some Filtered.

Lemma recv_live t ticks :
  live t ->
  recv_with_deadline self deadline (t :: ticks) =
  match tk_recv t with
  | Err e => Some (Returned (if is_timeout e then Ok None else Err (map_socket_error e)), armed t)
  | Ok data =>
      let! v := verdict data in
      match v with
      | Deliver n => let! d := slice data 0 n in Some (Returned (Ok (Some d)), armed t)
      | Filtered =>
          let! (r, trace) := recv_with_deadline self deadline ticks in Some (r, armed t ++ trace)
      end
  end.
Proof.
  intros Hl. unfold live, armed in *. cbn [recv_with_deadline]. destruct deadline as [d|].
  - destruct Hl as [Hn ->]. destruct (Z.eqb_spec (Z.max 0 (d - tk_now t)) 0); [lia|].
    rewrite (Z.max_r 0) by lia. destruct (tk_recv t); [done|]. by destruct (is_timeout _).
  - destruct (tk_recv t); [done|]. by destruct (is_timeout _).
Qed.

Lemma recv_noise pre ticks :
  Forall noise pre ->
  recv_with_deadline self deadline (pre ++ ticks) =
  (let! (r, trace) := recv_with_deadline self deadline ticks in
   Some (r, concat (armed <$> pre) ++ trace)).
Proof.
  induction 1 as [|t pre (Hl & data & Hd & Hv) _ IH]; cbn [app fmap list_fmap concat].
  - by destruct (recv_with_deadline self deadline ticks) as [[r trace]|].
  - rewrite recv_live, Hd, Hv, IH by done.
    destruct (recv_with_deadline self deadline ticks) as [[r trace]|]; [|done]. by rewrite app_assoc.
Qed.

Lemma recv_total ticks :
  Forall (fun t => match tk_recv t with Ok data => bytes data | Err _ => True end) ticks ->
  is_Some (recv_with_deadline self deadline ticks).
Proof.
  induction 1 as [|t ticks Ht _ [[r trace] IH]]; [by eexists|]. cbn [recv_with_deadline].
  destruct (match deadline with None => _ | Some _ => _ end) as [early|trace']; [eauto|].
  destruct (tk_recv t) as [data|e]; [|destruct (is_timeout e); eauto].
  destruct (filter_datagram_spec data (rr_dst_port self) (rr_src_port self) (rr_own_src self) Ht)
    as (v & -> & Hv).
  destruct v as [n|]; [|rewrite IH; eauto]. destruct Hv as (ip & udp & _ & _ & Hn).
  rewrite slice_Some by lia. eauto.
Qed.
End recv_loop.

(** ** Properties *)

(** Demultiplexing never panics and delivers exactly the datagrams of the
    socket: a packet is delivered iff its IPv4 and UDP headers are valid, it does
    not come from the receiver's own address, its destination port is the bound
    one and its source port the expected one, if any; the delivered length is the
    IPv4 Total Length and never exceeds what was received. *)
Theorem filter_verdict (data : list Z) (dst_port : Z) (src_port : option Z)
    (own_src : option Ipv4Addr) :
  bytes data ->
  exists v, filter_datagram data dst_port src_port own_src = Some v /\
    forall n, v = Deliver n <->
      exists ip udp, demux_accepts data dst_port src_port own_src ip udp /\ n = ip_total_len ip /\
        0 <= n <= len data.
Proof.
  intros Hb. destruct (filter_datagram_spec data dst_port src_port own_src Hb) as (v & Hv & Hs).
  exists v. split; [done|]. intros n. destruct v as [m|].
  - split; [by intros [= <-]|]. intros (ip & udp & (H1 & _) & -> & _).
    destruct Hs as (ip' & udp' & (H1' & _) & -> & _). congruence.
  - split; [done|]. intros (ip & udp & H & _). by destruct (Hs ip udp).
Qed.

Definition example_packet : list Z :=
  [0x45; 0; 0; 30; 0; 0; 0; 0; 64; 17; 0x66; 0xcd; 10; 0; 0; 1; 10; 0; 0; 2;
   0x0f; 0xa0; 0x13; 0x88; 0; 10; 0; 0; 104; 105].

Lemma filter_verdict_witness :
  filter_datagram example_packet 5000 (Some 4001) None = Some Filtered /\
  exists ip udp, demux_accepts example_packet 5000 (Some 4000) None ip udp /\ 30 = ip_total_len ip.
Proof.
  split; [vm_compute; reflexivity|].
  destruct (filter_verdict example_packet 5000 (Some 4000) None) as (v & Hv & Hd); [evaluate|].
  assert (v = Deliver 30) as Hv30.
  { vm_compute in Hv. injection Hv as <-. reflexivity. }
  destruct (proj1 (Hd 30) Hv30) as (ip & udp & H1 & H2 & _).
  exists ip, udp. split; [exact H1|exact H2].
Defined.

(** C35. The receive loop waits through unrelated traffic: after any number of
    filtered packets it returns the first packet the filter accepts, cut to its
    IPv4 Total Length; it gives up with nothing once the deadline has passed or
    the kernel reports a timeout; with only unrelated packets it keeps waiting.
    Every read timeout it sets is the time left, but never below the minimum, and
    so never the zero that would mean no timeout. *)
Theorem recv_loop_behaviour (self : RawReceiver) (deadline : option Z) (pre rest : list Tick) (t : Tick) :
  Forall (noise self deadline) pre ->
  (recv_with_deadline self deadline pre = Some (Blocked, concat (armed deadline <$> pre))) /\
  (forall data n, live deadline t -> tk_recv t = Ok data -> bytes data ->
     verdict self data = Some (Deliver n) ->
     recv_with_deadline self deadline (pre ++ t :: rest) =
     Some (Returned (Ok (Some (sub data 0 n))), concat (armed deadline <$> pre ++ [t]))) /\
  (forall d, deadline = Some d -> d <= tk_now t ->
     recv_with_deadline self deadline (pre ++ t :: rest) =
     Some (Returned (Ok None), concat (armed deadline <$> pre))) /\
  (forall e, live deadline t -> tk_recv t = Err e -> is_timeout e = true ->
     recv_with_deadline self deadline (pre ++ t :: rest) =
     Some (Returned (Ok None), concat (armed deadline <$> pre ++ [t]))) /\
  Forall (fun x => exists d, x = Some d /\ MIN_READ_TIMEOUT <= d) (concat (armed deadline <$> pre)).
Proof.
  intros Hn. assert (forall a, concat (armed deadline <$> pre ++ [a]) =
    concat (armed deadline <$> pre) ++ armed deadline a) as Hsnoc.
  { intros a. rewrite fmap_app, concat_app. cbn [fmap list_fmap concat]. by rewrite app_nil_r. }
  split; [|split; [|split; [|split]]].
  - pose proof (recv_noise self deadline pre [] Hn) as H. rewrite app_nil_r in H. rewrite H.
    cbn [recv_with_deadline]. by rewrite app_nil_r.
  - intros data n Hl Hd Hb Hv. rewrite recv_noise, recv_live, Hd, Hv, Hsnoc by done.
    destruct (filter_datagram_spec data (rr_dst_port self) (rr_src_port self) (rr_own_src self) Hb)
      as (v & Hv' & Hs). unfold verdict in Hv. rewrite Hv in Hv'. injection Hv' as <-.
    destruct Hs as (ip & udp & _ & _ & Hn'). by rewrite slice_Some by lia.
  - intros d -> Hd. rewrite recv_noise by done. cbn [recv_with_deadline].
    destruct (Z.eqb_spec (Z.max 0 (d - tk_now t)) 0); [|lia]. by rewrite app_nil_r.
  - intros e Hl He Ht. by rewrite recv_noise, recv_live, He, Ht, Hsnoc by done.
  - clear Hn Hsnoc. induction pre as [|a pre IH]; [constructor|]. cbn [fmap list_fmap concat].
    apply Forall_app. split; [|done]. unfold armed. destruct deadline; [|constructor].
    constructor; [|constructor]. eexists. split; [done|]. lia.
Qed.

Lemma recv_loop_behaviour_witness :
  let self := {| rr_dst_port := 5000; rr_src_port := None; rr_own_src := None |} in
  let tick now data := {| tk_now := now; tk_set := Ok tt; tk_recv := Ok data |} in
  recv_with_deadline self (Some 1000) ([tick 0 [1; 2; 3]] ++ tick 10 (example_packet ++ [0]) :: []) =
  Some (Returned (Ok (Some example_packet)), [Some 1000000; Some 1000000]).
Proof.
  pose (self := {| rr_dst_port := 5000; rr_src_port := None; rr_own_src := None |}).
  pose (tick := fun now data => {| tk_now := now; tk_set := Ok tt; tk_recv := Ok data |}).
  destruct (recv_loop_behaviour self (Some 1000) [tick 0 [1; 2; 3]] [] (tick 10 (example_packet ++ [0])))
    as (_ & H & _).
  - constructor; [|constructor]. split; [split; [simpl; lia|reflexivity]|].
    exists [1; 2; 3]. split; [reflexivity|vm_compute; reflexivity].
  - refine (H (example_packet ++ [0]) 30 _ _ _ _).
    + split; [simpl; lia|reflexivity].
    + reflexivity.
    + evaluate.
    + vm_compute. reflexivity.
Defined.

(** The instant up to which a configured timeout bounds the wait: none when no timeout is
    configured, and none when that instant is beyond what the clock can represent. *)
Definition wait_until (configured : option Z) (now instant_max : Z) : option Z :=
  match configured with
  | Some timeout => if now + timeout <=? instant_max then Some (now + timeout) else None
  | None => None
  end.

(** A wait without deadline sets no timeout. *)
Lemma recv_unbounded_trace self ticks : forall run trace,
  recv_with_deadline self None ticks = Some (run, trace) -> trace = [].
Proof.
  induction ticks as [|t ticks IH]; intros run trace; cbn [recv_with_deadline]; [by intros [= _ <-]|].
  destruct (tk_recv t) as [data|e]; [|by destruct (is_timeout e); intros [= _ <-]].
  destruct (filter_datagram _ _ _ _) as [[n|]|]; [|..|done].
  - destruct (slice data 0 n); [by intros [= _ <-]|done].
  - destruct (recv_with_deadline self None ticks) as [[r' trace']|]; [|done]. intros [= _ <-]. by eapply IH.
Qed.

(** C36. [recv] is total and leaves the socket as configured.  Whatever the kernel delivers
    and answers it does not panic.  A failed query of the timeout is its only result.
    Otherwise it waits up to the deadline the configured timeout gives, without one if
    none is configured or the clock cannot represent it; an unbounded wait sets no timeout
    at all, and after a bounded one that returns, with a packet, with nothing or with an
    error, the last timeout set is the configured one.  The result is that of the wait,
    except that a failed restore after a bounded wait replaces a success by its error;
    it never hides an earlier error. *)
Theorem recv_restores_timeout (self : RawReceiver) (configured : result (option Z) IoError)
    (now instant_max : Z) (ticks : list Tick) (restore : result unit IoError) :
  Forall (fun t => match tk_recv t with Ok data => bytes data | Err _ => True end) ticks ->
  exists run trace, RawReceiver_recv self configured now instant_max ticks restore = Some (run, trace) /\
    match configured with
    | Err e => run = Returned (Err (map_socket_error e)) /\ trace = []
    | Ok c =>
        let until := wait_until c now instant_max in
        exists waited armed, recv_with_deadline self until ticks = Some (waited, armed) /\
          (run = Blocked <-> waited = Blocked) /\
          (until = None -> trace = []) /\
          (forall d r, until = Some d -> run = Returned r -> last trace = Some c) /\
          (forall e, waited = Returned (Err e) -> run = Returned (Err e)) /\
          (forall v, waited = Returned (Ok v) ->
             match until, restore with
             | Some _, Err e => run = Returned (Err (map_socket_error e))
             | _, _ => run = Returned (Ok v)
             end)
    end.
Proof.
  intros Hb. destruct configured as [c|e]; [|by do 2 eexists].
  destruct (recv_total self (wait_until c now instant_max) ticks Hb) as [[waited armed] Hw].
  unfold RawReceiver_recv. cbv zeta. unfold wait_until in *. destruct c as [timeout|].
  - destruct (Z.leb_spec (now + timeout) instant_max), (Z.ltb_spec instant_max (now + timeout)); try lia.
    + rewrite Hw. destruct waited as [|[v|e]]; do 2 eexists; (split; [done|]); do 2 eexists; (split; [done|]).
      * by repeat split.
      * split; [done|]. split; [done|]. split; [intros; by rewrite last_snoc|]. split; [done|].
        intros v' [= <-]. by destruct restore.
      * split; [done|]. split; [done|]. split; [intros; by rewrite last_snoc|].
        split; [intros e' [= <-]; by destruct restore|done].
    + exists waited, armed. split; [done|]. exists waited, armed. apply recv_unbounded_trace in Hw as Ht. by repeat split.
  - exists waited, armed. split; [done|]. exists waited, armed. apply recv_unbounded_trace in Hw as Ht. by repeat split.
Qed.

(** A bounded wait whose restore fails. *)
Lemma recv_restores_timeout_witness :
  let self := {| rr_dst_port := 5000; rr_src_port := None; rr_own_src := None |} in
  let ticks := [{| tk_now := 5; tk_set := Ok tt; tk_recv := Ok example_packet |}] in
  RawReceiver_recv self (Ok (Some 100)) 0 1000 ticks (Ok tt)
    = Some (Returned (Ok (Some example_packet)), [Some 1000000; Some 100]) /\
  exists run trace,
    RawReceiver_recv self (Ok (Some 100)) 0 1000 ticks (Err {| raw_os_error := Some 9 |}) = Some (run, trace) /\
    last trace = Some (Some 100).
Proof.
  split; [vm_compute; reflexivity|].
  destruct (recv_restores_timeout {| rr_dst_port := 5000; rr_src_port := None; rr_own_src := None |}
    (Ok (Some 100)) 0 1000 [{| tk_now := 5; tk_set := Ok tt; tk_recv := Ok example_packet |}]
    (Err {| raw_os_error := Some 9 |})) as (run & trace & Hr & waited & armed & _ & _ & _ & Hlast & _).
  - constructor; [|constructor]. evaluate.
  - exists run, trace. split; [exact Hr|]. vm_compute in Hr. injection Hr as <- <-.
    refine (Hlast 100 _ eq_refl eq_refl).
Defined.
