(* ===== verification/Api.v ===== *)
(** The public API (src/src/api/mod.rs).

    The builders and [decode_datagram] are pure and modelled whole.  [Peer]
    methods take what the system calls and the random device answered as
    arguments; of the sockets, the [Peer] record keeps the receiver's filter.  The
    sampled policy warnings are in [Warnings].  The theorems here concern the receive
    policy, [Peer::recv] and typed options; [ApiCorrect] has the end-to-end ones. *)

From S2P Require Import Prelude Model Kind Parse Typed Serialize Checksum Ip Udp Surplus Ocs.
From S2P Require Import Split Reassembly RecvOptions Pipeline Socket.

(** ** Data *)

Definition API_IPV4_HEADER_LEN : Z := 20.
Definition API_UDP_HEADER_LEN : Z := LENGTH_UDP_HEADER.
Definition IPV4_DATAGRAM_LEN_MAX : Z := U16_MAX.
Definition DEFAULT_MAX_DATAGRAM_LEN : Z := 1500.

Record DatagramAddrs : Type := {
  da_src : Ipv4Addr;
  da_dst : Ipv4Addr;
  da_src_port : Z;
  da_dst_port : Z;
}.

Inductive FragmentationMode : Type := Auto | Disabled.

#[export] Instance FragmentationMode_eq_dec : EqDecision FragmentationMode.
Proof. solve_decision. Defined.

Record SendOptions : Type := { so_raw_options : list RawOption; so_include_apc : bool }.

Record SendConfig : Type := {
  cf_max_datagram_len : Z;
  cf_peer : PeerFragmentLimits;
  cf_fragmentation : FragmentationMode;
  cf_identification : option Z;
}.

Definition SendConfig_default : SendConfig :=
  {| cf_max_datagram_len := DEFAULT_MAX_DATAGRAM_LEN; cf_peer := PeerFragmentLimits_default_ipv4;
     cf_fragmentation := Auto; cf_identification := None |}.

Record ReceivePolicy : Type := {
  rp_required_options : list OptionKind;
  rp_drop_all_option_bearing : bool;
  rp_ocs_required : bool;
}.

Record ReceivedDatagram : Type := {
  rd_data : list Z;
  rd_options : list RawOption;
  rd_reports : list OptionReport;
  rd_ocs_reports : list OcsReport;
}.

Inductive ApiDelivery : Type :=
| ApiReceived (d : ReceivedDatagram)
| ApiBuffered
| ApiDropped
| ApiFiltered.

Record SendOutcome : Type := { out_datagrams : Z; out_bytes : Z }.

Record PeerConfig : Type := {
  pc_addrs : DatagramAddrs;
  pc_send : SendConfig;
  pc_receive : ReceivePolicy;
  pc_read_timeout : option Z;
}.

Definition PeerConfig_new (addrs : DatagramAddrs) : PeerConfig :=
  {| pc_addrs := addrs; pc_send := SendConfig_default;
     pc_receive := {| rp_required_options := []; rp_drop_all_option_bearing := false;
                      rp_ocs_required := false |};
     pc_read_timeout := None |}.

Record Peer : Type := {
  pe_receiver : RawReceiver;
  pe_cache : ReassemblyCache;
  pe_addrs : DatagramAddrs;
  pe_send : SendConfig;
  pe_receive : ReceivePolicy;
  pe_identifications : IdentificationGenerator;
}.

(** ** Send options *)

Definition SendOptions_new : SendOptions := {| so_raw_options := []; so_include_apc := false |}.

Definition SendOptions_push_raw (s : SendOptions) (o : RawOption) : SendOptions :=
  {| so_raw_options := so_raw_options s ++ [o]; so_include_apc := so_include_apc s |}.

(** Both [expect]s are panics. *)
Definition raw_from_typed {T} `{TypedOption T} (o : T) : option RawOption :=
  let bs := encode o [] in
  let! (next, _) := OptionsIter_next (OptionsIter_new bs) in
  match next with
  | Some (Ok parsed) => Some (RawOption_from parsed)
  | _ => None
  end.

Definition SendOptions_push_typed {T} `{TypedOption T} (s : SendOptions) (o : T) :
    option SendOptions :=
  let! raw := raw_from_typed o in
  Some (SendOptions_push_raw s raw).

Definition SendOptions_with_apc (s : SendOptions) : SendOptions :=
  {| so_raw_options := so_raw_options s; so_include_apc := true |}.

(** ** Receive policy *)

Definition ReceivePolicy_new : ReceivePolicy :=
  {| rp_required_options := []; rp_drop_all_option_bearing := false; rp_ocs_required := false |}.

Definition is_required_reportable_kind (kind : OptionKind) : bool :=
  match kind with Apc | Mds | Mrds | Req | Res => true | _ => false end.

Definition ReceivePolicy_require_option (p : ReceivePolicy) (kind : OptionKind) :
    result ReceivePolicy ReceivePolicyError :=
  let kind := from_byte (to_byte kind) in
  if negb (is_required_reportable_kind kind) then Err (UnsupportedRequiredOption (to_byte kind))
  else
    Ok {| rp_required_options :=
            if bool_decide (kind ∈ rp_required_options p) then rp_required_options p
            else rp_required_options p ++ [kind];
          rp_drop_all_option_bearing := rp_drop_all_option_bearing p;
          rp_ocs_required := rp_ocs_required p |}.

Definition ReceivePolicy_drop_all_option_bearing (p : ReceivePolicy) (drop : bool) : ReceivePolicy :=
  {| rp_required_options := rp_required_options p; rp_drop_all_option_bearing := drop;
     rp_ocs_required := rp_ocs_required p |}.

Definition ReceivePolicy_require_ocs (p : ReceivePolicy) (require : bool) : ReceivePolicy :=
  {| rp_required_options := rp_required_options p;
     rp_drop_all_option_bearing := rp_drop_all_option_bearing p; rp_ocs_required := require |}.

Definition missing_required_option (policy : ReceivePolicy) (reports : list OptionReport) :
    option OptionKind :=
  List.find (fun required =>
    existsb (fun r => bool_decide (opr_kind r = required) && bool_decide (opr_status r = Failed)
                      && bool_decide (opr_source r = FragmentSet)) reports
    || negb (existsb (fun r => bool_decide (opr_kind r = required)
                               && bool_decide (opr_status r = Success)) reports))
    (rp_required_options policy).

Definition ocs_requirement_satisfied (reports : list OcsReport) : bool :=
  let has_failure :=
    existsb (fun r => match ocr_status r with
                      | StFailed | StInvalidZero | StUnobserved => true | _ => false end) reports in
  negb has_failure
  && existsb (fun r => match ocr_status r with StValid | StUnused => true | _ => false end) reports.

(** ** Validation *)

Definition validate_send_config (config : SendConfig) : result unit SendError :=
  if IPV4_DATAGRAM_LEN_MAX <? cf_max_datagram_len config
  then Err (InvalidConfig "max_datagram_len exceeds IPv4 Total Length")
  else if cf_max_datagram_len config <? API_IPV4_HEADER_LEN + API_UDP_HEADER_LEN
  then Err (InvalidConfig "max_datagram_len cannot fit IPv4 and UDP")
  else Ok tt.

Definition raw_options_contain_kind (raw_options : list RawOption) (raw_kind : Z) : bool :=
  existsb (fun o => to_byte (ro_kind o) =? raw_kind) raw_options.

Definition is_high_level_unique_kind (kind : Z) : bool :=
  (kind =? KIND_APC) || (kind =? KIND_MDS) || (kind =? KIND_MRDS) || (kind =? KIND_REQ)
  || (kind =? KIND_RES).

(** The loop of [raw_options_contain_duplicate_reportable_kind]. *)
Fixpoint duplicate_loop (seen : list bool) (raw_options : list RawOption) : option bool :=
  match raw_options with
  | [] => Some false
  | o :: rest =>
      let kind := to_byte (ro_kind o) in
      if negb (is_high_level_unique_kind kind) then duplicate_loop seen rest
      else
        let! slot := get seen kind in
        if slot then Some true
        else let! seen := set_at seen kind true in duplicate_loop seen rest
  end.

Definition raw_options_contain_duplicate_reportable_kind (raw_options : list RawOption) :
    option bool :=
  duplicate_loop (replicate 256 false) raw_options.

Definition validate_send_options (options : SendOptions) : option (result unit SendError) :=
  if raw_options_contain_kind (so_raw_options options) KIND_FRAG
  then Some (Err (InvalidConfig "high-level send options cannot include FRAG"))
  else if so_include_apc options && raw_options_contain_kind (so_raw_options options) KIND_APC
  then Some (Err (InvalidConfig "automatic APC cannot be combined with a raw APC option"))
  else
    let! dup := raw_options_contain_duplicate_reportable_kind (so_raw_options options) in
    if dup
    then Some (Err (InvalidConfig "high-level send options cannot include duplicate reportable options"))
    else Some (Ok tt).

Definition validate_low_level_options (payload : list Z) (raw_options : list RawOption) :
    result unit SendError :=
  if negb (is_nil payload) && raw_options_contain_kind raw_options KIND_FRAG
  then Err (InvalidConfig "FRAG requires empty UDP user data")
  else Ok tt.

(** ** Building *)

Definition datagram_len (payload_len options_body_len : Z) : option Z :=
  match checked_add API_UDP_HEADER_LEN payload_len with
  | None => None
  | Some udp_len =>
      match checked_add API_IPV4_HEADER_LEN udp_len with
      | None => None
      | Some natural_start =>
          if options_body_len =? 0 then Some natural_start
          else
            let needs_pad := natural_start mod 2 =? 1 in
            match checked_add natural_start (usize_of_bool needs_pad) with
            | None => None
            | Some n => checked_add n options_body_len
            end
      end
  end.

Definition assemble_checked (addrs : DatagramAddrs) (payload options_body : list Z)
    (max_datagram_len : Z) : option (result (list Z) SendError) :=
  match datagram_len (len payload) (len options_body) with
  | None => Some (Err (DatagramTooLarge USIZE_MAX max_datagram_len))
  | Some n =>
      if max_datagram_len <? n then Some (Err (DatagramTooLarge n max_datagram_len))
      else if IPV4_DATAGRAM_LEN_MAX <? n then Some (Err (DatagramTooLarge n IPV4_DATAGRAM_LEN_MAX))
      else
        let! d := assemble_datagram (da_src addrs) (da_dst addrs) (da_src_port addrs)
                    (da_dst_port addrs) payload options_body in
        Some (Ok d)
  end.

Definition raw_options_body (raw_options : list RawOption) : option (result (list Z) SendError) :=
  if is_nil raw_options then Some (Ok [])
  else
    let builder := OptionsBuilder_extend_raw OptionsBuilder_new raw_options in
    let! r := OptionsBuilder_finish builder in
    Some (map_err SendSerialize r).

Definition build_datagram (addrs : DatagramAddrs) (payload : list Z) (raw_options : list RawOption) :
    option (result (list Z) SendError) :=
  let? _ := validate_low_level_options payload raw_options in
  let! body := raw_options_body raw_options in
  let? body := body in
  assemble_checked addrs payload body IPV4_DATAGRAM_LEN_MAX.

Definition fragment_surplus_budget (config : SendConfig) : result Z SendError :=
  match checked_sub (cf_max_datagram_len config) (API_IPV4_HEADER_LEN + API_UDP_HEADER_LEN) with
  | Some n => Ok n
  | None => Err (InvalidConfig "max_datagram_len cannot fit a UDP fragment")
  end.

(** [.map(assemble_checked).collect()], which stops at the first error. *)
Fixpoint assemble_fragments (addrs : DatagramAddrs) (max_datagram_len : Z)
    (fragments : list Fragment) : option (result (list (list Z)) SendError) :=
  match fragments with
  | [] => Some (Ok [])
  | f :: rest =>
      let! d := assemble_checked addrs [] (fg_surplus_body f) max_datagram_len in
      let? d := d in
      let! ds := assemble_fragments addrs max_datagram_len rest in
      let? ds := ds in
      Some (Ok (d :: ds))
  end.

Section api.
Context `{Crc32c}.

Definition options_body (payload : list Z) (options : SendOptions) :
    option (result (list Z) SendError) :=
  if negb (so_include_apc options) && is_nil (so_raw_options options) then Some (Ok [])
  else
    let builder := OptionsBuilder_new in
    let builder :=
      if so_include_apc options
      then OptionsBuilder_push builder Apc (u32_to_be (apc_crc32c (Apc_compute payload)))
      else builder in
    let builder := OptionsBuilder_extend_raw builder (so_raw_options options) in
    let! r := OptionsBuilder_finish builder in
    Some (map_err SendSerialize r).

Definition build_outgoing_datagrams (addrs : DatagramAddrs) (payload : list Z)
    (options : SendOptions) (config : SendConfig) : option (result (list (list Z)) SendError) :=
  let? _ := validate_send_config config in
  let! r := validate_send_options options in
  let? _ := r in
  let! body := options_body payload options in
  let? body := body in
  match datagram_len (len payload) (len body) with
  | None => Some (Err (DatagramTooLarge USIZE_MAX (cf_max_datagram_len config)))
  | Some single_len =>
      if single_len <=? cf_max_datagram_len config then
        let! d := assemble_checked addrs payload body (cf_max_datagram_len config) in
        let? d := d in
        Some (Ok [d])
      else if decide (cf_fragmentation config = Disabled)
      then Some (Err (DatagramTooLarge single_len (cf_max_datagram_len config)))
      else
      match cf_identification config with
      | None => Some (Err FragmentIdentificationRequired)
      | Some identification =>
          let? budget := fragment_surplus_budget config in
          let! r := split_datagram payload body
                      {| sc_max_fragment_surplus_len := budget; sc_peer := cf_peer config;
                         sc_identification := identification |} in
          let? fragments := map_err SendSplit r in
          assemble_fragments addrs (cf_max_datagram_len config) fragments
      end
  end.

Definition build_peer_outgoing_datagrams (addrs : DatagramAddrs) (payload : list Z)
    (options : SendOptions) (config : SendConfig) (identifications : IdentificationGenerator) :
    option (result (list (list Z)) SendError * IdentificationGenerator) :=
  let! r := build_outgoing_datagrams addrs payload options config in
  match r with
  | Err FragmentIdentificationRequired =>
      let '(id, identifications) := IdentificationGenerator_next_id identifications in
      match map_err SendSplit id with
      | Err e => Some (Err e, identifications)
      | Ok id =>
          let config := {| cf_max_datagram_len := cf_max_datagram_len config;
                           cf_peer := cf_peer config; cf_fragmentation := cf_fragmentation config;
                           cf_identification := Some id |} in
          let! r := build_outgoing_datagrams addrs payload options config in
          Some (r, identifications)
      end
  | result => Some (result, identifications)
  end.

(** ** Decoding *)

Definition wire_option_bearing (datagram : list Z) : option (result bool RecvError) :=
  let! parsed := IpRepr_parse datagram in
  let? (ip, udp_at) := map_err RecvHeader parsed in
  let ip_end := IpRepr_header_len ip + IpRepr_transport_payload_len ip in
  let! udp_bytes := slice datagram udp_at ip_end in
  let! parsed := UdpHeader_parse udp_bytes in
  let? udp := map_err RecvHeader parsed in
  let udp_len := udp_length udp in
  if IpRepr_transport_payload_len ip <? udp_len
  then Some (Err (UdpLengthExceedsIpPayload (udp_length udp) (IpRepr_transport_payload_len ip)))
  else
  let user_data_at := udp_at + API_UDP_HEADER_LEN in
  let surplus_start := udp_at + udp_len in
  let! user_data := slice datagram user_data_at surplus_start in
  let verdict := match locate_surplus ip udp with Some _ => true | None => false end in
  if udp_checksum udp =? 0 then Some (Ok verdict) else
  let! expected := UdpHeader_compute_checksum (UdpHeader_with_checksum udp 0) ip user_data in
  if expected =? udp_checksum udp then Some (Ok verdict)
  else Some (Err (UdpChecksumMismatch expected (udp_checksum udp))).

(** The policy checks on a delivered payload. *)
Definition apply_policy (policy : ReceivePolicy) (p : Payload) : ApiDelivery :=
  if rp_drop_all_option_bearing policy && pl_option_bearing p then ApiFiltered
  else
    match missing_required_option policy (pl_reports p) with
    | Some _ => ApiFiltered
    | None =>
        if rp_ocs_required policy && negb (ocs_requirement_satisfied (pl_ocs_reports p))
        then ApiFiltered
        else ApiReceived
          {| rd_data := pl_data p; rd_options := pl_options p; rd_reports := pl_reports p;
             rd_ocs_reports := pl_ocs_reports p |}
    end.

Definition decode_datagram (datagram : list Z) (cache : ReassemblyCache) (now : Z)
    (policy : ReceivePolicy) : option (result ApiDelivery RecvError * ReassemblyCache) :=
  let! prefiltered :=
    if rp_drop_all_option_bearing policy then wire_option_bearing datagram
    else Some (Ok false) in
  match prefiltered with
  | Err e => Some (Err e, cache)
  | Ok true => Some (Ok ApiFiltered, cache)
  | Ok false =>
      let! (r, cache) := process_datagram datagram cache now in
      Some (match r with
            | Err e => Err e
            | Ok (DeliverPayload p) => Ok (apply_policy policy p)
            | Ok Buffered => Ok ApiBuffered
            | Ok Dropped => Ok ApiDropped
            end, cache)
  end.

(** ** The peer *)

(** [from_os_random] is what seeding from the random device answered. *)
Definition take_peer_identification_generator (config : SendConfig)
    (from_os_random : result IdentificationGenerator IoError) :
    result IdentificationGenerator SocketError * SendConfig :=
  let taken := {| cf_max_datagram_len := cf_max_datagram_len config; cf_peer := cf_peer config;
                  cf_fragmentation := cf_fragmentation config; cf_identification := None |} in
  match cf_identification config with
  | Some seed => (Ok (IdentificationGenerator_new seed), taken)
  | None => (map_err Io from_os_random, taken)
  end.

(** The answers of the system calls of [bind], in their order. *)
Record BindAnswers : Type := {
  ba_send_socket : result unit IoError;
  ba_hdrincl : Z;
  ba_hdrincl_error : IoError;
  ba_recv_socket : result unit IoError;
  ba_icmp_sink : result unit IoError;
  ba_set_timeout : result unit IoError;
  ba_from_os_random : result IdentificationGenerator IoError;
}.

Definition Peer_bind (config : PeerConfig) (k : BindAnswers) : result Peer RecvError :=
  let* _ := map_err RecvSocket (RawSender_new (ba_send_socket k) (ba_hdrincl k) (ba_hdrincl_error k)) in
  let* receiver := map_err RecvSocket
    (RawReceiver_bind (ba_recv_socket k) (ba_icmp_sink k) (da_src_port (pc_addrs config))
       (Some (da_dst_port (pc_addrs config))) None) in
  let* _ := map_err RecvSocket (RawReceiver_set_read_timeout (ba_set_timeout k)) in
  let '(generator, send) :=
    take_peer_identification_generator (pc_send config) (ba_from_os_random k) in
  let* identifications := map_err RecvSocket generator in
  Ok {| pe_receiver := receiver; pe_cache := ReassemblyCache_new; pe_addrs := pc_addrs config;
        pe_send := send; pe_receive := pc_receive config; pe_identifications := identifications |}.

(** The send loop; [send_to n] is what the kernel answers to the [n]-th call.  The
    second result is what was handed to the kernel. *)
Fixpoint send_loop (send_to : nat -> Ipv4Addr -> Z -> list Z -> result Z IoError) (dst : Ipv4Addr)
    (n : nat) (bytes_ : Z) (datagrams : list (list Z)) : result Z SendError * list (list Z) :=
  match datagrams with
  | [] => (Ok bytes_, [])
  | d :: rest =>
      match map_err SendSocket (RawSender_send (send_to n) dst d) with
      | Err e => (Err e, [d])
      | Ok sent =>
          match checked_add bytes_ sent with
          | None => (Err (InvalidConfig "sent byte count overflow"), [d])
          | Some total =>
              let '(r, out) := send_loop send_to dst (S n) total rest in (r, d :: out)
          end
      end
  end.

Definition Peer_set_identifications (self : Peer) (identifications : IdentificationGenerator) : Peer :=
  {| pe_receiver := pe_receiver self; pe_cache := pe_cache self; pe_addrs := pe_addrs self;
     pe_send := pe_send self; pe_receive := pe_receive self; pe_identifications := identifications |}.

(** The outcome, the peer, and the datagrams handed to the kernel. *)
Definition Peer_send (self : Peer) (payload : list Z) (options : SendOptions)
    (send_to : nat -> Ipv4Addr -> Z -> list Z -> result Z IoError) :
    option (result SendOutcome SendError * Peer * list (list Z)) :=
  let! (r, identifications) := build_peer_outgoing_datagrams (pe_addrs self) payload options
                                 (pe_send self) (pe_identifications self) in
  let self := Peer_set_identifications self identifications in
  match r with
  | Err e => Some (Err e, self, [])
  | Ok datagrams =>
      let '(r, out) := send_loop send_to (da_dst (pe_addrs self)) 0 0 datagrams in
      Some (match r with
            | Ok n => Ok {| out_datagrams := len datagrams; out_bytes := n |}
            | Err e => Err e
            end, self, out)
  end.

Definition Peer_set_cache (self : Peer) (cache : ReassemblyCache) : Peer :=
  {| pe_receiver := pe_receiver self; pe_cache := cache; pe_addrs := pe_addrs self;
     pe_send := pe_send self; pe_receive := pe_receive self; pe_identifications := pe_identifications self |}.

(** [received] is what [RawReceiver::recv] returned. *)
Definition Peer_recv (self : Peer) (received : result (option (list Z)) SocketError) (now : Z) :
    option (result (option ReceivedDatagram) RecvError * Peer) :=
  match received with
  | Err e => Some (Err (RecvSocket e), self)
  | Ok None => Some (Ok None, self)
  | Ok (Some datagram) =>
      let! (r, cache) := decode_datagram datagram (pe_cache self) now (pe_receive self) in
      Some (match r with
            | Ok (ApiReceived d) => Ok (Some d)
            | Ok _ => Ok None
            | Err (RecvSocket e) => Err (RecvSocket e)
            | Err _ => Ok None
            end, Peer_set_cache self cache)
  end.

(** What the kernel and the clock answer during one call of [recv]. *)
Record RecvAnswers : Type := {
  ra_configured : result (option Z) IoError;
  ra_now : Z;
  ra_instant_max : Z;
  ra_ticks : list Tick;
  ra_restore : result unit IoError;
  ra_decode_now : Z;
}.

(** The whole call, from the socket on; [None] inside while it is still blocked. *)
Definition Peer_recv_from (self : Peer) (k : RecvAnswers) :
    option (option (result (option ReceivedDatagram) RecvError) * Peer) :=
  let! (run, _) := RawReceiver_recv (pe_receiver self) (ra_configured k) (ra_now k) (ra_instant_max k)
                     (ra_ticks k) (ra_restore k) in
  match run with
  | Blocked => Some (None, self)
  | Returned received =>
      let! (r, self) := Peer_recv self received (ra_decode_now k) in
      Some (Some r, self)
  end.

Definition Peer_gc (self : Peer) (now : Z) : Peer :=
  Peer_set_cache self (ReassemblyCache_gc (pe_cache self) now).
End api.

(** ** Lemmas: decoding *)

Definition to_api (policy : ReceivePolicy) (r : result Delivery RecvError) : result ApiDelivery RecvError :=
  match r with
  | Err e => Err e
  | Ok (DeliverPayload p) => Ok (apply_policy policy p)
  | Ok Buffered => Ok ApiBuffered
  | Ok Dropped => Ok ApiDropped
  end.

(** [wire_option_bearing] sees what [receive_udp] sees. *)
Lemma wire_option_bearing_spec bs :
  bytes bs ->
  wire_option_bearing bs =
  (let! r := receive_udp bs in
   Some match r with
        | Ok v => Ok match locate_surplus (uv_ip v) (uv_udp v) with Some _ => true | None => false end
        | Err e => Err e
        end).
Proof.
  intros Hb. unfold wire_option_bearing, receive_udp.
  destruct (IpRepr_parse_total bs Hb) as (r & -> & Hr). destruct r as [[ip off]|e]; [|done].
  destruct (Hr _ _ eq_refl) as (Hw & -> & Hl). cbn [map_err].
  pose proof (transport_payload_len ip (proj1 Hl)) as Htl. pose proof (header_len_bounds ip Hw) as Hh.
  rewrite Htl, (slice_Some bs (IpRepr_header_len ip)) by lia. rewrite (slice_Some bs 0) by lia.
  set (dg := sub bs 0 (ip_total_len ip)).
  assert (len dg = ip_total_len ip) as Hdg by (unfold dg; rewrite len_sub; lia).
  rewrite (slice_Some dg (IpRepr_header_len ip)) by lia.
  replace (sub dg (IpRepr_header_len ip) (len dg)) with (sub bs (IpRepr_header_len ip) (ip_total_len ip)).
  2:{ rewrite Hdg. unfold dg. by rewrite sub_sub by lia. }
  destruct (UdpHeader_parse_total (sub bs (IpRepr_header_len ip) (ip_total_len ip)))
    as (r & -> & Hu); [auto with rust|].
  destruct r as [udp|e]; [|done]. destruct (Hu _ eq_refl) as (Hwu & H8 & _). cbn [map_err].
  destruct (Z.ltb_spec (IpRepr_transport_payload_len ip) (udp_length udp)); [done|].
  change API_UDP_HEADER_LEN with 8. change UDP_HEADER_LEN with 8.
  rewrite (slice_Some bs (IpRepr_header_len ip + 8)), (slice_Some dg (IpRepr_header_len ip + 8)) by lia.
  replace (sub dg (IpRepr_header_len ip + 8) (IpRepr_header_len ip + udp_length udp))
    with (sub bs (IpRepr_header_len ip + 8) (IpRepr_header_len ip + udp_length udp))
    by (unfold dg; by rewrite sub_sub by lia).
  cbv zeta. destruct (udp_checksum udp =? 0); [done|].
  destruct (UdpHeader_compute_checksum _ _ _) as [x|]; [|done]. by destruct (x =? udp_checksum udp).
Qed.

(** ** Lemmas: decoding is total *)

Lemma receive_udp_not_socket bs s : receive_udp bs <> Some (Err (RecvSocket s)).
Proof.
  unfold receive_udp. destruct (IpRepr_parse bs) as [[[ip off]|]|]; [|done|done]. cbn [map_err].
  destruct (slice bs 0 _); [|done]. destruct (slice _ _ _); [|done].
  destruct (UdpHeader_parse _) as [[udp|]|]; [|done|done]. cbn [map_err]. destruct (_ <? _); [done|].
  destruct (slice _ _ _); [|done]. cbv zeta. destruct (_ =? 0); [done|].
  destruct (UdpHeader_compute_checksum _ _ _) as [x|]; [|done]. by destruct (x =? _).
Qed.

Lemma decode_ok `{Crc32c} d c now policy :
  bytes d -> Cache_wf c ->
  exists r c', decode_datagram d c now policy = Some (r, c') /\ Cache_wf c' /\ rc_limits c' = rc_limits c /\
    forall s, r <> Err (RecvSocket s).
Proof.
  intros Hb Hc. destruct (receive_udp_spec d Hb) as (u & Hu & _).
  pose proof (receive_udp_not_socket d) as Hns. rewrite Hu in Hns.
  assert (exists r c', (let! (r, c) := process_datagram d c now in Some (to_api policy r, c)) = Some (r, c') /\
    Cache_wf c' /\ rc_limits c' = rc_limits c /\ forall s, r <> Err (RecvSocket s)) as Hproc.
  { destruct (process_datagram_ok d c now Hb Hc) as (r & c' & Hp & Hc' & HL). rewrite Hp.
    do 2 eexists. split; [done|]. split; [done|]. split; [done|]. intros s.
    destruct r as [dl|e]; cbn [to_api]; [by destruct dl|]. intros [= ->].
    apply process_datagram_error in Hp as [Hp _]; [|done..]. rewrite Hu in Hp. simplify_eq. by eapply Hns. }
  unfold decode_datagram. destruct (rp_drop_all_option_bearing policy); [|exact Hproc].
  rewrite wire_option_bearing_spec, Hu by done. destruct u as [v|e].
  - destruct (locate_surplus (uv_ip v) (uv_udp v)); [|exact Hproc]. do 2 eexists. by split.
  - do 2 eexists. split; [done|]. split; [done|]. split; [done|]. intros s [= ->]. by eapply Hns.
Qed.

(** ** Lemmas: the receive policy *)

Lemma existsb_false {A} (f : A -> bool) l : existsb f l = false <-> Forall (fun x => f x = false) l.
Proof.
  induction l as [|x l IH]; simpl; [by split; [constructor|]|].
  rewrite orb_false_iff, Forall_cons, IH. done.
Qed.

Lemma existsb_true {A} (f : A -> bool) l : existsb f l = true -> exists x, x ∈ l /\ f x = true.
Proof. intros (x & Hx & Hf)%existsb_exists. exists x. by rewrite list_elem_of_In. Qed.

Lemma missing_required_option_None policy reports :
  missing_required_option policy reports = None ->
  Forall (fun kind =>
    (exists r, r ∈ reports /\ opr_kind r = kind /\ opr_status r = Success) /\
    Forall (fun r => ~ (opr_kind r = kind /\ opr_status r = Failed /\ opr_source r = FragmentSet))
      reports) (rp_required_options policy).
Proof.
  intros Hf. apply Forall_forall. intros k Hk%list_elem_of_In.
  pose proof (find_none _ _ Hf _ Hk) as Hb. cbv beta in Hb. apply orb_false_iff in Hb as [Hfail Hok].
  split.
  - apply negb_false_iff, existsb_true in Hok as (r & Hr & [H1 H2]%andb_true_iff).
    exists r. split; [done|]. by rewrite !bool_decide_eq_true in *.
  - apply existsb_false in Hfail. apply (Forall_impl _ _ _ Hfail). intros r Hr (Hk' & Hs & Hsrc).
    by rewrite !bool_decide_true in Hr.
Qed.

Lemma ocs_requirement_satisfied_true reports :
  ocs_requirement_satisfied reports = true ->
  (exists r, r ∈ reports /\ (ocr_status r = StValid \/ ocr_status r = StUnused)) /\
  Forall (fun r => ocr_status r <> StFailed /\ ocr_status r <> StInvalidZero /\
                   ocr_status r <> StUnobserved) reports.
Proof.
  intros [Hf Hs]%andb_true_iff. split.
  - apply existsb_true in Hs as (r & Hr & Hs). exists r. split; [done|].
    destruct (ocr_status r); auto; done.
  - apply negb_true_iff, existsb_false in Hf. apply (Forall_impl _ _ _ Hf). intros r Hr.
    by destruct (ocr_status r).
Qed.

(** ** Properties *)

Definition example_src : Ipv4Addr := Build_Ipv4Addr 10 0 0 1.
Definition example_dst : Ipv4Addr := Build_Ipv4Addr 10 0 0 2.

Definition example_addrs : DatagramAddrs :=
  {| da_src := example_src; da_dst := example_dst; da_src_port := 4000; da_dst_port := 5000 |}.

(** Datagrams of at most 60 bytes. *)
Definition example_send_config : SendConfig :=
  {| cf_max_datagram_len := 60; cf_peer := PeerFragmentLimits_default_ipv4; cf_fragmentation := Auto;
     cf_identification := Some 7 |}.

Definition example_send_options : SendOptions :=
  {| so_raw_options := [{| ro_kind := Mds; ro_value := [5; 0xdc] |}]; so_include_apc := true |}.

Definition example_policy : ReceivePolicy :=
  {| rp_required_options := [Apc]; rp_drop_all_option_bearing := false; rp_ocs_required := true |}.

(** The same options with a payload that fits one datagram. *)
Definition example_small : list (list Z) :=
  match @build_outgoing_datagrams crc32c_bitwise example_addrs [1; 2; 3] example_send_options
          example_send_config with
  | Some (Ok ds) => ds
  | _ => []
  end.

(** A receiver that drops all option-bearing datagrams delivers exactly the
    ordinary ones: a datagram with a surplus area is filtered before the pipeline
    (and the reassembly cache) sees it, header and checksum errors are reported as
    the pipeline reports them, and anything else is its plain user data, subject
    to the rest of the policy. *)
Theorem drop_all_option_bearing_filters `{Crc32c} (d : list Z) (c : ReassemblyCache) (now : Z)
    (policy : ReceivePolicy) :
  bytes d -> rp_drop_all_option_bearing policy = true ->
  exists r, receive_udp d = Some r /\
    decode_datagram d c now policy =
    Some (match r with
          | Err e => Err e
          | Ok v =>
              match locate_surplus (uv_ip v) (uv_udp v) with
              | Some _ => Ok ApiFiltered
              | None => Ok (apply_policy policy
                  {| pl_data := uv_user_data v; pl_options := []; pl_option_bearing := false;
                     pl_reports := [];
                     pl_ocs_reports := [{| ocr_status := StAbsent; ocr_source := Datagram |}] |})
              end
          end, c).
Proof.
  intros Hb Hd. destruct (receive_udp_spec d Hb) as (r & Hr & _). exists r. split; [done|].
  unfold decode_datagram. rewrite Hd, wire_option_bearing_spec, Hr by done.
  destruct r as [v|e]; [|done]. destruct (locate_surplus (uv_ip v) (uv_udp v)) eqn:El; [done|].
  unfold process_datagram. cbn [process_datagram_inner]. rewrite Hr. unfold receive_options. by rewrite El.
Qed.

Lemma drop_all_option_bearing_filters_witness :
  let policy := ReceivePolicy_drop_all_option_bearing ReceivePolicy_new true in
  @decode_datagram crc32c_bitwise example_wire ReassemblyCache_new 0 policy
    = Some (Ok ApiFiltered, ReassemblyCache_new) /\
  exists r, receive_udp example_wire = Some r.
Proof.
  split; [vm_compute; reflexivity|].
  destruct (@drop_all_option_bearing_filters crc32c_bitwise example_wire ReassemblyCache_new 0
    (ReceivePolicy_drop_all_option_bearing ReceivePolicy_new true)) as (r & Hr & _).
  - apply example_wire_bytes.
  - reflexivity.
  - exists r. exact Hr.
Defined.

(** C21. The receive policy holds of everything handed to the application: each
    required option was processed successfully and failed in no fragment; if the
    OCS is required, some OCS was confirmed (or legitimately unused) and none
    failed, was an invalid zero, or went unobserved. *)
Theorem policy_enforced `{Crc32c} (d : list Z) (c c' : ReassemblyCache) (now : Z)
    (policy : ReceivePolicy) (rd : ReceivedDatagram) :
  decode_datagram d c now policy = Some (Ok (ApiReceived rd), c') ->
  Forall (fun kind =>
    (exists r, r ∈ rd_reports rd /\ opr_kind r = kind /\ opr_status r = Success) /\
    Forall (fun r => ~ (opr_kind r = kind /\ opr_status r = Failed /\ opr_source r = FragmentSet))
      (rd_reports rd)) (rp_required_options policy) /\
  (rp_ocs_required policy = true ->
   (exists r, r ∈ rd_ocs_reports rd /\ (ocr_status r = StValid \/ ocr_status r = StUnused)) /\
   Forall (fun r => ocr_status r <> StFailed /\ ocr_status r <> StInvalidZero /\
                    ocr_status r <> StUnobserved) (rd_ocs_reports rd)).
Proof.
  unfold decode_datagram. destruct (if rp_drop_all_option_bearing policy then _ else _) as [[[]|]|]; try done.
  destruct (process_datagram d c now) as [[[[p| |]|] c1]|]; try done. unfold apply_policy.
  destruct (_ && pl_option_bearing p); [done|].
  destruct (missing_required_option policy (pl_reports p)) eqn:Em; [done|].
  destruct (rp_ocs_required policy && _) eqn:Eo; [done|]. intros [= <- <-]. cbn [rd_reports rd_ocs_reports].
  split; [by apply missing_required_option_None|]. intros Hq. rewrite Hq in Eo. cbn [andb] in Eo.
  by apply ocs_requirement_satisfied_true, negb_false_iff.
Qed.

Lemma policy_enforced_witness :
  exists rd c', @decode_datagram crc32c_bitwise (nth 0 example_small []) ReassemblyCache_new 0 example_policy
      = Some (Ok (ApiReceived rd), c') /\
    exists r, r ∈ rd_reports rd /\ opr_kind r = Apc /\ opr_status r = Success.
Proof.
  destruct (@decode_datagram crc32c_bitwise (nth 0 example_small []) ReassemblyCache_new 0 example_policy)
    as [[[[rd| | |]|] c']|] eqn:E; try (vm_compute in E; discriminate E).
  exists rd, c'. split; [reflexivity|].
  destruct (@policy_enforced crc32c_bitwise _ _ _ _ _ _ E) as [H _].
  inversion H as [|k l [Hk _] Hl]. exact Hk.
Defined.

(** C26. Receiving at a peer is total and hostile datagrams are not errors: for any
    bytes the socket returns, [Peer_recv] answers with a datagram or with nothing,
    never with an error (errors come from the socket alone), keeps the reassembly
    cache valid and changes nothing else. *)
Theorem peer_recv_total `{Crc32c} (self : Peer) (received : result (option (list Z)) SocketError)
    (now : Z) :
  match received with Ok (Some d) => bytes d | _ => True end -> Cache_wf (pe_cache self) ->
  exists r cache, Peer_recv self received now = Some (r, Peer_set_cache self cache) /\
    Cache_wf cache /\ rc_limits cache = rc_limits (pe_cache self) /\
    (forall e, r = Err e <-> exists s, received = Err s /\ e = RecvSocket s).
Proof.
  intros Hb Hc. destruct received as [[d|]|s].
  - destruct (decode_ok d (pe_cache self) now (pe_receive self) Hb Hc) as (r & c' & Hd & Hc' & HL & Hr).
    unfold Peer_recv. rewrite Hd. destruct r as [dl|e].
    + destruct dl; (do 2 eexists; split; [done|]; split; [done|]; split; [done|]);
        intros e; (split; [done|by intros (? & ? & _)]).
    + assert (forall s, e <> RecvSocket s) as Hne by (intros s ->; by eapply Hr).
      exists (Ok None), c'. split; [by destruct e; try done; destruct (Hne e)|]. split; [done|].
      split; [done|]. intros e'. split; [done|by intros (? & ? & _)].
  - exists (Ok None), (pe_cache self). split; [by destruct self|]. split; [done|]. split; [done|].
    intros e. split; [done|by intros (? & ? & _)].
  - exists (Err (RecvSocket s)), (pe_cache self). split; [by destruct self|]. split; [done|].
    split; [done|]. intros e. split; [intros [= <-]; eauto|]. by intros (s' & [= ->] & ->).
Qed.

Definition example_peer : Peer :=
  {| pe_receiver := {| rr_dst_port := da_src_port example_addrs; rr_src_port := Some (da_dst_port example_addrs);
                       rr_own_src := None |};
     pe_cache := ReassemblyCache_new; pe_addrs := example_addrs; pe_send := SendConfig_default;
     pe_receive := ReceivePolicy_new; pe_identifications := IdentificationGenerator_new 0 |}.

Lemma peer_recv_total_witness :
  @Peer_recv crc32c_bitwise example_peer (Ok (Some [69; 0; 0])) 0 = Some (Ok None, example_peer) /\
  exists r cache, @Peer_recv crc32c_bitwise example_peer (Ok (Some [69; 0; 0])) 0
    = Some (r, Peer_set_cache example_peer cache) /\ Cache_wf cache.
Proof.
  split; [vm_compute; reflexivity|].
  destruct (@peer_recv_total crc32c_bitwise example_peer (Ok (Some [69; 0; 0])) 0)
    as (r & c & H1 & H2 & _).
  - cbv iota. evaluate.
  - apply with_limits_wf, ReassemblyLimits_default_wf.
  - exists r, c. split; [exact H1|exact H2].
Defined.

(** Typed options reach the serializer intact: for every option type that
    meets the typed-option laws, [push_typed] does not panic on a well-formed
    option and appends a raw option of its kind whose value decodes to it. *)
Lemma push_typed_total (T : Type) `{TypedOptionLaws T} (s : SendOptions) (x : T) :
  typed_wf x ->
  exists o, SendOptions_push_typed s x = Some (SendOptions_push_raw s o) /\
    ro_kind o = KIND T /\ RawOption_wf o /\ decode (ro_value o) = Some (Ok x).
Proof.
  intros Hx. destruct (typed_value_bytes x Hx) as [Hb Hl].
  destruct (typed_kind_ok (T := T)) as [Hk Hr].
  exists {| ro_kind := KIND T; ro_value := typed_value x |}.
  split; [|split; [done|split; [split; [unfold OptionKind_wf, u8; simpl; lia|done]|by apply typed_decode_value]]].
  unfold SendOptions_push_typed, raw_from_typed. rewrite typed_encode by done. cbn [app].
  rewrite <- (app_nil_r (typed_value x)) at 2.
  pose proof (len_nonneg (typed_value x)).
  destruct (next_short (to_byte (KIND T)) (typed_value x) []) as [it Hn].
  - unfold KIND_EOL. lia.
  - unfold KIND_NOP. lia.
  - done.
  - rewrite app_nil_r. constructor; [unfold u8; lia|]. constructor; [unfold u8; lia|]. done.
  - rewrite Hn. unfold RawOption_from, option_ref. cbn [or_kind or_value]. by rewrite Hk.
Qed.
