(* ===== verification/EndToEnd.v ===== *)
(** End-to-end theorems: what the send side builds, the receive side delivers.

    The first part follows the options of a finished body through
    [parse_options], the second an assembled datagram through [process_datagram];
    fragmented datagrams follow in [FragEndToEnd]. *)

From S2P Require Import Prelude Model Kind Parse Typed Serialize Checksum Ip Udp Surplus Ocs.
From S2P Require Import Split Reassembly FragRoundtrip RecvOptions Pipeline Socket Api.

(** ** Options of a finished body *)

(** The kinds the receive side reports and delivers: the API's unique kinds. *)
Abbreviation reportable := is_high_level_unique_kind.

Definition raw_byte (o : RawOption) : Z := to_byte (ro_kind o).

(** An option a sender may attach: it passes validation and it is not FRAG. *)
Definition sendable (o : RawOption) : Prop :=
  RawOption_wf o /\ validate_option o = Ok tt /\ raw_byte o <> KIND_FRAG.

(** Reportable kinds occur at most once. *)
Fixpoint unique_reportable (os : list RawOption) : Prop :=
  match os with
  | [] => True
  | o :: rest =>
      (reportable (raw_byte o) = true -> Forall (fun o' => raw_byte o' <> raw_byte o) rest) /\
      unique_reportable rest
  end.

(** What becomes of a sendable option next to [user_data]: a kind the receiver does not
    report is ignored, an APC that is not the checksum of the data fails, anything else
    succeeds. *)
Definition sent_status `{Crc32c} (user_data : list Z) (o : RawOption) : OptionStatus :=
  if negb (reportable (raw_byte o)) then Ignored
  else if (raw_byte o =? KIND_APC) && negb (bool_decide (ro_value o = u32_to_be (crc32c user_data)))
  then Failed else Success.

(** The options handed over are those that succeed. *)
Definition delivered_options `{Crc32c} (user_data : list Z) (os : list RawOption) : list RawOption :=
  normalize <$> filter (fun o => sent_status user_data o = Success) os.

Definition delivered_reports `{Crc32c} (user_data : list Z) (os : list RawOption) : list OptionReport :=
  (fun o => report (from_byte (raw_byte o)) (sent_status user_data o)) <$> os.

(** What validation says about the kind and the value length. *)
Lemma sendable_cases o :
  sendable o ->
  let k := raw_byte o in
  let n := len (ro_value o) in
  encodable o /\ (k = 2 /\ n = 4 \/ k = 4 /\ n = 2 \/ k = 5 /\ n = 3 \/ k = 6 /\ n = 4 \/ k = 7 /\ n = 4 \/
   (10 <= k < 127)).
Proof.
  intros (Hw & Hv & Hf). unfold raw_byte in *.
  destruct (validate_option_encodable o Hw Hv) as [He _]. cbv zeta. split; [done|].
  apply validate_option_allowed in Hv; [|done]. unfold allowed_option in Hv. cbv zeta in Hv.
  unfold KIND_FRAG in Hf. lia.
Qed.

Lemma from_byte_other k : 10 <= k -> from_byte k = Other k.
Proof. intros. unfold from_byte. unfold_consts. bool_cases; done || lia. Qed.

Section options.
Context `{Crc32cSpec} (user_data : list Z).

(** One loop iteration on a sent option. *)
Definition after_option (s : parse_state) (o : RawOption) (seen : list bool) : parse_state :=
  {| ps_options := ps_options s ++ (if decide (sent_status user_data o = Success) then [normalize o] else []);
     ps_reports := ps_reports s ++ delivered_reports user_data [o];
     ps_seen := seen; ps_frag := ps_frag s;
     ps_unsupported_unsafe_seen := ps_unsupported_unsafe_seen s |}.

Lemma parse_once_first s o at_ :
  len (ps_seen s) = 256 -> get (ps_seen s) (raw_byte o) = Some false -> u8 (raw_byte o) ->
  reportable (raw_byte o) = true ->
  exists seen, parse_once s (option_ref (raw_byte o) (ro_value o) at_) (Some (sent_status user_data o))
    = Some (Continue (after_option s o seen)) /\ len seen = 256 /\
    forall j, 0 <= j -> j <> raw_byte o -> get seen j = get (ps_seen s) j.
Proof.
  intros Hl Hg Hk Hr. unfold parse_once, option_ref. cbn [or_kind]. rewrite to_byte_from_byte.
  destruct (mark_seen_once_spec (ps_seen s) (raw_byte o) Hl Hk) as (first & seen & -> & Hl' & Hf & Hs).
  rewrite Hg in Hf. destruct first; [|done]. exists seen. split; [|split; [done|]].
  - unfold after_option, delivered_reports. cbn [fmap list_fmap].
    destruct (sent_status user_data o); (done || by rewrite app_nil_r).
  - intros j Hj Hne. rewrite Hs by done. destruct (Z.eqb_spec (raw_byte o) j); [by subst|done].
Qed.

Lemma reject_sub_minimum_sent o at_ :
  sendable o -> reject_sub_minimum (option_ref (raw_byte o) (ro_value o) at_) = Ok tt.
Proof.
  intros Ho. destruct (sendable_cases o Ho) as [_ Hc]. cbv zeta in Hc.
  unfold reject_sub_minimum, minimum_known_tlv_len, option_ref, fixed_tlv_lengths. cbn [or_kind or_value].
  rewrite to_byte_from_byte. change TLV_HEADER_LEN with 2. unfold_consts.
  set (k := raw_byte o) in *. set (n := len (ro_value o)) in *. clearbody k n.
  assert ((k =? 8) = false /\ (k =? 127) = false) as [-> ->] by (split; apply Z.eqb_neq; lia).
  destruct Hc as [[-> ->]|[[-> ->]|[[-> ->]|[[-> ->]|[[-> ->]|Hk]]]]]; try reflexivity.
  bool_cases; done || lia.
Qed.

(** The code compares decoded checksums, the specification the bytes of the value. *)
Lemma accepts_apc_sent o at_ :
  sendable o -> raw_byte o = KIND_APC ->
  accepts_apc (option_ref (raw_byte o) (ro_value o) at_) user_data = Some (sent_status user_data o).
Proof.
  intros Ho Hk. destruct (sendable_cases o Ho) as [_ Hc]. cbv zeta in Hc. rewrite Hk in Hc.
  assert (len (ro_value o) = 4) as (a & b & c & d & Hv)%len_4_inv by (unfold KIND_APC in Hc; lia).
  destruct Ho as ([_ Hb] & _). unfold sent_status, accepts_apc, option_ref. cbn [or_value].
  rewrite Hk. change (reportable KIND_APC) with true. cbn [negb]. rewrite Z.eqb_refl. cbn [andb].
  destruct (bool_decide_reflect (ro_value o = u32_to_be (crc32c user_data))) as [->|Hne]; cbn [negb].
  - unfold u32_to_be. rewrite Apc_decode_bytes, u32_from_to_be by apply crc32c_u32. by rewrite decide_True.
  - destruct (Apc_decode (ro_value o)) as [[x|e]|] eqn:E; [|by rewrite Hv in E|by rewrite Hv in E].
    apply (Apc_decode_Ok _ _ Hb) in E. rewrite decide_False; [done|]. by intros ->.
Qed.

(** Any other reportable option succeeds. *)
Lemma sent_status_other o :
  reportable (raw_byte o) = true -> raw_byte o <> KIND_APC -> sent_status user_data o = Success.
Proof. intros Hr Hk. unfold sent_status. rewrite Hr. cbn [negb]. by destruct (Z.eqb_spec (raw_byte o) KIND_APC). Qed.

Lemma parse_body_sent s o at_ :
  sendable o -> len (ps_seen s) = 256 ->
  (reportable (raw_byte o) = true -> get (ps_seen s) (raw_byte o) = Some false) ->
  exists seen,
    parse_body false user_data s (Ok (option_ref (raw_byte o) (ro_value o) at_))
      = Some (Continue (after_option s o seen)) /\ len seen = 256 /\
    forall j, 0 <= j -> j <> raw_byte o -> get seen j = get (ps_seen s) j.
Proof.
  intros Ho Hl Hg. unfold parse_body. cbn [andb negb]. rewrite (reject_sub_minimum_sent o at_ Ho).
  destruct (sendable_cases o Ho) as [He Hc]. cbv zeta in Hc.
  assert (u8 (raw_byte o)) as Hu by apply He.
  unfold parse_kind. set (r := option_ref (raw_byte o) (ro_value o) at_).
  change (or_kind r) with (from_byte (raw_byte o)). change (or_value r) with (ro_value o).
  destruct Hc as [[Hk Hn]|[[Hk Hn]|[[Hk Hn]|[[Hk Hn]|[[Hk Hn]|Hk]]]]].
  - replace (from_byte (raw_byte o)) with Apc by (by rewrite Hk).
    unfold r. rewrite (accepts_apc_sent o at_ Ho Hk). apply parse_once_first; [done|apply Hg; by rewrite Hk|done|by rewrite Hk].
  - replace (from_byte (raw_byte o)) with Mds by (by rewrite Hk).
    apply len_2_inv in Hn as (a & b & Hv).
    replace (decode_status (Mds_decode (ro_value o))) with (Some (sent_status user_data o))
      by (rewrite sent_status_other by (by rewrite Hk); by rewrite Hv).
    apply parse_once_first; [done|apply Hg; by rewrite Hk|done|by rewrite Hk].
  - replace (from_byte (raw_byte o)) with Mrds by (by rewrite Hk).
    apply len_3_inv in Hn as (a & b & c & Hv).
    replace (decode_status (Mrds_decode (ro_value o))) with (Some (sent_status user_data o))
      by (rewrite sent_status_other by (by rewrite Hk); by rewrite Hv).
    apply parse_once_first; [done|apply Hg; by rewrite Hk|done|by rewrite Hk].
  - replace (from_byte (raw_byte o)) with Req by (by rewrite Hk).
    apply len_4_inv in Hn as (a & b & c & d & Hv).
    replace (decode_status (Req_decode (ro_value o))) with (Some (sent_status user_data o))
      by (rewrite sent_status_other by (by rewrite Hk); by rewrite Hv).
    apply parse_once_first; [done|apply Hg; by rewrite Hk|done|by rewrite Hk].
  - replace (from_byte (raw_byte o)) with Res by (by rewrite Hk).
    apply len_4_inv in Hn as (a & b & c & d & Hv).
    replace (decode_status (Res_decode (ro_value o))) with (Some (sent_status user_data o))
      by (rewrite sent_status_other by (by rewrite Hk); by rewrite Hv).
    apply parse_once_first; [done|apply Hg; by rewrite Hk|done|by rewrite Hk].
  - rewrite (from_byte_other (raw_byte o)) by lia. exists (ps_seen s). split; [|done].
    assert (is_safe (Other (raw_byte o)) = true) as -> by (apply Z.ltb_lt; unfold KIND_UNSAFE_MIN; simpl; lia).
    assert (reportable (raw_byte o) = false) as Hr.
    { unfold is_high_level_unique_kind. unfold_consts. bool_cases; done || lia. }
    unfold after_option, delivered_reports, sent_status. cbn [fmap list_fmap]. rewrite Hr, from_byte_other by lia.
    cbn [negb]. by rewrite app_nil_r.
Qed.

(** The whole area. *)
Lemma parse_area os : forall off n s,
  Forall sendable os -> unique_reportable os -> len (ps_seen s) = 256 ->
  Forall (fun o => reportable (raw_byte o) = true -> get (ps_seen s) (raw_byte o) = Some false) os ->
  exists seen,
    for_items (parse_body false user_data) (area_items off n os) s =
    Some (inl {| ps_options := ps_options s ++ delivered_options user_data os;
                 ps_reports := ps_reports s ++ delivered_reports user_data os; ps_seen := seen;
                 ps_frag := ps_frag s;
                 ps_unsupported_unsafe_seen := ps_unsupported_unsafe_seen s |}).
Proof.
  induction os as [|o os IH]; intros off n s Hs Hu Hl Hg.
  - exists (ps_seen s). simpl. rewrite !app_nil_r. by destruct s.
  - apply Forall_cons in Hs as [Ho Hs]. apply Forall_cons in Hg as [Hgo Hg]. destruct Hu as [Huo Hu].
    cbn [area_items]. cbv zeta. fold (raw_byte o).
    set (p := if n mod 2 =? 1 then 1 else 0).
    match goal with |- context [(if n mod 2 =? 1 then _ else _) ++ ?tl] =>
      assert (for_items (parse_body false user_data)
        ((if n mod 2 =? 1 then [Ok (option_ref KIND_NOP [] 0)] else []) ++ tl) s
        = for_items (parse_body false user_data) tl s) as -> by (by destruct (n mod 2 =? 1))
    end.
    cbn [for_items].
    destruct (parse_body_sent s o (off + p + (if len (ro_value o) <=? 252 then 2 else 4)) Ho Hl Hgo)
      as (seen1 & -> & Hl1 & Hs1).
    destruct (IH (off + p + len (tlv o)) (n + p + len (tlv o)) (after_option s o seen1) Hs Hu Hl1)
      as (seen2 & ->).
    { rewrite Forall_forall in *. intros o' Ho' Hr. cbn [ps_seen after_option].
      destruct (decide (raw_byte o' = raw_byte o)) as [Heq|Hne].
      - rewrite Heq in Hr. by destruct (Huo Hr o' Ho').
      - rewrite Hs1; [by apply Hg| |done].
        destruct (sendable_cases o' (Hs o' Ho')) as [(((? & ?) & _) & _) _]. done. }
    exists seen2. do 3 f_equal; cbn [ps_options ps_reports after_option].
    + unfold delivered_options. rewrite <- app_assoc, filter_cons. f_equal.
      by destruct (decide (sent_status user_data o = Success)).
    + by rewrite <- app_assoc.
Qed.

(** No fragment context: FRAG is absent. *)
Lemma limit_area bs opt_off os : forall off n,
  Forall sendable os -> for_items (limit_body bs opt_off) (area_items off n os) tt = Some (inr Full).
Proof.
  induction os as [|o os IH]; intros off n Hs; [done|]. apply Forall_cons in Hs as [Ho Hs].
  cbn [area_items]. cbv zeta. fold (raw_byte o).
  match goal with |- context [(if n mod 2 =? 1 then _ else _) ++ ?tl] =>
    assert (for_items (limit_body bs opt_off)
      ((if n mod 2 =? 1 then [Ok (option_ref KIND_NOP [] 0)] else []) ++ tl) tt
      = for_items (limit_body bs opt_off) tl tt) as -> by (by destruct (n mod 2 =? 1))
  end.
  assert (forall at_, limit_body bs opt_off tt (Ok (option_ref (raw_byte o) (ro_value o) at_))
    = Some (Continue tt)) as Hb; [|cbn [for_items]; rewrite Hb; by apply IH].
  intros at_. destruct (sendable_cases o Ho) as [_ Hc]. cbv zeta in Hc. unfold limit_body.
  change (or_kind (option_ref (raw_byte o) (ro_value o) at_)) with (from_byte (raw_byte o)).
  destruct Hc as [[-> _]|[[-> _]|[[-> _]|[[-> _]|[[-> _]|Hk]]]]]; try reflexivity.
  rewrite from_byte_other by lia. unfold is_unsafe, is_safe. unfold KIND_UNSAFE_MIN. simpl.
  by destruct (Z.ltb_spec (raw_byte o) 192); [|lia].
Qed.
End options.

Lemma for_each_items {St R} (body : St -> item -> option (flow St R)) bs items it s x :
  drain_all bs = Some (items, it) -> for_items body items s = Some x ->
  exists it', for_each body (parse_fuel bs) (OptionsIter_new bs) s = Some (x, it').
Proof.
  intros Hd Hf. pose proof (for_each_drain body _ _ _ _ s Hd) as He. rewrite Hf in He.
  destruct (for_each _ _ _ _) as [[y it']|]; [|done]. simpl in He. simplify_eq. eauto.
Qed.

Lemma unique_reportable_NoDup os :
  NoDup (filter (fun b => reportable b = true) (raw_byte <$> os)) -> unique_reportable os.
Proof.
  induction os as [|o os IH]; [done|]. cbn [fmap list_fmap unique_reportable]. rewrite filter_cons.
  destruct (decide (reportable (raw_byte o) = true)) as [Hr|Hr].
  - intros [Hn Hd]%NoDup_cons. split; [|by apply IH]. intros _. apply Forall_forall. intros o' Ho' Heq.
    apply Hn. apply list_elem_of_filter. split; [done|]. rewrite <- Heq. by apply list_elem_of_fmap_2.
  - intros Hd. split; [done|by apply IH].
Qed.

Section sent_body.
Context `{Crc32cSpec} (user_data : list Z).

Definition parsed_sent (os : list RawOption) : ParsedOptions :=
  {| po_options := delivered_options user_data os; po_reports := delivered_reports user_data os; po_frag := None;
     po_unsupported_unsafe_seen := false; po_fragment_failed := false |}.

Lemma sendable_encodable os : Forall (sendable) os -> Forall encodable os.
Proof. intros Hs. apply (Forall_impl _ _ _ Hs). intros o Ho. by destruct (sendable_cases o Ho). Qed.

Lemma limit_sent os opt_off :
  Forall (sendable) os ->
  fragment_option_limit (sub (options_body_bytes os) 2 (len (options_body_bytes os))) (is_nil user_data) opt_off
  = Some Full.
Proof.
  intros Hs. destruct (options_body_drain os (sendable_encodable os Hs)) as [it Hd]. set (bs := sub _ _ _) in *.
  unfold fragment_option_limit. destruct (is_nil user_data); [|done]. cbn [negb].
  destruct (for_each_items (limit_body bs opt_off) bs _ it tt _ Hd (limit_area bs opt_off os 0 2 Hs))
    as [it' ->]. done.
Qed.

Lemma parse_options_sent os opt_off :
  Forall (sendable) os -> unique_reportable os ->
  parse_options (sub (options_body_bytes os) 2 (len (options_body_bytes os))) user_data opt_off
  = Some (Ok (parsed_sent os)).
Proof.
  intros Hs Hu. unfold parse_options. rewrite (limit_sent os opt_off Hs). cbv iota zeta.
  destruct (options_body_drain os (sendable_encodable os Hs)) as [it Hd]. set (bs := sub _ _ _) in *.
  destruct (parse_area user_data os 0 2 parse_state_init Hs Hu eq_refl) as [seen Hp].
  { apply Forall_forall. intros o Ho _. rewrite Forall_forall in Hs.
    destruct (sendable_cases o (Hs o Ho)) as [(((H1 & H2) & _) & _) _]. fold (raw_byte o) in H1, H2.
    unfold get. destruct (Z.leb_spec 0 (raw_byte o)); [|lia]. apply lookup_replicate_2. lia. }
  destruct (for_each_items (parse_body false user_data) bs _ it _ _ Hd Hp) as [it' ->]. done.
Qed.

Lemma patch_sent start os :
  Forall (sendable) os -> patch_option start <$> os = os.
Proof.
  induction 1 as [|o os (_ & _ & Hf) _ IH]; [done|]. cbn [fmap list_fmap]. unfold patch_option at 1.
  destruct (Z.eqb_spec (to_byte (ro_kind o)) KIND_FRAG); [done|]. f_equal. apply IH.
Qed.

(** The finished body of sendable options. *)
Lemma finish_sent b body :
  Forall (sendable) (ob_options b) -> OptionsBuilder_finish b = Some (Ok body) ->
  body = options_body_bytes (sort_by_rank (ob_options b)) /\
  Forall (sendable) (sort_by_rank (ob_options b)).
Proof.
  intros Hs Hf.
  assert (Forall (sendable) (sort_by_rank (ob_options b))) as Hs'
    by (by rewrite sort_by_rank_perm).
  split; [|done]. destruct (finish_Ok b body) as (_ & _ & _ & ->); [|done|].
  - apply (Forall_impl _ _ _ Hs). by intros o [? _].
  - unfold finished. by rewrite patch_sent.
Qed.
End sent_body.

(** ** A datagram with a surplus area *)

Section received.
Context `{Crc32c}.

(** Without FRAG and unsafe options the datagram is delivered. *)
Lemma dispatch_sent reprocess v c now allowed data os st :
  dispatch reprocess v c now allowed (parsed_sent data os) st =
  Some (Ok (DeliverPayload
    {| pl_data := uv_user_data v; pl_options := delivered_options data os; pl_option_bearing := true;
       pl_reports := delivered_reports data os;
       pl_ocs_reports := [{| ocr_status := st; ocr_source := Datagram |}] |}), c).
Proof.
  unfold dispatch. cbn [parsed_sent po_frag po_fragment_failed po_unsupported_unsafe_seen].
  by destruct (is_nil (uv_user_data v)).
Qed.

Definition pad_of (data : list Z) : list Z := if len data mod 2 =? 1 then [0] else [].

Lemma locate_surplus_wire ip udp data pad a b rest :
  wire_wf ip udp (data ++ pad ++ a :: b :: rest) -> udp_length udp = 8 + len data ->
  len pad = len (pad_of data) ->
  locate_surplus ip udp =
  Some {| starts_at := 28 + len data; needs_pad := len data mod 2 =? 1;
          surplus_len := len pad + 2 + len rest |}.
Proof.
  intros (_ & Hihl & Htl & _) Hul Hpad. rewrite !len_app, !len_cons in Htl.
  pose proof (len_nonneg data). pose proof (len_nonneg rest). pose proof (len_nonneg pad).
  assert (IpRepr_header_len ip = 20) as Hhl by (unfold IpRepr_header_len; lia).
  assert (IpRepr_transport_payload_len ip = 10 + len data + len pad + len rest) as Htp
    by (unfold IpRepr_transport_payload_len, saturating_sub; lia).
  unfold locate_surplus, checked_sub. rewrite Hhl, Htp, Hul. change LENGTH_OCS with 2.
  destruct (Z.leb_spec (8 + len data) (10 + len data + len pad + len rest)); [|lia].
  replace (10 + len data + len pad + len rest - (8 + len data)) with (len pad + 2 + len rest) by lia.
  destruct (Z.eqb_spec (len pad + 2 + len rest) 0); [lia|]. cbv zeta.
  replace (20 + (8 + len data)) with (28 + len data) by lia.
  replace ((28 + len data) mod 2) with (len data mod 2) by dlia.
  assert (usize_of_bool (len data mod 2 =? 1) = len pad) as ->
    by (rewrite Hpad; unfold pad_of; by destruct (_ =? 1)).
  by destruct (Z.ltb_spec (len pad + 2 + len rest) (len pad + 2)); [lia|].
Qed.

(** Without bytes behind the UDP Length there is no surplus area. *)
Lemma locate_surplus_none ip udp tail :
  wire_wf ip udp tail -> udp_length udp = 8 + len tail -> locate_surplus ip udp = None.
Proof.
  intros (_ & Hihl & Htl & _) Hul. pose proof (len_nonneg tail). unfold locate_surplus, checked_sub.
  assert (IpRepr_transport_payload_len ip = 8 + len tail) as ->
    by (unfold IpRepr_transport_payload_len, saturating_sub, IpRepr_header_len; lia).
  by rewrite Hul, Z.leb_refl, Z.sub_diag.
Qed.

(** The pad byte is checked when there is one. *)
Lemma check_pad_wire ip udp data pad rest :
  len pad = len (pad_of data) -> 0 < len (pad ++ rest) ->
  exists x, get (wire ip udp (data ++ pad ++ rest)) (28 + len data) = Some x /\
    check_pad x (len data mod 2 =? 1) = if bool_decide (pad = pad_of data) then Ok tt else Err NonZeroPad.
Proof.
  intros Hpad Hpos. pose proof (len_nonneg data).
  assert (get (wire ip udp (data ++ pad ++ rest)) (28 + len data) = get (pad ++ rest) 0) as ->.
  { unfold wire. rewrite !app_assoc. rewrite <- (app_assoc _ pad). apply get_app_r.
    rewrite !len_app, len_ip_header, len_udp_header. lia. }
  destruct (get_is_Some (pad ++ rest) 0) as [x Hx]; [lia|]. exists x. split; [done|].
  unfold check_pad, pad_of in *. destruct (len data mod 2 =? 1); cbn [andb].
  - destruct pad as [|y [|z l]]; [done| |pose proof (len_nonneg l); rewrite !len_cons, (@len_nil Z) in Hpad; lia].
    cbn in Hx. injection Hx as ->. destruct (Z.eqb_spec x 0) as [->|Hn]; cbn [negb].
    + by rewrite bool_decide_true.
    + rewrite bool_decide_false; [done|]. by intros [= ->].
  - apply len_zero_nil in Hpad as ->. by rewrite bool_decide_true.
Qed.

Definition surplus_layout (data pad rest : list Z) : SurplusLayout :=
  {| starts_at := 28 + len data; needs_pad := len data mod 2 =? 1; surplus_len := len pad + 2 + len rest |}.

(** What the option stage reads of a datagram with any pad byte and any OCS. *)
Lemma surplus_view ip udp data pad a b rest :
  let v := wire_view ip udp (data ++ pad ++ a :: b :: rest) in
  let l := surplus_layout data pad rest in
  wire_wf ip udp (data ++ pad ++ a :: b :: rest) -> udp_length udp = 8 + len data -> len pad = len (pad_of data) ->
  uv_user_data v = data /\ locate_surplus (uv_ip v) (uv_udp v) = Some l /\
  (exists x, get (uv_datagram v) (starts_at l) = Some x /\
     check_pad x (needs_pad l) = if bool_decide (pad = pad_of data) then Ok tt else Err NonZeroPad) /\
  slice (uv_datagram v) (SurplusLayout_ocs_at l) (uv_ip_end v) = Some (a :: b :: rest) /\
  surplus_len l mod 65536 = len pad + 2 + len rest /\
  slice (a :: b :: rest) LENGTH_OCS (len (a :: b :: rest)) = Some rest /\
  SurplusLayout_ocs_at l + LENGTH_OCS - uv_udp_at v = 10 + len data + len pad.
Proof.
  intros v l Hw Hul Hpad. pose proof (wire_view_wf _ _ _ Hw) as Hv. fold v in Hv. set (tail := data ++ _) in *.
  pose proof (len_nonneg data). pose proof (len_nonneg rest). pose proof (len_nonneg pad).
  assert (len tail = len data + len pad + 2 + len rest) as Hlt
    by (unfold tail; rewrite !len_app, !len_cons; lia).
  pose proof (vw_max _ Hv) as Hmax. cbn [uv_ip_end wire_view v] in Hmax.
  assert (SurplusLayout_ocs_at l = 28 + len data + len pad) as Hat.
  { unfold SurplusLayout_ocs_at, l, surplus_layout. cbn [starts_at needs_pad].
    rewrite Hpad. unfold pad_of. by destruct (_ =? 1). }
  rewrite Hat. change LENGTH_OCS with 2. unfold v. cbn [uv_ip uv_udp uv_user_data uv_datagram uv_ip_end uv_udp_at wire_view].
  split; [unfold tail; apply sub_prefix; lia|].
  split; [by apply (locate_surplus_wire ip udp data pad a b rest)|].
  split; [apply (check_pad_wire ip udp data pad (a :: b :: rest) Hpad); rewrite len_app, !len_cons; lia|].
  split; [|split; [cbn; apply Z.mod_small; lia|split; [|lia]]].
  - rewrite slice_Some by (rewrite ?len_wire; lia). f_equal.
    replace (28 + len data + len pad) with (28 + (len data + len pad)) by lia.
    rewrite sub_wire by lia. unfold tail. rewrite app_assoc. apply sub_suffix; rewrite ?len_app; lia.
  - rewrite slice_Some by (rewrite ?len_cons; lia). f_equal.
    change (a :: b :: rest) with ([a; b] ++ rest). apply sub_suffix; [done|]. by rewrite len_app.
Qed.

(** A datagram with any pad byte and any OCS. *)
Lemma receive_options_surplus ip udp data pad a b rest chk :
  let tail := data ++ pad ++ a :: b :: rest in
  wire_wf ip udp tail -> udp_length udp = 8 + len data -> len pad = len (pad_of data) ->
  ocs_validate (a :: b :: rest) (len pad + 2 + len rest) (udp_checksum udp) = Some chk ->
  receive_options (wire_view ip udp tail) =
  if negb (bool_decide (pad = pad_of data))
  then Some (inl (deliver_without_options data true StFailed)) else
  let process st :=
    let! parsed := parse_options rest data (10 + len data + len pad) in
    Some match parsed with
         | Ok p => inr (p, st)
         | Err _ => inl (deliver_without_options data true st)
         end in
  match chk with
  | OcsValid => process StValid
  | OcsUnused => process StUnused
  | OcsIgnoreOptions => Some (inl (deliver_without_options data true StInvalidZero))
  | OcsError _ => Some (inl (deliver_without_options data true StFailed))
  end.
Proof.
  intros tail Hw Hul Hpad Hocs.
  destruct (surplus_view ip udp data pad a b rest Hw Hul Hpad) as (Hd & Hl & (x & Hx & Hc) & Hb & Hm & Hr & Ho).
  unfold receive_options, tail. rewrite Hl, Hx, Hc, Hd. destruct (bool_decide (pad = pad_of data)); [|done]. cbn [negb].
  rewrite Hb, Hm. change (udp_checksum (uv_udp _)) with (udp_checksum udp). rewrite Hocs, Hr, Ho.
  destruct chk; try done; by destruct (parse_options _ _ _).
Qed.

Lemma receive_options_wire ip udp data a b rest chk st :
  let tail := data ++ pad_of data ++ a :: b :: rest in
  wire_wf ip udp tail -> udp_length udp = 8 + len data ->
  ocs_validate (a :: b :: rest) (len (pad_of data) + 2 + len rest) (udp_checksum udp) = Some chk ->
  (chk = OcsValid /\ st = StValid \/ chk = OcsUnused /\ st = StUnused) ->
  receive_options (wire_view ip udp tail) =
  (let! parsed := parse_options rest data (10 + len data + len (pad_of data)) in
   Some match parsed with
        | Ok p => inr (p, st)
        | Err _ => inl (deliver_without_options data true st)
        end).
Proof.
  intros tail Hw Hul Hocs Hst. unfold tail.
  rewrite (receive_options_surplus _ _ _ _ _ _ _ _ Hw Hul eq_refl Hocs), bool_decide_true by done.
  by destruct Hst as [[-> ->]|[-> ->]].
Qed.
End received.

(** ** A datagram built and received *)

Lemma sort_unique_reportable os :
  NoDup (filter (fun b => reportable b = true) (raw_byte <$> os)) ->
  unique_reportable (sort_by_rank os).
Proof.
  intros Hn. apply unique_reportable_NoDup.
  by rewrite (Permutation_map raw_byte (sort_by_rank_perm os)).
Qed.

Section one_datagram.
Context `{Crc32cSpec} (src dst : Ipv4Addr) (src_port dst_port : Z) (user_data : list Z).

Lemma assembled_tail_cons a b rest :
  assembled_tail user_data (a :: b :: rest) =
  user_data ++ pad_of user_data
    ++ u16_to_be (ocs_value rest (len (pad_of user_data) + 2 + len rest)) ++ rest.
Proof.
  unfold assembled_tail, assembled_surplus, assembled_body, assembled_pad, pad_of. cbn [is_nil negb andb].
  rewrite !len_cons. set (pd := if len user_data mod 2 =? 1 then [0] else []).
  by replace (len pd + (1 + (1 + len rest))) with (len pd + 2 + len rest) by lia.
Qed.

(** An assembled datagram is a well-formed wire datagram that passes the UDP
    checksum. *)
Lemma assembled_wire body :
  assemble_wf src dst src_port dst_port user_data body ->
  let ip := assembled_ip src dst user_data body in
  let udp := assembled_udp src dst src_port dst_port user_data body in
  let tail := assembled_tail user_data body in
  wire_wf ip udp tail /\ receive_udp (wire ip udp tail) = Some (Ok (wire_view ip udp tail)).
Proof.
  intros Hw ip udp tail.
  assert (len body <> 1) as Hb1 by apply Hw.
  pose proof (len_assembled_tail user_data body Hb1) as Hlt.
  destruct (assembled_surplus_bounds user_data body) as [Hsb _]. pose proof (len_nonneg user_data).
  assert (wire_wf ip udp tail) as Hwire.
  { split; [by eapply assembled_ip_wf|]. split; [done|]. split; [unfold tail; rewrite Hlt; simpl; lia|].
    split; [by apply assembled_udp_wf|]. split; [unfold tail; simpl; lia|].
    by eapply assembled_tail_bytes. }
  split; [done|]. apply receive_udp_wire; [done|]. intros _. unfold udp, assembled_udp.
  rewrite udp_checksum_value_with_checksum. cbn [udp_checksum udp_length UdpHeader_with_checksum].
  unfold tail, assembled_tail. by rewrite sub_prefix by lia.
Qed.

(** The options of an assembled datagram are handed over with a valid OCS. *)
Lemma receive_options_assembled a b rest :
  assemble_wf src dst src_port dst_port user_data (a :: b :: rest) ->
  let body := a :: b :: rest in
  receive_options (wire_view (assembled_ip src dst user_data body)
    (assembled_udp src dst src_port dst_port user_data body) (assembled_tail user_data body)) =
  (let! parsed := parse_options rest user_data (10 + len user_data + len (pad_of user_data)) in
   Some match parsed with
        | Ok p => inr (p, StValid)
        | Err _ => inl (deliver_without_options user_data true StValid)
        end).
Proof.
  intros Hw body. destruct (assembled_wire body Hw) as [Hwire _].
  pose proof (assembled_surplus_bounds user_data body) as [Hsb _]. pose proof (len_nonneg user_data).
  assert (0 <= len (pad_of user_data) + 2 + len rest <= 65535) as Hn.
  { destruct Hw as (_ & _ & _ & _ & _ & _ & _ & Hm). fold body in Hm.
    assert (assembled_surplus user_data body = len (pad_of user_data) + 2 + len rest) as <-; [|lia].
    unfold assembled_surplus, assembled_pad, pad_of, body. cbn [is_nil negb andb]. rewrite !len_cons. lia. }
  assert (bytes rest) as Hr
    by (destruct Hw as (_ & _ & _ & _ & _ & Hb & _); by decompose_Forall_hyps).
  unfold body in *. rewrite assembled_tail_cons in *. cbn [u16_to_be app] in *.
  apply receive_options_wire with (chk := OcsValid); [done|done| |by left].
  apply (ocs_validate_compute rest); [done|]. unfold u16. lia.
Qed.
End one_datagram.

Section delivered.
Context `{Crc32cSpec} (src dst : Ipv4Addr) (src_port dst_port : Z) (user_data : list Z).

(** An assembled datagram with sendable options is delivered whole. *)
Lemma process_assembled os c now :
  let body := options_body_bytes os in
  Forall (sendable) os -> unique_reportable os ->
  assemble_wf src dst src_port dst_port user_data body ->
  process_datagram (wire (assembled_ip src dst user_data body)
    (assembled_udp src dst src_port dst_port user_data body) (assembled_tail user_data body)) c now =
  Some (Ok (DeliverPayload
    {| pl_data := user_data; pl_options := delivered_options user_data os;
       pl_option_bearing := true; pl_reports := delivered_reports user_data os;
       pl_ocs_reports := [{| ocr_status := StValid; ocr_source := Datagram |}] |}), c).
Proof.
  intros body Hs Hu Hw.
  destruct (assembled_wire src dst src_port dst_port user_data _ Hw) as [_ Hr].
  unfold process_datagram. cbn [process_datagram_inner]. rewrite Hr.
  destruct body as [|x [|y rest]] eqn:Eb; [done|done|].
  rewrite (receive_options_assembled src dst src_port dst_port user_data) by done.
  pose proof (parse_options_sent user_data os (10 + len user_data + len (pad_of user_data)) Hs Hu) as Hp.
  fold body in Hp. rewrite Eb in Hp.
  replace (sub (x :: y :: rest) 2 (len (x :: y :: rest))) with rest in Hp.
  2:{ symmetry. apply (sub_suffix [x; y] rest); [done|]. by rewrite !len_cons, Z.add_assoc. }
  rewrite Hp, dispatch_sent. unfold wire_view, assembled_tail. cbn [uv_user_data].
  rewrite sub_prefix; [done|]. simpl. lia.
Qed.
End delivered.

(** ** Properties: one datagram *)

(** C7. What a sender assembles, the receiver delivers: user data with any
    sendable options (no reportable kind twice) finished by the options builder and
    put into one datagram comes out of the receive pipeline with exactly that user
    data, the reportable options in canonical order (an APC only when it is the
    checksum of the data; a wrong one is reported as failed and not delivered), one
    report per option and a valid OCS; the cache is untouched. *)
Theorem send_receive_roundtrip `{Crc32cSpec} (src dst : Ipv4Addr) (src_port dst_port : Z)
    (user_data body : list Z) (b : OptionsBuilder) (c : ReassemblyCache) (now : Z) :
  Forall (sendable) (ob_options b) ->
  NoDup (filter (fun k => reportable k = true) (raw_byte <$> ob_options b)) ->
  OptionsBuilder_finish b = Some (Ok body) ->
  assemble_wf src dst src_port dst_port user_data body ->
  exists d, assemble_datagram src dst src_port dst_port user_data body = Some d /\
    process_datagram d c now =
    Some (Ok (DeliverPayload
      {| pl_data := user_data; pl_options := delivered_options user_data (sort_by_rank (ob_options b));
         pl_option_bearing := true; pl_reports := delivered_reports user_data (sort_by_rank (ob_options b));
         pl_ocs_reports := [{| ocr_status := StValid; ocr_source := Datagram |}] |}), c).
Proof.
  intros Hs Hn Hf Hw. destruct (finish_sent b body Hs Hf) as [-> Hs'].
  set (os := sort_by_rank (ob_options b)) in *.
  pose proof (sort_unique_reportable _ Hn) as Hu. fold os in Hu.
  rewrite assemble_spec by done. eexists. split; [done|]. by apply process_assembled.
Qed.

Definition example_options : OptionsBuilder :=
  {| ob_options := [ {| ro_kind := Req; ro_value := [1; 2; 3; 4] |};
                     {| ro_kind := Mds; ro_value := [5; 0xdc] |};
                     {| ro_kind := Other 20; ro_value := [7] |} ] |}.

Lemma send_receive_roundtrip_witness :
  let body := [0; 0; 4; 4; 5; 0xdc; 6; 6; 1; 2; 3; 4; 20; 3; 7; 0] in
  OptionsBuilder_finish example_options = Some (Ok body) /\
  exists d, assemble_datagram example_src example_dst 4000 5000 [97; 98; 99] body = Some d /\
    @process_datagram crc32c_bitwise d ReassemblyCache_new 0 =
    Some (Ok (DeliverPayload
      {| pl_data := [97; 98; 99];
         pl_options := [ {| ro_kind := Mds; ro_value := [5; 0xdc] |};
                         {| ro_kind := Req; ro_value := [1; 2; 3; 4] |} ];
         pl_option_bearing := true;
         pl_reports := [report Mds Success; report Req Success; report (Other 20) Ignored];
         pl_ocs_reports := [{| ocr_status := StValid; ocr_source := Datagram |}] |}),
      ReassemblyCache_new).
Proof.
  split; [reflexivity|].
  apply (@send_receive_roundtrip crc32c_bitwise crc32c_bitwise_u32 example_src example_dst 4000 5000
    [97; 98; 99] [0; 0; 4; 4; 5; 0xdc; 6; 6; 1; 2; 3; 4; 20; 3; 7; 0] example_options
    ReassemblyCache_new 0).
  - repeat constructor; vm_compute; try discriminate; try (intros; discriminate).
  - evaluate.
  - reflexivity.
  - unfold assemble_wf, Ipv4Addr_wf. evaluate.
Defined.
