(* ===== verification/FragEndToEnd.v ===== *)
(** End-to-end fragmentation: the fragments of a split datagram, each assembled
    into a datagram of its own, come out of the receive pipeline as the original
    payload and options, in whatever order they arrive.

    The first section follows one fragment datagram through [process_datagram] up
    to the cache, the second one the datagram rebuilt from a completed set through
    the second pass; [process_all_feed] joins them with the any-order reassembly of
    [FragRoundtrip]. *)

From S2P Require Import Prelude Model Kind Parse Typed Serialize Checksum Ip Udp Surplus Ocs.
From S2P Require Import Split Reassembly FragRoundtrip RecvOptions Pipeline Socket Api EndToEnd.

(** ** A fragment's options *)

Section fragment_options.
Context `{Crc32c}.

Definition parsed_frag (frag : FragOption) : ParsedOptions :=
  {| po_options := []; po_reports := []; po_frag := Some frag;
     po_unsupported_unsafe_seen := false; po_fragment_failed := false |}.

(** The option area of a fragment starts 10 bytes behind the UDP header and holds FRAG
    alone. *)
Lemma fragment_limit id off rdos data :
  fragment_wf id off rdos -> bytes data ->
  let v := Frag_value (fragment_frag id off rdos) in
  let bs := KIND_FRAG :: (len v + 2) :: v ++ data in
  fragment_option_limit bs true 10 = Some (End_ (len v + 2)) /\
  slice bs 0 (len v + 2) = Some (KIND_FRAG :: len v + 2 :: v ++ []) /\
  exists it, drain_all (KIND_FRAG :: len v + 2 :: v ++ []) = Some ([Ok (option_ref KIND_FRAG v 2)], it).
Proof.
  intros Hw Hd v bs. set (frag := fragment_frag id off rdos) in *.
  pose proof (fragment_frag_wf _ _ _ Hw) as Hf. fold frag in Hf.
  pose proof (bytes_Frag_value frag) as Hvb. pose proof (len_nonneg data).
  pose proof (Frag_decode_value frag Hf) as Hdec.
  assert (frag_start frag = 12 + len (Frag_value frag)) as Hst
    by (rewrite len_Frag_value; by destruct rdos).
  assert (len (Frag_value frag) = 8 \/ len (Frag_value frag) = 10) as Hvl
    by (rewrite len_Frag_value; destruct rdos; auto).
  fold v in Hvb, Hdec, Hst, Hvl. clearbody v.
  assert (bytes bs) as Hbs.
  { constructor; [unfold u8, KIND_FRAG; lia|]. constructor; [unfold u8; lia|]. by apply Forall_app. }
  split; [|split].
  - unfold fragment_option_limit, parse_fuel. cbn [negb for_each].
    destruct (next_short KIND_FRAG v data) as [it Hn]; [done|done|lia|done|]. fold bs in Hn.
    rewrite Hn. cbv beta iota. unfold limit_body. cbn [or_kind or_value option_ref].
    change (from_byte KIND_FRAG) with Frag. cbv iota. rewrite Hdec. unfold checked_sub.
    rewrite Hst. destruct (Z.leb_spec 10 (12 + len v)); [|lia].
    replace (12 + len v - 10) with (len v + 2) by lia. unfold option_end_offset. cbn [or_at or_value option_ref].
    destruct (Z.ltb_spec (len bs) (len v + 2)); [unfold bs in *; rewrite !len_cons, len_app in *; lia|].
    destruct (Z.ltb_spec (len v + 2) (2 + len v)); [lia|]. done.
  - rewrite slice_Some by (unfold bs; rewrite ?len_cons, ?len_app; lia). rewrite app_nil_r. f_equal.
    unfold bs. change (KIND_FRAG :: len v + 2 :: v ++ data) with ((KIND_FRAG :: len v + 2 :: v) ++ data).
    apply sub_prefix. rewrite !len_cons. lia.
  - apply drain_all_stream.
    { rewrite app_nil_r. constructor; [unfold u8, KIND_FRAG; lia|]. constructor; [unfold u8; lia|]. done. }
    eapply stream_cons; [apply head_short; [done|done|lia]|]. constructor.
Qed.

Lemma parse_options_fragment id off rdos data :
  fragment_wf id off rdos -> bytes data ->
  let frag := fragment_frag id off rdos in
  parse_options (KIND_FRAG :: (len (Frag_value frag) + 2) :: Frag_value frag ++ data) [] 10
  = Some (Ok (parsed_frag frag)).
Proof.
  intros Hw Hd frag. destruct (fragment_limit id off rdos data Hw Hd) as (Hlim & Hsl & it & Hdr).
  fold frag in Hlim, Hsl, Hdr. pose proof (Frag_decode_value frag (fragment_frag_wf _ _ _ Hw)) as Hdec.
  assert (len (Frag_value frag) = 8 \/ len (Frag_value frag) = 10) as Hvl
    by (rewrite len_Frag_value; destruct rdos; auto).
  set (v := Frag_value frag) in *. clearbody v.
  unfold parse_options. cbn [is_nil]. rewrite Hlim. cbv iota zeta. rewrite Hsl.
  destruct (for_each_items (parse_body true []) _ _ _ parse_state_init
    (inl (ps_set_frag (ps_set_seen parse_state_init (<[3%nat := true]> (replicate 256 false))) frag)) Hdr)
    as [it' ->]; [|done].
  cbn [for_items]. unfold parse_body. cbn [or_kind option_ref andb].
  assert (reject_sub_minimum (option_ref KIND_FRAG v 2) = Ok tt) as ->.
  { unfold reject_sub_minimum. cbn [or_value option_ref]. destruct Hvl as [-> | ->]; reflexivity. }
  unfold parse_kind, parse_frag. cbn [or_kind or_value option_ref].
  change (from_byte KIND_FRAG) with Frag. cbv iota. rewrite Hdec. done.
Qed.
End fragment_options.

(** ** A fragment datagram *)

Section fragment_datagram.
Context `{Crc32c} (src dst : Ipv4Addr) (src_port dst_port : Z).

Definition frag_body (x : arrival) : list Z := [0; 0] ++ encode x.1 [] ++ x.2.

(** The datagram that carries the fragment [x]. *)
Definition frag_datagram (x : arrival) : list Z :=
  wire (assembled_ip src dst [] (frag_body x))
    (assembled_udp src dst src_port dst_port [] (frag_body x)) (assembled_tail [] (frag_body x)).

Definition flow_key (id : Z) : FragKey :=
  {| fk_src := src; fk_dst := dst; fk_src_port := src_port; fk_dst_port := dst_port;
     fk_identification := id |}.

(** Fragments carry FRAG alone and a validated OCS. *)
Definition frag_processing : FragmentProcessing :=
  {| fp_options := []; fp_option_failures := []; fp_ocs_nonzero := Some true |}.

(** What follows the insertion into the cache. *)
Definition after_insert (now : Z) (x : arrival) (o : ReassemblyOutcome) (c : ReassemblyCache) :
    outcome :=
  match o with
  | Incomplete => Some (Ok Buffered, c)
  | Abort _ => Some (Ok Dropped, c)
  | Complete d =>
      let! re := reassembled_datagram (assembled_ip src dst [] (frag_body x))
                   (assembled_udp src dst src_port dst_port [] (frag_body x))
                   (co_udp_length d) (co_tail d) in
      match re with
      | None => Some (Ok Dropped, c)
      | Some bs =>
          let! (r, c) := process_datagram_inner 1 bs c now false in
          match r with
          | Err e => Some (Err e, c)
          | Ok dl => Some (Ok (merge_delivery d dl), c)
          end
      end
  end.

(** A fragment the sender produces: well formed and small enough. *)
Definition frag_sent (id : Z) (x : arrival) : Prop :=
  (exists off rdos, x.1 = fragment_frag id off rdos /\ fragment_wf id off rdos) /\ bytes x.2 /\
  assemble_wf src dst src_port dst_port [] (frag_body x).

Lemma frag_body_value id x :
  frag_sent id x ->
  frag_body x = 0 :: 0 :: KIND_FRAG :: (len (Frag_value x.1) + 2) :: Frag_value x.1 ++ x.2.
Proof.
  intros ((off & rdos & Hx & Hw) & _). unfold frag_body. rewrite Hx.
  rewrite (typed_encode (T := FragOption)) by (by apply fragment_frag_wf). done.
Qed.

Lemma frag_datagram_data id x v :
  frag_sent id x ->
  v = wire_view (assembled_ip src dst [] (frag_body x))
    (assembled_udp src dst src_port dst_port [] (frag_body x)) (assembled_tail [] (frag_body x)) ->
  slice (uv_datagram v) (uv_udp_at v + frag_start x.1) (uv_ip_end v) = Some x.2.
Proof.
  intros Hx ->. pose proof (frag_body_value id x Hx) as Hb.
  destruct Hx as ((off & rdos & Hf & Hw) & _ & Ha).
  assert (len (frag_body x) <> 1) as Hb1 by apply Ha.
  pose proof (len_assembled_tail [] (frag_body x) Hb1) as Hlt.
  unfold wire_view. cbn [uv_datagram uv_udp_at uv_ip_end]. rewrite Hb. rewrite assembled_tail_cons.
  change (pad_of []) with (@nil Z). cbn [u16_to_be app].
  assert (frag_start x.1 = 12 + len (Frag_value x.1)) as Hst
    by (rewrite Hf, len_Frag_value; by destruct rdos).
  match goal with |- slice (wire _ _ (?a :: ?b :: ?k :: ?n :: ?w ++ ?d)) _ _ = _ =>
    change (a :: b :: k :: n :: w ++ d) with (([a; b; k; n] ++ w) ++ d);
    assert (len ([a; b; k; n] ++ w) = 4 + len w) as Hl by (by rewrite len_app)
  end.
  set (pre := _ ++ Frag_value x.1) in *. pose proof (len_nonneg (Frag_value x.1)).
  pose proof (len_nonneg x.2).
  rewrite slice_Some by (rewrite ?len_wire, ?len_app; lia). f_equal.
  replace (20 + frag_start x.1) with (28 + len pre) by lia.
  rewrite sub_wire by lia. apply sub_suffix; [done|by rewrite len_app].
Qed.

Lemma process_fragment id x c now :
  frag_sent id x ->
  process_datagram (frag_datagram x) c now =
  (let! (o, c) := ReassemblyCache_insert_with_options_and_failures c (flow_key id) x.1 x.2
                    frag_processing now in
   after_insert now x o c).
Proof.
  intros Hx. pose proof (frag_body_value id x Hx) as Hb.
  pose proof (frag_datagram_data id x _ Hx eq_refl) as Hdata.
  destruct Hx as ((off & rdos & Hf & Hw) & Hd & Ha).
  destruct (assembled_wire src dst src_port dst_port [] (frag_body x) Ha) as [_ Hr].
  unfold process_datagram, frag_datagram.
  set (v := wire_view _ _ _) in Hr, Hdata.
  change (process_datagram_inner 2 ?w c now true) with
    (let! r := receive_udp w in
     match r with
     | Err e => Some (Err e, c)
     | Ok v =>
         let! r := receive_options v in
         match r with
         | inl dl => Some (Ok dl, c)
         | inr (po, st) =>
             dispatch (fun d c => process_datagram_inner 1 d c now false) v c now true po st
         end
     end).
  rewrite Hr.
  assert (receive_options v = Some (inr (parsed_frag x.1, StValid))) as ->.
  { unfold v. rewrite Hb in *. rewrite receive_options_assembled by done.
    change (10 + len [] + len (pad_of [])) with 10. rewrite Hf. by rewrite parse_options_fragment. }
  unfold dispatch. change (uv_user_data v) with (@nil Z).
  cbn [is_nil negb parsed_frag po_frag po_fragment_failed po_unsupported_unsafe_seen andb orb fmap
    option_fmap option_map].
  unfold receive_fragment. cbn [negb]. rewrite Hdata.
  assert (frag_key (uv_ip v) (uv_udp v) x.1 = flow_key id) as -> by (by rewrite Hf).
  cbn [po_options po_reports parsed_frag]. rewrite bool_decide_true by done.
  change (fragment_option_failures []) with (@nil OptionKind). fold frag_processing.
  destruct (ReassemblyCache_insert_with_options_and_failures _ _ _ _ _ _) as [[o c']|]; [|done].
  by destruct o.
Qed.
End fragment_datagram.

(** ** The datagram rebuilt from a complete set *)

(** What the receiver hands to the application for user data sent with options
    [os]; [fragmented] tells whether the datagram was split on the way. *)
Definition expected `{Crc32c} (data : list Z) (os : list RawOption) (fragmented : bool) : Payload :=
  {| pl_data := data; pl_options := delivered_options data os; pl_option_bearing := negb (is_nil os);
     pl_reports := delivered_reports data os;
     pl_ocs_reports :=
       (if fragmented then [{| ocr_status := StValid; ocr_source := FragmentSet |}] else [])
       ++ [{| ocr_status := if is_nil os then StAbsent else if fragmented then StUnused else StValid;
              ocr_source := Datagram |}] |}.

(** The options body of [os]: none, or the finished bytes. *)
Definition body_of (os : list RawOption) : list Z := if is_nil os then [] else options_body_bytes os.

Section second_pass.
Context `{Crc32cSpec} (data : list Z) (os : list RawOption).
Hypothesis Hsend : Forall (sendable) os.
Hypothesis Huniq : unique_reportable os.

Lemma options_body_cons : exists rest, options_body_bytes os = 0 :: 0 :: rest.
Proof. eexists. reflexivity. Qed.

Lemma reassembled_tail_nil : reassembled_tail data [] = data.
Proof. apply app_nil_r. Qed.

Lemma reassembled_tail_body rest :
  reassembled_tail data (0 :: 0 :: rest) = data ++ pad_of data ++ 0 :: 0 :: rest.
Proof.
  unfold reassembled_tail, pad_of, rdos_needs_options_pad. cbn [is_nil negb andb].
  change LENGTH_UDP_HEADER with 8. replace ((8 + len data) mod 2) with (len data mod 2) by dlia.
  destruct (len data mod 2 =? 1); [|done]. change (usize_of_bool true =? 1) with true. cbv iota.
  by rewrite <- app_assoc.
Qed.

Lemma ocs_unused rest n : ocs_validate (0 :: 0 :: rest) n 0 = Some OcsUnused.
Proof.
  unfold ocs_validate. change OCS_LEN with 2. pose proof (len_nonneg rest).
  destruct (Z.ltb_spec (len (0 :: 0 :: rest)) 2); [|done]. rewrite !len_cons in *. lia.
Qed.

(** The second pass finds the sender's data and options, the OCS unused. *)
Lemma second_pass_delivers fuel ip udp c now :
  wire_wf ip udp (reassembled_tail data (body_of os)) ->
  udp_length udp = 8 + len data -> udp_checksum udp = 0 ->
  exists p, process_datagram_inner (S fuel) (wire ip udp (reassembled_tail data (body_of os))) c now false
      = Some (Ok (DeliverPayload p), c) /\
    pl_data p = data /\ pl_options p = delivered_options data os /\
    pl_option_bearing p = negb (is_nil os) /\ pl_reports p = delivered_reports data os /\
    pl_ocs_reports p = [{| ocr_status := if is_nil os then StAbsent else StUnused;
                           ocr_source := Datagram |}].
Proof.
  intros Hw Hul Hz. cbn [process_datagram_inner].
  rewrite receive_udp_wire by done. unfold body_of in *. destruct (is_nil os) eqn:Eos; cbn [negb].
  - apply is_nil_true in Eos as ->. rewrite reassembled_tail_nil in *.
    unfold receive_options. cbn [uv_ip uv_udp wire_view].
    rewrite (locate_surplus_none ip udp data) by done.
    eexists. split; [done|]. cbn. rewrite Hul. replace (8 + len data - 8) with (len data) by lia.
    by rewrite sub_full.
  - destruct options_body_cons as [rest Hb]. rewrite Hb in *.
    rewrite reassembled_tail_body in *.
    rewrite (receive_options_wire ip udp data 0 0 rest OcsUnused StUnused); [|done|done| |by right].
    2:{ rewrite Hz. apply ocs_unused. }
    pose proof (parse_options_sent data os (10 + len data + len (pad_of data)) Hsend Huniq) as Hp.
    rewrite Hb in Hp. replace (sub (0 :: 0 :: rest) 2 (len (0 :: 0 :: rest))) with rest in Hp.
    2:{ symmetry. apply (sub_suffix [0; 0] rest); [done|]. by rewrite !len_cons, Z.add_assoc. }
    rewrite Hp, dispatch_sent. eexists. split; [done|]. unfold wire_view. cbn.
    by rewrite sub_prefix by lia.
Qed.
End second_pass.

(** ** All fragments of a datagram *)

Section all_fragments.
Context `{Crc32cSpec} (src dst : Ipv4Addr) (src_port dst_port : Z).

Abbreviation sent := (frag_sent src dst src_port dst_port).
Abbreviation datagram_of := (frag_datagram src dst src_port dst_port).

Definition timed (a : Z * arrival) : Z * list Z := (a.1, datagram_of a.2).

(** Processing fragment datagrams is feeding the cache, and a second pass at the
    end. *)
Lemma process_all_feed id d r n : forall arrivals c c',
  Forall (sent id) arrivals.*2 ->
  feed c (flow_key src dst src_port dst_port id) frag_processing arrivals
    = Some (replicate n Incomplete ++ [Complete d], c') ->
  Forall (fun a => after_insert src dst src_port dst_port a.1 a.2 (Complete d) c' = Some (r, c'))
    arrivals ->
  process_all c (timed <$> arrivals) = Some (replicate n (Ok Buffered) ++ [r], c').
Proof.
  induction n as [|n IH]; intros arrivals c c' Hs Hf Ha.
  - destruct arrivals as [|[t x] arrivals]; [done|]. cbn [feed] in Hf.
    apply Forall_cons in Hs as [Hx _]. apply Forall_cons in Ha as [Ha _].
    cbn [fmap list_fmap]. unfold timed at 1. cbn [process_all fst snd] in *.
    rewrite (process_fragment _ _ _ _ id) by done.
    destruct (ReassemblyCache_insert_with_options_and_failures _ _ _ _ _ _) as [[o c1]|]; [|done].
    destruct (feed c1 _ _ arrivals) as [[os c2]|] eqn:Ef; [|done].
    injection Hf as -> -> ->. destruct arrivals as [|[t' x'] arrivals].
    + injection Ef as ->. by rewrite Ha.
    + cbn [feed] in Ef. destruct (ReassemblyCache_insert_with_options_and_failures c1 _ _ _ _ _)
        as [[o c3]|]; [|done]. by destruct (feed c3 _ _ arrivals) as [[? ?]|].
  - destruct arrivals as [|[t x] arrivals]; [done|]. cbn [feed] in Hf.
    apply Forall_cons in Hs as [Hx Hs]. apply Forall_cons in Ha as [_ Ha].
    cbn [fmap list_fmap]. unfold timed at 1. cbn [process_all fst snd].
    rewrite (process_fragment _ _ _ _ id) by done.
    destruct (ReassemblyCache_insert_with_options_and_failures _ _ _ _ _ _) as [[o c1]|]; [|done].
    destruct (feed c1 _ _ arrivals) as [[os c2]|] eqn:Ef; [|done].
    injection Hf as -> -> ->. cbn [after_insert].
    by rewrite (IH arrivals c1 c').
Qed.

(** The addressing of the sender has its machine widths. *)
Definition addrs_wf : Prop :=
  Ipv4Addr_wf src /\ Ipv4Addr_wf dst /\ u16 src_port /\ u16 dst_port.

Lemma carries_sent id budget f data :
  addrs_wf -> budget <= 65507 -> carries_chunk id budget f data ->
  exists x, fragment_view (fg_surplus_body f) = Some x /\ frag_body x = fg_surplus_body f /\ sent id x.
Proof.
  intros (Hs & Hd & Hsp & Hdp) Hbud (Hf & Hw & Hb & Hl).
  exists (fragment_frag id (fg_offset f) (fg_rdos f), data).
  assert (frag_body (fragment_frag id (fg_offset f) (fg_rdos f), data) = fg_surplus_body f) as Hbody
    by (by rewrite Hf at 3).
  split; [rewrite Hf at 1; by apply fragment_view_of|]. split; [done|].
  split; [by do 2 eexists|]. split; [done|]. rewrite Hbody.
  pose proof (len_fragment_body id (fg_offset f) (fg_rdos f) data) as Hlb. rewrite <- Hf in Hlb.
  pose proof (len_nonneg data).
  assert (12 <= fragment_options_body_len (fg_rdos f)) by (by destruct (fg_rdos f)).
  do 4 (split; [done|]). split; [constructor|]. split.
  { rewrite Hf, fragment_body_value by done. pose proof (bytes_Frag_value (fragment_frag id (fg_offset f) (fg_rdos f))).
    repeat (constructor; [unfold u8, KIND_FRAG; rewrite ?len_Frag_value; destruct (fg_rdos f); simpl; lia|]).
    by apply Forall_app. }
  split; [lia|]. unfold assembled_surplus, assembled_pad. rewrite andb_false_r, !(@len_nil Z). lia.
Qed.

Lemma split_sent payload body cfg frags :
  addrs_wf -> SplitConfig_wf cfg -> bytes payload -> bytes body ->
  split_datagram payload body cfg = Some (Ok frags) ->
  Forall2 (fun f x => frag_body x = fg_surplus_body f /\ sent (sc_identification cfg) x) frags
    (omap (fun f => fragment_view (fg_surplus_body f)) frags).
Proof.
  intros Ha Hw Hp Hb Hs. destruct (split_Ok _ _ _ _ Hw Hs) as (Hy & chunks & last & Hr).
  pose proof (split_carry _ _ _ _ _ _ Hw Hp Hb Hy Hr) as Hc.
  destruct Hy as (_ & [_ Hbud] & _). clear Hr Hs.
  induction Hc as [|f x frags datas Hf _ IH]; [constructor|].
  destruct (carries_sent _ _ _ _ Ha Hbud Hf) as (y & Hv & Hy). cbn [omap list_omap]. rewrite Hv. by constructor.
Qed.
End all_fragments.

Section fragments_received.
Context `{Crc32cSpec} (src dst : Ipv4Addr) (src_port dst_port : Z).
Context (payload : list Z) (os : list RawOption).
Hypothesis Haddrs : addrs_wf src dst src_port dst_port.
Hypothesis Hpayload : bytes payload.
Hypothesis Hsend : Forall (sendable) os.
Hypothesis Huniq : unique_reportable os.

Abbreviation tail := (reassembled_tail payload (body_of os)).

Lemma body_of_bytes : bytes (body_of os).
Proof.
  unfold body_of. destruct (is_nil os); [constructor|].
  by apply options_body_bytes_bytes, sendable_encodable.
Qed.

Lemma tail_bounds : 8 <= 8 + len payload <= 8 + len tail.
Proof.
  rewrite len_reassembled_tail. pose proof (len_nonneg payload). pose proof (len_nonneg (body_of os)).
  destruct (is_nil (body_of os)); dlia.
Qed.

(** The datagram rebuilt from a completed set is well formed. *)
Lemma completed_wire_wf x :
  28 + len tail <= 65535 ->
  wire_wf (reassembled_ip (assembled_ip src dst [] (frag_body x)) (len tail))
    (reassembled_udp (assembled_udp src dst src_port dst_port [] (frag_body x)) (8 + len payload)) tail.
Proof.
  intros Hmax. destruct Haddrs as (Hs & Hd & Hsp & Hdp). pose proof tail_bounds.
  split; [|split; [done|split; [done|split; [|split; [done|]]]]].
  - split; [done|]. split; [done|]. unfold u16. simpl. pose proof (len_nonneg tail). lia.
  - split; [done|]. split; [done|]. unfold u16. simpl. lia.
  - apply reassembled_tail_bytes; [done|apply body_of_bytes].
Qed.

(** The completed set is delivered. *)
Lemma after_complete now x d c :
  co_tail d = tail -> co_udp_length d = 8 + len payload ->
  co_fragment_options d = [] -> co_fragment_option_failures d = [] ->
  co_fragment_ocs_nonzero d = Some true -> 28 + len tail <= 65535 ->
  after_insert src dst src_port dst_port now x (Complete d) c =
  Some (Ok (DeliverPayload (expected payload os true)), c).
Proof.
  intros Ht Hul Ho Hf Hocs Hmax. cbn [after_insert]. rewrite Ht, Hul.
  pose proof tail_bounds as Htb. rewrite reassembled_datagram_spec by done.
  destruct (Z.leb_spec (28 + len tail) 65535); [|lia].
  pose proof (completed_wire_wf x Hmax) as Hw.
  set (ip := reassembled_ip (assembled_ip src dst [] (frag_body x)) (len tail)) in *.
  set (udp := reassembled_udp (assembled_udp src dst src_port dst_port [] (frag_body x)) (8 + len payload)) in *.
  unfold reassembled_bytes. fold ip udp. fold (wire ip udp tail).
  destruct (second_pass_delivers payload os Hsend Huniq 0 ip udp c now Hw) as
    (p & -> & Hp1 & Hp2 & Hp3 & Hp4 & Hp5); [done|done|].
  unfold merge_delivery, merge_fragment_options, merge_fragment_reports.
  rewrite Ho, Hf, Hocs, Hp1, Hp2, Hp3, Hp4, Hp5. done.
Qed.

(** All fragments, in any order: the insertions they lead to. *)
Lemma fragments_feed cfg frags c t0 d0 arrivals :
  SplitConfig_wf cfg -> split_datagram payload (body_of os) cfg = Some (Ok frags) ->
  ReassemblyLimits_wf (rc_limits c) ->
  8 + len tail <= rl_max_reassembled_size (rc_limits c) -> 28 + len tail <= 65535 ->
  len frags <= rl_max_segments (rc_limits c) ->
  rc_partials c !! flow_key src dst src_port dst_port (sc_identification cfg) = None ->
  ReassemblyCache_len c < rl_max_pending_partials (rc_limits c) ->
  d0 :: arrivals.*2 ≡ₚ frag_datagram src dst src_port dst_port
    <$> omap (fun f => fragment_view (fg_surplus_body f)) frags ->
  Forall (fun a => window (rc_limits c) t0 a.1) arrivals ->
  exists x0 ta d c', (t0, d0) :: arrivals = timed src dst src_port dst_port <$> (t0, x0) :: ta /\
    Forall (fun a => window (rc_limits c) t0 a.1) ta /\
    Forall (frag_sent src dst src_port dst_port (sc_identification cfg)) (((t0, x0) :: ta).*2) /\
    feed c (flow_key src dst src_port dst_port (sc_identification cfg)) frag_processing ((t0, x0) :: ta) =
      Some (replicate (length frags - 1) Incomplete ++ [Complete d], c') /\
    (forall now x c, after_insert src dst src_port dst_port now x (Complete d) c =
       Some (Ok (DeliverPayload (expected payload os true)), c)) /\
    rc_partials c' !! flow_key src dst src_port dst_port (sc_identification cfg) = None /\
    co_tail d = tail /\ co_udp_length d = 8 + len payload.
Proof.
  intros Hw Hs HL Hsz Hmax Hseg Hk Hroom Hperm Hwin.
  pose proof (split_sent src dst src_port dst_port _ _ _ _ Haddrs Hw Hpayload body_of_bytes Hs) as Hsent.
  set (M := omap _ frags) in *.
  destruct (Permutation_map_inv _ _ Hperm) as ([|x0 xs] & Hmap & HM); [done|].
  cbn [map] in Hmap. injection Hmap as -> Hxs.
  assert (exists ta, arrivals = timed src dst src_port dst_port <$> ta /\ ta.*2 = xs) as (ta & -> & <-).
  { clear -Hxs. revert xs Hxs. induction arrivals as [|[t d] l IH]; intros [|x xs] Hxs; simplify_eq/=.
    - by exists [].
    - destruct (IH xs) as (ta & -> & <-); [done|]. by exists ((t, x) :: ta). }
  assert (Forall (fun a => window (rc_limits c) t0 a.1) ta) as Hwin'
    by exact (proj1 (Forall_fmap (timed src dst src_port dst_port) _ ta) Hwin).
  destruct (feed_split payload (body_of os) cfg frags c
    (flow_key src dst src_port dst_port (sc_identification cfg)) frag_processing t0 x0 ta)
    as (d & c' & Hf & Ht & Hul & Hpl & Hgone); try done.
  { apply body_of_bytes. }
  destruct (Hpl ltac:(done)) as (H1 & H2 & H3). exists x0, ta, d, c'. split; [done|]. split; [done|].
  split; [|split; [done|split; [|done]]].
  - cbn [fmap list_fmap snd]. rewrite <- HM. apply Forall_forall. intros x [i Hx]%list_elem_of_lookup.
    by destruct (Forall2_lookup_r _ _ _ _ _ Hsent Hx) as (f & _ & _ & ?).
  - intros. by apply after_complete.
Qed.

(** All fragments, in any order, on their own. *)
Lemma fragments_received cfg frags c t0 d0 arrivals :
  SplitConfig_wf cfg -> split_datagram payload (body_of os) cfg = Some (Ok frags) ->
  ReassemblyLimits_wf (rc_limits c) ->
  8 + len tail <= rl_max_reassembled_size (rc_limits c) -> 28 + len tail <= 65535 ->
  len frags <= rl_max_segments (rc_limits c) ->
  rc_partials c !! flow_key src dst src_port dst_port (sc_identification cfg) = None ->
  ReassemblyCache_len c < rl_max_pending_partials (rc_limits c) ->
  d0 :: arrivals.*2 ≡ₚ frag_datagram src dst src_port dst_port
    <$> omap (fun f => fragment_view (fg_surplus_body f)) frags ->
  Forall (fun a => window (rc_limits c) t0 a.1) arrivals ->
  exists c', process_all c ((t0, d0) :: arrivals) =
      Some (replicate (length frags - 1) (Ok Buffered)
              ++ [Ok (DeliverPayload (expected payload os true))], c') /\
    rc_partials c' !! flow_key src dst src_port dst_port (sc_identification cfg) = None.
Proof.
  intros Hw Hs HL Hsz Hmax Hseg Hk Hroom Hperm Hwin.
  destruct (fragments_feed cfg frags c t0 d0 arrivals Hw Hs HL Hsz Hmax Hseg Hk Hroom Hperm Hwin)
    as (x0 & ta & d & c' & -> & _ & Hsent & Hf & Ha & Hgone).
  exists c'. split; [|apply Hgone]. apply (process_all_feed _ _ _ _ (sc_identification cfg) d); [done|done|].
  apply Forall_forall. by intros.
Qed.
End fragments_received.
