(* ===== verification/ApiCorrect.v ===== *)
(** End-to-end correctness of the public API: what the builders produce is what
    [decode_datagram] hands over, in any arrival order; building is total and
    respects the size limit; a peer spends one identification per fragmented send. *)

From S2P Require Import Prelude Model Kind Parse Typed Serialize Checksum Ip Udp Surplus Ocs.
From S2P Require Import Split Reassembly FragRoundtrip RecvOptions Pipeline Socket Api EndToEnd.
From S2P Require Import FragEndToEnd.

(** ** Lemmas: validation *)

(** [seen] marks exactly the reportable kinds met so far. *)
Lemma duplicate_loop_spec os : forall seen,
  Forall RawOption_wf os -> len seen = 256 ->
  exists b, duplicate_loop seen os = Some b /\
    (b = false ->
     NoDup (filter (fun k => reportable k = true) (raw_byte <$> os)) /\
     Forall (fun o => reportable (raw_byte o) = true -> get seen (raw_byte o) = Some false) os).
Proof.
  induction os as [|o os IH]; intros seen Hw Hl.
  - exists false. split; [done|]. intros _. split; constructor.
  - apply Forall_cons in Hw as [Ho Hw]. cbn [duplicate_loop]. cbv zeta. fold (raw_byte o).
    assert (0 <= raw_byte o < 256) as Hk by apply Ho.
    destruct (reportable (raw_byte o)) eqn:Er; cbn [negb].
    + destruct (get_is_Some seen (raw_byte o)) as [b Hb]; [lia|]. rewrite Hb. destruct b.
      { by exists true. }
      rewrite set_at_insert by lia.
      destruct (IH (<[Z.to_nat (raw_byte o):=true]> seen) Hw) as (b & Hd & Hb').
      { unfold len. by rewrite length_insert. }
      exists b. split; [done|]. intros Hbf. destruct (Hb' Hbf) as [Hn Hs].
      cbn [fmap list_fmap]. rewrite filter_cons, decide_True by done.
      rewrite Forall_forall in Hs, Hw. split.
      * apply NoDup_cons. split; [|done]. intros [_ Hin]%list_elem_of_filter.
        apply list_elem_of_fmap in Hin as (o' & Heq & Ho'). specialize (Hs o' Ho').
        rewrite <- Heq, Er, get_insert, Z.eqb_refl in Hs by lia. by specialize (Hs eq_refl).
      * constructor; [done|]. apply Forall_forall. intros o' Ho' Hr. specialize (Hs o' Ho' Hr).
        destruct (Hw o' Ho') as [[? _] _]. fold (raw_byte o') in *.
        rewrite get_insert in Hs by lia. by destruct (Z.eqb_spec (raw_byte o) (raw_byte o')).
    + destruct (IH seen Hw Hl) as (b & Hd & Hb). exists b. split; [done|]. intros Hbf.
      destruct (Hb Hbf) as [Hn Hs]. cbn [fmap list_fmap]. rewrite filter_cons, decide_False by congruence.
      split; [done|]. constructor; [congruence|done].
Qed.

Lemma contains_kind_false os k :
  raw_options_contain_kind os k = false -> Forall (fun o => raw_byte o <> k) os.
Proof.
  unfold raw_options_contain_kind. intros Hf. apply Forall_forall. intros o Ho Heq.
  assert (existsb (fun o => to_byte (ro_kind o) =? k) os = true); [|congruence].
  apply existsb_exists. exists o. split; [by apply list_elem_of_In|by apply Z.eqb_eq].
Qed.

(** ** Lemmas: the options body *)

(** Machine widths: kinds and value bytes are bytes.  Nothing is asked of the values; a raw
    APC may be any checksum. *)
Definition SendOptions_wf (options : SendOptions) : Prop :=
  Forall RawOption_wf (so_raw_options options).

Section options_body.
Context `{Crc32cSpec} (payload : list Z).

(** The options a send carries, the automatic APC first. *)
Definition sent_options (options : SendOptions) : list RawOption :=
  (if so_include_apc options
   then [{| ro_kind := Apc; ro_value := u32_to_be (crc32c payload) |}] else [])
  ++ so_raw_options options.


Lemma apc_wf : RawOption_wf {| ro_kind := Apc; ro_value := u32_to_be (crc32c payload) |}.
Proof. split; [unfold OptionKind_wf; evaluate|apply u32_to_be_bytes]. Qed.

Lemma sent_options_wf options :
  SendOptions_wf options -> Forall RawOption_wf (sent_options options).
Proof.
  intros Hw. unfold sent_options. apply Forall_app. split; [|done].
  destruct (so_include_apc options); constructor; [apply apc_wf|constructor].
Qed.

(** Validation leaves no FRAG and no reportable kind twice. *)
Lemma validated_sent options :
  SendOptions_wf options -> validate_send_options options = Some (Ok tt) ->
  Forall (fun o => raw_byte o <> KIND_FRAG) (sent_options options) /\
  NoDup (filter (fun k => reportable k = true) (raw_byte <$> sent_options options)).
Proof.
  intros Hw. unfold validate_send_options, sent_options.
  destruct (raw_options_contain_kind (so_raw_options options) KIND_FRAG) eqn:Ef; [done|].
  apply contains_kind_false in Ef.
  destruct (so_include_apc options && _) eqn:Ea; [done|].
  destruct (duplicate_loop_spec (so_raw_options options) (replicate 256 false) Hw eq_refl) as (b & Hd & Hb).
  unfold raw_options_contain_duplicate_reportable_kind. rewrite Hd. destruct b; [done|]. intros _.
  destruct (Hb eq_refl) as [Hn _]. destruct (so_include_apc options); [|done].
  apply contains_kind_false in Ea. cbn [app fmap list_fmap]. rewrite filter_cons, decide_True by done.
  split; [by constructor|]. apply NoDup_cons. split; [|done]. intros [_ Hin]%list_elem_of_filter.
  apply list_elem_of_fmap in Hin as (o & Heq & Ho). rewrite Forall_forall in Ea. by destruct (Ea o Ho).
Qed.

Lemma validate_total options : SendOptions_wf options -> is_Some (validate_send_options options).
Proof.
  intros Hw. unfold validate_send_options, raw_options_contain_duplicate_reportable_kind.
  destruct (duplicate_loop_spec (so_raw_options options) (replicate 256 false) Hw eq_refl) as (b & -> & _).
  destruct (raw_options_contain_kind _ _); [eauto|]. destruct (_ && _); [eauto|]. destruct b; eauto.
Qed.

Lemma options_body_finish options :
  options_body payload options =
  if is_nil (sent_options options) then Some (Ok [])
  else let! r := OptionsBuilder_finish {| ob_options := sent_options options |} in
       Some (map_err SendSerialize r).
Proof.
  unfold options_body, sent_options, OptionsBuilder_extend_raw, OptionsBuilder_push.
  destruct (so_include_apc options); cbn [negb andb ob_options OptionsBuilder_new app]; [done|].
  by destruct (so_raw_options options).
Qed.

Lemma options_body_total options : SendOptions_wf options -> is_Some (options_body payload options).
Proof.
  intros Hw. rewrite options_body_finish. destruct (is_nil _); [eauto|].
  destruct (finish_total {| ob_options := sent_options options |}) as [r ->]; [|eauto].
  exact (sent_options_wf options Hw).
Qed.

Lemma sendable_sent os body :
  Forall RawOption_wf os -> Forall (fun o => raw_byte o <> KIND_FRAG) os ->
  OptionsBuilder_finish {| ob_options := os |} = Some (Ok body) -> Forall (sendable) os.
Proof.
  intros Hw Hf Hb. destruct (finish_Ok {| ob_options := os |} body Hw Hb) as (Hv & _). apply validate_loop_Ok in Hv.
  cbn [ob_options] in Hv. rewrite Forall_forall in *. intros o Ho. split; [by apply Hw|]. split; [by apply Hv|by apply Hf].
Qed.

Lemma options_body_sent options body :
  SendOptions_wf options -> validate_send_options options = Some (Ok tt) ->
  options_body payload options = Some (Ok body) ->
  let os := sort_by_rank (sent_options options) in
  body = body_of os /\ Forall (sendable) os /\ unique_reportable os.
Proof.
  intros Hw Hv Hb os. destruct (validated_sent options Hw Hv) as [Hf Hn].
  pose proof (sent_options_wf options Hw) as Hs. rewrite options_body_finish in Hb.
  split; [|split]; [| |by apply sort_unique_reportable]; unfold os, body_of.
  - cbn in Hb. destruct (is_nil (sent_options options)) eqn:En.
    { apply is_nil_true in En. rewrite En. cbn. congruence. }
    assert (is_nil (sort_by_rank (sent_options options)) = false) as ->.
    { destruct (sort_by_rank (sent_options options)) eqn:E; [|done].
      pose proof (sort_by_rank_perm (sent_options options)) as Hp. rewrite E in Hp.
      apply Permutation_nil in Hp. by rewrite Hp in En. }
    destruct (OptionsBuilder_finish _) as [[r|]|] eqn:Ef'; [|done|done].
    injection Hb as ->. by destruct (finish_sent {| ob_options := sent_options options |} body
      (sendable_sent _ _ Hs Hf Ef') Ef') as [-> _].
  - rewrite sort_by_rank_perm. destruct (is_nil (sent_options options)) eqn:En.
    { apply is_nil_true in En. rewrite En. constructor. }
    destruct (OptionsBuilder_finish _) as [[r|]|] eqn:Ef'; [|done|done].
    exact (sendable_sent _ _ Hs Hf Ef').
Qed.
End options_body.

(** ** Lemmas: sizes and assembly *)

Definition DatagramAddrs_wf (a : DatagramAddrs) : Prop :=
  addrs_wf (da_src a) (da_dst a) (da_src_port a) (da_dst_port a).

(** The IPv4 length of a datagram with the given parts. *)
Definition wire_len (payload body : list Z) : Z := 28 + len payload + assembled_surplus payload body.

Definition assembled (a : DatagramAddrs) (payload body : list Z) : list Z :=
  wire (assembled_ip (da_src a) (da_dst a) payload body)
    (assembled_udp (da_src a) (da_dst a) (da_src_port a) (da_dst_port a) payload body)
    (assembled_tail payload body).

Lemma datagram_len_spec payload body :
  datagram_len (len payload) (len body) =
  if wire_len payload body <=? USIZE_MAX then Some (wire_len payload body) else None.
Proof.
  unfold datagram_len, checked_add, wire_len, assembled_surplus, assembled_pad.
  change API_UDP_HEADER_LEN with 8. change API_IPV4_HEADER_LEN with 20.
  pose proof (len_nonneg payload). pose proof (len_nonneg body).
  change USIZE_MAX with 18446744073709551615. destruct (is_nil body) eqn:En.
  - apply is_nil_true in En as ->. cbn [negb andb]. rewrite !(@len_nil Z).
    bool_cases; done || lia || (f_equal; lia).
  - assert (0 < len body) by (destruct body as [|x r]; [done|rewrite len_cons; pose proof (len_nonneg r); lia]).
    cbn [negb andb].
    assert (len (if len payload mod 2 =? 1 then [0] else []) = usize_of_bool (len payload mod 2 =? 1)) as ->
      by (by destruct (_ =? 1)).
    assert (0 <= usize_of_bool (len payload mod 2 =? 1)) by (by destruct (_ =? 1)).
    assert ((20 + (8 + len payload)) mod 2 = len payload mod 2) as Hpar by dlia.
    destruct (Z.leb_spec (8 + len payload) 18446744073709551615);
      [destruct (Z.leb_spec (20 + (8 + len payload)) 18446744073709551615); [rewrite Hpar|]|];
      set (p := usize_of_bool (len payload mod 2 =? 1)) in *; clearbody p;
      bool_cases; done || lia || (f_equal; lia).
Qed.

Lemma len_reassembled payload body : 28 + len (reassembled_tail payload body) = wire_len payload body.
Proof.
  rewrite len_reassembled_tail. unfold wire_len, assembled_surplus, assembled_pad.
  destruct (is_nil body); cbn [negb andb]; [rewrite (@len_nil Z); lia|].
  destruct (Z.eqb_spec (len payload mod 2) 1); [change (len [0]) with 1|rewrite (@len_nil Z)]; dlia.
Qed.

Section assembly.
Context (a : DatagramAddrs) (payload body : list Z).
Hypothesis Ha : DatagramAddrs_wf a.
Hypothesis Hp : bytes payload.
Hypothesis Hb : bytes body.
Hypothesis Hb1 : len body <> 1.

Lemma assembled_wf :
  wire_len payload body <= 65535 ->
  assemble_wf (da_src a) (da_dst a) (da_src_port a) (da_dst_port a) payload body.
Proof. destruct Ha as (? & ? & ? & ?). by repeat (split; [done|]). Qed.

Lemma assemble_checked_spec max :
  assemble_checked a payload body max =
  Some (if (wire_len payload body <=? max) && (wire_len payload body <=? 65535)
        then Ok (assembled a payload body)
        else Err (if wire_len payload body <=? USIZE_MAX
                  then DatagramTooLarge (wire_len payload body)
                         (if wire_len payload body <=? max then 65535 else max)
                  else DatagramTooLarge USIZE_MAX max)).
Proof.
  unfold assemble_checked. rewrite datagram_len_spec. change IPV4_DATAGRAM_LEN_MAX with 65535.
  change USIZE_MAX with 18446744073709551615.
  destruct (Z.leb_spec (wire_len payload body) 18446744073709551615) as [Hu|Hu].
  - destruct (Z.ltb_spec max (wire_len payload body)), (Z.leb_spec (wire_len payload body) max);
      try lia; [done|]. cbn [andb].
    destruct (Z.ltb_spec 65535 (wire_len payload body)), (Z.leb_spec (wire_len payload body) 65535);
      try lia; [done|]. by rewrite assemble_spec by (by apply assembled_wf).
  - destruct (Z.leb_spec (wire_len payload body) 65535); [lia|]. by rewrite andb_false_r.
Qed.
End assembly.

(** ** Lemmas: [build_outgoing_datagrams] *)

Definition SendConfig_wf (cf : SendConfig) : Prop :=
  usize (cf_max_datagram_len cf) /\ u16 (pl_max_reassembled_size (cf_peer cf)) /\
  u8 (pl_max_segments (cf_peer cf)) /\
  match cf_identification cf with Some id => u32 id | None => True end.

Definition split_config (cf : SendConfig) (id : Z) : SplitConfig :=
  {| sc_max_fragment_surplus_len := cf_max_datagram_len cf - 28; sc_peer := cf_peer cf;
     sc_identification := id |}.

Section outgoing.
Context `{Crc32cSpec} (a : DatagramAddrs) (payload : list Z) (options : SendOptions) (cf : SendConfig).
Hypothesis Ha : DatagramAddrs_wf a.
Hypothesis Hp : bytes payload.
Hypothesis Ho : SendOptions_wf options.
Hypothesis Hc : SendConfig_wf cf.

Abbreviation os := (sort_by_rank (sent_options payload options)).
Abbreviation frag_of := (frag_datagram (da_src a) (da_dst a) (da_src_port a) (da_dst_port a)).
Abbreviation views := (omap (fun f => fragment_view (fg_surplus_body f))).

(** What a successful build returns: one datagram that fits, or all fragments of
    one that does not. *)
Definition built (ds : list (list Z)) : Prop :=
  28 <= cf_max_datagram_len cf <= 65535 /\
  Forall (sendable) os /\ unique_reportable os /\
  (wire_len payload (body_of os) <= cf_max_datagram_len cf /\
   ds = [assembled a payload (body_of os)] \/
   cf_max_datagram_len cf < wire_len payload (body_of os) /\ cf_fragmentation cf = Auto /\
   exists id frags, cf_identification cf = Some id /\
     split_datagram payload (body_of os) (split_config cf id) = Some (Ok frags) /\
     ds = frag_of <$> views frags /\ Forall (fun d => len d <= cf_max_datagram_len cf) ds).

Lemma assemble_fragments_spec id max frags M :
  max <= 65535 ->
  Forall2 (fun f x => frag_body x = fg_surplus_body f /\
    frag_sent (da_src a) (da_dst a) (da_src_port a) (da_dst_port a) id x) frags M ->
  Forall (fun f => len (fg_surplus_body f) <= max - 28) frags ->
  assemble_fragments a max frags = Some (Ok (frag_of <$> M)) /\
  Forall (fun d => len d <= max) (frag_of <$> M).
Proof.
  intros Hm. induction 1 as [|f x frags M [Hb (_ & _ & Hw)] _ IH]; [intros _; split; [done|constructor]|].
  intros [Hl Hls]%Forall_cons. destruct (IH Hls) as [IH1 IH2]. cbn [assemble_fragments].
  assert (wire_len [] (fg_surplus_body f) = 28 + len (fg_surplus_body f)) as Hwl.
  { unfold wire_len, assembled_surplus, assembled_pad. rewrite andb_false_r, !(@len_nil Z). lia. }
  assert (len (fg_surplus_body f) <> 1) as Hn1 by (rewrite <- Hb; apply Hw).
  rewrite assemble_checked_spec; [|done|constructor|rewrite <- Hb; apply Hw|done].
  rewrite Hwl. destruct (Z.leb_spec (28 + len (fg_surplus_body f)) max); [|lia].
  destruct (Z.leb_spec (28 + len (fg_surplus_body f)) 65535); [|lia]. cbn [andb].
  rewrite IH1. assert (assembled a [] (fg_surplus_body f) = frag_of x) as ->
    by (unfold frag_datagram, assembled; by rewrite Hb).
  split; [done|]. constructor; [|done]. unfold frag_datagram.
  rewrite Hb, len_wire, len_assembled_tail by done.
  unfold assembled_surplus, assembled_pad. rewrite andb_false_r, !(@len_nil Z). lia.
Qed.

Lemma body_len : Forall (sendable) os -> len (body_of os) <> 1.
Proof.
  intros Hs. unfold body_of. destruct (is_nil os); [done|]. intros Hl.
  pose proof (len_options_body_even os) as He. by rewrite Hl in He.
Qed.

Lemma split_config_wf id : u32 id -> 28 <= cf_max_datagram_len cf -> SplitConfig_wf (split_config cf id).
Proof.
  intros Hid Hm. destruct Hc as ([? ?] & ? & ? & _). unfold SplitConfig_wf, split_config, usize in *.
  simpl. split; [lia|]. by split.
Qed.

(** The fragmenting branch. *)
Lemma build_fragmented id :
  28 <= cf_max_datagram_len cf <= 65535 -> Forall (sendable) os -> unique_reportable os ->
  cf_max_datagram_len cf < wire_len payload (body_of os) -> cf_fragmentation cf = Auto ->
  cf_identification cf = Some id ->
  exists r, (let! r := split_datagram payload (body_of os) (split_config cf id) in
     let? fragments := map_err SendSplit r in
     assemble_fragments a (cf_max_datagram_len cf) fragments) = Some r /\
    match r with Ok ds => built ds | Err _ => True end.
Proof.
  intros Hm Hs Hu Hlt Hauto Hid.
  assert (SplitConfig_wf (split_config cf id)) as Hw.
  { apply split_config_wf; [|lia]. destruct Hc as (_ & _ & _ & Hi). by rewrite Hid in Hi. }
  destruct (split_spec payload (body_of os) (split_config cf id) Hw) as [H1 H2].
  assert (Decision (splittable payload (body_of os) (split_config cf id))) as [Hy|Hn]
    by (unfold splittable; apply _).
  2:{ destruct (H2 Hn) as [e ->]. by eexists. }
  destruct (H1 Hy) as (frags & chunks & last & Hsp & Hr). rewrite Hsp. cbn [map_err].
  pose proof (body_of_bytes os Hs) as Hbb.
  pose proof (split_sent _ _ _ _ _ _ _ _ Ha Hw Hp Hbb Hsp) as Hsent.
  pose proof (split_carry _ _ _ _ _ _ Hw Hp Hbb Hy Hr) as Hcarry.
  destruct (assemble_fragments_spec id (cf_max_datagram_len cf) frags (views frags)) as [-> Hlen];
    [lia|done| |].
  { clear -Hcarry. induction Hcarry as [|f x l k (_ & _ & _ & Hf) _ IH]; constructor; done. }
  eexists. split; [done|]. do 3 (split; [done|]). right. split; [done|]. split; [done|].
  exists id, frags. done.
Qed.

Lemma build_outgoing_spec :
  exists r, build_outgoing_datagrams a payload options cf = Some r /\
    match r with Ok ds => built ds | Err _ => True end.
Proof.
  unfold build_outgoing_datagrams, validate_send_config.
  change IPV4_DATAGRAM_LEN_MAX with 65535. change (API_IPV4_HEADER_LEN + API_UDP_HEADER_LEN) with 28.
  destruct (Z.ltb_spec 65535 (cf_max_datagram_len cf)); [by eexists|].
  destruct (Z.ltb_spec (cf_max_datagram_len cf) 28); [by eexists|].
  destruct (validate_total options Ho) as [[[]|e] Ev]; rewrite Ev; [|by eexists].
  destruct (options_body_total payload options Ho) as [[body|e] Eb]; rewrite Eb; [|by eexists].
  destruct (options_body_sent payload options body Ho Ev Eb) as (-> & Hs & Hu).
  rewrite datagram_len_spec. destruct (Z.leb_spec (wire_len payload (body_of os)) USIZE_MAX); [|by eexists].
  destruct (Z.leb_spec (wire_len payload (body_of os)) (cf_max_datagram_len cf)).
  - rewrite assemble_checked_spec; [|done|done|by apply body_of_bytes|by apply body_len].
    destruct (Z.leb_spec (wire_len payload (body_of os)) (cf_max_datagram_len cf)); [|lia].
    destruct (Z.leb_spec (wire_len payload (body_of os)) 65535); [|lia].
    eexists. split; [done|]. split; [lia|]. split; [done|]. split; [done|]. by left.
  - destruct (decide (cf_fragmentation cf = Disabled)) as [|Hd]; [by eexists|].
    destruct (cf_identification cf) as [id|] eqn:Eid; [|by eexists].
    unfold fragment_surplus_budget, checked_sub.
    change (API_IPV4_HEADER_LEN + API_UDP_HEADER_LEN) with 28.
    destruct (Z.leb_spec 28 (cf_max_datagram_len cf)); [|lia].
    apply (build_fragmented id); try done. by destruct (cf_fragmentation cf).
Qed.
End outgoing.

(** ** Lemmas: decoding *)

(** Datagrams decoded one after the other, each with its time. *)
Fixpoint decode_all `{Crc32c} (policy : ReceivePolicy) (c : ReassemblyCache)
    (arrivals : list (Z * list Z)) : option (list (result ApiDelivery RecvError) * ReassemblyCache) :=
  match arrivals with
  | [] => Some ([], c)
  | (now, d) :: rest =>
      let! (r, c) := decode_datagram d c now policy in
      let! (rs, c) := decode_all policy c rest in
      Some (r :: rs, c)
  end.

Lemma decode_all_process `{Crc32c} policy arrivals : forall c rs c',
  rp_drop_all_option_bearing policy = false -> process_all c arrivals = Some (rs, c') ->
  decode_all policy c arrivals = Some (to_api policy <$> rs, c').
Proof.
  induction arrivals as [|[t d] l IH]; intros c rs c' Hd Hp.
  - injection Hp as <- <-. done.
  - cbn [process_all decode_all] in *. unfold decode_datagram. rewrite Hd.
    destruct (process_datagram d c t) as [[r c1]|]; [|done].
    destruct (process_all c1 l) as [[rs1 c2]|] eqn:E; [|done]. injection Hp as <- <-.
    by rewrite (IH c1 rs1 c2) by done.
Qed.

Section api_roundtrip.
Context `{Crc32cSpec} (a : DatagramAddrs) (payload : list Z).
Context (os : list RawOption).
Hypothesis Ha : DatagramAddrs_wf a.
Hypothesis Hp : bytes payload.
Hypothesis Hs : Forall (sendable) os.
Hypothesis Hu : unique_reportable os.

(** Without options the UDP Length covers everything. *)
Lemma assembled_nothing :
  udp_length (assembled_udp (da_src a) (da_dst a) (da_src_port a) (da_dst_port a) payload []) =
  8 + len (assembled_tail payload []).
Proof.
  rewrite len_assembled_tail by done. destruct (assembled_surplus_bounds payload []) as [_ ->]; [|done].
  cbn. lia.
Qed.

(** A datagram sent whole. *)
Lemma single_received c now :
  wire_len payload (body_of os) <= 65535 ->
  process_datagram (assembled a payload (body_of os)) c now =
  Some (Ok (DeliverPayload (expected payload os false)), c).
Proof.
  intros Hl. unfold body_of, assembled in *. destruct (is_nil os) eqn:En.
  - apply is_nil_true in En as ->.
    assert (assemble_wf (da_src a) (da_dst a) (da_src_port a) (da_dst_port a) payload []) as Hw.
    { apply assembled_wf; [done|done|constructor|done|done]. }
    destruct (assembled_wire _ _ _ _ _ _ Hw) as [Hwire Hr].
    unfold process_datagram. cbn [process_datagram_inner]. rewrite Hr. unfold receive_options.
    cbn [uv_ip uv_udp wire_view].
    rewrite (locate_surplus_none _ _ (assembled_tail payload []) Hwire) by (by apply assembled_nothing).
    unfold deliver_without_options, expected. cbn [is_nil negb app].
    assert (sub (assembled_tail payload []) 0 (8 + len payload - 8) = payload) as Hsub
      by (apply sub_prefix; lia).
    unfold wire_view. cbn [uv_user_data udp_length assembled_udp UdpHeader_with_checksum].
    by rewrite Hsub.
  - rewrite process_assembled; [|done|done|].
    + unfold expected. by rewrite En.
    + apply assembled_wf; [done|done| | |done].
      * by apply options_body_bytes_bytes, sendable_encodable.
      * intros Hl1. pose proof (len_options_body_even os) as He. by rewrite Hl1 in He.
Qed.
End api_roundtrip.

Section built_count.
Context `{Crc32cSpec} (a : DatagramAddrs) (payload : list Z) (options : SendOptions) (cf : SendConfig).

(** A datagram that does not fit takes several fragments. *)
Lemma fragments_several body id frags :
  SplitConfig_wf (split_config cf id) -> DatagramAddrs_wf a -> bytes payload -> bytes body ->
  cf_max_datagram_len cf < wire_len payload body ->
  split_datagram payload body (split_config cf id) = Some (Ok frags) ->
  length (omap (fun f => fragment_view (fg_surplus_body f)) frags) = length frags /\ 1 < len frags.
Proof.
  intros Hw Ha Hp Hb Hlt Hsp. pose proof (split_sent _ _ _ _ _ _ _ _ Ha Hw Hp Hb Hsp) as Hsent.
  split; [symmetry; by eapply Forall2_length|].
  destruct (split_Ok _ _ _ _ Hw Hsp) as (Hy & chunks & last & Hr).
  pose proof (split_carry _ _ _ _ _ _ Hw Hp Hb Hy Hr) as Hc. apply Forall2_length in Hc.
  rewrite length_app in Hc. cbn [length] in Hc. pose proof (split_count _ _ _ _ _ _ Hr) as Hn.
  destruct Hy as (_ & [Hb1 _] & _). rewrite <- len_reassembled in Hlt.
  cbn [sc_max_fragment_surplus_len split_config] in *. unfold non_terminal_count in Hn.
  destruct (Z.leb_spec (len (reassembled_tail payload body)) (cf_max_datagram_len cf - 28 - 14)); [lia|].
  assert (1 <= len chunks) by (rewrite Hn; apply Z.div_le_lower_bound; lia).
  unfold len in *. lia.
Qed.

(** How many datagrams there are. *)
Lemma built_count ds :
  DatagramAddrs_wf a -> bytes payload -> SendConfig_wf cf -> built a payload options cf ds ->
  ds <> [] /\
  (len ds = 1 <->
   wire_len payload (body_of (sort_by_rank (sent_options payload options))) <= cf_max_datagram_len cf).
Proof.
  intros Ha Hp Hc (Hm & Hs & Hu & [[Hl ->]|(Hl & _ & id & frags & Hid & Hsp & Hds & _)]); [done|].
  pose proof (body_of_bytes _ Hs) as Hbb.
  assert (SplitConfig_wf (split_config cf id)) as Hw.
  { apply split_config_wf; [done| |lia]. destruct Hc as (_ & _ & _ & Hi). by rewrite Hid in Hi. }
  destruct (fragments_several _ id frags Hw Ha Hp Hbb Hl Hsp) as [Hv Hsev].
  assert (len ds = len frags) as Hlds by (unfold len; rewrite Hds, length_fmap, Hv; done).
  split; [intros ->; rewrite (@len_nil (list Z)) in Hlds; lia|]. lia.
Qed.
End built_count.

(** ** Lemmas: a receiver that drops all option-bearing datagrams *)

(** A run in which every datagram gives [r] and leaves the cache alone. *)
Lemma decode_all_constant `{Crc32c} policy r c arrivals :
  (forall t d, d ∈ arrivals.*2 -> decode_datagram d c t policy = Some (r, c)) ->
  decode_all policy c arrivals = Some (replicate (length arrivals) r, c).
Proof.
  induction arrivals as [|[t d] l IH]; intros Hr; [done|]. cbn [decode_all length replicate].
  rewrite Hr by (by left). rewrite IH; [done|]. intros t' d' Hd. apply Hr. by right.
Qed.

Lemma wire_is_bytes ip udp tail : wire_wf ip udp tail -> bytes (wire ip udp tail).
Proof.
  intros (Hip & _ & _ & _ & _ & Hb). apply Forall_app. split; [by apply bytes_ip_header|].
  apply Forall_app. split; [|done]. unfold udp_header. repeat (apply Forall_app; split); apply u16_to_be_bytes.
Qed.

(** What becomes of each datagram of a message at such a receiver. *)
Definition dropped_fate `{Crc32c} (policy : ReceivePolicy) (payload : list Z) (os : list RawOption)
    (ds : list (list Z)) : ApiDelivery :=
  if negb (is_nil os) || (1 <? len ds) then ApiFiltered else apply_policy policy (expected payload os false).

Section drop_all.
Context `{Crc32cSpec} (a : DatagramAddrs) (policy : ReceivePolicy).
Hypothesis Hdrop : rp_drop_all_option_bearing policy = true.
Hypothesis Ha : DatagramAddrs_wf a.

(** A datagram with an options body is filtered before the pipeline. *)
Lemma assembled_filtered user_data body c now :
  assemble_wf (da_src a) (da_dst a) (da_src_port a) (da_dst_port a) user_data body -> body <> [] ->
  decode_datagram (assembled a user_data body) c now policy = Some (Ok ApiFiltered, c).
Proof.
  intros Hw Hne. destruct (assembled_wire _ _ _ _ _ _ Hw) as [Hwire Hr].
  destruct (drop_all_option_bearing_filters _ c now policy (wire_is_bytes _ _ _ Hwire) Hdrop) as (r & Hr' & Hdec).
  rewrite Hr in Hr'. injection Hr' as <-. unfold assembled. rewrite Hdec. cbn [wire_view uv_ip uv_udp].
  destruct body as [|x [|y rest]]; [done|by destruct Hw as (_ & _ & _ & _ & _ & _ & [] & _)|].
  rewrite assembled_tail_cons in Hwire. cbn [u16_to_be app] in Hwire.
  by rewrite (locate_surplus_wire _ _ _ _ _ _ _ Hwire).
Qed.

(** An ordinary datagram is delivered. *)
Lemma whole_unfiltered payload c now :
  bytes payload -> wire_len payload [] <= 65535 ->
  decode_datagram (assembled a payload []) c now policy =
  Some (Ok (apply_policy policy (expected payload [] false)), c).
Proof.
  intros Hp Hl.
  assert (assemble_wf (da_src a) (da_dst a) (da_src_port a) (da_dst_port a) payload []) as Hw
    by (by apply assembled_wf; [done|done|constructor|..]).
  destruct (assembled_wire _ _ _ _ _ _ Hw) as [Hwire Hr].
  destruct (drop_all_option_bearing_filters _ c now policy (wire_is_bytes _ _ _ Hwire) Hdrop) as (r & Hr' & Hdec).
  rewrite Hr in Hr'. injection Hr' as <-. unfold assembled. rewrite Hdec. cbn [wire_view uv_ip uv_udp].
  rewrite (locate_surplus_none _ _ _ Hwire) by (by apply assembled_nothing).
  unfold wire_view. cbn [uv_user_data udp_length assembled_udp UdpHeader_with_checksum].
  assert (sub (assembled_tail payload []) 0 (8 + len payload - 8) = payload) as -> by (apply sub_prefix; lia).
  done.
Qed.

Context (payload : list Z) (options : SendOptions) (cf : SendConfig).
Abbreviation os := (sort_by_rank (sent_options payload options)).

(** Every datagram of a message meets the same fate. *)
Lemma built_filtered ds d c now :
  bytes payload -> SendConfig_wf cf -> built a payload options cf ds -> d ∈ ds ->
  decode_datagram d c now policy = Some (Ok (dropped_fate policy payload os ds), c).
Proof.
  unfold dropped_fate. intros Hp Hc (Hm & Hs & Hu & [[Hl ->]|(Hl & _ & id & frags & Hid & Hsp & -> & _)]) Hd.
  - apply list_elem_of_singleton in Hd as ->. change (1 <? len [_]) with false. rewrite orb_false_r.
    destruct (is_nil os) eqn:En; cbn [negb].
    + unfold body_of in *. rewrite En in *. apply is_nil_true in En as ->. by apply whole_unfiltered; [|lia].
    + apply assembled_filtered; [|unfold body_of; by rewrite En].
      apply assembled_wf; [done|done|by apply body_of_bytes|by apply body_len|lia].
  - pose proof (body_of_bytes os Hs) as Hbb.
    assert (SplitConfig_wf (split_config cf id)) as Hw.
    { apply split_config_wf; [done| |lia]. destruct Hc as (_ & _ & _ & Hi). by rewrite Hid in Hi. }
    destruct (fragments_several a payload cf _ id frags Hw Ha Hp Hbb Hl Hsp) as [Hlen Hsev].
    assert ((1 <? len (frag_datagram (da_src a) (da_dst a) (da_src_port a) (da_dst_port a)
      <$> omap (fun f => fragment_view (fg_surplus_body f)) frags)) = true) as ->
      by (apply Z.ltb_lt; unfold len in *; rewrite length_fmap, Hlen; lia).
    rewrite orb_true_r. apply list_elem_of_fmap in Hd as (x & -> & [i Hx]%list_elem_of_lookup).
    destruct (Forall2_lookup_r _ _ _ _ _ (split_sent _ _ _ _ _ _ _ _ Ha Hw Hp Hbb Hsp) Hx) as (f & _ & _ & Hsent).
    pose proof (frag_body_value _ _ _ _ _ _ Hsent) as Hb. destruct Hsent as (_ & _ & Haw).
    apply assembled_filtered; [done|by rewrite Hb].
Qed.
End drop_all.

(** ** Lemmas: identifications *)

Lemma assemble_checked_error a payload body max e :
  assemble_checked a payload body max = Some (Err e) -> e <> FragmentIdentificationRequired.
Proof.
  unfold assemble_checked. destruct (datagram_len _ _); [|by intros [= <-]].
  destruct (_ <? _); [by intros [= <-]|]. destruct (_ <? _); [by intros [= <-]|].
  by destruct (assemble_datagram _ _ _ _ _ _).
Qed.

Lemma assemble_fragments_error a max frags e :
  assemble_fragments a max frags = Some (Err e) -> e <> FragmentIdentificationRequired.
Proof.
  induction frags as [|f frags IH]; cbn [assemble_fragments]; [done|].
  destruct (assemble_checked a [] _ max) as [[d|e']|] eqn:Ec; [|intros [= <-]; by eapply assemble_checked_error|done].
  destruct (assemble_fragments a max frags) as [[ds|e']|]; [done|intros [= <-]; by apply IH|done].
Qed.

(** An identification is asked for only when none is configured and the datagram
    must be split. *)
Lemma identification_required `{Crc32c} a payload options cf :
  build_outgoing_datagrams a payload options cf = Some (Err FragmentIdentificationRequired) ->
  cf_identification cf = None /\ cf_fragmentation cf = Auto.
Proof.
  unfold build_outgoing_datagrams, validate_send_config, validate_send_options.
  destruct (_ <? _); [done|]. destruct (_ <? _); [done|].
  destruct (raw_options_contain_kind _ _); [done|]. destruct (_ && _); [done|].
  destruct (raw_options_contain_duplicate_reportable_kind _) as [[]|]; [done| |done].
  destruct (options_body payload options) as [[body|e]|] eqn:Eb; [| |done].
  2:{ intros [= ->]. exfalso. revert Eb. unfold options_body. destruct (_ && _); [done|].
      by destruct (OptionsBuilder_finish _) as [[|]|]. }
  destruct (datagram_len _ _); [|done]. destruct (_ <=? _).
  { destruct (assemble_checked _ _ _ _) as [[d|e]|] eqn:E; [done| |done]. intros [= ->].
    by apply assemble_checked_error in E. }
  destruct (decide (cf_fragmentation cf = Disabled)) as [|Hd]; [done|].
  destruct (cf_identification cf) as [id|]; [|by destruct (cf_fragmentation cf)].
  destruct (fragment_surplus_budget cf) as [budget|e] eqn:Ef.
  2:{ intros [= ->]. exfalso. revert Ef. unfold fragment_surplus_budget. by destruct (checked_sub _ _). }
  destruct (split_datagram _ _ _) as [[frags|e]|]; [|done|done]. cbn [map_err].
  intros E. by apply assemble_fragments_error in E.
Qed.

(** ** Properties *)

(** A receiver that can reassemble a datagram of [n] tail bytes in [m] fragments,
    the first at time [t0] and the others at the given times. *)
Definition admits (c : ReassemblyCache) (a : DatagramAddrs) (cf : SendConfig) (n m t0 : Z)
    (times : list Z) : Prop :=
  ReassemblyLimits_wf (rc_limits c) /\ 8 + n <= rl_max_reassembled_size (rc_limits c) /\
  28 + n <= 65535 /\ m <= rl_max_segments (rc_limits c) /\
  (forall id, cf_identification cf = Some id ->
     rc_partials c !! flow_key (da_src a) (da_dst a) (da_src_port a) (da_dst_port a) id = None) /\
  ReassemblyCache_len c < rl_max_pending_partials (rc_limits c) /\
  Forall (window (rc_limits c) t0) times.

(** What the datagrams [ds] of one message give: a receiver that drops all option-bearing
    datagrams filters every one of them if they carry options or fragments; any other buffers
    all but the last, which gives the payload, subject to the rest of the policy. *)
Definition message_outcome `{Crc32c} (policy : ReceivePolicy) (payload : list Z) (os : list RawOption)
    (ds : list (list Z)) : list (result ApiDelivery RecvError) :=
  if rp_drop_all_option_bearing policy && (negb (is_nil os) || (1 <? len ds))
  then replicate (length ds) (Ok ApiFiltered)
  else replicate (length ds - 1) (Ok ApiBuffered)
       ++ [Ok (apply_policy policy (expected payload os (1 <? len ds)))].

(** A receiver that does not drop option-bearing datagrams. *)
Lemma roundtrip_kept `{Crc32cSpec} a payload options cf policy ds c t0 d0 arrivals :
  DatagramAddrs_wf a -> bytes payload -> SendConfig_wf cf -> built a payload options cf ds ->
  d0 :: arrivals.*2 ≡ₚ ds -> rp_drop_all_option_bearing policy = false ->
  let os := sort_by_rank (sent_options payload options) in
  (1 < len ds ->
   admits c a cf (len (reassembled_tail payload (body_of os))) (len ds) t0 arrivals.*1) ->
  exists c', decode_all policy c ((t0, d0) :: arrivals) =
    Some (replicate (length ds - 1) (Ok ApiBuffered)
            ++ [Ok (apply_policy policy (expected payload os (1 <? len ds)))], c').
Proof.
  intros Ha Hp Hc Hr Hperm Hd os Hadm.
  destruct Hr as (Hm & Hs & Hu & [[Hl ->]|(Hl & _ & id & frags & Hid & Hsp & Hds & _)]).
  - apply Permutation_sym, Permutation_length_1_inv in Hperm. injection Hperm as -> Harr.
    apply fmap_nil_inv in Harr as ->. exists c.
    rewrite (decode_all_process policy _ c [Ok (DeliverPayload (expected payload os false))] c Hd); [done|].
    cbn [process_all]. by rewrite single_received by (done || lia).
  - pose proof (body_of_bytes os Hs) as Hbb.
    assert (SplitConfig_wf (split_config cf id)) as Hw.
    { apply split_config_wf; [done| |lia]. destruct Hc as (_ & _ & _ & Hi). by rewrite Hid in Hi. }
    destruct (fragments_several a payload cf _ id frags Hw Ha Hp Hbb Hl Hsp) as [Hlen Hsev].
    assert (length ds = length frags) as Hlds by (by rewrite Hds, length_fmap).
    assert (len ds = len frags) as Hlds' by (unfold len; lia).
    destruct Hadm as (HL & Hsz & Hmax & Hseg & Hk & Hroom & Hwin); [lia|]. rewrite Hds in Hperm.
    destruct (fragments_received (da_src a) (da_dst a) (da_src_port a) (da_dst_port a) payload os Ha Hp Hs Hu
      (split_config cf id) frags c t0 d0 arrivals) as (c' & Hall & _); try done.
    + lia.
    + by apply Hk.
    + exact (proj1 (Forall_fmap fst _ arrivals) Hwin).
    + exists c'. rewrite (decode_all_process policy _ c _ c' Hd Hall), fmap_app, fmap_replicate, Hlds, Hlds'.
      by destruct (Z.ltb_spec 1 (len frags)); [|lia].
Qed.

(** One that does. *)
Lemma dropped_outcome `{Crc32cSpec} a payload options cf policy ds :
  DatagramAddrs_wf a -> bytes payload -> SendConfig_wf cf -> built a payload options cf ds ->
  rp_drop_all_option_bearing policy = true ->
  let os := sort_by_rank (sent_options payload options) in
  replicate (length ds) (Ok (dropped_fate policy payload os ds)) = message_outcome policy payload os ds.
Proof.
  intros Ha Hp Hc Hr Hd os. unfold message_outcome, dropped_fate. rewrite Hd. cbn [andb].
  destruct (negb _ || _) eqn:E; [done|]. apply orb_false_iff in E as [_ Hone]. rewrite Hone.
  assert (length ds <> 0%nat) as Hne
    by (by intros ->%length_zero_iff_nil; destruct (built_count a payload options cf [] Ha Hp Hc Hr)).
  apply Z.ltb_ge in Hone. unfold len in Hone. by replace (length ds) with 1%nat by lia.
Qed.

Lemma roundtrip_dropped `{Crc32cSpec} a payload options cf policy ds c arrivals :
  DatagramAddrs_wf a -> bytes payload -> SendConfig_wf cf -> built a payload options cf ds ->
  arrivals.*2 ≡ₚ ds -> rp_drop_all_option_bearing policy = true ->
  decode_all policy c arrivals =
  Some (message_outcome policy payload (sort_by_rank (sent_options payload options)) ds, c).
Proof.
  intros Ha Hp Hc Hr Hperm Hd. pose proof (Permutation_length Hperm) as Hl. rewrite length_fmap in Hl.
  rewrite (decode_all_constant policy _ c arrivals) by
    (intros t d Hin; rewrite Hperm in Hin; by apply (built_filtered a policy Hd Ha payload options cf ds)).
  by rewrite Hl, (dropped_outcome a payload options cf).
Qed.


Definition example_data : list Z := seqZ 1 20.

Lemma example_inputs_wf :
  DatagramAddrs_wf example_addrs /\ bytes example_data /\
  SendOptions_wf example_send_options /\ SendConfig_wf example_send_config.
Proof.
  split; [unfold DatagramAddrs_wf, addrs_wf, Ipv4Addr_wf; evaluate|]. split; [evaluate|].
  split; [|unfold SendConfig_wf, usize; evaluate].
  constructor; [|constructor]. unfold RawOption_wf, OptionKind_wf. evaluate.
Qed.

Definition example_built : list (list Z) :=
  match @build_outgoing_datagrams crc32c_bitwise example_addrs example_data example_send_options
          example_send_config with
  | Some (Ok ds) => ds
  | _ => []
  end.


(** C27. Building never panics, and what it returns respects the size limit: at
    least one datagram, none longer than [max_datagram_len], and exactly one when
    the whole datagram (headers, payload, pad, options) fits. *)
Theorem outgoing_bounded `{Crc32cSpec} (a : DatagramAddrs) (payload : list Z)
    (options : SendOptions) (cf : SendConfig) :
  DatagramAddrs_wf a -> bytes payload -> SendOptions_wf options -> SendConfig_wf cf ->
  exists r, build_outgoing_datagrams a payload options cf = Some r /\
    forall ds, r = Ok ds ->
      ds <> [] /\ Forall (fun d => len d <= cf_max_datagram_len cf) ds /\
      (len ds = 1 <->
       wire_len payload (body_of (sort_by_rank (sent_options payload options)))
         <= cf_max_datagram_len cf).
Proof.
  intros Ha Hp Ho Hc. destruct (build_outgoing_spec a payload options cf Ha Hp Ho Hc) as (r & Hb & Hr).
  exists r. split; [done|]. intros ds ->. destruct (built_count a payload options cf ds Ha Hp Hc Hr) as [Hne Hone].
  split; [done|]. split; [|done].
  destruct Hr as (Hm & Hs & Hu & [[Hl ->]|(_ & _ & _ & _ & _ & _ & _ & Hlen)]); [|done].
  constructor; [|constructor]. unfold assembled. rewrite len_wire, len_assembled_tail by (by apply body_len).
  unfold wire_len in Hl. lia.
Qed.

Lemma outgoing_bounded_witness :
  exists r, @build_outgoing_datagrams crc32c_bitwise example_addrs example_data example_send_options
      example_send_config = Some r /\
    forall ds, r = Ok ds -> ds <> [] /\ Forall (fun d => len d <= 60) ds.
Proof.
  destruct (@outgoing_bounded crc32c_bitwise crc32c_bitwise_u32 example_addrs example_data
    example_send_options example_send_config) as (r & Hr & Hds).
  - apply example_inputs_wf.
  - apply example_inputs_wf.
  - apply example_inputs_wf.
  - apply example_inputs_wf.
  - exists r. split; [exact Hr|]. intros ds Hd. destruct (Hds ds Hd) as (H1 & H2 & _).
    split; [exact H1|exact H2].
Defined.

Definition with_identification (cf : SendConfig) (id : Z) : SendConfig :=
  {| cf_max_datagram_len := cf_max_datagram_len cf; cf_peer := cf_peer cf;
     cf_fragmentation := cf_fragmentation cf; cf_identification := Some id |}.

(** A peer spends one identification per fragmented send and none otherwise:
    either the datagrams are those of the configuration as it is and the generator
    is untouched, or the configuration had no identification, fragmentation was
    needed, and exactly one was drawn and used (or the generator was exhausted,
    which is the error returned).  The caller never sees the request for an
    identification. *)
Theorem peer_identification `{Crc32c} (a : DatagramAddrs) (payload : list Z) (options : SendOptions)
    (cf : SendConfig) (g g' : IdentificationGenerator) (r : result (list (list Z)) SendError) :
  build_peer_outgoing_datagrams a payload options cf g = Some (r, g') ->
  r <> Err FragmentIdentificationRequired /\
  (g' = g /\ build_outgoing_datagrams a payload options cf = Some r \/
   cf_identification cf = None /\ cf_fragmentation cf = Auto /\
   build_outgoing_datagrams a payload options cf = Some (Err FragmentIdentificationRequired) /\
   match IdentificationGenerator_next_id g with
   | (Ok id, next) => g' = next /\
       build_outgoing_datagrams a payload options (with_identification cf id) = Some r
   | (Err e, next) => g' = next /\ r = Err (SendSplit e)
   end).
Proof.
  unfold build_peer_outgoing_datagrams.
  destruct (build_outgoing_datagrams a payload options cf) as [r0|] eqn:E; [|done].
  assert (r0 <> Err FragmentIdentificationRequired -> r = r0 -> g' = g ->
    r <> Err FragmentIdentificationRequired /\
    (g' = g /\ Some r0 = Some r \/ cf_identification cf = None /\ cf_fragmentation cf = Auto /\
     Some r0 = Some (Err FragmentIdentificationRequired) /\
     match IdentificationGenerator_next_id g with
     | (Ok id, next) => g' = next /\
         build_outgoing_datagrams a payload options (with_identification cf id) = Some r
     | (Err e, next) => g' = next /\ r = Err (SendSplit e)
     end)) as Hsame by (intros ? -> ->; auto).
  destruct r0 as [ds|e]; [intros [= <- <-]; by apply Hsame|].
  destruct e; try (intros [= <- <-]; by apply Hsame). clear Hsame.
  apply identification_required in E as [Hid Hauto].
  destruct (IdentificationGenerator_next_id g) as [[id|e] next]; cbn [map_err].
  - fold (with_identification cf id).
    destruct (build_outgoing_datagrams a payload options (with_identification cf id)) as [r1|] eqn:E1; [|done].
    intros [= -> ->]. split; [|by right]. intros ->. by apply identification_required in E1 as [? _].
  - intros [= <- <-]. split; [done|]. by right.
Qed.

Lemma peer_identification_witness :
  let cf := {| cf_max_datagram_len := 60; cf_peer := PeerFragmentLimits_default_ipv4;
               cf_fragmentation := Auto; cf_identification := None |} in
  exists r g', @build_peer_outgoing_datagrams crc32c_bitwise example_addrs example_data
      example_send_options cf (IdentificationGenerator_new 7) = Some (r, g') /\
    r = Ok example_built /\ r <> Err FragmentIdentificationRequired /\
    g' = IdentificationGenerator_new 8.
Proof.
  destruct (@build_peer_outgoing_datagrams crc32c_bitwise example_addrs example_data example_send_options
    {| cf_max_datagram_len := 60; cf_peer := PeerFragmentLimits_default_ipv4;
       cf_fragmentation := Auto; cf_identification := None |} (IdentificationGenerator_new 7))
    as [[r g']|] eqn:E; [|vm_compute in E; discriminate E].
  exists r, g'. split; [exact E|].
  destruct (@peer_identification crc32c_bitwise _ _ _ _ _ _ _ E) as [Hne _].
  vm_compute in E. injection E as <- <-. split; [vm_compute; reflexivity|]. split; [exact Hne|reflexivity].
Defined.
