(* ===== verification/Session.v ===== *)
(** Many datagrams at once: messages whose fragments arrive interleaved.

    A [course] is what is left of one message: the partial the cache holds for it, the
    arrivals still to come and the results they will give.  Courses with different keys do
    not disturb each other ([run_courses]), so that any interleaving of the datagrams of
    several messages gives each message what it gets alone. *)

From S2P Require Import Prelude Model Kind Parse Typed Serialize Checksum Ip Udp Surplus Ocs.
From S2P Require Import Split Reassembly FragRoundtrip RecvOptions Pipeline Socket Api EndToEnd FragEndToEnd ApiCorrect.

(** ** Interleavings *)

(** The elements of a tagged list that carry tag [i]. *)
Definition project {A} (i : nat) (l : list (nat * A)) : list A :=
  snd <$> filter (fun x => x.1 = i) l.

Lemma project_cons_eq {A} i (x : A) l : project i ((i, x) :: l) = x :: project i l.
Proof. unfold project. by rewrite filter_cons_True. Qed.

Lemma project_cons_ne {A} i j (x : A) l : j <> i -> project i ((j, x) :: l) = project i l.
Proof. intros. unfold project. by rewrite filter_cons_False. Qed.

Lemma elem_of_project {A} i (x : A) l : x ∈ project i l <-> (i, x) ∈ l.
Proof.
  unfold project. rewrite list_elem_of_fmap. split.
  - intros ([j y] & -> & [Hj Hl]%list_elem_of_filter). by cbn in Hj; subst.
  - intros Hl. exists (i, x). split; [done|]. by apply list_elem_of_filter.
Qed.

(** ** Insertion depends on its own key only *)

Lemma gc_lookup_eq c c' now k :
  rc_limits c = rc_limits c' -> rc_partials c !! k = rc_partials c' !! k ->
  rc_partials (ReassemblyCache_gc c now) !! k = rc_partials (ReassemblyCache_gc c' now) !! k.
Proof.
  intros HL Hk. apply option_eq. intros p. rewrite !gc_lookup. by rewrite HL, Hk.
Qed.

(** Room for the key at time [t]. *)
Definition room (c : ReassemblyCache) (k : FragKey) (t : Z) : Prop :=
  is_Some (rc_partials (ReassemblyCache_gc c t) !! k) \/
  ReassemblyCache_len (ReassemblyCache_gc c t) < rl_max_pending_partials (rc_limits c).

Lemma insert_partial_local c c' k p f data pr o c1 :
  rc_limits c = rc_limits c' -> ReassemblyCache_insert_partial c k p f data pr = Some (o, c1) ->
  exists c1', ReassemblyCache_insert_partial c' k p f data pr = Some (o, c1') /\
    rc_limits c1' = rc_limits c' /\ rc_partials c1' !! k = rc_partials c1 !! k /\
    forall j, j <> k -> rc_partials c1' !! j = rc_partials c' !! j.
Proof.
  intros HL. unfold ReassemblyCache_insert_partial. rewrite HL.
  destruct (Partial_insert _ _ _ _ _ _ _) as [[r p']|]; [|done].
  destruct r; intros [= <- <-]; eexists; (split; [done|]); (split; [done|]); cbn;
    rewrite ?lookup_delete_eq, ?lookup_insert_eq; (split; [done|]); intros j Hj;
    by rewrite ?lookup_delete_ne, ?lookup_insert_ne by done.
Qed.

Lemma insert_local c c' k x pr t o c1 :
  rc_limits c = rc_limits c' -> rc_partials c !! k = rc_partials c' !! k -> room c k t -> room c' k t ->
  ReassemblyCache_insert_with_options_and_failures c k x.1 x.2 pr t = Some (o, c1) ->
  exists c1', ReassemblyCache_insert_with_options_and_failures c' k x.1 x.2 pr t = Some (o, c1') /\
    rc_limits c1' = rc_limits c' /\ rc_partials c1' !! k = rc_partials c1 !! k /\
    forall j, j <> k -> rc_partials c1' !! j = rc_partials (ReassemblyCache_gc c' t) !! j.
Proof.
  intros HL Hk Hr Hr'. pose proof (gc_lookup_eq c c' t k HL Hk) as Hg.
  unfold ReassemblyCache_insert_with_options_and_failures, room in *.
  set (g := ReassemblyCache_gc c t) in *. set (g' := ReassemblyCache_gc c' t) in *.
  assert (rc_limits g = rc_limits c) as Eg by done. assert (rc_limits g' = rc_limits c') as Eg' by done.
  assert (forall reason, exists c1', Some (ReassemblyCache_abort g' k reason) = Some (Abort reason, c1') /\
    rc_limits c1' = rc_limits c' /\ rc_partials c1' !! k = None /\
    forall j, j <> k -> rc_partials c1' !! j = rc_partials g' !! j) as Habort.
  { intros reason. eexists. split; [done|]. split; [done|]. cbn. split; [apply lookup_delete_eq|].
    intros j Hj. by rewrite lookup_delete_ne. }
  rewrite Eg, Eg', HL in *. destruct (NormalizedFragment_new _ _) as [f|].
  2:{ intros [= <- <-]. cbn. rewrite lookup_delete_eq. apply Habort. }
  destruct (_ <? _); [intros [= <- <-]; cbn; rewrite lookup_delete_eq; apply Habort|].
  destruct (match checked_add _ _ with Some _ => _ | None => _ end);
    [intros [= <- <-]; cbn; rewrite lookup_delete_eq; apply Habort|].
  rewrite <- Hg in *. destruct (rc_partials g !! k) as [p|].
  - intros Hi. destruct (insert_partial_local g g' k p f x.2 pr o c1) as (c1' & ? & ? & ? & ?); [by rewrite Eg, Eg'|done|].
    exists c1'. by rewrite <- Eg'.
  - destruct Hr as [[]|Hr], Hr' as [[]|Hr']; try done.
    destruct (Z.leb_spec (rl_max_pending_partials (rc_limits c')) (ReassemblyCache_len g)); [lia|].
    destruct (Z.leb_spec (rl_max_pending_partials (rc_limits c')) (ReassemblyCache_len g')); [lia|].
    intros Hi. destruct (insert_partial_local g g' k (Partial_new t) f x.2 pr o c1) as (c1' & ? & ? & ? & ?);
      [by rewrite Eg, Eg'|done|]. exists c1'. by rewrite <- Eg'.
Qed.

(** ** Courses *)

Section courses.
Context `{Crc32c} (L : ReassemblyLimits).

(** What the cache holds for a message; a message sent whole has no key. *)
Definition held (c : ReassemblyCache) (ko : option FragKey) : option Partial :=
  match ko with Some k => rc_partials c !! k | None => None end.

Definition unexpired (p : Partial) (t : Z) : Prop := Partial_is_expired p t (rl_timeout L) = false.

Lemma unexpired_before p t t' : t <= t' -> unexpired p t' -> unexpired p t.
Proof. unfold unexpired, Partial_is_expired, duration_since. rewrite !Z.leb_gt. lia. Qed.

(** The datagram [d] at time [t] takes a message from [op] to [op'], gives [r], and leaves
    the other keys to expiry. *)
Definition course_step_ok (ko : option FragKey) (op : option Partial) (t : Z) (d : list Z)
    (r : result Delivery RecvError) (op' : option Partial) : Prop :=
  forall c, rc_limits c = L -> held c ko = op -> (forall k, ko = Some k -> room c k t) ->
  exists c', process_datagram d c t = Some (r, c') /\ rc_limits c' = L /\ held c' ko = op' /\
    (forall j p, ko <> Some j -> rc_partials c !! j = Some p -> unexpired p t -> rc_partials c' !! j = Some p) /\
    (forall j, ko <> Some j -> rc_partials c !! j = None -> rc_partials c' !! j = None).

Inductive course (ko : option FragKey) :
    option Partial -> list (Z * list Z) -> list (result Delivery RecvError) -> Prop :=
| course_done : course ko None [] []
| course_step op t d r op' l rs :
    (forall p, op = Some p -> Forall (fun a => unexpired p a.1) ((t, d) :: l)) ->
    course_step_ok ko op t d r op' -> course ko op' l rs -> course ko op ((t, d) :: l) (r :: rs).

Lemma course_nil_inv ko op rs : course ko op [] rs -> op = None /\ rs = [].
Proof. by inversion 1. Qed.

(** Messages [0] to [n - 1], with their keys. *)
Context (n : nat) (keys : nat -> option FragKey) (base key_set : gset FragKey).
Hypothesis keys_inj : forall i j k, (i < n)%nat -> (j < n)%nat -> keys i = Some k -> keys j = Some k -> i = j.
Hypothesis elem_of_key_set : forall i k, (i < n)%nat -> keys i = Some k -> k ∈ key_set.
Hypothesis has_room : Z.of_nat (size (base ∪ key_set)) <= rl_max_pending_partials L.

(** A key of a message that is not in the cache leaves room for itself. *)
Lemma key_room c i k t :
  rc_limits c = L -> dom (rc_partials c) ⊆ base ∪ key_set -> (i < n)%nat -> keys i = Some k -> room c k t.
Proof.
  intros HL Hd Hi Hk. unfold room. set (g := ReassemblyCache_gc c t).
  destruct (rc_partials g !! k) as [p|] eqn:E; [by left; eauto|]. right.
  pose proof (gc_dom c t) as Hg. fold g in Hg. pose proof (elem_of_key_set i k Hi Hk) as Hin.
  assert (dom (rc_partials g) ⊂ base ∪ key_set) as Hs%subset_size.
  { split; [set_solver|]. intros Hsub. specialize (Hsub k ltac:(set_solver)).
    apply elem_of_dom in Hsub as [? ?]. congruence. }
  unfold ReassemblyCache_len. rewrite HL, <- size_dom. lia.
Qed.

(** A message keeps what the cache holds for it while others are served. *)
Lemma held_kept ko c c' t kj :
  (forall q p, ko <> Some q -> rc_partials c !! q = Some p -> unexpired p t -> rc_partials c' !! q = Some p) ->
  (forall q, ko <> Some q -> rc_partials c !! q = None -> rc_partials c' !! q = None) ->
  (forall k, kj = Some k -> ko <> Some k) ->
  (forall p, held c kj = Some p -> unexpired p t) -> held c' kj = held c kj.
Proof.
  intros Hf1 Hf2 Hne Hu. unfold held in *. destruct kj as [k|]; [|done].
  destruct (rc_partials c !! k) as [p|] eqn:E; [by apply Hf1; auto|by apply Hf2; auto].
Qed.

(** What a course holds has not expired before its next arrival. *)
Lemma course_live ko op l rs t :
  course ko op l rs -> Forall (fun a => t <= a.1) l -> forall p, op = Some p -> unexpired p t.
Proof.
  intros Hc Hl p ->. inversion Hc as [|? t' d ? ? ? ? Hu]; subst.
  specialize (Hu p eq_refl). apply Forall_cons in Hu as [Hu _]. apply Forall_cons in Hl as [Hl _].
  by eapply unexpired_before.
Qed.

(** The domain of the cache grows by the key at hand only. *)
Lemma step_dom ko c c' :
  (forall q, ko <> Some q -> rc_partials c !! q = None -> rc_partials c' !! q = None) ->
  dom (rc_partials c) ⊆ base ∪ key_set -> (forall k, ko = Some k -> k ∈ key_set) ->
  dom (rc_partials c') ⊆ base ∪ key_set.
Proof.
  intros Hf Hd Hk q [p Hq]%elem_of_dom. destruct (decide (ko = Some q)) as [->|Hne]; [set_solver|].
  apply Hd, elem_of_dom. destruct (rc_partials c !! q) eqn:E; [by eauto|]. rewrite Hf in Hq; done.
Qed.

(** Any interleaving of the courses gives each message the results of its course. *)
Lemma run_courses evs : forall c rs,
  rc_limits c = L -> dom (rc_partials c) ⊆ base ∪ key_set ->
  Forall (fun e => (e.1 < n)%nat) evs -> StronglySorted (fun e e' => e.2.1 <= e'.2.1) evs ->
  (forall i, (i < n)%nat -> course (keys i) (held c (keys i)) (project i evs) (rs i)) ->
  exists out c', process_all c evs.*2 = Some (out, c') /\ length out = length evs /\
    forall i, (i < n)%nat -> project i (zip evs.*1 out) = rs i /\ held c' (keys i) = None.
Proof.
  induction evs as [|[i [t d]] evs IH]; intros c rs HL Hd Hi Hsort Hc.
  { exists [], c. split; [done|]. split; [done|]. intros j Hj. specialize (Hc j Hj).
    by apply course_nil_inv in Hc as [-> ->]. }
  apply Forall_cons in Hi as [Hin Hi]. cbn in Hin. apply StronglySorted_inv in Hsort as [Hsort Hle].
  pose proof (Hc i Hin) as Hci. rewrite project_cons_eq in Hci.
  inversion Hci as [|op t' d' r op' l rs' Hu Hstep Hrest]; subst.
  destruct (Hstep c HL eq_refl) as (c1 & Hp & HL1 & Hh & Hf1 & Hf2).
  { intros k Hk. by eapply key_room. }
  destruct (IH c1 (fun j => if decide (j = i) then rs' else rs j)) as (out & c' & Hout & Hlen & Hres).
  - done.
  - eapply step_dom; [exact Hf2|done|]. intros k Hk. by eapply elem_of_key_set.
  - done.
  - done.
  - intros j Hj. destruct (decide (j = i)) as [->|Hne]; [by rewrite Hh|].
    specialize (Hc j Hj). rewrite project_cons_ne in Hc by done.
    rewrite (held_kept (keys i) c c1 t); [done|done|done| |].
    + intros k Hk Hk'. apply Hne. by eapply keys_inj.
    + eapply course_live; [exact Hc|]. apply Forall_forall. intros [t' d'] Hin'%elem_of_project.
      rewrite Forall_forall in Hle. by specialize (Hle _ Hin').
  - exists (r :: out), c'. cbn [fmap list_fmap process_all fst snd]. rewrite Hp, Hout.
    split; [done|]. split; [cbn; lia|]. intros j Hj. cbn [zip zip_with]. specialize (Hres j Hj).
    destruct (decide (j = i)) as [->|Hne].
    + rewrite project_cons_eq. by destruct Hres as [-> ?].
    + by rewrite project_cons_ne by done.
Qed.
End courses.

(** ** The course of one message *)

Lemma single_course `{Crc32c} L t d r :
  (forall c, process_datagram d c t = Some (r, c)) -> course L None None [(t, d)] [r].
Proof.
  intros Hp. apply course_step with (op' := None); [done| |constructor].
  intros c HL _ _. exists c. split; [apply Hp|]. by split; [|split; [|split]].
Qed.

Lemma insert_complete_gone c k x pr t d c' :
  ReassemblyCache_insert_with_options_and_failures c k x.1 x.2 pr t = Some (Complete d, c') ->
  rc_partials c' !! k = None.
Proof.
  unfold ReassemblyCache_insert_with_options_and_failures. set (g := ReassemblyCache_gc c t).
  destruct (NormalizedFragment_new _ _) as [f|]; [|done]. destruct (_ <? _); [done|].
  destruct (match checked_add _ _ with Some _ => _ | None => _ end); [done|].
  assert (forall p, ReassemblyCache_insert_partial g k p f x.2 pr = Some (Complete d, c') ->
    rc_partials c' !! k = None) as Hi.
  { intros p. unfold ReassemblyCache_insert_partial. destruct (Partial_insert _ _ _ _ _ _ _) as [[[] ?]|]; try done.
    intros [= _ <-]. cbn. apply lookup_delete_eq. }
  destruct (rc_partials g !! k) as [p|] eqn:E; [apply Hi|]. destruct (_ <=? _); [|apply Hi].
  destruct (ReassemblyCache_insert_without_retaining _ _ _ _ _) as [o|]; [|done]. by intros [= _ <-].
Qed.

Lemma observe_terminal_received p f data o fl :
  pa_received_at (Partial_observe_terminal p f data o fl).2 = pa_received_at p.
Proof. unfold Partial_observe_terminal. repeat case_match; done. Qed.

Lemma Partial_insert_received p f data o fl ocs L r p' :
  Partial_insert p f data o fl ocs L = Some (r, p') -> pa_received_at p' = pa_received_at p.
Proof.
  unfold Partial_insert. destruct (Partial_is_exact_duplicate _ _ _ _ _); [by intros [= _ <-]|].
  repeat (case_match; try (by intros [= _ <-])); intros Hp; simplify_eq;
    match goal with E : Partial_observe_terminal _ _ _ _ _ = _ |- _ =>
      pose proof (observe_terminal_received p f data o fl) as Hr; rewrite E in Hr; exact Hr end.
Qed.

(** An accepted fragment keeps the time of the first one. *)
Lemma insert_incomplete_time c k x pr t c' :
  room c k t ->
  ReassemblyCache_insert_with_options_and_failures c k x.1 x.2 pr t = Some (Incomplete, c') ->
  exists p, rc_partials c' !! k = Some p /\ pa_received_at p = pa_received_at (partial_at c k t).
Proof.
  unfold ReassemblyCache_insert_with_options_and_failures, room, partial_at. set (g := ReassemblyCache_gc c t).
  intros Hr. destruct (NormalizedFragment_new _ _) as [f|]; [|done]. destruct (_ <? _); [done|].
  destruct (match checked_add _ _ with Some _ => _ | None => _ end); [done|].
  assert (forall p, ReassemblyCache_insert_partial g k p f x.2 pr = Some (Incomplete, c') ->
    exists p', rc_partials c' !! k = Some p' /\ pa_received_at p' = pa_received_at p) as Hi.
  { intros p. unfold ReassemblyCache_insert_partial.
    destruct (Partial_insert _ _ _ _ _ _ _) as [[[] p']|] eqn:Ep; try done. intros [= <-]. exists p'.
    split; [apply lookup_insert_eq|]. by eapply Partial_insert_received. }
  change (rc_limits g) with (rc_limits c) in *. destruct (rc_partials g !! k) as [p|]; [apply Hi|].
  destruct Hr as [[]|Hr]; [done|].
  destruct (Z.leb_spec (rl_max_pending_partials (rc_limits c)) (ReassemblyCache_len g)); [lia|]. apply Hi.
Qed.

Section fragment_course.
Context `{Crc32cSpec} (L : ReassemblyLimits) (src dst : Ipv4Addr) (src_port dst_port id : Z).
Context (d : Completed) (r : result Delivery RecvError).

Abbreviation key := (flow_key src dst src_port dst_port id).

(** The reassembled datagram is delivered as [r]. *)
Hypothesis completed : forall now x c,
  after_insert src dst src_port dst_port now x (Complete d) c = Some (r, c).

(** One fragment: what it does in the cache of its own does it in any cache. *)
Lemma fragment_step c t x o c1 res :
  rc_limits c = L -> room c key t -> frag_sent src dst src_port dst_port id x ->
  ReassemblyCache_insert_with_options_and_failures c key x.1 x.2 frag_processing t = Some (o, c1) ->
  (forall c', after_insert src dst src_port dst_port t x o c' = Some (res, c')) ->
  course_step_ok L (Some key) (rc_partials c !! key) t (frag_datagram src dst src_port dst_port x) res
    (rc_partials c1 !! key).
Proof.
  intros HL Hroom Hx Hi Ha c' HL' Hh Hr. cbn [held] in *.
  destruct (insert_local c c' key x frag_processing t o c1) as (c1' & Hi' & HL1 & Hk & Hj);
    [congruence|done|done|by apply Hr|done|].
  exists c1'. rewrite (process_fragment _ _ _ _ id) by done. rewrite Hi', Ha. split; [done|].
  split; [congruence|]. split; [done|]. split.
  - intros j p Hne Hp Hu. rewrite Hj by congruence. apply gc_lookup. by rewrite HL'.
  - intros j Hne Hp. rewrite Hj by congruence. destruct (rc_partials (ReassemblyCache_gc c' t) !! j) as [p|] eqn:E; [|done].
    apply gc_lookup in E as [E _]. congruence.
Qed.

(** The arrivals left come in time for what the cache holds. *)
Definition in_time (c : ReassemblyCache) (l : list (Z * arrival)) : Prop :=
  match rc_partials c !! key with
  | Some p => Forall (fun a => window L (pa_received_at p) a.1) l
  | None => match l with [] => True | (t, _) :: l => room c key t /\ Forall (fun a => window L t a.1) l end
  end.

Lemma in_time_room c t x l : rc_limits c = L -> in_time c ((t, x) :: l) -> room c key t.
Proof.
  intros HL. unfold in_time. destruct (rc_partials c !! key) as [p|] eqn:E; [|by intros []].
  intros [Hw _]%Forall_cons. left. exists p. apply gc_lookup. split; [done|]. rewrite HL. by apply window_live.
Qed.

Lemma in_time_live c l p :
  in_time c l -> rc_partials c !! key = Some p ->
  Forall (fun a => unexpired L p a.1) (timed src dst src_port dst_port <$> l).
Proof.
  unfold in_time. intros Hin Hp. rewrite Hp in Hin. apply Forall_fmap. apply (Forall_impl _ _ _ Hin).
  intros a Ha. by apply window_live.
Qed.

Lemma in_time_next c t x l c1 :
  rc_limits c = L -> in_time c ((t, x) :: l) ->
  ReassemblyCache_insert_with_options_and_failures c key x.1 x.2 frag_processing t = Some (Incomplete, c1) ->
  in_time c1 l.
Proof.
  intros HL Hin Hi. pose proof (in_time_room _ _ _ _ HL Hin) as Hr.
  destruct (insert_incomplete_time _ _ _ _ _ _ Hr Hi) as (p' & Hp' & Ht). unfold in_time in *. rewrite Hp', Ht.
  unfold partial_at. destruct (rc_partials c !! key) as [p|] eqn:E.
  - apply Forall_cons in Hin as [Hw Hin]. apply (window_live L) in Hw.
    assert (rc_partials (ReassemblyCache_gc c t) !! key = Some p) as -> by (apply gc_lookup; by rewrite HL). done.
  - destruct Hin as [_ Hin]. destruct (rc_partials (ReassemblyCache_gc c t) !! key) as [p|] eqn:Eg; [|done].
    apply gc_lookup in Eg as [Eg _]. congruence.
Qed.

Lemma insert_limits c k x pr t o c' :
  ReassemblyCache_insert_with_options_and_failures c k x.1 x.2 pr t = Some (o, c') -> room c k t ->
  rc_limits c' = rc_limits c.
Proof.
  intros Hi Hr. by destruct (insert_local c c k x pr t o c') as (? & Hi' & ? & _); simplify_eq.
Qed.

Lemma feed_course m : forall l c c',
  rc_limits c = L -> Forall (frag_sent src dst src_port dst_port id) l.*2 -> in_time c l ->
  feed c key frag_processing l = Some (replicate m Incomplete ++ [Complete d], c') ->
  course L (Some key) (rc_partials c !! key) (timed src dst src_port dst_port <$> l)
    (replicate m (Ok Buffered) ++ [r]).
Proof.
  induction m as [|m IH]; intros [|[t x] l] c c' HL Hs Hin Hf; try done; cbn [feed] in Hf;
    apply Forall_cons in Hs as [Hx Hs];
    destruct (ReassemblyCache_insert_with_options_and_failures _ _ _ _ _ _) as [[o c1]|] eqn:Ei; try done;
    destruct (feed c1 _ _ l) as [[os c2]|] eqn:Ef; try done;
    pose proof (in_time_room _ _ _ _ HL Hin) as Hroom; injection Hf as -> Hos Hc2; subst os c2;
    cbn [fmap list_fmap replicate app]; unfold timed at 1; cbn [fst snd];
    apply course_step with (op' := rc_partials c1 !! key);
    try (intros p Hp; exact (in_time_live _ _ _ Hin Hp));
    try (eapply fragment_step; [exact HL|exact Hroom|exact Hx|exact Ei|]; intros; exact eq_refl || apply completed).
  - rewrite (insert_complete_gone _ _ _ _ _ _ _ Ei). destruct l as [|[t' x'] l]; [constructor|]. cbn [feed] in Ef.
    destruct (ReassemblyCache_insert_with_options_and_failures c1 _ _ _ _ _) as [[o c3]|]; [|done].
    by destruct (feed c3 _ _ l) as [[]|].
  - eapply IH; [|done| |exact Ef]; [by rewrite (insert_limits _ _ _ _ _ _ _ Ei Hroom)|by eapply in_time_next].
Qed.
End fragment_course.

(** ** Messages *)

Section message.
Context `{Crc32cSpec} (a : DatagramAddrs) (payload : list Z) (options : SendOptions) (cf : SendConfig).
Context (ds : list (list Z)).
Hypothesis Ha : DatagramAddrs_wf a.
Hypothesis Hp : bytes payload.
Hypothesis Ho : SendOptions_wf options.
Hypothesis Hc : SendConfig_wf cf.
Hypothesis Hb : build_outgoing_datagrams a payload options cf = Some (Ok ds).

Abbreviation os := (sort_by_rank (sent_options payload options)).

(** The reassembly key of a message, if it needs one. *)
Definition message_key : option FragKey :=
  if 1 <? len ds
  then flow_key (da_src a) (da_dst a) (da_src_port a) (da_dst_port a) <$> cf_identification cf
  else None.

(** What the receiver hands over when the last datagram has arrived. *)
Definition message_payload : Payload := expected payload os (1 <? len ds).

(** The limits admit the message, and its datagrams come in time. *)
Definition message_fits (L : ReassemblyLimits) (l : list (Z * list Z)) : Prop :=
  8 + len (reassembled_tail payload (body_of os)) <= rl_max_reassembled_size L /\
  28 + len (reassembled_tail payload (body_of os)) <= 65535 /\ len ds <= rl_max_segments L /\
  match l with [] => True | (t0, _) :: l => Forall (fun a => window L t0 a.1) l end.

Lemma message_course L l :
  ReassemblyLimits_wf L -> l.*2 ≡ₚ ds -> (1 < len ds -> 0 < rl_max_pending_partials L /\ message_fits L l) ->
  course L message_key None l
    (replicate (length ds - 1) (Ok Buffered) ++ [Ok (DeliverPayload message_payload)]).
Proof.
  intros HL Hperm Hfits. unfold message_key, message_payload.
  destruct (build_outgoing_spec a payload options cf Ha Hp Ho Hc) as (r & Hb' & Hr).
  rewrite Hb in Hb'. injection Hb' as <-.
  destruct Hr as (Hm & Hs & Hu & [[Hl Hds]|(Hl & _ & id & frags & Hid & Hsp & Hds & _)]).
  - rewrite Hds in *. apply Permutation_sym, Permutation_length_1_inv in Hperm.
    destruct l as [|[t d] [|]]; simplify_eq/=. apply single_course. intros c.
    by apply single_received; [..|lia].
  - pose proof (body_of_bytes os Hs) as Hbb.
    assert (SplitConfig_wf (split_config cf id)) as Hw.
    { apply split_config_wf; [done| |lia]. destruct Hc as (_ & _ & _ & Hi). by rewrite Hid in Hi. }
    destruct (fragments_several a payload cf _ id frags Hw Ha Hp Hbb Hl Hsp) as [Hlen Hsev].
    assert (length ds = length frags) as Hlds by (by rewrite Hds, length_fmap).
    assert (len ds = len frags) as Hlds' by (unfold len; lia).
    rewrite Hlds, Hlds', Hid in *. destruct (Z.ltb_spec 1 (len frags)) as [_|]; [|lia].
    destruct (Hfits Hsev) as (Hmp & Hsz & Hmax & Hseg & Hwin). rewrite Hlds' in Hseg.
    apply Permutation_length in Hperm as Hln. rewrite length_fmap, Hlds in Hln.
    destruct l as [|[t0 d0] l]; [unfold len in Hsev; cbn in Hln; lia|].
    rewrite Hds in Hperm.
    destruct (fragments_feed (da_src a) (da_dst a) (da_src_port a) (da_dst_port a) payload os Ha Hp Hs Hu
      (split_config cf id) frags (ReassemblyCache_with_limits L) t0 d0 l)
      as (x0 & ta & d & c' & -> & Hta & Hsent & Hf & Hcompl & _); try done.
    change None with (rc_partials (ReassemblyCache_with_limits L) !!
      flow_key (da_src a) (da_dst a) (da_src_port a) (da_dst_port a) id).
    cbn [fmap option_fmap option_map].
    eapply (feed_course L _ _ _ _ id d _ Hcompl); [done|done| |exact Hf].
    unfold in_time. cbn. split; [right; exact Hmp|done].
Qed.
End message.

(** ** Sessions *)

(** A message and the datagrams it was sent as. *)
Record Message : Type := { me_payload : list Z; me_options : SendOptions; me_datagrams : list (list Z) }.

Section session.
Context `{Crc32cSpec} (a : DatagramAddrs).

(** The message was built under the configuration [cf]. *)
Definition message_sent (cf : SendConfig) (m : Message) : Prop :=
  bytes (me_payload m) /\ SendOptions_wf (me_options m) /\ SendConfig_wf cf /\
  build_outgoing_datagrams a (me_payload m) (me_options m) cf = Some (Ok (me_datagrams m)).

(** The reassembly keys a session needs. *)
Definition session_keys (sent : list (SendConfig * Message)) : list FragKey :=
  omap (fun '(cf, m) => message_key a cf (me_datagrams m)) sent.

Definition key_at (sent : list (SendConfig * Message)) (i : nat) : option FragKey :=
  sent !! i ≫= fun '(cf, m) => message_key a cf (me_datagrams m).

Lemma key_at_elem sent i k : key_at sent i = Some k -> k ∈ session_keys sent.
Proof.
  unfold key_at, session_keys. destruct (sent !! i) as [[cf m]|] eqn:E; [|done]. cbn. intros Hk.
  apply list_elem_of_omap. exists (cf, m). split; [|done]. by eapply list_elem_of_lookup_2.
Qed.

Lemma key_at_inj sent : NoDup (session_keys sent) -> forall i j k,
  key_at sent i = Some k -> key_at sent j = Some k -> i = j.
Proof.
  induction sent as [|[cf m] sent IH]; intros Hn i j k Hi Hj; [done|].
  unfold session_keys in Hn. cbn [omap list_omap] in Hn. fold (session_keys sent) in Hn.
  destruct i as [|i], j as [|j]; [done| | |f_equal; eapply IH; [|exact Hi|exact Hj]].
  - cbn in Hi. rewrite Hi in Hn. apply NoDup_cons in Hn as [Hn _]. destruct Hn. by apply (key_at_elem _ j).
  - cbn in Hj. rewrite Hj in Hn. apply NoDup_cons in Hn as [Hn _]. destruct Hn. by apply (key_at_elem _ i).
  - destruct (message_key _ _ _); [by apply NoDup_cons in Hn as [_ ?]|done].
Qed.

(** What a message gets: nothing until its last datagram, then its payload. *)
Definition message_results (m : Message) : list (result Delivery RecvError) :=
  replicate (length (me_datagrams m) - 1) (Ok Buffered)
  ++ [Ok (DeliverPayload (message_payload (me_payload m) (me_options m) (me_datagrams m)))].

(** The arrivals of a session: each datagram of each message once, times in order, the
    fragments of a message within its window. *)
Record session_arrivals (L : ReassemblyLimits) (sent : list Message)
    (evs : list (nat * (Z * list Z))) : Prop := {
  sa_index : Forall (fun e => (e.1 < length sent)%nat) evs;
  sa_times : StronglySorted (fun e e' => e.2.1 <= e'.2.1) evs;
  sa_complete : forall i m, sent !! i = Some m -> (project i evs).*2 ≡ₚ me_datagrams m;
  sa_fits : forall i m, sent !! i = Some m -> 1 < len (me_datagrams m) ->
    message_fits (me_payload m) (me_options m) (me_datagrams m) L (project i evs);
}.

(** The cache has none of the session's keys and room for all of them. *)
Definition session_room (c : ReassemblyCache) (sent : list (SendConfig * Message)) : Prop :=
  Forall (fun k => rc_partials c !! k = None) (session_keys sent) /\
  ReassemblyCache_len c + len (session_keys sent) <= rl_max_pending_partials (rc_limits c).

(** A message of several datagrams has a key. *)
Lemma several_key cf m :
  DatagramAddrs_wf a -> message_sent cf m -> 1 < len (me_datagrams m) ->
  is_Some (message_key a cf (me_datagrams m)).
Proof.
  intros Ha (Hb & Ho & Hc & Hbuild) Hmany. unfold message_key. destruct (Z.ltb_spec 1 (len (me_datagrams m))); [|lia].
  destruct (build_outgoing_spec a _ _ _ Ha Hb Ho Hc) as (r & Hr & Hspec). rewrite Hbuild in Hr. injection Hr as <-.
  destruct Hspec as (_ & _ & _ & [[_ Hd]|(_ & _ & id & _ & -> & _)]); [by rewrite Hd in Hmany|by eauto].
Qed.

Lemma session_keys_size c sent :
  NoDup (session_keys sent) ->
  ReassemblyCache_len c + len (session_keys sent) <= rl_max_pending_partials (rc_limits c) ->
  Z.of_nat (size (dom (rc_partials c) ∪ list_to_set (session_keys sent))) <= rl_max_pending_partials (rc_limits c).
Proof.
  intros Hn. unfold ReassemblyCache_len, len. rewrite size_union_alt, size_dom.
  assert (size (list_to_set (C := gset FragKey) (session_keys sent) ∖ dom (rc_partials c))
    <= length (session_keys sent))%nat.
  { rewrite <- (size_list_to_set (C := gset FragKey)) by done. apply subseteq_size. by intros k [? _]%elem_of_difference. }
  lia.
Qed.

Lemma session_processed c sent evs :
  DatagramAddrs_wf a -> Forall (fun s => message_sent s.1 s.2) sent -> NoDup (session_keys sent) ->
  ReassemblyLimits_wf (rc_limits c) -> session_room c sent -> session_arrivals (rc_limits c) sent.*2 evs ->
  exists out c', process_all c evs.*2 = Some (out, c') /\ length out = length evs /\
    forall i cf m, sent !! i = Some (cf, m) ->
      project i (zip evs.*1 out) = message_results m /\ held c' (message_key a cf (me_datagrams m)) = None.
Proof.
  intros Ha Hs Hn HL [Hfree Hroom] Harr. destruct Harr as [Hi Ht Hc Hf]. rewrite length_fmap in Hi.
  destruct (run_courses (rc_limits c) (length sent) (key_at sent) (dom (rc_partials c))
    (list_to_set (session_keys sent)) ltac:(intros i j k _ _; by apply key_at_inj)
    ltac:(intros i k _ Hk; by apply elem_of_list_to_set, (key_at_elem _ i))) with (evs := evs) (c := c)
    (rs := fun i => match sent !! i with Some (_, m) => message_results m | None => [] end)
    as (out & c' & Hp & Hlen & Hres); [|done|set_solver|done|done| |].
  - by apply session_keys_size.
  - intros i Hlt. destruct (lookup_lt_is_Some_2 _ _ Hlt) as [[cf m] E]. rewrite E.
    pose proof (proj1 (Forall_lookup _ _) Hs _ _ E) as Hm. destruct Hm as (Hb & Ho & Hcf & Hbuild) eqn:EHm.
    clear EHm. cbn [fst snd] in *.
    assert (sent.*2 !! i = Some m) as E2 by (by rewrite list_lookup_fmap, E).
    assert (held c (key_at sent i) = None) as ->.
    { destruct (key_at sent i) as [k|] eqn:Ek; [|done]. rewrite Forall_forall in Hfree.
      by apply Hfree, (key_at_elem _ i). }
    unfold key_at. rewrite E. cbn [mbind option_bind]. unfold message_results.
    apply (message_course a (me_payload m) (me_options m) cf _ Ha Hb Ho Hcf Hbuild); [done|by eapply Hc|].
    intros Hmany. split; [|by eapply Hf].
    destruct (several_key cf m) as [k Hk]; [done..|].
    assert (key_at sent i = Some k) as Hin%key_at_elem by (unfold key_at; by rewrite E).
    apply list_elem_of_split in Hin as (l1 & l2 & Hl). rewrite Hl in Hroom.
    unfold len, ReassemblyCache_len in Hroom. rewrite length_app in Hroom. cbn in Hroom. lia.
  - exists out, c'. split; [done|]. split; [done|]. intros i cf m E. specialize (Hres i (lookup_lt_Some _ _ _ E)).
    unfold key_at in Hres. rewrite E in Hres. done.
Qed.

Lemma project_zip_fmap {A B} i (f : A -> B) (tags : list nat) : forall rs,
  project i (zip tags (f <$> rs)) = f <$> project i (zip tags rs).
Proof.
  unfold project. induction tags as [|j tags IH]; intros [|r rs]; try done. cbn [fmap list_fmap zip zip_with].
  destruct (decide (j = i)) as [->|Hne].
  - rewrite !filter_cons_True by done. cbn. f_equal. apply IH.
  - rewrite !filter_cons_False by done. apply IH.
Qed.

(** What a message gives at the API. *)
Definition session_outcome (policy : ReceivePolicy) (m : Message) : list (result ApiDelivery RecvError) :=
  message_outcome policy (me_payload m) (sort_by_rank (sent_options (me_payload m) (me_options m))) (me_datagrams m).

(** The session at a receiver that drops all option-bearing datagrams: each datagram meets
    the fate of its message. *)
Lemma decode_all_tagged policy c (f : nat -> result ApiDelivery RecvError) evs :
  Forall (fun e => decode_datagram e.2.2 c e.2.1 policy = Some (f e.1, c)) evs ->
  decode_all policy c evs.*2 = Some (f <$> evs.*1, c).
Proof.
  induction 1 as [|[i [t d]] evs He _ IH]; [done|]. cbn [fmap list_fmap decode_all fst snd] in *.
  by rewrite He, IH.
Qed.

Lemma project_tagged {A B} i (f : nat -> B) (evs : list (nat * A)) :
  project i (zip evs.*1 (f <$> evs.*1)) = replicate (length (project i evs)) (f i).
Proof.
  induction evs as [|[j x] evs IH]; [done|]. cbn [fmap list_fmap zip zip_with fst].
  destruct (decide (j = i)) as [->|Hne].
  - rewrite !project_cons_eq. cbn [length replicate]. by f_equal.
  - by rewrite !project_cons_ne by done.
Qed.

Lemma message_built cf m :
  DatagramAddrs_wf a -> message_sent cf m -> built a (me_payload m) (me_options m) cf (me_datagrams m).
Proof.
  intros Ha (Hp & Ho & Hc & Hb). destruct (build_outgoing_spec a _ _ _ Ha Hp Ho Hc) as (r & Hb' & Hr).
  rewrite Hb in Hb'. by injection Hb' as <-.
Qed.

Lemma session_dropped policy c sent evs :
  DatagramAddrs_wf a -> Forall (fun s => message_sent s.1 s.2) sent ->
  session_arrivals (rc_limits c) sent.*2 evs -> rp_drop_all_option_bearing policy = true ->
  exists out, decode_all policy c evs.*2 = Some (out, c) /\ length out = length evs /\
    forall i cf m, sent !! i = Some (cf, m) -> project i (zip evs.*1 out) = session_outcome policy m.
Proof.
  intros Ha Hs [Hi _ Hc _] Hd. rewrite length_fmap in Hi.
  set (fate := fun i => match sent !! i with
    | Some (_, m) => Ok (dropped_fate policy (me_payload m)
        (sort_by_rank (sent_options (me_payload m) (me_options m))) (me_datagrams m))
    | None => Ok ApiFiltered end : result ApiDelivery RecvError).
  exists (fate <$> evs.*1). split; [apply decode_all_tagged|split; [by rewrite !length_fmap|]].
  - apply Forall_forall. intros [i [t d]] Hin. rewrite Forall_forall in Hi. specialize (Hi _ Hin).
    cbn [fst snd] in *. destruct (lookup_lt_is_Some_2 _ _ Hi) as [[cf m] E].
    pose proof (proj1 (Forall_lookup _ _) Hs _ _ E) as Hm. cbn [fst snd] in Hm. unfold fate. rewrite E.
    apply (built_filtered a policy Hd Ha _ _ cf); [apply Hm|apply Hm|by apply message_built|].
    rewrite <- (Hc i m) by (by rewrite list_lookup_fmap, E). apply list_elem_of_fmap. exists (t, d).
    split; [done|]. by apply elem_of_project.
  - intros i cf m E. pose proof (proj1 (Forall_lookup _ _) Hs _ _ E) as Hm. cbn [fst snd] in Hm.
    pose proof (Permutation_length (Hc i m ltac:(by rewrite list_lookup_fmap, E))) as Hl. rewrite length_fmap in Hl.
    rewrite project_tagged, Hl. unfold fate. rewrite E.
    apply (dropped_outcome a _ _ cf); [done|apply Hm|apply Hm|by apply message_built|done].
Qed.

(** The same through the API. *)
Lemma session_decoded policy c sent evs :
  DatagramAddrs_wf a -> Forall (fun s => message_sent s.1 s.2) sent -> NoDup (session_keys sent) ->
  ReassemblyLimits_wf (rc_limits c) -> session_room c sent -> session_arrivals (rc_limits c) sent.*2 evs ->
  exists out c', decode_all policy c evs.*2 = Some (out, c') /\ length out = length evs /\
    forall i cf m, sent !! i = Some (cf, m) ->
      project i (zip evs.*1 out) = session_outcome policy m /\
      held c' (message_key a cf (me_datagrams m)) = None.
Proof.
  intros Ha Hs Hn HL Hroom Harr. destruct (rp_drop_all_option_bearing policy) eqn:Hd.
  - destruct (session_dropped policy c sent evs Ha Hs Harr Hd) as (out & Hp & Hlen & Hres).
    exists out, c. split; [done|]. split; [done|]. intros i cf m E. split; [by eapply Hres|].
    destruct (message_key a cf (me_datagrams m)) as [k|] eqn:Ek; [|done]. destruct Hroom as [Hfree _].
    rewrite Forall_forall in Hfree. apply Hfree, (key_at_elem _ i). unfold key_at. by rewrite E.
  - destruct (session_processed c sent evs Ha Hs Hn HL Hroom Harr) as (out & c' & Hp & Hlen & Hres).
    exists (to_api policy <$> out), c'. split; [by apply decode_all_process|]. split; [by rewrite length_fmap|].
    intros i cf m E. destruct (Hres i cf m E) as [Hout Hkey]. split; [|done].
    unfold message_results in Hout. rewrite project_zip_fmap, Hout, fmap_app, fmap_replicate.
    unfold session_outcome, message_outcome. by rewrite Hd.
Qed.
End session.

(** ** Properties *)


Definition example_message (id : Z) (payload : list Z) : SendConfig * Message :=
  let cf := with_identification example_send_config id in
  (cf, {| me_payload := payload; me_options := example_send_options;
          me_datagrams := match @build_outgoing_datagrams crc32c_bitwise example_addrs payload
                                  example_send_options cf with Some (Ok ds) => ds | _ => [] end |}).

Definition example_sent : list (SendConfig * Message) :=
  [example_message 7 example_data; example_message 8 (rev example_data); example_message 9 [1; 2; 3]].

(** The [j]-th datagram of message [i]. *)
Definition example_datagram (i j : nat) : list Z :=
  nth j (from_option (fun s => me_datagrams s.2) [] (example_sent !! i)) [].

(** Two messages of two fragments and one of one datagram, interleaved and out of order. *)
Definition example_events : list (nat * (Z * list Z)) :=
  [(0%nat, (100, example_datagram 0 1)); (1%nat, (101, example_datagram 1 0)); (2%nat, (102, example_datagram 2 0));
   (1%nat, (103, example_datagram 1 1)); (0%nat, (104, example_datagram 0 0))].

Lemma example_options_wf : SendOptions_wf example_send_options.
Proof.
  constructor; [|constructor]. unfold RawOption_wf, OptionKind_wf. evaluate.
Qed.

Lemma example_message_sent id payload ds :
  bytes payload -> u32 id ->
  @build_outgoing_datagrams crc32c_bitwise example_addrs payload example_send_options
    (with_identification example_send_config id) = Some (Ok ds) ->
  @message_sent crc32c_bitwise example_addrs (example_message id payload).1 (example_message id payload).2.
Proof.
  intros Hp Hid Hb. split; [done|]. split; [apply example_options_wf|].
  split; [|cbn [example_message fst snd me_payload me_options me_datagrams]; by rewrite Hb].
  cbn. split; [unfold usize; evaluate|]. split; [unfold u16; evaluate|]. split; [unfold u8; evaluate|done].
Qed.

Lemma example_sent_ok : Forall (fun s => @message_sent crc32c_bitwise example_addrs s.1 s.2) example_sent.
Proof.
  repeat (apply Forall_cons; split; [eapply example_message_sent; [evaluate|unfold u32; evaluate|by vm_compute]|]).
  constructor.
Qed.

Lemma example_session :
  @session_arrivals crc32c_bitwise (rc_limits ReassemblyCache_new) example_sent.*2 example_events.
Proof.
  assert (forall P : nat -> Message -> Prop, (forall i, (i < 3)%nat -> forall m, example_sent.*2 !! i = Some m -> P i m) ->
    forall i m, example_sent.*2 !! i = Some m -> P i m) as Hall.
  { intros P HP i m E. apply (HP i); [|exact E]. apply lookup_lt_Some in E. vm_compute in E |- *. exact E. }
  constructor.
  - repeat constructor; vm_compute; lia.
  - repeat constructor; cbn; lia.
  - apply Hall. intros [|[|[|]]] Hi s E; [..|lia]; vm_compute in E; injection E as <-; vm_compute;
      try apply perm_swap; reflexivity.
  - apply (Hall (fun i m => 1 < len (me_datagrams m) -> _)). intros [|[|[|]]] Hi s E Hmany; [..|lia];
      vm_compute in E; injection E as <-; [| |vm_compute in Hmany; done];
      (split; [vm_compute; discriminate|]; split; [vm_compute; discriminate|]; split; [vm_compute; discriminate|]);
      unfold window; evaluate.
Qed.

