(* ===== verification/PeerSession.v ===== *)
(** Two peers: what one sends through [Peer::send] the other receives through [Peer::recv].

    The sender draws a new identification for each message it fragments
    ([peer_sends_spec]), the receiver's demultiplexer lets every datagram through and
    nothing else ([recv_from_arrival]), and the messages of a session do not disturb each
    other ([Session]). *)

From S2P Require Import Prelude Model Kind Parse Typed Serialize Checksum Ip Udp Surplus Ocs.
From S2P Require Import Split Reassembly FragRoundtrip RecvOptions Pipeline Socket Api EndToEnd FragEndToEnd ApiCorrect Session.

(** ** Outgoing datagrams pass the peer's demultiplexer *)

Definition accepted (a : DatagramAddrs) (d : list Z) : Prop :=
  filter_datagram d (da_dst_port a) (Some (da_src_port a)) None = Some (Deliver (len d)).

Lemma filter_wire ip udp tail :
  wire_wf ip udp tail ->
  filter_datagram (wire ip udp tail) (udp_dst_port udp) (Some (udp_src_port udp)) None
  = Some (Deliver (len (wire ip udp tail))).
Proof.
  intros (Hip & Hihl & Htl & Hudp & Hul & Hb). pose proof (len_nonneg tail). pose proof (len_wire ip udp tail) as Hlw.
  unfold filter_datagram.
  assert (IpRepr_parse (wire ip udp tail) = Some (Ok (ip, 20))) as ->.
  { apply IpRepr_parse_header; [done..|]. rewrite len_app, len_udp_header. lia. }
  rewrite slice_Some by lia.
  assert (sub (wire ip udp tail) 20 (len (wire ip udp tail)) = udp_header udp ++ tail) as ->.
  { unfold wire. apply sub_suffix; [done|]. by rewrite len_app. }
  rewrite UdpHeader_parse_header by (done || lia). rewrite !Z.eqb_refl. cbn [negb].
  rewrite decide_False by done. by rewrite Htl, Hlw.
Qed.

Section outgoing.
Context `{Crc32cSpec} (a : DatagramAddrs).

Lemma assembled_accepted user_data body :
  assemble_wf (da_src a) (da_dst a) (da_src_port a) (da_dst_port a) user_data body ->
  accepted a (wire (assembled_ip (da_src a) (da_dst a) user_data body)
    (assembled_udp (da_src a) (da_dst a) (da_src_port a) (da_dst_port a) user_data body)
    (assembled_tail user_data body)).
Proof. intros Hw. destruct (assembled_wire _ _ _ _ _ _ Hw) as [Hwire _]. exact (filter_wire _ _ _ Hwire). Qed.

Lemma built_accepted cf m :
  DatagramAddrs_wf a -> message_sent a cf m -> Forall (accepted a) (me_datagrams m).
Proof.
  intros Ha (Hp & Ho & Hc & Hb). destruct (build_outgoing_spec a _ _ _ Ha Hp Ho Hc) as (r & Hb' & Hr).
  rewrite Hb in Hb'. injection Hb' as <-.
  destruct Hr as (Hm & Hs & Hu & [[Hl ->]|(Hl & _ & id & frags & Hid & Hsp & -> & _)]).
  - constructor; [|constructor]. apply assembled_accepted, assembled_wf; [done..| | |lia];
      [by eapply body_of_bytes|by eapply body_len].
  - pose proof (body_of_bytes _ Hs) as Hbb.
    assert (SplitConfig_wf (split_config cf id)) as Hw.
    { apply split_config_wf; [done| |lia]. destruct Hc as (_ & _ & _ & Hi). by rewrite Hid in Hi. }
    pose proof (split_sent _ _ _ _ _ _ _ _ Ha Hw Hp Hbb Hsp) as Hsent. apply Forall_fmap.
    clear -Hsent. induction Hsent as [|f x frags l [_ (_ & _ & Hx)] _ IH]; constructor; [|done].
    by apply assembled_accepted.
Qed.
End outgoing.

(** ** Sending *)

(** The peer's configuration has no identification of its own: [bind] has moved it to the
    generator. *)
Definition generator_wf (g : IdentificationGenerator) : Prop :=
  match ig_next g with Some id => u32 id | None => True end.

Lemma send_loop_Ok send_to dst ds : forall n b total out,
  send_loop send_to dst n b ds = (Ok total, out) -> out = ds.
Proof.
  induction ds as [|d ds IH]; intros n b total out; cbn [send_loop]; [by intros [= _ <-]|].
  destruct (map_err _ _) as [sent|]; [|done]. destruct (checked_add b sent) as [t|]; [|done].
  destruct (send_loop send_to dst (S n) t ds) as [r o] eqn:E. intros [= -> <-]. f_equal. by eapply IH.
Qed.

(** A session of successful sends; [me_datagrams] is what the kernel was handed. *)
Inductive peer_sends `{Crc32c} : Peer -> list Message -> Peer -> Prop :=
| peer_sends_nil p : peer_sends p [] p
| peer_sends_cons p m send_to outcome p1 ms p2 :
    Peer_send p (me_payload m) (me_options m) send_to = Some (Ok outcome, p1, me_datagrams m) ->
    peer_sends p1 ms p2 -> peer_sends p (m :: ms) p2.

Section sending.
Context `{Crc32cSpec} (a : DatagramAddrs).

(** Identifications a generator can still give. *)
Definition left_in (g : IdentificationGenerator) (k : FragKey) : Prop :=
  match ig_next g with Some id => id <= fk_identification k | None => False end.

Lemma left_in_next g id g' k :
  IdentificationGenerator_next_id g = (Ok id, g') -> left_in g' k -> left_in g k /\ fk_identification k <> id.
Proof.
  unfold IdentificationGenerator_next_id, left_in. destruct (ig_next g) as [n|]; [|done]. intros [= <- <-].
  cbn [ig_next]. destruct (n + 1 <=? U32_MAX); [lia|done].
Qed.

(** One send: the configuration it used, and the key it needs. *)
Lemma Peer_send_spec p m send_to outcome p1 :
  pe_addrs p = a -> SendConfig_wf (pe_send p) -> cf_identification (pe_send p) = None ->
  generator_wf (pe_identifications p) -> bytes (me_payload m) -> SendOptions_wf (me_options m) ->
  Peer_send p (me_payload m) (me_options m) send_to = Some (Ok outcome, p1, me_datagrams m) ->
  exists cf, message_sent a cf m /\
    pe_addrs p1 = a /\ pe_send p1 = pe_send p /\ generator_wf (pe_identifications p1) /\
    match message_key a cf (me_datagrams m) with
    | Some k => left_in (pe_identifications p) k /\ (forall j, left_in (pe_identifications p1) j ->
        left_in (pe_identifications p) j /\ j <> k)
    | None => forall j, left_in (pe_identifications p1) j -> left_in (pe_identifications p) j
    end.
Proof.
  intros Ha Hc Hid Hg Hb Ho. unfold Peer_send. rewrite Ha.
  destruct (build_peer_outgoing_datagrams _ _ _ _ _) as [[r g']|] eqn:E; [|done].
  destruct r as [ds|]; [|done]. destruct (send_loop _ _ _ _ _) as [[n|] out] eqn:El; [|done].
  apply send_loop_Ok in El as ->. intros [= _ <- ->]. cbn [pe_addrs pe_send pe_identifications Peer_set_identifications].
  destruct (peer_identification _ _ _ _ _ _ _ E) as [_ [[-> Hbuild]|(_ & _ & _ & Hnext)]].
  - exists (pe_send p). split; [by split|]. split; [done|]. split; [done|]. split; [done|].
    unfold message_key. rewrite Hid. destruct (1 <? _); cbn; auto.
  - destruct (IdentificationGenerator_next_id (pe_identifications p)) as [[id|e] next] eqn:En;
      [|by destruct Hnext as [_ [=]]]. destruct Hnext as [-> Hbuild].
    exists (with_identification (pe_send p) id).
    assert (u32 id /\ generator_wf next /\ ig_next (pe_identifications p) = Some id) as (Hu & Hw & Hn).
    { unfold IdentificationGenerator_next_id, generator_wf in *. destruct (ig_next (pe_identifications p)) as [i|]; [|done].
      injection En as <- <-. split; [done|]. split; [|done]. cbn. unfold u32, U32_MAX in *.
      destruct (Z.leb_spec (i + 1) 4294967295); [lia|done]. }
    split; [split; [done|]; split; [done|]; split; [|done]; destruct Hc as (? & ? & ? & _); by repeat (split; [done|])|].
    split; [done|]. split; [done|]. split; [done|].
    unfold message_key. cbn [cf_identification with_identification fmap option_fmap option_map].
    assert (forall j, left_in next j -> left_in (pe_identifications p) j /\ fk_identification j <> id) as Hleft
      by (intros j; by apply left_in_next).
    destruct (1 <? _); [|intros j Hj; by apply Hleft]. split; [unfold left_in; rewrite Hn; cbn; lia|].
    intros j Hj. destruct (Hleft j Hj) as [? Hne]. split; [done|]. by intros ->.
Qed.

(** A session of sends: each message under a configuration of its own, no key twice. *)
Lemma peer_sends_spec p ms p' :
  peer_sends p ms p' ->
  pe_addrs p = a -> SendConfig_wf (pe_send p) -> cf_identification (pe_send p) = None ->
  generator_wf (pe_identifications p) ->
  Forall (fun m => bytes (me_payload m) /\ SendOptions_wf (me_options m)) ms ->
  exists sent, sent.*2 = ms /\ Forall (fun s => message_sent a s.1 s.2) sent /\
    NoDup (session_keys a sent) /\ Forall (left_in (pe_identifications p)) (session_keys a sent).
Proof.
  induction 1 as [p|p m send_to outcome p1 ms p2 Hs _ IH]; intros Ha Hc Hid Hg Hms.
  { exists []. split; [done|]. split; [constructor|]. split; constructor. }
  apply Forall_cons in Hms as [[Hb Ho] Hms].
  destruct (Peer_send_spec _ _ _ _ _ Ha Hc Hid Hg Hb Ho Hs) as (cf & Hm & Ha1 & Hs1 & Hg1 & Hkey).
  destruct IH as (sent & <- & Hsent & Hn & Hleft); [done|by rewrite Hs1|by rewrite Hs1|done|done|].
  exists ((cf, m) :: sent). split; [done|]. split; [by constructor|].
  unfold session_keys. cbn [omap list_omap]. fold (session_keys a sent).
  destruct (message_key a cf (me_datagrams m)) as [k|].
  - destruct Hkey as [Hk Hj]. rewrite Forall_forall in Hleft. split.
    + apply NoDup_cons. split; [|done]. intros Hin. by destruct (Hj k (Hleft k Hin)).
    + constructor; [done|]. apply Forall_forall. intros j Hin. apply Hj, Hleft, Hin.
  - split; [done|]. by apply (Forall_impl _ _ _ Hleft).
Qed.
End sending.

(** ** Receiving *)

(** The deadline [RawReceiver::recv] computes. *)
Definition recv_deadline (k : RecvAnswers) : option (option Z) :=
  match ra_configured k with
  | Err _ => None
  | Ok None => Some None
  | Ok (Some timeout) =>
      Some (if ra_instant_max k <? ra_now k + timeout then None else Some (ra_now k + timeout))
  end.

(** During the call the socket hands over packets of other flows, then [d], before the
    deadline; [d] is decoded at time [t]. *)
Definition arrives (r : RawReceiver) (k : RecvAnswers) (t : Z) (d : list Z) : Prop :=
  exists deadline pre tick rest, recv_deadline k = Some deadline /\
    ra_ticks k = pre ++ tick :: rest /\ Forall (noise r deadline) pre /\ live deadline tick /\
    tk_recv tick = Ok d /\ ra_restore k = Ok tt /\ ra_decode_now k = t.

(** The receiver [bind] opens for a flow. *)
Definition receiver_for (a : DatagramAddrs) : RawReceiver :=
  {| rr_dst_port := da_dst_port a; rr_src_port := Some (da_src_port a); rr_own_src := None |}.

Lemma recv_with_deadline_arrival a deadline pre tick rest d :
  accepted a d -> Forall (noise (receiver_for a) deadline) pre -> live deadline tick -> tk_recv tick = Ok d ->
  exists trace, recv_with_deadline (receiver_for a) deadline (pre ++ tick :: rest)
    = Some (Returned (Ok (Some d)), trace).
Proof.
  intros Hd Hn Hl Ht. rewrite recv_noise, recv_live, Ht by done. unfold verdict.
  cbn [receiver_for rr_dst_port rr_src_port rr_own_src]. rewrite Hd. pose proof (len_nonneg d).
  rewrite slice_Some, sub_full by lia. by eexists.
Qed.

Lemma recv_arrival a k t d :
  accepted a d -> arrives (receiver_for a) k t d ->
  exists trace, RawReceiver_recv (receiver_for a) (ra_configured k) (ra_now k) (ra_instant_max k) (ra_ticks k)
    (ra_restore k) = Some (Returned (Ok (Some d)), trace).
Proof.
  intros Hd (deadline & pre & tick & rest & Hdl & -> & Hn & Hl & Ht & -> & _).
  destruct (recv_with_deadline_arrival a deadline pre tick rest d Hd Hn Hl Ht) as [trace Hr].
  unfold recv_deadline, RawReceiver_recv in *. destruct (ra_configured k) as [[timeout|]|]; [|by simplify_eq; eauto|done].
  destruct (_ <? _); injection Hdl as <-; [eauto|]. rewrite Hr. by eexists.
Qed.

(** Several calls of [recv]. *)
Fixpoint recv_all `{Crc32c} (self : Peer) (ks : list RecvAnswers) :
    option (list (option (result (option ReceivedDatagram) RecvError)) * Peer) :=
  match ks with
  | [] => Some ([], self)
  | k :: ks =>
      let! (r, self) := Peer_recv_from self k in
      let! (rs, self) := recv_all self ks in
      Some (r :: rs, self)
  end.

(** What the caller sees of a decoded datagram. *)
Definition seen (d : ApiDelivery) : option ReceivedDatagram :=
  match d with ApiReceived d => Some d | _ => None end.

Definition shown (r : result ApiDelivery RecvError) : option (result (option ReceivedDatagram) RecvError) :=
  Some match r with
       | Ok d => Ok (seen d)
       | Err (RecvSocket e) => Err (RecvSocket e)
       | Err _ => Ok None
       end.

Lemma recv_from_arrival `{Crc32c} a self k t d :
  pe_receiver self = receiver_for a -> accepted a d -> arrives (receiver_for a) k t d ->
  Peer_recv_from self k =
  (let! (r, c) := decode_datagram d (pe_cache self) t (pe_receive self) in
   Some (shown r, Peer_set_cache self c)).
Proof.
  intros Hr Hd Hk. unfold Peer_recv_from. rewrite Hr. destruct (recv_arrival a k t d Hd Hk) as [trace ->].
  destruct Hk as (_ & _ & _ & _ & _ & _ & _ & _ & _ & _ & ->). cbn [Peer_recv].
  destruct (decode_datagram d (pe_cache self) t (pe_receive self)) as [[r c]|]; [|done].
  by destruct r as [[]|[]].
Qed.

Lemma recv_all_arrivals `{Crc32c} a arrivals ks :
  Forall2 (fun k x => accepted a x.2 /\ arrives (receiver_for a) k x.1 x.2) ks arrivals ->
  forall self, pe_receiver self = receiver_for a ->
  recv_all self ks =
  (let! (rs, c) := decode_all (pe_receive self) (pe_cache self) arrivals in
   Some (shown <$> rs, Peer_set_cache self c)).
Proof.
  induction 1 as [|k [t d] ks arrivals [Hd Hk] _ IH]; intros self Hr; cbn [recv_all decode_all].
  { by destruct self. }
  rewrite (recv_from_arrival a self k t d Hr Hd Hk).
  destruct (decode_datagram d (pe_cache self) t (pe_receive self)) as [[r c]|]; [|done].
  rewrite IH by done. cbn [pe_receive pe_cache Peer_set_cache].
  by destruct (decode_all (pe_receive self) c arrivals) as [[rs c']|].
Qed.

(** ** Two peers *)

(** The same flow seen from its other end. *)
Definition mirrored (a : DatagramAddrs) : DatagramAddrs :=
  {| da_src := da_dst a; da_dst := da_src a; da_src_port := da_dst_port a; da_dst_port := da_src_port a |}.

(** What [bind] makes of a configuration. *)
Lemma Peer_bind_spec config k p :
  Peer_bind config k = Ok p ->
  pe_receiver p = receiver_for (mirrored (pc_addrs config)) /\ pe_cache p = ReassemblyCache_new /\
  pe_addrs p = pc_addrs config /\ pe_receive p = pc_receive config /\
  cf_identification (pe_send p) = None /\
  (SendConfig_wf (pc_send config) -> SendConfig_wf (pe_send p)) /\
  match cf_identification (pc_send config) with
  | Some seed => pe_identifications p = IdentificationGenerator_new seed
  | None => ba_from_os_random k = Ok (pe_identifications p)
  end.
Proof.
  unfold Peer_bind. destruct (RawSender_new _ _ _); [|done]. unfold RawReceiver_bind.
  destruct (ba_recv_socket k); [|done]. destruct (ba_icmp_sink k); [|done].
  destruct (RawReceiver_set_read_timeout _); [|done]. unfold take_peer_identification_generator.
  destruct (cf_identification (pc_send config)) as [seed|]; cbn [map_err].
  - intros [= <-]. repeat (split; [done|]). split; [|done]. by intros (? & ? & ? & _).
  - destruct (ba_from_os_random k) as [g|]; [|done]. intros [= <-]. repeat (split; [done|]).
    split; [|done]. by intros (? & ? & ? & _).
Qed.

(** The messages that needed fragmentation. *)
Definition fragmented (ms : list Message) : list Message := filter (fun m => 1 < len (me_datagrams m)) ms.

Section exchange.
Context `{Crc32cSpec} (a : DatagramAddrs).

Lemma session_keys_fragmented sent : len (session_keys a sent) <= len (fragmented sent.*2).
Proof.
  unfold fragmented, session_keys, len. induction sent as [|[cf m] sent IH]; [done|].
  cbn [omap list_omap fmap list_fmap snd].
  destruct (decide (1 < len (me_datagrams m))) as [Hl|Hl].
  - rewrite filter_cons_True by done. destruct (message_key a cf (me_datagrams m)); cbn [length]; lia.
  - rewrite filter_cons_False by done. unfold message_key. by destruct (Z.ltb_spec 1 (len (me_datagrams m))).
Qed.

(** Every arrival of a session is a datagram of one of its messages. *)
Lemma arrivals_accepted L sent evs :
  DatagramAddrs_wf a -> Forall (fun s => message_sent a s.1 s.2) sent -> session_arrivals L sent.*2 evs ->
  Forall (fun e => accepted a e.2.2) evs.
Proof.
  intros Ha Hs [Hi _ Hc _]. apply Forall_forall. intros [i [t d]] Hin.
  rewrite Forall_forall in Hi. specialize (Hi _ Hin). cbn [fst snd] in *.
  destruct (lookup_lt_is_Some_2 _ _ Hi) as [m Hm]. rewrite list_lookup_fmap in Hm.
  destruct (sent !! i) as [[cf m']|] eqn:E; [|done]. injection Hm as ->.
  pose proof (proj1 (Forall_lookup _ _) Hs _ _ E) as Hsent.
  pose proof (built_accepted a cf m Ha Hsent) as Hacc. rewrite Forall_forall in Hacc. apply Hacc.
  rewrite <- (Hc i m) by (by rewrite list_lookup_fmap, E). apply list_elem_of_fmap. exists (t, d).
  split; [done|]. by apply elem_of_project.
Qed.
End exchange.

(** ** Properties *)

(** C11. Two peers: one binds a flow, the other the same flow mirrored, and the first
    sends messages whose fragments the second reassembles.  The sender never uses an
    identification twice.  If no more messages are fragmented than the receiver keeps pending,
    each fragmented message fits the default limits (total size, number of fragments, its
    fragments within the reassembly timeout of its first) and each call of [recv] is handed,
    before its deadline, one datagram of the session behind any packets of other flows, then
    whatever the interleaving of the datagrams, a call gives nothing until the last datagram of
    a message has come and then the message as the policy lets it through (a policy that drops
    all option-bearing datagrams lets through the messages without options and fragments
    only). *)
Theorem peers_exchange `{Crc32cSpec} (config_a config_b : PeerConfig) (ka kb : BindAnswers) (A B A' : Peer)
    (ms : list Message) (evs : list (nat * (Z * list Z))) (ks : list RecvAnswers) :
  Peer_bind config_a ka = Ok A -> Peer_bind config_b kb = Ok B ->
  pc_addrs config_b = mirrored (pc_addrs config_a) ->
  DatagramAddrs_wf (pc_addrs config_a) -> SendConfig_wf (pc_send config_a) ->
  (forall g, ba_from_os_random ka = Ok g -> generator_wf g) ->
  Forall (fun m => bytes (me_payload m) /\ SendOptions_wf (me_options m)) ms ->
  peer_sends A ms A' -> len (fragmented ms) <= LIMITS_REASSEMBLY_MAX_PENDING_PARTIALS ->
  session_arrivals ReassemblyLimits_default ms evs ->
  Forall2 (fun k e => arrives (pe_receiver B) k e.2.1 e.2.2) ks evs ->
  exists outs B', recv_all B ks = Some (outs, B') /\ length outs = length evs /\
    forall i m, ms !! i = Some m ->
      project i (zip evs.*1 outs) = shown <$> session_outcome (pc_receive config_b) m.
Proof.
  intros HA HB Hmir Ha Hc Hg Hms Hsends Hroom Harr Hks.
  apply Peer_bind_spec in HA as (_ & _ & HAa & _ & HAid & HAwf & HAgen).
  apply Peer_bind_spec in HB as (HBr & HBc & _ & HBp & _). rewrite Hmir in HBr.
  assert (generator_wf (pe_identifications A)) as Hgen.
  { destruct Hc as (_ & _ & _ & Hseed). destruct (cf_identification (pc_send config_a)); [by rewrite HAgen|by apply Hg]. }
  destruct (peer_sends_spec _ _ _ _ Hsends HAa (HAwf Hc) HAid Hgen Hms) as (sent & <- & Hsent & Hn & _).
  destruct (session_decoded (pc_addrs config_a) (pc_receive config_b) ReassemblyCache_new sent evs)
    as (out & c' & Hd & Hlen & Hres); [done..|apply ReassemblyLimits_default_wf| |done|].
  { split; [by apply Forall_forall|]. pose proof (session_keys_fragmented (pc_addrs config_a) sent).
    change (ReassemblyCache_len ReassemblyCache_new) with 0.
    change (rl_max_pending_partials _) with LIMITS_REASSEMBLY_MAX_PENDING_PARTIALS. lia. }
  pose proof (arrivals_accepted _ _ _ _ Ha Hsent Harr) as Hacc.
  assert (receiver_for (mirrored (mirrored (pc_addrs config_a))) = receiver_for (pc_addrs config_a)) as Hrr by done.
  rewrite (recv_all_arrivals (pc_addrs config_a) evs.*2); [|..|congruence].
  - rewrite HBp, HBc, Hd. do 2 eexists. split; [done|]. split; [by rewrite length_fmap|].
    intros i m Hm. rewrite list_lookup_fmap in Hm. destruct (sent !! i) as [[cf m']|] eqn:E; [|done].
    injection Hm as ->. destruct (Hres i cf m E) as [Hout _].
    by rewrite project_zip_fmap, Hout.
  - rewrite HBr, Hrr in Hks. clear -Hacc Hks. revert Hacc.
    induction Hks as [|k e ks evs Hk _ IH]; intros Hacc; [constructor|].
    apply Forall_cons in Hacc as [? Hacc]. constructor; auto.
Qed.

Definition example_peer_config (a : DatagramAddrs) : PeerConfig :=
  {| pc_addrs := a; pc_send := with_identification example_send_config 7; pc_receive := example_policy;
     pc_read_timeout := Some 1000 |}.

Definition example_bind_answers : BindAnswers :=
  {| ba_send_socket := Ok tt; ba_hdrincl := 0; ba_hdrincl_error := {| raw_os_error := None |};
     ba_recv_socket := Ok tt; ba_icmp_sink := Ok tt; ba_set_timeout := Ok tt;
     ba_from_os_random := Ok (IdentificationGenerator_new 1) |}.

Definition example_peer (a : DatagramAddrs) (next : Z) : Peer :=
  {| pe_receiver := receiver_for (mirrored a); pe_cache := ReassemblyCache_new; pe_addrs := a;
     pe_send := {| cf_max_datagram_len := 60; cf_peer := PeerFragmentLimits_default_ipv4;
                   cf_fragmentation := Auto; cf_identification := None |};
     pe_receive := example_policy; pe_identifications := IdentificationGenerator_new next |}.

(** Each call sees a packet that is no IPv4 datagram, then the one of the session. *)
Definition example_answers : list RecvAnswers :=
  (fun e => {| ra_configured := Ok (Some 1000); ra_now := e.2.1; ra_instant_max := 1000000;
               ra_ticks := [{| tk_now := e.2.1; tk_set := Ok tt; tk_recv := Ok [1; 2; 3] |};
                            {| tk_now := e.2.1; tk_set := Ok tt; tk_recv := Ok e.2.2 |}];
               ra_restore := Ok tt; ra_decode_now := e.2.1 |}) <$> example_events.

Lemma example_sends :
  @peer_sends crc32c_bitwise (example_peer example_addrs 7) example_sent.*2 (example_peer example_addrs 9).
Proof.
  pose (send_to := fun (n : nat) (_ : Ipv4Addr) (_ : Z) (d : list Z) => Ok (E := IoError) (len d)).
  eapply (peer_sends_cons _ _ send_to _ (example_peer example_addrs 8)); [vm_compute; reflexivity|].
  eapply (peer_sends_cons _ _ send_to _ (example_peer example_addrs 9)); [vm_compute; reflexivity|].
  eapply (peer_sends_cons _ _ send_to _ (example_peer example_addrs 9)); [vm_compute; reflexivity|].
  constructor.
Qed.

Lemma example_arrives :
  Forall2 (fun k e => arrives (receiver_for (mirrored (mirrored example_addrs))) k e.2.1 e.2.2)
    example_answers example_events.
Proof.
  unfold example_answers. assert (Forall (fun e => e.2.1 <= 1000) example_events) as Ht
    by (repeat constructor; cbn; lia).
  induction Ht as [|[i [t d]] evs Ht _ IH]; constructor; [|exact IH]. cbn [fst snd] in *.
  exists (Some (t + 1000)). unfold recv_deadline. cbn [ra_configured ra_now ra_instant_max ra_ticks ra_restore ra_decode_now].
  destruct (Z.ltb_spec 1000000 (t + 1000)); [lia|].
  eexists [_], _, []. split; [done|]. split; [done|]. split; [|split; [split; [cbn; lia|done]|done]].
  constructor; [|constructor]. split; [split; [cbn; lia|done]|]. exists [1; 2; 3]. by split.
Qed.

Lemma peers_exchange_witness :
  exists outs B', @recv_all crc32c_bitwise (example_peer (mirrored example_addrs) 7) example_answers = Some (outs, B') /\
    length outs = 5%nat /\
    project 1 (zip example_events.*1 outs) =
      [Some (Ok None); Some (Ok (seen (apply_policy example_policy
         (@message_payload crc32c_bitwise (rev example_data) example_send_options
            [example_datagram 1 0; example_datagram 1 1]))))].
Proof.
  destruct (@peers_exchange crc32c_bitwise crc32c_bitwise_u32 (example_peer_config example_addrs)
    (example_peer_config (mirrored example_addrs)) example_bind_answers example_bind_answers
    (example_peer example_addrs 7) (example_peer (mirrored example_addrs) 7) (example_peer example_addrs 9)
    example_sent.*2 example_events example_answers) as (outs & B' & Hr & Hlen & Hres).
  - reflexivity.
  - reflexivity.
  - reflexivity.
  - apply example_inputs_wf.
  - cbn. split; [unfold usize; evaluate|]. split; [unfold u16; evaluate|]. split; unfold u8, u32; evaluate.
  - intros g [= <-]. unfold generator_wf, u32. evaluate.
  - repeat (constructor; [split; [evaluate|apply example_options_wf]|]). constructor.
  - apply example_sends.
  - vm_compute. discriminate.
  - apply example_session.
  - apply example_arrives.
  - exists outs, B'. split; [exact Hr|]. split; [exact Hlen|].
    assert (example_sent.*2 !! 1%nat = Some {| me_payload := rev example_data; me_options := example_send_options;
      me_datagrams := [example_datagram 1 0; example_datagram 1 1] |}) as E by (vm_compute; reflexivity).
    exact (Hres _ _ E).
Defined.
