(* ===== verification/Text.v ===== *)
(** Text: what the command-line tools print and parse.

    A Rust [String] is a [string] whose characters are its UTF-8 bytes.  This file
    holds the formatting the tools use ([{}] of integers and addresses, [{:02x}],
    [{:#04x}], [{:#06x}]), the error texts of src/src/error.rs (the [#[error]]
    attributes; what the operating system says of an I/O error is the class
    [IoDisplay]), and the hexadecimal reader and writer of
    src/src/bin/udpopt-send.rs. *)

From stdpp Require Import pretty.
From Stdlib Require Import Ascii.
From Stdlib Require String.
From S2P Require Import Prelude Model Kind Ip.

(** ** Bytes of a text *)

Definition ascii_of (b : Z) : ascii := ascii_of_N (Z.to_N b).

(** [str::as_bytes], and the text with the given bytes. *)
Definition as_bytes (s : string) : list Z :=
  (fun c => Z.of_N (N_of_ascii c)) <$> String.list_ascii_of_string s.
Definition from_bytes (bs : list Z) : string := String.string_of_list_ascii (ascii_of <$> bs).

(** [str::is_ascii]. *)
Definition is_ascii (s : string) : Prop := Forall (fun b => b < 128) (as_bytes s).

#[export] Instance is_ascii_dec s : Decision (is_ascii s).
Proof. unfold is_ascii. apply _. Defined.

(** ** Formatting *)

(** [{}] of an integer. *)
Definition show (x : Z) : string := pretty x.

(** [{}] of a [bool]. *)
Definition show_bool (b : bool) : string := if b then "true" else "false".

(** The lower-case hexadecimal digit of a number below 16. *)
Definition hex_digit (d : Z) : Z := if d <? 10 then 48 + d else 87 + d.

(** [{:02x}] of a byte, as bytes of text. *)
Definition hex_byte (b : Z) : list Z := [hex_digit (b / 16); hex_digit (b mod 16)].

(** [{:02x}] and [{:#04x}] of a [u8], [{:#06x}] of a [u16]. *)
Definition show_02x (b : Z) : string := from_bytes (hex_byte b).
Definition show_x04 (b : Z) : string := "0x" +:+ show_02x b.
Definition show_x06 (x : Z) : string := "0x" +:+ from_bytes (hex_byte (x / 256) ++ hex_byte (x mod 256)).

(** [{}] of an [Ipv4Addr]. *)
Definition show_ipv4 (a : Ipv4Addr) : string :=
  show (oct0 a) +:+ "." +:+ show (oct1 a) +:+ "." +:+ show (oct2 a) +:+ "." +:+ show (oct3 a).

(** The double quote. *)
Definition dquote : string := from_bytes [34].

(** [{:<width}] and [{:>width}]. *)
Definition spaces (n : Z) : string := from_bytes (replicate (Z.to_nat n) 32).
Definition pad_right (width : Z) (s : string) : string := s +:+ spaces (width - len (as_bytes s)).
Definition pad_left (width : Z) (s : string) : string := spaces (width - len (as_bytes s)) +:+ s.

(** [join(",")]. *)
Fixpoint join_comma (l : list string) : string :=
  match l with
  | [] => ""
  | [s] => s
  | s :: rest => s +:+ "," +:+ join_comma rest
  end.

(** ** Error texts *)

(** [std::io::Error]'s own text. *)
Class IoDisplay : Type := io_display : IoError -> string.

Definition ParseError_display (e : ParseError) : string :=
  match e with
  | InvalidLength kind len =>
      "invalid length " +:+ show len +:+ " for option kind " +:+ show_x04 kind
  | Overrun offset => "option at offset " +:+ show offset +:+ " overruns the surplus area"
  | DuplicateFrag => "FRAG option cannot appear more than once"
  | NonZeroPad => "surplus-area alignment pad byte must be zero"
  | OcsMismatch => "option checksum (OCS) validation failed"
  end.

Definition HeaderError_display (e : HeaderError) : string :=
  match e with
  | IpTruncated need have =>
      "IP header truncated: need " +:+ show need +:+ " bytes, have " +:+ show have
  | UnsupportedVersion v => "unsupported IP version " +:+ show v
  | BadIhl ihl => "IPv4 IHL " +:+ show ihl +:+ " is below the minimum of 5"
  | BadIpLength length =>
      "IP length field " +:+ show length +:+ " is inconsistent with the header or buffer"
  | IpChecksumMismatch => "IPv4 header checksum mismatch"
  | UnexpectedProtocol p => "transport protocol " +:+ show p +:+ " is not UDP"
  | UdpTruncated have => "UDP header truncated: need 8 bytes, have " +:+ show have
  | UdpLengthInvalid length =>
      "UDP Length " +:+ show length +:+ " is below the 8-byte header minimum"
  end.

Definition SocketError_display `{IoDisplay} (e : SocketError) : string :=
  match e with
  | Io e => "i/o error: " +:+ io_display e
  | PermissionDenied => "operation requires CAP_NET_RAW or root privileges"
  end.

Definition RecvError_display `{IoDisplay} (e : RecvError) : string :=
  match e with
  | RecvHeader e => "header error: " +:+ HeaderError_display e
  | RecvParse e => "parse error: " +:+ ParseError_display e
  | UdpLengthExceedsIpPayload udp_len transport_payload_len =>
      "UDP Length " +:+ show udp_len +:+ " exceeds IP transport payload length "
        +:+ show transport_payload_len
  | UdpChecksumMismatch expected actual =>
      "UDP checksum mismatch: expected " +:+ show_x06 expected +:+ ", actual " +:+ show_x06 actual
  | RecvSocket e => "socket error: " +:+ SocketError_display e
  end.

Definition SerializeError_display (e : SerializeError) : string :=
  match e with
  | ReservedKind kind => "option kind " +:+ show_x04 kind +:+ " is reserved for the serializer"
  | UnsafeKind kind =>
      "unsafe option kind " +:+ show_x04 kind +:+ " cannot be serialized at this layer"
  | UnsupportedAssignedKind kind =>
      "assigned or reserved safe option kind " +:+ show_x04 kind
        +:+ " cannot be serialized at this layer"
  | SerializeDuplicateFrag => "FRAG option cannot be serialized more than once"
  | ValueTooLong kind value_len max =>
      "value for option kind " +:+ show_x04 kind +:+ " is too long: " +:+ show value_len
        +:+ " bytes, max " +:+ show max +:+ " bytes"
  | InvalidFixedValueLength kind value_len =>
      "invalid value length " +:+ show value_len +:+ " for fixed-size option kind " +:+ show_x04 kind
  | BodyTooLong len max =>
      "serialized options body is too long: " +:+ show len +:+ " bytes, max " +:+ show max
        +:+ " bytes"
  | FragmentStartTooLarge start max =>
      "fragment data start " +:+ show start +:+ " exceeds the 16-bit FRAG field max " +:+ show max
  end.

Definition SplitError_display (e : SplitError) : string :=
  match e with
  | ReassembledDatagramTooLarge len max =>
      "reassembled UDP datagram is too large: " +:+ show len +:+ " bytes, max " +:+ show max
        +:+ " bytes"
  | SegmentLimitExceeded needed max =>
      "fragment count " +:+ show needed +:+ " exceeds peer segment limit " +:+ show max
  | FragmentCapacityTooSmall required max =>
      "fragment surplus budget is too small: need at least " +:+ show required +:+ " bytes, max "
        +:+ show max +:+ " bytes"
  | FragmentSurplusTooLarge len max =>
      "fragment surplus budget is too large for IPv4: " +:+ show len +:+ " bytes, max "
        +:+ show max +:+ " bytes"
  | RdosTooLarge rdos max =>
      "terminal RDOS " +:+ show rdos +:+ " exceeds the 16-bit FRAG field max " +:+ show max
  | FragmentOffsetTooLarge offset max =>
      "fragment offset " +:+ show offset +:+ " exceeds the 16-bit FRAG field max " +:+ show max
  | OptionsBodyTooShort len =>
      "per-datagram options body is too short: " +:+ show len +:+ " bytes"
  | IdentificationExhausted => "FRAG identification generator is exhausted"
  | SplitSerialize e => SerializeError_display e
  end.

Definition SendError_display `{IoDisplay} (e : SendError) : string :=
  match e with
  | SendSerialize e => SerializeError_display e
  | SendSplit e => SplitError_display e
  | SendSocket e => SocketError_display e
  | FragmentIdentificationRequired => "FRAG identification is required when fragmentation is used"
  | DatagramTooLarge len max =>
      "datagram is too large: " +:+ show len +:+ " bytes, max " +:+ show max +:+ " bytes"
  | InvalidConfig reason => "invalid send configuration: " +:+ reason
  end.

(** ** Hexadecimal text *)

(** [hex]: two digits per byte. *)
Definition hex_bytes (bs : list Z) : list Z := concat (hex_byte <$> bs).
Definition hex (bs : list Z) : string := from_bytes (hex_bytes bs).

(** [char::to_digit(16)]. *)
Definition to_digit16 (c : Z) : option Z :=
  if (48 <=? c) && (c <=? 57) then Some (c - 48)
  else if (97 <=? c) && (c <=? 102) then Some (c - 87)
  else if (65 <=? c) && (c <=? 70) then Some (c - 55)
  else None.

(** The digit loop of [u8::from_str_radix], checked against overflow. *)
Fixpoint radix_loop (acc : Z) (digits : list Z) : option Z :=
  match digits with
  | [] => Some acc
  | c :: rest =>
      let! d := to_digit16 c in
      if acc * 16 + d <=? U8_MAX then radix_loop (acc * 16 + d) rest else None
  end.

(** [u8::from_str_radix(text, 16)]: a sign alone and the empty text are errors, a
    plus sign before digits is skipped. *)
Definition u8_from_str_radix_16 (text : list Z) : option Z :=
  match text with
  | [] => None
  | [c] => if (c =? 43) || (c =? 45) then None else radix_loop 0 text
  | c :: rest => if c =? 43 then radix_loop 0 rest else radix_loop 0 text
  end.

(** [str::from_utf8] accepts two bytes: both ASCII, or one two-byte sequence. *)
Definition utf8_pair (a b : Z) : bool :=
  (a <? 128) && (b <? 128)
  || (194 <=? a) && (a <=? 223) && (128 <=? b) && (b <=? 191).

(** [char::is_ascii_whitespace] and the separators the tool skips. *)
Definition is_ascii_whitespace (c : Z) : bool :=
  (c =? 32) || (c =? 9) || (c =? 10) || (c =? 12) || (c =? 13).
Definition is_separator (c : Z) : bool := is_ascii_whitespace c || (c =? 58) || (c =? 95).

(** Filtering characters filters bytes: the separators are ASCII, and bytes of
    longer UTF-8 sequences are not. *)
Definition clean (s : string) : list Z :=
  filter (fun c => is_separator c = false) (as_bytes s).

(** The loop over [chunks_exact(2)]; the panic is the [expect] on [from_utf8].
    Errors are the tool's messages. *)
Fixpoint parse_hex_pairs (text : list Z) : option (result (list Z) string) :=
  match text with
  | a :: b :: rest =>
      ensure (utf8_pair a b);
      match u8_from_str_radix_16 [a; b] with
      | None => Some (Err ("invalid hex byte '" +:+ from_bytes [a; b] +:+ "'"))
      | Some byte =>
          let! r := parse_hex_pairs rest in
          let? bs := r in
          Some (Ok (byte :: bs))
      end
  | _ => Some (Ok [])
  end.

Definition parse_hex_vec (input : string) : option (result (list Z) string) :=
  let text := clean input in
  if negb (len text mod 2 =? 0)
  then Some (Err "hex input must contain an even number of digits")
  else parse_hex_pairs text.

(** ** What hexadecimal text denotes *)

(** Two characters that denote a byte: two digits, or a plus sign and a digit. *)
Definition denotes (a b x : Z) : Prop :=
  (exists h l, to_digit16 a = Some h /\ to_digit16 b = Some l /\ x = h * 16 + l) \/
  (a = 43 /\ to_digit16 b = Some x).

Inductive hex_text : list Z -> list Z -> Prop :=
| hex_text_nil : hex_text [] []
| hex_text_cons a b x text bs :
    denotes a b x -> hex_text text bs -> hex_text (a :: b :: text) (x :: bs).

(** ** Lemmas *)

(** Induction two elements at a time. *)
Lemma list_pair_ind {A} (P : list A -> Prop) :
  P [] -> (forall a, P [a]) -> (forall a b l, P l -> P (a :: b :: l)) -> forall l, P l.
Proof.
  intros H0 H1 H2. fix IH 1. intros [|a [|b l]]; [done|apply H1|]. apply H2, IH.
Qed.

Lemma as_from_bytes bs : bytes bs -> as_bytes (from_bytes bs) = bs.
Proof.
  intros Hb. unfold as_bytes, from_bytes, ascii_of. rewrite String.list_ascii_of_string_of_list_ascii.
  induction Hb as [|b bs [? ?] _ IH]; [done|]. cbn [fmap list_fmap] in *. rewrite IH. f_equal.
  rewrite N_ascii_embedding by lia. lia.
Qed.

Lemma from_bytes_app a b : from_bytes (a ++ b) = from_bytes a +:+ from_bytes b.
Proof.
  unfold from_bytes. induction a as [|x a IH]; [done|].
  cbn [app fmap list_fmap String.string_of_list_ascii String.append] in *. by rewrite IH.
Qed.

Lemma as_bytes_bytes s : bytes (as_bytes s).
Proof.
  unfold as_bytes. apply Forall_fmap, Forall_true. intros c. cbn. unfold u8.
  pose proof (N_ascii_bounded c). lia.
Qed.

Lemma as_bytes_app s t : as_bytes (s +:+ t) = as_bytes s ++ as_bytes t.
Proof. unfold as_bytes. induction s as [|c s IH]; [done|].
  exact (f_equal (cons _) IH).
Qed.

Lemma to_digit16_bound c d : to_digit16 c = Some d -> 0 <= d < 16 /\ c < 128.
Proof. unfold to_digit16. bool_cases; intros; simplify_eq; lia. Qed.

Lemma to_digit16_hex_digit d : 0 <= d < 16 -> to_digit16 (hex_digit d) = Some d.
Proof. intros. unfold to_digit16, hex_digit. bool_cases; try lia; f_equal; lia. Qed.

Lemma hex_digit_bound d : 0 <= d < 16 -> 48 <= hex_digit d < 103 /\ is_separator (hex_digit d) = false.
Proof.
  intros. unfold is_separator, is_ascii_whitespace, hex_digit.
  destruct (Z.ltb_spec d 10); (split; [lia|]); bool_cases; done || lia.
Qed.

Lemma radix_loop_2 a b x :
  radix_loop 0 [a; b] = Some x <->
  exists h l, to_digit16 a = Some h /\ to_digit16 b = Some l /\ x = h * 16 + l.
Proof.
  cbn [radix_loop]. unfold U8_MAX. destruct (to_digit16 a) as [h|] eqn:Ea; [|by split; [|intros (? & ? & [=] & _)]].
  pose proof (to_digit16_bound _ _ Ea). destruct (Z.leb_spec (0 * 16 + h) 255); [|lia].
  destruct (to_digit16 b) as [l|] eqn:Eb; [|by split; [|intros (? & ? & ? & [=] & _)]]. pose proof (to_digit16_bound _ _ Eb).
  destruct (Z.leb_spec ((0 * 16 + h) * 16 + l) 255); [|lia].
  split; [intros [= <-]; exists h, l; repeat split; lia|].
  intros (h' & l' & [= <-] & [= <-] & ->). done.
Qed.

Lemma radix_pair a b x : u8_from_str_radix_16 [a; b] = Some x <-> denotes a b x.
Proof.
  unfold u8_from_str_radix_16, denotes. destruct (Z.eqb_spec a 43) as [->|Ha].
  - cbn [radix_loop]. unfold U8_MAX. destruct (to_digit16 b) as [l|] eqn:Eb.
    + apply to_digit16_bound in Eb as [? _]. destruct (Z.leb_spec (0 * 16 + l) 255); [|lia].
      rewrite Z.add_0_l. split; [by right|]. intros [(h & l' & [=] & _)|[_ ?]]. done.
    + split; [done|]. by intros [(h & l' & ? & [=] & _)|[_ [=]]].
  - rewrite radix_loop_2. split; [by left|]. by intros [?|[? _]].
Qed.

Lemma denotes_u8 a b x : denotes a b x -> u8 x /\ a < 128 /\ b < 128.
Proof.
  unfold u8. intros [(h & l & [? ?]%to_digit16_bound & [? ?]%to_digit16_bound & ->)|
    (-> & [? ?]%to_digit16_bound)]; lia.
Qed.

Lemma denotes_utf8 a b x : denotes a b x -> utf8_pair a b = true.
Proof.
  intros (_ & Ha & Hb)%denotes_u8. unfold utf8_pair. apply Z.ltb_lt in Ha, Hb. by rewrite Ha, Hb.
Qed.

(** An odd character at the end is ignored: the length test comes first. *)
Lemma parse_hex_pairs_Ok text bs :
  Nat.Even (length text) -> parse_hex_pairs text = Some (Ok bs) <-> hex_text text bs.
Proof.
  revert bs. induction text as [|a|a b text IH] using list_pair_ind; intros bs He.
  - split; [intros [= <-]; constructor|]. by inversion 1.
  - by destruct He as [k Hk]; simpl in Hk; lia.
  - assert (Nat.Even (length text)) as He' by (destruct He as [k Hk]; exists (k - 1)%nat; simpl in Hk; lia).
    cbn [parse_hex_pairs]. split.
    + destruct (utf8_pair a b); [|done].
      destruct (u8_from_str_radix_16 [a; b]) as [x|] eqn:Ex; [|done]. apply radix_pair in Ex.
      destruct (parse_hex_pairs text) as [[l|]|] eqn:El; [|done|done]. intros [= <-].
      constructor; [done|]. by apply IH.
    + inversion 1 as [|? ? x ? l Hd Hl]; subst. rewrite (denotes_utf8 _ _ _ Hd).
      apply radix_pair in Hd. rewrite Hd. apply (IH _ He') in Hl. by rewrite Hl.
Qed.

Lemma parse_hex_pairs_panic text :
  Nat.Even (length text) -> parse_hex_pairs text = None <->
  exists pre a b post bs, text = pre ++ a :: b :: post /\ hex_text pre bs /\ utf8_pair a b = false.
Proof.
  induction text as [|a|a b text IH] using list_pair_ind; intros He.
  - split; [done|]. by intros ([] & ? & ? & ? & ? & ? & _).
  - by destruct He as [k Hk]; simpl in Hk; lia.
  - assert (Nat.Even (length text)) as He' by (destruct He as [k Hk]; exists (k - 1)%nat; simpl in Hk; lia).
    specialize (IH He'). cbn [parse_hex_pairs]. split.
    + destruct (utf8_pair a b) eqn:Eu; [|intros _; exists [], a, b, text, []; repeat split; [constructor|done]].
      destruct (u8_from_str_radix_16 [a; b]) as [x|] eqn:Ex; [|done]. apply radix_pair in Ex.
      destruct (parse_hex_pairs text) as [[l|]|] eqn:El; [done|done|]. intros _.
      destruct (proj1 IH eq_refl) as (pre & c & d & post & bs & -> & Hp & Hu).
      exists (a :: b :: pre), c, d, post, (x :: bs). split; [done|]. split; [by constructor|done].
    + intros (pre & c & d & post & bs & Ht & Hp & Hu). inversion Hp as [|e f x t l Hd Hl]; subst.
      * injection Ht as -> -> ->. by rewrite Hu.
      * injection Ht as -> -> ->. rewrite (denotes_utf8 _ _ _ Hd).
        apply radix_pair in Hd. rewrite Hd.
        rewrite (proj2 IH); [done|]. by exists t, c, d, post, l.
Qed.

Lemma clean_ascii s : is_ascii s -> Forall (fun b => b < 128) (clean s).
Proof.
  unfold is_ascii, clean. rewrite !Forall_forall. intros Ha b [_ Hb]%list_elem_of_filter. by apply Ha.
Qed.

Lemma hex_text_hex_bytes bs : bytes bs -> hex_text (hex_bytes bs) bs.
Proof.
  induction 1 as [|b bs [? ?] _ IH]; [constructor|]. constructor; [|done]. left.
  exists (b / 16), (b mod 16). rewrite !to_digit16_hex_digit by dlia. repeat split. dlia.
Qed.

Lemma hex_bytes_clean bs :
  bytes bs -> Forall (fun c => 48 <= c < 103 /\ is_separator c = false) (hex_bytes bs).
Proof.
  induction 1 as [|b bs [? ?] _ IH]; [constructor|]. unfold hex_bytes. cbn [fmap list_fmap concat hex_byte app].
  do 2 (constructor; [apply hex_digit_bound; dlia|]). done.
Qed.

Lemma clean_hex bs : bytes bs -> clean (hex bs) = hex_bytes bs.
Proof.
  intros Hb. pose proof (hex_bytes_clean bs Hb) as Hc. unfold clean, hex. rewrite as_from_bytes.
  - clear Hb. induction Hc as [|c l [_ Hs] _ IH]; [done|]. by rewrite filter_cons_True, IH.
  - apply (Forall_impl _ _ _ Hc). unfold u8. lia.
Qed.

Lemma hex_text_even text bs : hex_text text bs -> length text = (2 * length bs)%nat.
Proof. induction 1; simpl in *; lia. Qed.

Lemma even_len {A} (l : list A) : (len l mod 2 =? 0) = true <-> Nat.Even (length l).
Proof.
  rewrite Z.eqb_eq. unfold len. split.
  - intros. exists (Z.to_nat (Z.of_nat (length l) / 2)). dlia.
  - intros [k ->]. dlia.
Qed.

Lemma parse_hex_vec_Ok s bs : parse_hex_vec s = Some (Ok bs) <-> hex_text (clean s) bs.
Proof.
  unfold parse_hex_vec. destruct (len (clean s) mod 2 =? 0) eqn:E; cbn [negb].
  - apply even_len in E. by apply parse_hex_pairs_Ok.
  - split; [done|]. intros Ht%hex_text_even. exfalso. assert (Nat.Even (length (clean s))) as He%even_len
      by (exists (length bs); lia). congruence.
Qed.

Lemma parse_hex_vec_panic s :
  parse_hex_vec s = None <->
  len (clean s) mod 2 = 0 /\
  exists pre a b post bs, clean s = pre ++ a :: b :: post /\ hex_text pre bs /\ utf8_pair a b = false.
Proof.
  unfold parse_hex_vec. destruct (len (clean s) mod 2 =? 0) eqn:E; cbn [negb].
  - rewrite parse_hex_pairs_panic by (by apply even_len). apply Z.eqb_eq in E. by split; [split|intros [_ ?]].
  - apply Z.eqb_neq in E. split; [done|by intros [? _]].
Qed.

Lemma parse_hex_vec_ascii s : is_ascii s -> is_Some (parse_hex_vec s).
Proof.
  intros Ha. destruct (parse_hex_vec s) eqn:E; [done|]. exfalso.
  apply parse_hex_vec_panic in E as (_ & pre & a & b & post & bs & Hc & _ & Hu).
  pose proof (clean_ascii s Ha) as Hf. rewrite Hc in Hf. decompose_Forall_hyps.
  unfold utf8_pair in Hu. bool_cases; done || lia.
Qed.

(** ** Properties *)

(** C40. Hexadecimal arguments are read exactly: after dropping white space, colons
    and underscores the text is accepted iff it is a sequence of character pairs
    that each denote a byte (a plus sign may stand for the first digit), and the
    bytes are those denoted; what [hex] prints is read back, with any separators
    put in; on ASCII text the reader always answers, with bytes or a message.  On
    other text it panics exactly when a well-formed prefix is followed by two bytes
    that cut through a UTF-8 character. *)
Theorem parse_hex_exact (s : string) :
  (forall bs, parse_hex_vec s = Some (Ok bs) <-> hex_text (clean s) bs) /\
  (forall bs, bytes bs -> clean s = clean (hex bs) -> parse_hex_vec s = Some (Ok bs)) /\
  (is_ascii s -> is_Some (parse_hex_vec s)) /\
  (parse_hex_vec s = None <->
   len (clean s) mod 2 = 0 /\
   exists pre a b post bs, clean s = pre ++ a :: b :: post /\ hex_text pre bs /\ utf8_pair a b = false).
Proof.
  split; [apply parse_hex_vec_Ok|]. split; [|split; [apply parse_hex_vec_ascii|apply parse_hex_vec_panic]].
  intros bs Hb Hc. apply parse_hex_vec_Ok. rewrite Hc, clean_hex by done. by apply hex_text_hex_bytes.
Qed.

(** Bytes with separators; and a text, [a], e acute, [b], that panics. *)
Lemma parse_hex_exact_witness :
  parse_hex_vec "de:ad BE_ef" = Some (Ok [0xde; 0xad; 0xbe; 0xef]) /\
  is_Some (parse_hex_vec "0g") /\
  parse_hex_vec (from_bytes [97; 195; 169; 98]) = None.
Proof.
  split; [|split].
  - apply (proj1 (parse_hex_exact "de:ad BE_ef")). vm_compute.
    repeat (constructor; [left; do 2 eexists; repeat split|]). constructor.
  - apply (parse_hex_exact "0g"). evaluate.
  - apply (parse_hex_exact (from_bytes [97; 195; 169; 98])). split; [reflexivity|].
    exists [], 97, 195, [169; 98], []. repeat constructor.
Defined.
