(* ===== verification/PipelineLog.v ===== *)
(** The warnings of the receive pipeline (src/src/recv/pipeline.rs): each [warn_sampled!] of
    [process_datagram_inner], [parse_options] and [accepts_apc] with its category and text.

    Warnings never change what is received, so that the pipeline with its log is written
    beside the pipeline of [RecvOptions] and [Pipeline], stage by stage: a stage returns what
    it returns there ([parse_options_drop] to [process_datagram_drop]) together with the
    warnings it raised, in order.  [Warnings] samples them. *)

From S2P Require Import Prelude Model Kind Parse Typed Serialize Checksum Ip Udp Surplus Ocs.
From S2P Require Import Split Reassembly RecvOptions Pipeline Socket Api EndToEnd Text.

(** ** Data *)

(** The statics of the source (recv/pipeline.rs and api/mod.rs). *)
Inductive Category : Type :=
| UDP_LENGTH_BELOW_MIN_WARNINGS
| UDP_LENGTH_EXCEEDS_IP_WARNINGS
| UDP_CHECKSUM_WARNINGS
| PAD_WARNINGS
| OCS_ZERO_WITH_UDP_CHECKSUM_WARNINGS
| OCS_MISMATCH_WARNINGS
| TLV_PARSE_WARNINGS
| MUST_SUPPORT_ORDER_WARNINGS
| NOP_FLOOD_WARNINGS
| APC_MISMATCH_WARNINGS
| DROP_ALL_WARNINGS
| REQUIRED_OPTION_WARNINGS
| REQUIRED_OCS_WARNINGS.

#[export] Instance Category_eq_dec : EqDecision Category.
Proof. solve_decision. Defined.

(** A warning that is raised: its counter and its text. *)
Abbreviation warning := (Category * string)%type.

(** ** The header stage *)

Definition udp_length_below_min_message (length : Z) : string :=
  "dropping UDP-options datagram: UDP Length " +:+ show length +:+ " is below the 8-byte minimum".

Definition udp_length_exceeds_ip_message (length transport_payload_len : Z) : string :=
  "dropping UDP-options datagram: UDP Length " +:+ show length +:+ " exceeds IP transport payload "
  +:+ show transport_payload_len.

(** The warning that goes with each error of the header stage. *)
Definition receive_udp_warnings (e : RecvError) : list warning :=
  match e with
  | RecvHeader (UdpLengthInvalid length) =>
      [(UDP_LENGTH_BELOW_MIN_WARNINGS, udp_length_below_min_message length)]
  | UdpLengthExceedsIpPayload length transport_payload_len =>
      [(UDP_LENGTH_EXCEEDS_IP_WARNINGS, udp_length_exceeds_ip_message length transport_payload_len)]
  | UdpChecksumMismatch expected actual =>
      [(UDP_CHECKSUM_WARNINGS,
        "dropping UDP-options datagram: UDP checksum mismatch expected=" +:+ show_x06 expected
        +:+ " actual=" +:+ show_x06 actual)]
  | _ => []
  end.

(** ** The option loop *)

(** [seen_non_must_support_safe] and the warnings so far. *)
Record loop_log : Type := { ll_safe_seen : bool; ll_warnings : list warning }.

Definition loop_log_init : loop_log := {| ll_safe_seen := false; ll_warnings := [] |}.

(** The test of the option order. *)
Definition log_order (l : loop_log) (kind : OptionKind) : loop_log :=
  if is_safe kind && negb (is_must_support kind)
  then {| ll_safe_seen := true; ll_warnings := ll_warnings l |}
  else if ll_safe_seen l && is_must_support kind && negb match kind with Eol | Nop => true | _ => false end
  then {| ll_safe_seen := ll_safe_seen l;
          ll_warnings := ll_warnings l ++
            [(MUST_SUPPORT_ORDER_WARNINGS, "received must-support UDP option after another SAFE option")] |}
  else l.

Definition log_add (l : loop_log) (ws : list warning) : loop_log :=
  {| ll_safe_seen := ll_safe_seen l; ll_warnings := ll_warnings l ++ ws |}.

Section log_options.
Context `{Crc32c}.

(** The warning of [accepts_apc]. *)
Definition apc_warnings (o : OptionRef) (user_data : list Z) : option (list warning) :=
  let! d := Apc_decode (or_value o) in
  Some match d with
  | Ok apc =>
      if decide (apc = Apc_compute user_data) then []
      else [(APC_MISMATCH_WARNINGS, "received APC option with a checksum mismatch")]
  | Err _ => []
  end.

Context (fragment_option_context : bool) (user_data : list Z).

(** An APC is only checked outside of fragments, and only the first one. *)
Definition log_apc (s : parse_state) (l : loop_log) (o : OptionRef) : option loop_log :=
  match or_kind o with
  | Apc =>
      if fragment_option_context then Some l else
      let! (first, _) := mark_seen_once (ps_seen s) (to_byte (or_kind o)) in
      if first then let! ws := apc_warnings o user_data in Some (log_add l ws) else Some l
  | _ => Some l
  end.

(** What one iteration adds to the log: nothing when the item is rejected. *)
Definition log_body (s : parse_state) (l : loop_log) (i : item) : option loop_log :=
  match i with
  | Err _ => Some l
  | Ok o =>
      match
        (if negb (fragment_option_context && bool_decide (or_kind o = Apc))
         then reject_sub_minimum o else Ok tt)
      with
      | Err _ => Some l
      | Ok _ => log_apc s (log_order l (or_kind o)) o
      end
  end.

(** The body of the loop with its log. *)
Definition parse_body_logged (sl : parse_state * loop_log) (i : item) :
    option (flow (parse_state * loop_log) (result ParsedOptions ParseError * list warning)) :=
  let! f := parse_body fragment_option_context user_data sl.1 i in
  let! l := log_body sl.1 sl.2 i in
  Some match f with
  | Continue s => Continue (s, l)
  | Break s => Break (s, l)
  | Return r => Return (r, ll_warnings l)
  end.
End log_options.

Definition nop_flood_warnings (it : OptionsIter) : list warning :=
  if LIMITS_NOP_RUN_DOS_THRESHOLD <? it_max_nop_run it
  then [(NOP_FLOOD_WARNINGS,
         "received " +:+ show (it_max_nop_run it) +:+ " consecutive UDP NOP options; threshold is "
         +:+ show LIMITS_NOP_RUN_DOS_THRESHOLD)]
  else [].

Definition parse_options_logged `{Crc32c} (options_bytes user_data : list Z) (options_offset : Z) :
    option (result ParsedOptions ParseError * list warning) :=
  let! option_limit := fragment_option_limit options_bytes (is_nil user_data) options_offset in
  let fragment_option_context :=
    match option_limit with End_ _ => true | _ => false end in
  match option_limit with
  | MalformedFrag frag => Some (Ok (parsed_drop (Some frag) true true), [])
  | _ =>
      let! options_bytes :=
        match option_limit with End_ end_ => slice options_bytes 0 end_ | _ => Some options_bytes end in
      let! (r, it) := for_each (parse_body_logged fragment_option_context user_data)
                        (parse_fuel options_bytes) (OptionsIter_new options_bytes)
                        (parse_state_init, loop_log_init) in
      match r with
      | inr ret => Some ret
      | inl (s, l) =>
          Some (Ok {| po_options := ps_options s; po_reports := ps_reports s; po_frag := ps_frag s;
                      po_unsupported_unsafe_seen := ps_unsupported_unsafe_seen s;
                      po_fragment_failed := false |}, ll_warnings l ++ nop_flood_warnings it)
      end
  end.

(** ** The stages *)

Definition discarding (e : ParseError) : string := "discarding UDP options: " +:+ ParseError_display e.

Definition receive_options_logged `{Crc32c} (v : udp_view) :
    option ((Delivery + (ParsedOptions * OcsStatus)) * list warning) :=
  match locate_surplus (uv_ip v) (uv_udp v) with
  | None => Some (inl (deliver_without_options (uv_user_data v) false StAbsent), [])
  | Some layout =>
      let! pad := get (uv_datagram v) (starts_at layout) in
      match check_pad pad (needs_pad layout) with
      | Err error =>
          Some (inl (deliver_without_options (uv_user_data v) true StFailed), [(PAD_WARNINGS, discarding error)])
      | Ok _ =>
          let! body := slice (uv_datagram v) (SurplusLayout_ocs_at layout) (uv_ip_end v) in
          let! check := ocs_validate body (surplus_len layout mod 65536) (udp_checksum (uv_udp v)) in
          match check with
          | OcsIgnoreOptions =>
              Some (inl (deliver_without_options (uv_user_data v) true StInvalidZero),
                    [(OCS_ZERO_WITH_UDP_CHECKSUM_WARNINGS,
                      "discarding UDP options: OCS is zero while UDP checksum is non-zero")])
          | OcsError error =>
              Some (inl (deliver_without_options (uv_user_data v) true StFailed),
                    [(OCS_MISMATCH_WARNINGS, discarding error)])
          | OcsValid | OcsUnused =>
              let ocs_status := match check with OcsValid => StValid | _ => StUnused end in
              let options_offset_from_udp_header :=
                SurplusLayout_ocs_at layout + LENGTH_OCS - uv_udp_at v in
              let! options_bytes := slice body LENGTH_OCS (len body) in
              let! (parsed, ws) := parse_options_logged options_bytes (uv_user_data v)
                                     options_offset_from_udp_header in
              Some match parsed with
              | Ok parsed => (inr (parsed, ocs_status), ws)
              | Err error => (inl (deliver_without_options (uv_user_data v) true ocs_status),
                              ws ++ [(TLV_PARSE_WARNINGS, discarding error)])
              end
          end
      end
  end.

Abbreviation logged_outcome := (option (result Delivery RecvError * ReassemblyCache * list warning)).

Section logged_stages.
Context `{Crc32c} (reprocess : list Z -> ReassemblyCache -> logged_outcome).

Definition receive_fragment_logged (v : udp_view) (cache : ReassemblyCache) (now : Z)
    (reassembly_allowed : bool) (frag : FragOption) (parsed : ParsedOptions)
    (ocs_status : OcsStatus) : logged_outcome :=
  if negb reassembly_allowed then Some (Ok Dropped, cache, []) else
  let key := frag_key (uv_ip v) (uv_udp v) frag in
  let fragment_data_at := uv_udp_at v + frag_start frag in
  match slice (uv_datagram v) fragment_data_at (uv_ip_end v) with
  | None => Some (Ok Dropped, ReassemblyCache_discard cache key, [])
  | Some fragment_data =>
      let! (o, cache) := ReassemblyCache_insert_with_options_and_failures cache key frag
        fragment_data
        {| fp_options := po_options parsed;
           fp_option_failures := fragment_option_failures (po_reports parsed);
           fp_ocs_nonzero := Some (bool_decide (ocs_status = StValid)) |} now in
      match o with
      | Incomplete => Some (Ok Buffered, cache, [])
      | Abort _ => Some (Ok Dropped, cache, [])
      | Complete done =>
          let! reassembled := reassembled_datagram (uv_ip v) (uv_udp v) (co_udp_length done)
                                (co_tail done) in
          match reassembled with
          | None => Some (Ok Dropped, cache, [])
          | Some reassembled =>
              let! (r, cache, ws) := reprocess reassembled cache in
              match r with
              | Err e => Some (Err e, cache, ws)
              | Ok d => Some (Ok (merge_delivery done d), cache, ws)
              end
          end
      end
  end.

Definition dispatch_logged (v : udp_view) (cache : ReassemblyCache) (now : Z)
    (reassembly_allowed : bool) (parsed : ParsedOptions) (ocs_status : OcsStatus) : logged_outcome :=
  let user_data := uv_user_data v in
  let frag := po_frag parsed in
  let valid_frag_seen := match frag with Some _ => true | None => false end in
  if valid_frag_seen && negb (is_nil user_data)
  then Some (Ok (deliver_without_options user_data true ocs_status), cache, []) else
  let empty_frag := if is_nil user_data then frag else None in
  let fragment_key := frag_key (uv_ip v) (uv_udp v) <$> empty_frag in
  let unsafe_seen := po_unsupported_unsafe_seen parsed in
  if po_fragment_failed parsed
     || (match fragment_key with Some _ => true | None => false end && unsafe_seen)
  then Some (Ok Dropped,
             match fragment_key with
             | Some key => ReassemblyCache_discard cache key
             | None => cache
             end, [])
  else if unsafe_seen then
    Some (Ok (DeliverPayload
      {| pl_data := []; pl_options := []; pl_option_bearing := true;
         pl_reports := po_reports parsed;
         pl_ocs_reports := [{| ocr_status := ocs_status; ocr_source := Datagram |}] |}), cache, [])
  else
  match empty_frag with
  | Some frag => receive_fragment_logged v cache now reassembly_allowed frag parsed ocs_status
  | None =>
      Some (Ok (DeliverPayload
        {| pl_data := user_data; pl_options := po_options parsed; pl_option_bearing := true;
           pl_reports := po_reports parsed;
           pl_ocs_reports := [{| ocr_status := ocs_status; ocr_source := Datagram |}] |}), cache, [])
  end.
End logged_stages.

Fixpoint process_datagram_inner_logged `{Crc32c} (fuel : nat) (ip_datagram : list Z)
    (cache : ReassemblyCache) (now : Z) (reassembly_allowed : bool) : logged_outcome :=
  match fuel with
  | O => None
  | S fuel' =>
      let! r := receive_udp ip_datagram in
      match r with
      | Err e => Some (Err e, cache, receive_udp_warnings e)
      | Ok v =>
          let! (r, ws) := receive_options_logged v in
          match r with
          | inl d => Some (Ok d, cache, ws)
          | inr (parsed, ocs_status) =>
              let! (r, cache, ws') :=
                dispatch_logged
                  (fun datagram cache => process_datagram_inner_logged fuel' datagram cache now false)
                  v cache now reassembly_allowed parsed ocs_status in
              Some (r, cache, ws ++ ws')
          end
      end
  end.

(** [process_datagram] with the warnings it raises. *)
Definition process_datagram_warned `{Crc32c} (ip_datagram : list Z) (cache : ReassemblyCache) (now : Z) :
    logged_outcome :=
  process_datagram_inner_logged 2 ip_datagram cache now true.

(** ** Lemmas: warnings change nothing *)

Definition drop_log {A} (x : option (A * list warning)) : option A :=
  match x with Some (a, _) => Some a | None => None end.

Section drop.
Context `{Crc32c}.

(** One iteration never stops for its log. *)
Lemma log_body_total ctx ud s l i f :
  parse_body ctx ud s i = Some f -> is_Some (log_body ctx ud s l i).
Proof.
  destruct i as [o|e]; [|by eauto]. unfold parse_body, log_body.
  destruct (if negb _ then _ else _) as [|e]; [|by eauto]. unfold parse_kind, log_apc.
  destruct (or_kind o) eqn:Ek; try by eauto. destruct ctx; [by eauto|]. unfold parse_once. rewrite Ek.
  destruct (mark_seen_once _ _) as [[first seen]|]; [|done]. destruct first; [|by eauto].
  unfold apc_warnings. by destruct (Apc_decode_total (or_value o)) as [? ->].
Qed.

Definition drop_sum (x : (parse_state * loop_log) + (result ParsedOptions ParseError * list warning)) :
    parse_state + result ParsedOptions ParseError :=
  match x with inl sl => inl sl.1 | inr r => inr r.1 end.

Lemma for_each_drop ctx ud fuel : forall it s l,
  for_each (parse_body ctx ud) fuel it s =
  (let! (x, it) := for_each (parse_body_logged ctx ud) fuel it (s, l) in Some (drop_sum x, it)).
Proof.
  induction fuel as [|fuel IH]; intros it s l; [done|]. cbn [for_each].
  destruct (OptionsIter_next it) as [[[i|] it']|]; [|done..].
  unfold parse_body_logged at 1. cbn [fst snd].
  destruct (parse_body ctx ud s i) as [f|] eqn:Ef; [|done].
  destruct (log_body_total ctx ud s l i f Ef) as [l' ->]. destruct f as [s'|s'|r]; [apply IH|done..].
Qed.

Lemma parse_options_drop bs ud off : parse_options bs ud off = drop_log (parse_options_logged bs ud off).
Proof.
  unfold parse_options, parse_options_logged.
  destruct (fragment_option_limit _ _ _) as [[| |frag]|]; [| |done|done]; cbv zeta iota.
  - rewrite (for_each_drop _ _ _ _ _ loop_log_init). by destruct (for_each _ _ _ _) as [[[[]|[]] ?]|].
  - destruct (slice _ _ _); [|done].
    rewrite (for_each_drop _ _ _ _ _ loop_log_init). by destruct (for_each _ _ _ _) as [[[[]|[]] ?]|].
Qed.

Lemma receive_options_drop v : receive_options v = drop_log (receive_options_logged v).
Proof.
  unfold receive_options, receive_options_logged.
  destruct (locate_surplus _ _) as [layout|]; [|done]. destruct (get _ _); [|done].
  destruct (check_pad _ _); [|done]. destruct (slice _ _ _) as [body|]; [|done].
  destruct (ocs_validate _ _ _) as [[]|]; try done; (destruct (slice _ _ _); [|done]);
    rewrite parse_options_drop; by destruct (parse_options_logged _ _ _) as [[[] ?]|].
Qed.

Lemma dispatch_drop rp rl v c now allowed po st :
  (forall d c, rp d c = drop_log (rl d c)) ->
  dispatch rp v c now allowed po st = drop_log (dispatch_logged rl v c now allowed po st).
Proof.
  intros Hr. unfold dispatch, dispatch_logged, receive_fragment, receive_fragment_logged.
  destruct (_ && negb _); [done|]. destruct (_ || _); [done|]. destruct (po_unsupported_unsafe_seen po); [done|].
  destruct (if is_nil _ then _ else _) as [frag|]; [|done]. destruct (negb allowed); [done|].
  destruct (slice _ _ _); [|done].
  destruct (ReassemblyCache_insert_with_options_and_failures _ _ _ _ _ _) as [[[] c']|]; try done.
  destruct (reassembled_datagram _ _ _ _) as [[d|]|]; [|done..]. rewrite Hr.
  by destruct (rl d c') as [[[[] ?] ?]|].
Qed.

Lemma inner_drop fuel : forall d c now allowed,
  process_datagram_inner fuel d c now allowed = drop_log (process_datagram_inner_logged fuel d c now allowed).
Proof.
  induction fuel as [|fuel IH]; intros d c now allowed; [done|].
  cbn [process_datagram_inner process_datagram_inner_logged].
  destruct (receive_udp d) as [[v|e]|]; [|done..]. rewrite receive_options_drop.
  destruct (receive_options_logged v) as [[[dl|[po st]] ws]|]; [done| |done]. cbn [drop_log].
  rewrite (dispatch_drop _ (fun datagram cache => process_datagram_inner_logged fuel datagram cache now false))
    by (intros; apply IH).
  by destruct (dispatch_logged _ v c now allowed po st) as [[[] ?]|].
Qed.

Lemma process_datagram_drop d c now : process_datagram d c now = drop_log (process_datagram_warned d c now).
Proof. apply inner_drop. Qed.
End drop.

(** ** Lemmas: what is raised *)

(** The warnings that leave the options in place. *)
Definition loop_categories : list Category :=
  [MUST_SUPPORT_ORDER_WARNINGS; NOP_FLOOD_WARNINGS; APC_MISMATCH_WARNINGS].

Definition loop_warnings (ws : list warning) : Prop := Forall (fun w => w.1 ∈ loop_categories) ws.

(** More warnings raised in a loop, at most [n] of them. *)
Definition raises (n : Z) (ws ws' : list warning) : Prop :=
  exists new, ws' = ws ++ new /\ loop_warnings new /\ len new <= n.

Lemma raises_refl n ws : 0 <= n -> raises n ws ws.
Proof. intros Hn. exists []. rewrite app_nil_r. split; [done|]. split; [constructor|]. by rewrite (@len_nil warning). Qed.

Lemma raises_trans n m ws1 ws2 ws3 : raises n ws1 ws2 -> raises m ws2 ws3 -> raises (n + m) ws1 ws3.
Proof.
  intros (a & -> & Ha & Hl) (b & -> & Hb & Hm). exists (a ++ b). rewrite app_assoc, len_app.
  split; [done|]. split; [by apply Forall_app|lia].
Qed.

Lemma raises_one ws c m : c ∈ loop_categories -> raises 1 ws (ws ++ [(c, m)]).
Proof. intros Hc. exists [(c, m)]. split; [done|]. split; [by constructor|done]. Qed.

Section raised.
Context `{Crc32c}.

Lemma log_order_raises l k : raises 1 (ll_warnings l) (ll_warnings (log_order l k)).
Proof.
  unfold log_order. destruct (_ && _); [by apply raises_refl|]. destruct (_ && _); [|by apply raises_refl].
  apply raises_one. constructor.
Qed.

Lemma log_apc_raises ctx ud s l o l' :
  log_apc ctx ud s l o = Some l' -> raises 1 (ll_warnings l) (ll_warnings l').
Proof.
  unfold log_apc, apc_warnings. intros Hl. repeat case_match; simplify_eq; try by apply raises_refl.
  - simpl. rewrite app_nil_r. by apply raises_refl.
  - apply raises_one. by apply (bool_decide_eq_true_1 _).
  - simpl. rewrite app_nil_r. by apply raises_refl.
Qed.

Lemma log_body_raises ctx ud s l i l' :
  log_body ctx ud s l i = Some l' -> raises 2 (ll_warnings l) (ll_warnings l').
Proof.
  unfold log_body. intros Hl. destruct i as [o|e]; [|simplify_eq; by apply raises_refl].
  destruct (if negb _ then _ else _) as [|e]; [|simplify_eq; by apply raises_refl].
  apply (raises_trans 1 1 _ (ll_warnings (log_order l (or_kind o)))); [apply log_order_raises|].
  by eapply log_apc_raises.
Qed.

Definition log_of (x : (parse_state * loop_log) + (result ParsedOptions ParseError * list warning)) : list warning :=
  match x with inl sl => ll_warnings sl.2 | inr r => r.2 end.

Lemma for_each_raises ctx ud fuel : forall it s l x it',
  for_each (parse_body_logged ctx ud) fuel it (s, l) = Some (x, it') ->
  raises (2 * Z.of_nat fuel) (ll_warnings l) (log_of x).
Proof.
  induction fuel as [|fuel IH]; intros it s l x it' Hx; [done|]. cbn [for_each] in Hx.
  destruct (OptionsIter_next it) as [[[i|] it1]|]; [|simplify_eq; apply raises_refl; lia|done].
  unfold parse_body_logged at 1 in Hx. cbn [fst snd] in Hx.
  destruct (parse_body ctx ud s i) as [f|]; [|done].
  destruct (log_body ctx ud s l i) as [l'|] eqn:El; [|done].
  apply log_body_raises in El. replace (2 * Z.of_nat (S fuel)) with (2 + 2 * Z.of_nat fuel) by lia.
  eapply raises_trans; [exact El|]. destruct f as [s'|s'|r]; simplify_eq; try (apply raises_refl; lia).
  by eapply IH.
Qed.

Lemma parse_options_raises bs ud off r ws :
  bytes bs -> parse_options_logged bs ud off = Some (r, ws) -> loop_warnings ws /\ len ws <= 2 * len bs + 5.
Proof.
  intros Hb. unfold parse_options_logged.
  destruct (fragment_option_limit_spec bs (is_nil ud) off Hb) as (lim & -> & Hlim).
  assert (forall bs' ctx, len bs' <= len bs ->
    (let! (r, it) := for_each (parse_body_logged ctx ud) (parse_fuel bs') (OptionsIter_new bs')
       (parse_state_init, loop_log_init) in
     match r with
     | inr ret => Some ret
     | inl (s, l) =>
         Some (Ok {| po_options := ps_options s; po_reports := ps_reports s; po_frag := ps_frag s;
                     po_unsupported_unsafe_seen := ps_unsupported_unsafe_seen s;
                     po_fragment_failed := false |}, ll_warnings l ++ nop_flood_warnings it)
     end) = Some (r, ws) -> loop_warnings ws /\ len ws <= 2 * len bs + 5) as Hloop.
  { intros bs' ctx Hle. destruct (for_each _ _ _ _) as [[x it]|] eqn:Ef; [|done].
    apply for_each_raises in Ef as (new & Hnew & Hn & Hl). cbn in Hnew.
    assert (Z.of_nat (parse_fuel bs') = len bs' + 2) as Hfu by (unfold parse_fuel, len; lia).
    destruct x as [[s l]|ret]; cbn in Hnew; rewrite ?Hnew; [intros [= <- <-]|intros [= ->]; cbn in Hnew; subst].
    - assert (loop_warnings (nop_flood_warnings it) /\ len (nop_flood_warnings it) <= 1) as [H1 H2].
      { unfold nop_flood_warnings. destruct (_ <? _); [|split; [constructor|by rewrite (@len_nil warning)]].
        split; [|done]. constructor; [|constructor]. by apply (bool_decide_eq_true_1 _). }
      rewrite len_app. split; [by apply Forall_app|lia].
    - split; [done|lia]. }
  pose proof (len_nonneg bs). destruct lim as [|end_|frag]; cbv zeta iota.
  - by apply Hloop.
  - destruct Hlim as [_ Hend]. rewrite slice_Some by lia. apply Hloop. rewrite len_sub; lia.
  - intros [= <- <-]. split; [constructor|]. rewrite (@len_nil warning). lia.
Qed.
End raised.

(** ** The log and the result *)

(** How the log ends when the options of the datagram itself are discarded, by the OCS
    status reported: a pad or an OCS that fails, a forbidden zero OCS, or options that do
    not parse (and are then not reported at all). *)
Definition ending (st : OcsStatus) (reports : list OptionReport) (cs : list Category) : Prop :=
  match st with
  | StFailed => cs = [PAD_WARNINGS] \/ cs = [OCS_MISMATCH_WARNINGS]
  | StInvalidZero => cs = [OCS_ZERO_WITH_UDP_CHECKSUM_WARNINGS]
  | StValid | StUnused =>
      cs = [] \/ cs = [TLV_PARSE_WARNINGS] /\ Forall (fun r => opr_source r = FragmentSet) reports
  | StAbsent | StUnobserved => cs = []
  end.

Definition explains (ws : list warning) (d : Delivery) : Prop :=
  match d with
  | DeliverPayload p =>
      exists first last_, ws = first ++ last_ /\ loop_warnings first /\
        exists st reports, pl_ocs_reports p = reports ++ [{| ocr_status := st; ocr_source := Datagram |}] /\
          ending st (pl_reports p) last_.*1
  | Buffered | Dropped => loop_warnings ws
  end.

Lemma explains_app ws ws' d : loop_warnings ws -> explains ws' d -> explains (ws ++ ws') d.
Proof.
  intros Hw He. destruct d as [p| |]; simpl in *; [|by apply Forall_app..].
  destruct He as (first & last_ & -> & Hf & He). exists (ws ++ first), last_. rewrite app_assoc.
  split; [done|]. split; [by apply Forall_app|done].
Qed.

Lemma explains_silent p st :
  pl_ocs_reports p = [{| ocr_status := st; ocr_source := Datagram |}] -> st = StValid \/ st = StUnused ->
  explains [] (DeliverPayload p).
Proof.
  intros Hp Hst. exists [], []. split; [done|]. split; [constructor|]. exists st, []. split; [done|].
  destruct Hst as [-> | ->]; by left.
Qed.

Lemma merge_reports_loop_source os : forall rs,
  Forall (fun r => opr_source r = FragmentSet) rs ->
  Forall (fun r => opr_source r = FragmentSet) (merge_reports_loop rs os).
Proof.
  induction os as [|o os IH]; intros rs Hrs; [done|]. cbn [merge_reports_loop].
  destruct (existsb _ _); apply IH; [done|]. apply Forall_app. split; [done|]. by constructor.
Qed.

Lemma merge_fragment_reports_source os fl rs :
  Forall (fun r => opr_source r = FragmentSet) rs ->
  Forall (fun r => opr_source r = FragmentSet) (merge_fragment_reports os fl rs).
Proof.
  intros Hrs. apply Forall_app. split; [|done]. apply merge_reports_loop_source.
  apply Forall_fmap. by apply Forall_forall.
Qed.

(** Merging the fragments' options keeps the datagram's OCS report and adds no report of
    the datagram's own options. *)
Lemma explains_merge ws done_ d : explains ws d -> explains ws (merge_delivery done_ d).
Proof.
  destruct d as [p| |]; [|done..]. intros (first & last_ & Hws & Hf & st & reports & Hr & He).
  exists first, last_. split; [done|]. split; [done|].
  exists st, (fragment_set_ocs (co_fragment_ocs_nonzero done_) :: reports). cbn. rewrite Hr. split; [done|].
  destruct st; try done; (destruct He as [He|[He Hs]]; [by left|right; split; [done|]]);
    by apply merge_fragment_reports_source.
Qed.

(** At most [n] warnings, which explain what is delivered. *)
Definition warned (n : Z) (ws : list warning) (r : result Delivery RecvError) : Prop :=
  len ws <= n /\ match r with Ok d => explains ws d | Err _ => True end.

(** The warnings one pass can raise: two per byte of a datagram at most. *)
Definition pass_warnings : Z := 131080.

Section explained.
Context `{Crc32c}.

Lemma receive_options_explained v x ws :
  view_wf v -> receive_options_logged v = Some (x, ws) ->
  len ws <= pass_warnings /\
  match x with
  | inl d => explains ws d
  | inr (po, st) => loop_warnings ws /\ (st = StValid \/ st = StUnused)
  end.
Proof.
  intros Hv. unfold receive_options_logged, pass_warnings.
  assert (forall ws b st, ending st [] ws.*1 -> len ws <= 1 -> len ws <= 131080 /\
    explains ws (deliver_without_options (uv_user_data v) b st)) as Hno.
  { intros ws' b st He Hl. split; [lia|]. exists [], ws'. split; [done|]. split; [constructor|].
    exists st, []. by split. }
  destruct (locate_surplus _ _) as [layout|]; [|intros [= <- <-]; by apply Hno].
  destruct (get _ _); [|done].
  destruct (check_pad _ _); [|intros [= <- <-]; apply Hno; [by left|done]].
  destruct (slice (uv_datagram v) _ _) as [body|] eqn:Eb; [|done].
  apply slice_inv in Eb as (Hbody & Hi & Hj). pose proof (vw_max _ Hv). pose proof (vw_bytes _ Hv) as Hbv.
  assert (len body <= 65535) as Hbl by (rewrite Hbody, len_sub; lia).
  assert (bytes body) as Hbb by (rewrite Hbody; auto with rust).
  destruct (ocs_validate _ _ _) as [chk|]; [|done].
  assert (forall st, st = StValid \/ st = StUnused ->
    (let! options_bytes := slice body LENGTH_OCS (len body) in
     let! (parsed, ws) := parse_options_logged options_bytes (uv_user_data v)
                            (SurplusLayout_ocs_at layout + LENGTH_OCS - uv_udp_at v) in
     Some match parsed with
          | Ok parsed => (inr (parsed, st), ws)
          | Err error => (inl (deliver_without_options (uv_user_data v) true st),
                          ws ++ [(TLV_PARSE_WARNINGS, discarding error)])
          end) = Some (x, ws) ->
    len ws <= 131080 /\ match x with
      | inl d => explains ws d
      | inr (po, st) => loop_warnings ws /\ (st = StValid \/ st = StUnused) end) as Hparse.
  { intros st Hst. destruct (slice body _ _) as [bs|] eqn:Es; [|done]. apply slice_inv in Es as (-> & Hs).
    destruct (parse_options_logged _ _ _) as [[parsed ws']|] eqn:Ep; [|done].
    apply parse_options_raises in Ep as [Hlw Hlen]; [|auto with rust]. rewrite len_sub in Hlen by apply Hs.
    assert (LENGTH_OCS = 2) by done.
    destruct parsed as [po|e]; intros [= <- <-]; [split; [lia|by split]|]. rewrite len_app.
    change (len [_]) with 1. split; [lia|]. eexists _, [_]. split; [done|]. split; [done|]. exists st, [].
    split; [done|]. by destruct Hst as [-> | ->]; right. }
  destruct chk; try (apply Hparse; by auto); intros [= <- <-]; apply Hno; try done. by right.
Qed.

Section stages.
Context (rl : list Z -> ReassemblyCache -> logged_outcome) (n : Z) (allowed : bool).
Hypothesis Hn : 0 <= n.
Hypothesis Hrl : allowed = true -> forall d c r c' ws,
  bytes d -> Cache_wf c -> rl d c = Some (r, c', ws) -> warned n ws r.

Lemma warned_nil (d : Delivery) : explains [] d -> warned n [] (Ok d).
Proof. intros Hd. split; [by rewrite (@len_nil warning)|done]. Qed.

Lemma receive_fragment_explained v c now frag po st r c' ws :
  view_wf v -> Cache_wf c -> Frag_wf frag ->
  receive_fragment_logged rl v c now allowed frag po st = Some (r, c', ws) -> warned n ws r.
Proof.
  intros Hv Hc Hf. assert (forall d, d = Buffered \/ d = Dropped -> warned n [] (Ok d)) as Hnil.
  { intros d Hd. apply warned_nil. by destruct Hd as [-> | ->]; constructor. }
  unfold receive_fragment_logged. destruct allowed; cbn [negb]; [|intros [= <- <- <-]; auto].
  destruct (slice _ _ _) as [data|] eqn:Es; [|intros [= <- <- <-]; auto].
  assert (bytes data) as Hd by (apply slice_inv in Es as (-> & _); apply Forall_sub, Hv).
  destruct (ReassemblyCache_insert_with_options_and_failures _ _ _ _ _ _) as [[o c1]|] eqn:Hi; [|done].
  destruct o as [|d|reason]; [intros [= <- <- <-]; auto| |intros [= <- <- <-]; auto].
  destruct (reassembled_completed _ _ _ _ _ _ _ _ Hc (proj1 (proj2 (proj2 Hf))) Hd Hi) as (Hul & Hb & Hc1).
  rewrite reassembled_datagram_spec by lia.
  destruct (Z.leb_spec (28 + len (co_tail d)) 65535); [|intros [= <- <- <-]; auto].
  pose proof (reassembled_wire_wf v (co_udp_length d) (co_tail d) Hv Hul ltac:(lia) Hb) as Hwire.
  destruct (rl _ c1) as [[[r1 c2] ws1]|] eqn:Er; [|done].
  apply Hrl in Er as [Hl He]; [|done|apply (vw_bytes _ (wire_view_wf _ _ _ Hwire))|done].
  destruct r1 as [dl|e]; intros [= <- <- <-]; (split; [done|]); [by apply explains_merge|done].
Qed.

Lemma dispatch_explained v c now po st r c' ws :
  view_wf v -> Cache_wf c -> parsed_inv (uv_user_data v) po -> (st = StValid \/ st = StUnused) ->
  dispatch_logged rl v c now allowed po st = Some (r, c', ws) -> warned n ws r.
Proof.
  intros Hv Hc (_ & _ & _ & Hf & _) Hst. unfold dispatch_logged.
  destruct (_ && negb _); [intros [= <- <- <-]; by apply warned_nil, (explains_silent _ st)|].
  destruct (_ || _); [intros [= <- <- <-]; apply warned_nil; constructor|].
  destruct (po_unsupported_unsafe_seen po); [intros [= <- <- <-]; by apply warned_nil, (explains_silent _ st)|].
  destruct (if is_nil _ then _ else _) as [frag|] eqn:Ef;
    [|intros [= <- <- <-]; by apply warned_nil, (explains_silent _ st)].
  apply receive_fragment_explained; [done|done|]. destruct (is_nil _); [|done]. by rewrite Ef in Hf.
Qed.
End stages.

Lemma inner_explained fuel n d c now allowed r c' ws :
  0 <= n -> bytes d -> Cache_wf c ->
  (allowed = true -> forall d c r c' ws, bytes d -> Cache_wf c ->
     process_datagram_inner_logged fuel d c now false = Some (r, c', ws) -> warned n ws r) ->
  process_datagram_inner_logged (S fuel) d c now allowed = Some (r, c', ws) -> warned (pass_warnings + n) ws r.
Proof.
  intros Hn Hb Hc Hre. cbn [process_datagram_inner_logged].
  destruct (receive_udp_spec d Hb) as (u & -> & Hu). destruct u as [v|e].
  2:{ intros [= <- <- <-]. split; [|done]. unfold pass_warnings.
      enough (len (receive_udp_warnings e) <= 1) by lia. destruct e as [[]| | | |]; done. }
  destruct Hu as [Hv _]. destruct (receive_options_spec v Hv) as (x & Hx & Hpo). rewrite receive_options_drop in Hx.
  destruct (receive_options_logged v) as [[x' ws1]|] eqn:Ev; [|done]. injection Hx as ->.
  apply receive_options_explained in Ev as [Hl He]; [|done].
  destruct x as [dl|[po st]]; [intros [= <- <- <-]; split; [lia|done]|].
  destruct He as [Hlw Hst]. destruct Hpo as [Hpo _].
  destruct (dispatch_logged _ v c now allowed po st) as [[[r1 c1] ws2]|] eqn:Ed; [|done].
  apply (dispatch_explained _ n) in Ed as [Hl2 He2]; [|done..]. intros [= <- <- <-].
  split; [rewrite len_app; lia|]. destruct r1; [by apply explains_app|done].
Qed.

(** Everything the pipeline says of a datagram. *)
Lemma process_datagram_explained d c now :
  bytes d -> Cache_wf c ->
  exists r c' ws, process_datagram_warned d c now = Some (r, c', ws) /\ process_datagram d c now = Some (r, c') /\
    len ws <= 2 * pass_warnings /\
    match r with Ok dl => explains ws dl | Err e => ws = receive_udp_warnings e end.
Proof.
  intros Hb Hc. destruct (process_datagram_ok d c now Hb Hc) as (r & c' & Hp & _).
  rewrite Hp. rewrite process_datagram_drop in Hp.
  destruct (process_datagram_warned d c now) as [[[r1 c1] ws]|] eqn:Ew; [|done]. injection Hp as -> ->.
  exists r, c', ws. split; [done|]. split; [done|].
  assert (warned (2 * pass_warnings) ws r) as [Hl He].
  { replace (2 * pass_warnings) with (pass_warnings + (pass_warnings + 0)) by lia.
    eapply (inner_explained 1); [done|exact Hb|exact Hc| |exact Ew].
    intros _ d1 c2 r2 c3 ws2 Hb2 Hc2. by apply inner_explained. }
  split; [done|]. destruct r as [dl|e]; [done|].
  assert (process_datagram d c now = Some (Err e, c')) as Hp by (by rewrite process_datagram_drop, Ew).
  apply process_datagram_error in Hp as [Hu ->]; [|done..]. unfold process_datagram_warned in Ew.
  cbn [process_datagram_inner_logged] in Ew. rewrite Hu in Ew. by injection Ew as <-.
Qed.
End explained.
