(* ===== verification/Quiet.v ===== *)
(** What the library sends is received in silence: the datagrams the API builds make the
    receive pipeline raise no warning, neither in the first pass nor, for fragments, in the
    second, but for the one complaint about a raw APC that is not the checksum of the payload.

    Three warnings are at stake, since the pad, the OCS and the options of what is sent are
    in order: the option order (the serializer sorts must-support options first), runs of
    NOP (it pads with one NOP at a time) and the APC (the automatic one is computed over the
    payload, a raw one is the caller's). *)

From S2P Require Import Prelude Model Kind Parse Typed Serialize Checksum Ip Udp Surplus Ocs.
From S2P Require Import Split Reassembly FragRoundtrip RecvOptions Pipeline Socket Api EndToEnd FragEndToEnd ApiCorrect.
From S2P Require Import Text PipelineLog.

(** ** Runs of NOP *)

Definition is_nop (i : item) : bool :=
  match i with Ok o => bool_decide (or_kind o = Nop) | Err _ => false end.

(** The longest run of NOP in a list of items, with [run] behind and [best] so far. *)
Fixpoint longest_run (run best : Z) (items : list item) : Z :=
  match items with
  | [] => best
  | i :: items =>
      if is_nop i then longest_run (run + 1) (Z.max best (run + 1)) items else longest_run 0 best items
  end.

Lemma longest_run_best items : forall run best, best <= longest_run run best items.
Proof.
  induction items as [|i items IH]; intros run best; cbn [longest_run]; [done|].
  destruct (is_nop i); [|apply IH]. etransitivity; [|apply IH]. lia.
Qed.

(** One step of the iterator counts. *)
Lemma next_counts it i it' :
  OptionsIter_next it = Some (Some i, it') ->
  if is_nop i then it_current_nop_run it' = it_current_nop_run it + 1 /\
    it_max_nop_run it' = Z.max (it_max_nop_run it) (it_current_nop_run it + 1)
  else it_max_nop_run it' = it_max_nop_run it /\
    match i with Ok _ => it_current_nop_run it' = 0 | Err _ => it_done it' = true end.
Proof.
  assert (forall k v a, is_nop (Ok {| or_kind := from_byte k; or_value := v; or_at := a |}) = (k =? KIND_NOP)) as Hnop.
  { intros k v a. cbn. destruct (Z.eqb_spec k KIND_NOP) as [->|Hk]; [done|]. apply bool_decide_eq_false_2.
    intros E. apply Hk, from_byte_inj. by rewrite E. }
  unfold OptionsIter_next. destruct (_ || _); [done|]. destruct (get _ _) as [k|]; [|done].
  destruct (Z.eqb_spec k KIND_EOL) as [->|_]; [intros [= <- <-]; done|].
  destruct (k =? KIND_NOP) eqn:Ek; [intros [= <- <-]; by rewrite Hnop, Ek|].
  unfold OptionsIter_fail, OptionsIter_value_slice. intros Hn.
  repeat case_match; simplify_eq; rewrite ?Hnop, ?Ek in *; try done.
Qed.

(** No loop over the iterator sees a longer run than there is among its items. *)
Lemma for_each_run {St R} (body : St -> item -> option (flow St R)) fuel : forall it items it0 s x it',
  drain fuel it = Some (items, it0) -> for_each body fuel it s = Some (x, it') ->
  it_max_nop_run it' <= longest_run (it_current_nop_run it) (it_max_nop_run it) items.
Proof.
  induction fuel as [|fuel IH]; intros it items it0 s x it'; [done|]. cbn [drain for_each].
  destruct (OptionsIter_next it) as [[[i|] it1]|] eqn:En; [| |done].
  2:{ intros [= <- <-] [= <- <-]. unfold OptionsIter_next in En. destruct (_ || _); [by injection En as <-|].
      exfalso. unfold OptionsIter_fail, OptionsIter_value_slice in En. repeat case_match; simplify_eq. }
  destruct (drain fuel it1) as [[items1 it2]|] eqn:Ed; [|done]. intros [= <- <-] Hf.
  apply next_counts in En. cbn [longest_run].
  assert (it_max_nop_run it' <= longest_run (it_current_nop_run it1) (it_max_nop_run it1) items1) as Hle.
  { destruct (body s i) as [[s'|s'|r]|]; simplify_eq; [by eapply IH|apply longest_run_best..]. }
  destruct (is_nop i); [by destruct En as [<- <-]|]. destruct En as [<- Hi]. destruct i as [o|e]; [by rewrite Hi in Hle|].
  destruct fuel as [|fuel]; [done|]. cbn [drain] in Ed. rewrite next_done in Ed by done. by injection Ed as <- <-.
Qed.

(** The serializer never writes two NOPs in a row. *)
Lemma area_run os : forall off n best,
  Forall encodable os -> longest_run 0 best (area_items off n os) <= Z.max best 1.
Proof.
  induction os as [|o os IH]; intros off n best Ho; cbn [area_items longest_run]; [simpl; lia|].
  apply Forall_cons in Ho as [Hk Ho]. cbv zeta.
  assert (forall at_, is_nop (Ok (option_ref (to_byte (ro_kind o)) (ro_value o) at_)) = false) as Hno.
  { intros at_. destruct Hk as (_ & Hk & _). apply bool_decide_eq_false_2. by apply from_byte_not_pad. }
  destruct (n mod 2 =? 1); cbn [app longest_run]; rewrite Hno.
  - change (is_nop (Ok (option_ref KIND_NOP [] 0))) with true. cbv iota. etransitivity; [by apply IH|]. lia.
  - by apply IH.
Qed.

(** ** The option loop on what is sent *)

Section quiet.
Context `{Crc32cSpec} (user_data : list Z).

Definition must_support (o : RawOption) : Prop := is_must_support (from_byte (raw_byte o)) = true.

(** Sorted options: after one that is not must-support there is none. *)
Definition in_order (os : list RawOption) : Prop := StronglySorted (fun o o' => must_support o' -> must_support o) os.

Lemma sorted_in_order os : Forall (sendable) os -> StronglySorted rank_le os -> in_order os.
Proof.
  intros Hs Hr. induction Hr as [|o os _ IH Ho]; [constructor|]. apply Forall_cons in Hs as [Hso Hs].
  constructor; [by apply IH|]. rewrite Forall_forall in Ho, Hs |- *. intros o' Ho' Hm.
  specialize (Ho o' Ho'). specialize (Hs o' Ho').
  destruct (sendable_cases _ Hso) as [_ H1], (sendable_cases _ Hs) as [_ H2].
  unfold must_support, is_must_support in *. rewrite to_byte_from_byte in *. apply Z.leb_le in Hm. apply Z.leb_le.
  unfold rank_le, option_rank in Ho. fold (raw_byte o) (raw_byte o') in Ho. rewrite rank_leb_spec in Ho.
  unfold canonical_rank in Ho. unfold_consts. revert Ho. cbv zeta in H1, H2. bool_cases; simpl; lia.
Qed.

(** The complaint about a raw APC that is not the checksum of the data. *)
Definition apc_mismatch : warning := (APC_MISMATCH_WARNINGS, "received APC option with a checksum mismatch").

Definition complaint (o : RawOption) : list warning :=
  if decide (sent_status user_data o = Failed) then [apc_mismatch] else [].

Lemma sent_status_failed o : sent_status user_data o = Failed -> raw_byte o = KIND_APC.
Proof.
  unfold sent_status. destruct (negb _); [done|]. by destruct (Z.eqb_spec (raw_byte o) KIND_APC).
Qed.

Lemma complaint_other o : raw_byte o <> KIND_APC -> complaint o = [].
Proof. intros Hk. unfold complaint. rewrite decide_False; [done|]. by intros ?%sent_status_failed. Qed.

Lemma apc_warned o at_ :
  sendable o -> raw_byte o = KIND_APC ->
  apc_warnings (option_ref (raw_byte o) (ro_value o) at_) user_data = Some (complaint o).
Proof.
  intros Ho Hk. pose proof (accepts_apc_sent user_data o at_ Ho Hk) as Ha.
  destruct (sendable_cases o Ho) as [_ Hc]. cbv zeta in Hc. rewrite Hk in Hc.
  assert (len (ro_value o) = 4) as (a & b & c & d & Hv)%len_4_inv by (unfold KIND_APC in Hc; lia).
  unfold accepts_apc, apc_warnings, option_ref, complaint in *. cbn [or_value] in *.
  destruct (Apc_decode (ro_value o)) as [[x|e]|] eqn:E; [|by rewrite Hv in E|done].
  destruct (decide (x = Apc_compute user_data)); injection Ha as Ha; rewrite <- Ha; done.
Qed.

(** An option in order adds its complaint to the log. *)
Lemma log_body_sent s l o at_ l' :
  sendable o -> len (ps_seen s) = 256 -> (ll_safe_seen l = true -> ~ must_support o) ->
  (reportable (raw_byte o) = true -> get (ps_seen s) (raw_byte o) = Some false) ->
  log_body false user_data s l (Ok (option_ref (raw_byte o) (ro_value o) at_)) = Some l' ->
  ll_warnings l' = ll_warnings l ++ complaint o /\ (ll_safe_seen l' = true -> ~ must_support o).
Proof.
  intros Ho Hlen Hm Hseen. unfold log_body. cbn [andb negb]. rewrite (reject_sub_minimum_sent o at_ Ho).
  set (l1 := log_order l _).
  assert (ll_warnings l1 = ll_warnings l /\ (ll_safe_seen l1 = true -> ~ must_support o)) as [H1 H2].
  { unfold l1, log_order, must_support in *. cbn [or_kind option_ref].
    destruct (is_must_support (from_byte (raw_byte o))); [|by rewrite andb_true_r, andb_false_r; destruct (is_safe _)].
    rewrite andb_false_r. destruct (ll_safe_seen l) eqn:Es; [by destruct Hm|]. cbn [andb]. by rewrite Es. }
  unfold log_apc. cbn [or_kind option_ref].
  destruct (decide (raw_byte o = KIND_APC)) as [Hk|Hk].
  - assert (reportable (raw_byte o) = true) as Hr by (by rewrite Hk).
    assert (u8 (raw_byte o)) as Hu by (rewrite Hk; unfold u8, KIND_APC; lia).
    destruct (mark_seen_once_spec (ps_seen s) (raw_byte o) Hlen Hu) as (first & seen & Hms & _ & Hf & _).
    rewrite (Hseen Hr) in Hf. destruct first; [|done]. rewrite to_byte_from_byte, Hms.
    pose proof (apc_warned o at_ Ho Hk) as Ha. revert Ha. rewrite Hk. change (from_byte KIND_APC) with Apc. cbv iota.
    intros ->. intros [= <-]. cbn. by rewrite H1.
  - rewrite complaint_other, app_nil_r by done.
    destruct (from_byte (raw_byte o)) eqn:Ek; intros Hx; try (injection Hx as <-; by split).
    destruct Hk. apply from_byte_inj. by rewrite Ek.
Qed.

(** The complaints of a list of options; there is at most one. *)
Definition complaints (os : list RawOption) : list warning := flat_map complaint os.

Lemma complaints_unique os :
  unique_reportable os ->
  complaints os = if existsb (fun o => bool_decide (sent_status user_data o = Failed)) os then [apc_mismatch] else [].
Proof.
  unfold complaints. induction os as [|o os IH]; [done|]. intros [Huo Hu]. cbn [flat_map existsb].
  unfold complaint at 1. destruct (decide (sent_status user_data o = Failed)) as [Hf|Hf].
  - rewrite bool_decide_true by done. cbn [orb].
    assert (flat_map complaint os = []) as ->; [|done].
    pose proof (sent_status_failed _ Hf) as Hk. rewrite Hk in Huo. specialize (Huo eq_refl). clear -Huo.
    induction Huo as [|o' os Ho' _ IH]; [done|]. cbn [flat_map]. by rewrite complaint_other.
  - rewrite bool_decide_false by done. by apply IH.
Qed.

(** The whole area. *)
Lemma area_warned os : forall off n s l x,
  Forall sendable os -> unique_reportable os -> in_order os -> len (ps_seen s) = 256 ->
  Forall (fun o => reportable (raw_byte o) = true -> get (ps_seen s) (raw_byte o) = Some false) os ->
  (ll_safe_seen l = true -> Forall (fun o => ~ must_support o) os) ->
  for_items (parse_body_logged false user_data) (area_items off n os) (s, l) = Some x ->
  log_of x = ll_warnings l ++ complaints os.
Proof.
  induction os as [|o os IH]; intros off n s l x Hs Hu Hi Hlen Hseen Hm; cbn [area_items].
  { cbn. intros Hx. simplify_eq. cbn. unfold log_order. cbn. rewrite andb_false_r. by rewrite app_nil_r. }
  apply Forall_cons in Hs as [Ho Hs]. inversion Hi as [|? ? Hi' Hbelow]; subst. cbv zeta. fold (raw_byte o).
  apply Forall_cons in Hseen as [Hso Hseen]. destruct Hu as [Huo Hu].
  match goal with |- context [(if n mod 2 =? 1 then _ else _) ++ ?tl] =>
    assert (for_items (parse_body_logged false user_data)
      ((if n mod 2 =? 1 then [Ok (option_ref KIND_NOP [] 0)] else []) ++ tl) (s, l)
      = for_items (parse_body_logged false user_data) tl (s, l)) as ->
  end.
  { destruct (n mod 2 =? 1); [|done]. cbn [app for_items]. cbn. unfold log_order. cbn.
    by rewrite andb_false_r. }
  cbn [for_items]. unfold parse_body_logged at 1. cbn [fst snd]. set (at_ := off + _ + _).
  destruct (parse_body_sent user_data s o at_ Ho Hlen Hso) as (seen & -> & Hl1 & Hs1).
  destruct (log_body false user_data s l _) as [l'|] eqn:El; [|done].
  apply log_body_sent in El as [Hl' Hm']; [|done|done| |done]; [|intros Hsafe; by apply Hm, Forall_cons in Hsafe as [? _]].
  intros Hx. apply IH in Hx; [|done|done|done|done| |].
  - rewrite Hx, Hl', <- app_assoc. done.
  - rewrite Forall_forall in *. intros o' Ho' Hr. cbn [ps_seen after_option].
    destruct (decide (raw_byte o' = raw_byte o)) as [Heq|Hne].
    + rewrite Heq in Hr. by destruct (Huo Hr o' Ho').
    + rewrite Hs1; [by apply Hseen| |done].
      destruct (sendable_cases o' (Hs o' Ho')) as [(((? & ?) & _) & _) _]. done.
  - intros Hsafe. specialize (Hm' Hsafe). apply (Forall_impl _ _ _ Hbelow). intros o' Hx' Hms. by apply Hm', Hx'.
Qed.

(** Without runs of NOP the log is what the items leave in it. *)
Lemma loop_warned ctx bs items it r ws :
  drain_all bs = Some (items, it) -> longest_run 0 0 items <= LIMITS_NOP_RUN_DOS_THRESHOLD ->
  (forall x, for_items (parse_body_logged ctx user_data) items (parse_state_init, loop_log_init) = Some x -> log_of x = ws) ->
  (let! (r, it) := for_each (parse_body_logged ctx user_data) (parse_fuel bs) (OptionsIter_new bs)
     (parse_state_init, loop_log_init) in
   match r with
   | inr ret => Some ret
   | inl (s, l) =>
       Some (Ok {| po_options := ps_options s; po_reports := ps_reports s; po_frag := ps_frag s;
                   po_unsupported_unsafe_seen := ps_unsupported_unsafe_seen s;
                   po_fragment_failed := false |}, ll_warnings l ++ nop_flood_warnings it)
   end) = Some r -> r.2 = ws.
Proof.
  intros Hd Hrun Hlog. pose proof (for_each_drain (parse_body_logged ctx user_data) _ _ _ _ (parse_state_init, loop_log_init) Hd) as He.
  destruct (for_each _ _ _ _) as [[x it']|] eqn:Ef; [|done]. cbn in He. symmetry in He. apply Hlog in He.
  destruct x as [[s l]|ret]; [|intros [= <-]; done]. intros [= <-]. cbn in He |- *. rewrite He.
  pose proof (for_each_run _ _ _ _ _ _ _ _ Hd Ef) as Hle. cbn in Hle. unfold nop_flood_warnings.
  destruct (Z.ltb_spec LIMITS_NOP_RUN_DOS_THRESHOLD (it_max_nop_run it')); [lia|]. apply app_nil_r.
Qed.

(** The warnings a receiver raises about what was sent: one when a raw APC is wrong. *)
Definition sent_warnings (os : list RawOption) : list warning :=
  if existsb (fun o => bool_decide (sent_status user_data o = Failed)) os then [apc_mismatch] else [].

(** [parse_options] on the finished options of a sender. *)
Lemma parse_options_sent_warned os opt_off :
  Forall sendable os -> unique_reportable os -> in_order os ->
  parse_options_logged (sub (options_body_bytes os) 2 (len (options_body_bytes os))) user_data opt_off
  = Some (Ok (parsed_sent user_data os), sent_warnings os).
Proof.
  intros Hs Hu Hi. pose proof (parse_options_sent user_data os opt_off Hs Hu) as Hp. rewrite parse_options_drop in Hp.
  destruct (parse_options_logged _ _ _) as [[r ws]|] eqn:El; [|done]. injection Hp as ->. do 2 f_equal.
  unfold parse_options_logged in El. rewrite (limit_sent user_data os opt_off Hs) in El.
  destruct (options_body_drain os (sendable_encodable os Hs)) as [it Hd]. set (bs := sub _ _ _) in *.
  cbv zeta iota in El. apply (loop_warned false bs _ it _ (sent_warnings os) Hd) in El; [done| |].
  - etransitivity; [apply area_run; by apply sendable_encodable|done].
  - intros x Hx. apply area_warned in Hx; [|done|done|done|done| |done].
    + unfold sent_warnings. rewrite Hx, <- complaints_unique by done. done.
    + apply Forall_forall. intros o Ho _. rewrite Forall_forall in Hs.
      destruct (sendable_cases o (Hs o Ho)) as [(((H1 & H2) & _) & _) _]. fold (raw_byte o) in H1, H2.
      unfold get. destruct (Z.leb_spec 0 (raw_byte o)); [|lia]. apply lookup_replicate_2. lia.
Qed.
End quiet.

Lemma parse_options_fragment_quiet `{Crc32c} id off rdos data :
  fragment_wf id off rdos -> bytes data ->
  let frag := fragment_frag id off rdos in
  parse_options_logged (KIND_FRAG :: (len (Frag_value frag) + 2) :: Frag_value frag ++ data) [] 10
  = Some (Ok (parsed_frag frag), []).
Proof.
  intros Hw Hd frag. pose proof (parse_options_fragment id off rdos data Hw Hd) as Hp.
  cbv zeta in Hp. rewrite parse_options_drop in Hp. fold frag in Hp.
  destruct (parse_options_logged _ _ _) as [[r ws]|] eqn:El; [|done]. injection Hp as ->. do 2 f_equal.
  destruct (fragment_limit id off rdos data Hw Hd) as (Hlim & Hsl & it & Hdr). fold frag in Hlim, Hsl, Hdr.
  unfold parse_options_logged in El. cbn [is_nil] in El. rewrite Hlim in El. cbv zeta iota in El. rewrite Hsl in El.
  apply (loop_warned [] true _ _ it _ [] Hdr) in El; [done|done|].
  intros x Hx. cbn [for_items] in Hx. unfold parse_body_logged at 1 in Hx. cbn [fst snd] in Hx.
  set (i := Ok (option_ref _ _ _)) in *. destruct (parse_body true [] parse_state_init i) as [f|]; [|done].
  assert (forall l, log_body true [] parse_state_init loop_log_init i = Some l -> l = loop_log_init) as Hl.
  { intros l. unfold log_body, i. destruct (if negb _ then _ else _); cbn; by intros [= <-]. }
  destruct (log_body _ _ _ _ _) as [l|]; [|done]. rewrite (Hl l eq_refl) in Hx.
  destruct f; by injection Hx as <-.
Qed.

(** ** The stages on what is sent *)

(** The option stage with a correct pad and a correct or unused OCS. *)
Lemma receive_options_logged_wire `{Crc32c} ip udp data a b rest chk st po ws :
  let tail := data ++ pad_of data ++ a :: b :: rest in
  wire_wf ip udp tail -> udp_length udp = 8 + len data ->
  ocs_validate (a :: b :: rest) (len (pad_of data) + 2 + len rest) (udp_checksum udp) = Some chk ->
  (chk = OcsValid /\ st = StValid \/ chk = OcsUnused /\ st = StUnused) ->
  parse_options_logged rest data (10 + len data + len (pad_of data)) = Some (Ok po, ws) ->
  receive_options_logged (wire_view ip udp tail) = Some (inr (po, st), ws).
Proof.
  intros tail Hw Hul Hocs Hst Hp.
  destruct (surplus_view ip udp data (pad_of data) a b rest Hw Hul eq_refl) as (Hd & Hl & (x & Hx & Hc) & Hb & Hm & Hr & Ho).
  unfold receive_options_logged, tail. rewrite Hl, Hx, Hc, Hd, bool_decide_true by done.
  rewrite Hb, Hm. change (udp_checksum (uv_udp _)) with (udp_checksum udp). rewrite Hocs.
  destruct Hst as [[-> ->]|[-> ->]]; by rewrite Hr, Ho, Hp.
Qed.

(** ** Whole datagrams *)

Section whole.
Context `{Crc32c}.

(** Without FRAG there is no second pass to warn. *)
Lemma dispatch_quiet rl v c now allowed po st r c' ws :
  po_frag po = None -> dispatch_logged rl v c now allowed po st = Some (r, c', ws) -> ws = [].
Proof.
  intros Hf. unfold dispatch_logged. rewrite Hf. cbn [andb].
  destruct (_ || _); [by intros [= _ _ <-]|]. destruct (po_unsupported_unsafe_seen po); [by intros [= _ _ <-]|].
  destruct (is_nil _); by intros [= _ _ <-].
Qed.

(** The first stages decide what is said. *)
Lemma inner_warned fuel d c now allowed v x ws0 r c' ws :
  receive_udp d = Some (Ok v) -> receive_options_logged v = Some (x, ws0) ->
  match x with inl _ => True | inr (po, _) => po_frag po = None end ->
  process_datagram_inner_logged (S fuel) d c now allowed = Some (r, c', ws) -> ws = ws0.
Proof.
  intros Hu Hx Hf. cbn [process_datagram_inner_logged]. rewrite Hu, Hx.
  destruct x as [dl|[po st]]; [by intros [= _ _ <-]|].
  destruct (dispatch_logged _ v c now allowed po st) as [[[r1 c1] ws1]|] eqn:Ed; [|done].
  apply dispatch_quiet in Ed as ->; [|done]. intros [= _ _ <-]. apply app_nil_r.
Qed.

(** No surplus area, no options to warn about. *)
Lemma receive_options_none ip udp tail :
  wire_wf ip udp tail -> udp_length udp = 8 + len tail ->
  exists d, receive_options_logged (wire_view ip udp tail) = Some (inl d, []).
Proof.
  intros Hw Hul. unfold receive_options_logged. cbn [uv_ip uv_udp wire_view].
  rewrite (locate_surplus_none ip udp tail) by done. by eexists.
Qed.
End whole.

Section sent_quietly.
Context `{Crc32cSpec} (data : list Z) (os : list RawOption).
Hypothesis Hsend : Forall (sendable) os.
Hypothesis Huniq : unique_reportable os.
Hypothesis Hord : in_order os.

(** The options of a sender behind any OCS that is accepted. *)
Lemma receive_sent_warned ip udp a b chk st rest :
  options_body_bytes os = 0 :: 0 :: rest ->
  wire_wf ip udp (data ++ pad_of data ++ a :: b :: rest) -> udp_length udp = 8 + len data ->
  ocs_validate (a :: b :: rest) (len (pad_of data) + 2 + len rest) (udp_checksum udp) = Some chk ->
  (chk = OcsValid /\ st = StValid \/ chk = OcsUnused /\ st = StUnused) ->
  receive_options_logged (wire_view ip udp (data ++ pad_of data ++ a :: b :: rest))
  = Some (inr (parsed_sent data os, st), sent_warnings data os).
Proof.
  intros Hb Hw Hul Hocs Hst. eapply receive_options_logged_wire; [done|done|exact Hocs|done|].
  pose proof (parse_options_sent_warned data os (10 + len data + len (pad_of data)) Hsend Huniq Hord) as Hp.
  rewrite Hb in Hp. replace (sub (0 :: 0 :: rest) 2 (len (0 :: 0 :: rest))) with rest in Hp; [done|].
  symmetry. apply (sub_suffix [0; 0] rest); [done|]. by rewrite !len_cons, Z.add_assoc.
Qed.

(** The second pass. *)
Lemma second_pass_warned fuel ip udp c now r c' ws :
  wire_wf ip udp (reassembled_tail data (body_of os)) ->
  udp_length udp = 8 + len data -> udp_checksum udp = 0 ->
  process_datagram_inner_logged (S fuel) (wire ip udp (reassembled_tail data (body_of os))) c now false
    = Some (r, c', ws) -> ws = sent_warnings data os.
Proof.
  intros Hw Hul Hz. assert (receive_udp (wire ip udp (reassembled_tail data (body_of os))) =
    Some (Ok (wire_view ip udp (reassembled_tail data (body_of os))))) as Hu by (by apply receive_udp_wire).
  unfold body_of in *. destruct (is_nil os) eqn:Eos.
  - rewrite (reassembled_tail_nil data) in *. destruct (receive_options_none ip udp data Hw Hul) as [d Hd].
    apply is_nil_true in Eos as ->. by apply (inner_warned fuel _ c now false _ _ _ r c' ws Hu Hd).
  - destruct (options_body_cons os) as [rest Hb]. rewrite Hb, reassembled_tail_body in *.
    eapply (inner_warned fuel _ c now false); [exact Hu| |].
    + apply (receive_sent_warned ip udp 0 0 OcsUnused StUnused rest); [done|done|done| |by right].
      rewrite Hz. apply ocs_unused.
    + done.
Qed.

(** A datagram sent whole. *)
Lemma single_warned a c now r c' ws :
  DatagramAddrs_wf a -> bytes data -> wire_len data (body_of os) <= 65535 ->
  process_datagram_warned (assembled a data (body_of os)) c now = Some (r, c', ws) -> ws = sent_warnings data os.
Proof.
  intros Ha Hd Hl. unfold body_of, assembled in *. destruct (is_nil os) eqn:En.
  - assert (assemble_wf (da_src a) (da_dst a) (da_src_port a) (da_dst_port a) data []) as Hw
      by (apply assembled_wf; done || constructor).
    destruct (assembled_wire _ _ _ _ _ _ Hw) as [Hwire Hu].
    destruct (receive_options_none _ _ _ Hwire) as [dl Hdl]; [by apply assembled_nothing|].
    apply is_nil_true in En as ->. by apply (inner_warned 1 _ c now true _ _ _ r c' ws Hu Hdl).
  - assert (assemble_wf (da_src a) (da_dst a) (da_src_port a) (da_dst_port a) data (options_body_bytes os)) as Hw.
    { apply assembled_wf; [done|done| | |done].
      - by apply options_body_bytes_bytes, sendable_encodable.
      - intros Hl1. pose proof (len_options_body_even os) as He. by rewrite Hl1 in He. }
    destruct (assembled_wire _ _ _ _ _ _ Hw) as [Hwire Hu].
    destruct (options_body_cons os) as [rest Hb]. rewrite Hb in *.
    assert (bytes rest) as Hr by (destruct Hw as (_ & _ & _ & _ & _ & Hbb & _); by decompose_Forall_hyps).
    assert (0 <= len (pad_of data) + 2 + len rest <= 65535) as Hn.
    { unfold wire_len, assembled_surplus, assembled_pad in Hl. cbn [is_nil negb andb] in Hl. fold (pad_of data) in Hl.
      rewrite !len_cons in Hl. pose proof (len_nonneg data). pose proof (len_nonneg rest). pose proof (len_nonneg (pad_of data)). lia. }
    rewrite assembled_tail_cons in *. cbn [u16_to_be app] in *.
    eapply (inner_warned 1 _ c now true); [exact Hu| |].
    + apply (receive_sent_warned _ _ _ _ OcsValid StValid rest); [done|done|done| |by left].
      apply (ocs_validate_compute rest); [done|]. unfold u16. lia.
    + done.
Qed.
End sent_quietly.

(** ** Fragments *)

Section fragments.
Context `{Crc32cSpec} (src dst : Ipv4Addr) (src_port dst_port : Z).

Abbreviation sent := (frag_sent src dst src_port dst_port).
Abbreviation datagram_of := (frag_datagram src dst src_port dst_port).
Abbreviation key_of := (flow_key src dst src_port dst_port).

(** What follows the insertion into the cache. *)
Definition after_insert_warned (now : Z) (x : arrival) (o : ReassemblyOutcome) (c : ReassemblyCache) :
    logged_outcome :=
  match o with
  | Incomplete => Some (Ok Buffered, c, [])
  | Abort _ => Some (Ok Dropped, c, [])
  | Complete d =>
      let! re := reassembled_datagram (assembled_ip src dst [] (frag_body x))
                   (assembled_udp src dst src_port dst_port [] (frag_body x))
                   (co_udp_length d) (co_tail d) in
      match re with
      | None => Some (Ok Dropped, c, [])
      | Some bs =>
          let! (r, c, ws) := process_datagram_inner_logged 1 bs c now false in
          match r with
          | Err e => Some (Err e, c, ws)
          | Ok dl => Some (Ok (merge_delivery d dl), c, ws)
          end
      end
  end.

Abbreviation view_of x := (wire_view (assembled_ip src dst [] (frag_body x))
  (assembled_udp src dst src_port dst_port [] (frag_body x)) (assembled_tail [] (frag_body x))).

(** The options of a fragment raise nothing. *)
Lemma fragment_options_quiet id x :
  sent id x -> receive_options_logged (view_of x) = Some (inr (parsed_frag x.1, StValid), []).
Proof.
  intros Hx. pose proof (frag_body_value _ _ _ _ id x Hx) as Hb. destruct Hx as ((off & rdos & Hf & Hw) & Hd & Ha).
  destruct (assembled_wire src dst src_port dst_port [] (frag_body x) Ha) as [Hwire _].
  destruct Ha as (_ & _ & _ & _ & _ & Hbb & _ & Hm). rewrite Hb in *.
  set (rest := KIND_FRAG :: len (Frag_value x.1) + 2 :: Frag_value x.1 ++ x.2) in *.
  assert (bytes rest) as Hbr by (by apply Forall_cons in Hbb as [_ [_ Hbb]%Forall_cons]).
  assert (0 <= 2 + len rest <= 65535) as Hn.
  { unfold assembled_surplus in Hm. change (assembled_pad [] _) with (@nil Z) in Hm.
    rewrite !len_cons, !(@len_nil Z) in Hm. pose proof (len_nonneg rest). lia. }
  rewrite assembled_tail_cons in *. cbn [u16_to_be app] in *.
  eapply (receive_options_logged_wire _ _ [] _ _ rest); [exact Hwire|done| |by left|].
  - apply (ocs_validate_compute rest); [done|]. unfold u16. change (len (pad_of [])) with 0. lia.
  - change (10 + len [] + len (pad_of [])) with 10. unfold rest. rewrite Hf. by apply parse_options_fragment_quiet.
Qed.

(** The first pass over a fragment raises nothing. *)
Lemma fragment_warned id x c now :
  sent id x ->
  process_datagram_warned (datagram_of x) c now =
  (let! (o, c) := ReassemblyCache_insert_with_options_and_failures c (key_of id) x.1 x.2 frag_processing now in
   after_insert_warned now x o c).
Proof.
  intros Hx. pose proof (frag_datagram_data _ _ _ _ id x _ Hx eq_refl) as Hdata.
  pose proof (fragment_options_quiet id x Hx) as Ho. destruct Hx as ((off & rdos & Hf & Hw) & Hd & Ha).
  destruct (assembled_wire src dst src_port dst_port [] (frag_body x) Ha) as [_ Hr].
  unfold process_datagram_warned, frag_datagram. set (v := wire_view _ _ _) in Hr, Hdata, Ho.
  set (w := wire _ _ _) in *.
  change (process_datagram_inner_logged 2 w c now true) with
    (let! r := receive_udp w in
     match r with
     | Err e => Some (Err e, c, receive_udp_warnings e)
     | Ok v =>
         let! (r, ws) := receive_options_logged v in
         match r with
         | inl dl => Some (Ok dl, c, ws)
         | inr (po, st) =>
             let! (r, c, ws') :=
               dispatch_logged (fun d c => process_datagram_inner_logged 1 d c now false) v c now true po st in
             Some (r, c, ws ++ ws')
         end
     end).
  rewrite Hr, Ho. unfold dispatch_logged. change (uv_user_data v) with (@nil Z).
  cbn [is_nil negb parsed_frag po_frag po_fragment_failed po_unsupported_unsafe_seen andb orb fmap
    option_fmap option_map].
  unfold receive_fragment_logged. cbn [negb]. rewrite Hdata.
  assert (frag_key (uv_ip v) (uv_udp v) x.1 = key_of id) as -> by (by rewrite Hf).
  cbn [po_options po_reports parsed_frag]. rewrite bool_decide_true by done.
  change (fragment_option_failures []) with (@nil OptionKind). fold frag_processing.
  destruct (ReassemblyCache_insert_with_options_and_failures _ _ _ _ _ _) as [[o c']|]; [|done].
  cbn [app]. destruct o as [|d|]; [done| |done]. cbn [after_insert_warned]. change (uv_ip v) with (assembled_ip src dst [] (frag_body x)).
  change (uv_udp v) with (assembled_udp src dst src_port dst_port [] (frag_body x)).
  destruct (reassembled_datagram _ _ _ _) as [[bs|]|]; [|done..].
  by destruct (process_datagram_inner_logged 1 bs c' now false) as [[[[] ?] ?]|].
Qed.

(** Datagrams arriving one after the other, with all the warnings they raise. *)
Fixpoint process_all_warned (c : ReassemblyCache) (arrivals : list (Z * list Z)) :
    option (list (result Delivery RecvError) * ReassemblyCache * list warning) :=
  match arrivals with
  | [] => Some ([], c, [])
  | (now, d) :: rest =>
      let! (r, c, ws) := process_datagram_warned d c now in
      let! (rs, c, ws') := process_all_warned c rest in
      Some (r :: rs, c, ws ++ ws')
  end.

Lemma process_all_drop arrivals : forall c, process_all c arrivals = drop_log (process_all_warned c arrivals).
Proof.
  induction arrivals as [|[now d] l IH]; intros c; [done|]. cbn [process_all process_all_warned].
  rewrite process_datagram_drop. destruct (process_datagram_warned d c now) as [[[r c1] ws]|]; [|done].
  cbn [drop_log]. rewrite IH. by destruct (process_all_warned c1 l) as [[[rs c2] ws']|].
Qed.

(** All fragments of a datagram: only the second pass speaks. *)
Lemma feed_warned id d n ws0 : forall arrivals c c' rs c2 ws,
  Forall (sent id) arrivals.*2 ->
  feed c (key_of id) frag_processing arrivals = Some (replicate n Incomplete ++ [Complete d], c') ->
  (forall now x c r c' ws, after_insert_warned now x (Complete d) c = Some (r, c', ws) -> ws = ws0) ->
  process_all_warned c (timed src dst src_port dst_port <$> arrivals) = Some (rs, c2, ws) -> ws = ws0.
Proof.
  induction n as [|n IH]; intros arrivals c c' rs c2 ws Hs Hf Ha; (destruct arrivals as [|[t x] arrivals]; [done|]);
    apply Forall_cons in Hs as [Hx Hs]; cbn [feed] in Hf; cbn [fmap list_fmap]; unfold timed at 1;
    cbn [process_all_warned fst snd]; rewrite (fragment_warned id) by done;
    (destruct (ReassemblyCache_insert_with_options_and_failures _ _ _ _ _ _) as [[o c1]|]; [|done]);
    (destruct (feed c1 _ _ arrivals) as [[os c3]|] eqn:Ef; [|done]); injection Hf as -> -> ->.
  - assert (arrivals = []) as ->.
    { destruct arrivals as [|[t' x'] arrivals]; [done|]. cbn [feed] in Ef.
      destruct (ReassemblyCache_insert_with_options_and_failures c1 _ _ _ _ _) as [[o c4]|]; [|done].
      by destruct (feed c4 _ _ arrivals) as [[? ?]|]. }
    destruct (after_insert_warned t x (Complete d) c1) as [[[r c4] ws1]|] eqn:Ew; [|done].
    apply Ha in Ew as ->. intros [= <- <- <-]. apply app_nil_r.
  - cbn [after_insert_warned].
    destruct (process_all_warned c1 _) as [[[rs1 c4] ws1]|] eqn:Ew; [|done]. intros [= <- <- <-].
    by apply (IH _ _ _ _ _ _ Hs Ef Ha) in Ew.
Qed.

(** The second pass over the fragments of sendable options. *)
Lemma completed_warned payload os now x d c r c' ws :
  addrs_wf src dst src_port dst_port -> bytes payload -> Forall (sendable) os ->
  unique_reportable os -> in_order os ->
  co_tail d = reassembled_tail payload (body_of os) -> co_udp_length d = 8 + len payload ->
  28 + len (reassembled_tail payload (body_of os)) <= 65535 ->
  after_insert_warned now x (Complete d) c = Some (r, c', ws) -> ws = sent_warnings payload os.
Proof.
  intros Haddr Hp Hs Hu Hi Ht Hul Hmax. cbn [after_insert_warned]. rewrite Ht, Hul.
  pose proof (tail_bounds payload os) as Htb. rewrite reassembled_datagram_spec by done.
  destruct (Z.leb_spec (28 + len (reassembled_tail payload (body_of os))) 65535); [|lia].
  pose proof (completed_wire_wf src dst src_port dst_port payload os Haddr Hp Hs x Hmax) as Hw.
  unfold reassembled_bytes. set (ip := reassembled_ip _ _) in *. set (udp := reassembled_udp _ _) in *.
  fold (wire ip udp (reassembled_tail payload (body_of os))).
  destruct (process_datagram_inner_logged 1 _ c now false) as [[[r1 c1] ws1]|] eqn:Ew; [|done].
  apply second_pass_warned in Ew as ->; [|done..]. destruct r1; by intros [= _ _ <-].
Qed.
End fragments.

(** ** Property *)


