(* ===== verification/Warnings.v ===== *)
(** The sampled warnings (src/src/recv/pipeline.rs, lines 23 to 80, and src/src/api/mod.rs,
    lines 34, 433 to 489 and 671 to 721).

    A category of warnings has a counter; the first warning and every 64th are written.
    [decode_datagram_logged] is [decode_datagram] with the counters and the lines written:
    those of the pipeline ([PipelineLog] says which warnings it raises), of the prefilter
    and of the receive policy.  The counters are process-wide statics of the source, a
    [Counters] here. *)

From S2P Require Import Prelude Model Kind Parse Typed Serialize Checksum Ip Udp Surplus Ocs.
From S2P Require Import Split Reassembly RecvOptions Pipeline Socket Api ApiCorrect Text PipelineLog.

(** ** Data *)

Definition POLICY_WARN_SAMPLE_INTERVAL : Z := 64.

(** The statics of the source, by category. *)
Definition Counters : Type := Category -> Z.

Definition set_counter (k : Counters) (c : Category) (n : Z) : Counters :=
  fun c' => if decide (c' = c) then n else k c'.

(** ** Writing *)

Definition sample_suffix (sample : Z) : string :=
  " (sample #" +:+ show sample +:+ "; repeated warnings in this category are sampled)".

(** [warn_sampled!]: the counters after and the lines written. *)
Definition warn_sampled (k : Counters) (counter : Category) (message : string) : option (Counters * list string) :=
  let! (logged, n) := should_log_sampled (k counter) in
  Some (set_counter k counter n,
        match logged with
        | Some sample => [if sample =? 1 then message else message +:+ sample_suffix sample]
        | None => []
        end).

(** Several warnings, one after the other. *)
Fixpoint warn_all (k : Counters) (ws : list warning) : option (Counters * list string) :=
  match ws with
  | [] => Some (k, [])
  | (c, message) :: ws =>
      let! (k, lines) := warn_sampled k c message in
      let! (k, lines') := warn_all k ws in
      Some (k, lines ++ lines')
  end.

Definition warn_udp_length_below_min (k : Counters) (length : Z) : option (Counters * list string) :=
  warn_sampled k UDP_LENGTH_BELOW_MIN_WARNINGS (udp_length_below_min_message length).

Definition warn_udp_length_exceeds_ip (k : Counters) (length transport_payload_len : Z) :
    option (Counters * list string) :=
  warn_sampled k UDP_LENGTH_EXCEEDS_IP_WARNINGS (udp_length_exceeds_ip_message length transport_payload_len).

Definition warn_policy_sampled (k : Counters) (counter : Category) (message : string) :
    option (Counters * list string) :=
  ensure (k counter + 1 <=? 18446744073709551615);
  let sample := k counter + 1 in
  Some (set_counter k counter ((k counter + 1) mod 18446744073709551616),
        if (sample =? 1) || (sample mod POLICY_WARN_SAMPLE_INTERVAL =? 0)
        then [if sample =? 1 then message else message +:+ sample_suffix sample] else []).

(** ** Decoding with a log *)

(** [wire_option_bearing]: the prefilter warns about UDP Length, not about the checksum. *)
Definition wire_option_bearing_logged (k : Counters) (datagram : list Z) :
    option (result bool RecvError * Counters * list string) :=
  let! parsed := IpRepr_parse datagram in
  match parsed with
  | Err e => Some (Err (RecvHeader e), k, [])
  | Ok (ip, udp_at) =>
      let ip_end := IpRepr_header_len ip + IpRepr_transport_payload_len ip in
      let! udp_bytes := slice datagram udp_at ip_end in
      let! parsed := UdpHeader_parse udp_bytes in
      match parsed with
      | Err (UdpLengthInvalid length) =>
          let! (k, lines) := warn_udp_length_below_min k length in
          Some (Err (RecvHeader (UdpLengthInvalid length)), k, lines)
      | Err e => Some (Err (RecvHeader e), k, [])
      | Ok udp =>
          let udp_len := udp_length udp in
          if IpRepr_transport_payload_len ip <? udp_len
          then
            let! (k, lines) := warn_udp_length_exceeds_ip k (udp_length udp)
                                 (IpRepr_transport_payload_len ip) in
            Some (Err (UdpLengthExceedsIpPayload (udp_length udp) (IpRepr_transport_payload_len ip)),
                  k, lines)
          else
          let user_data_at := udp_at + API_UDP_HEADER_LEN in
          let surplus_start := udp_at + udp_len in
          let! user_data := slice datagram user_data_at surplus_start in
          let verdict := match locate_surplus ip udp with Some _ => true | None => false end in
          if udp_checksum udp =? 0 then Some (Ok verdict, k, []) else
          let! expected := UdpHeader_compute_checksum (UdpHeader_with_checksum udp 0) ip user_data in
          Some (if expected =? udp_checksum udp then Ok verdict
                else Err (UdpChecksumMismatch expected (udp_checksum udp)), k, [])
      end
  end.

Section decode.
Context `{Crc32c}.

(** [process_datagram] with its warnings sampled. *)
Definition process_datagram_logged (k : Counters) (datagram : list Z) (cache : ReassemblyCache) (now : Z) :
    option (result Delivery RecvError * ReassemblyCache * Counters * list string) :=
  let! (r, cache, ws) := process_datagram_warned datagram cache now in
  let! (k, lines) := warn_all k ws in
  Some (r, cache, k, lines).

Definition drop_all_message : string :=
  "dropping UDP datagram because receive policy rejects all option-bearing packets".

(** The policy checks on a delivered payload. *)
Definition apply_policy_logged (k : Counters) (policy : ReceivePolicy) (p : Payload) :
    option (ApiDelivery * Counters * list string) :=
  if rp_drop_all_option_bearing policy && pl_option_bearing p
  then
    let! (k, lines) := warn_policy_sampled k DROP_ALL_WARNINGS drop_all_message in
    Some (ApiFiltered, k, lines)
  else
    match missing_required_option policy (pl_reports p) with
    | Some missing =>
        let! (k, lines) := warn_policy_sampled k REQUIRED_OPTION_WARNINGS
          ("dropping UDP datagram because required option kind " +:+ show_x04 (to_byte missing)
           +:+ " is missing or failed") in
        Some (ApiFiltered, k, lines)
    | None =>
        if rp_ocs_required policy && negb (ocs_requirement_satisfied (pl_ocs_reports p))
        then
          let! (k, lines) := warn_policy_sampled k REQUIRED_OCS_WARNINGS
            "dropping UDP datagram because a successful OCS confirmation is required" in
          Some (ApiFiltered, k, lines)
        else Some (ApiReceived
          {| rd_data := pl_data p; rd_options := pl_options p; rd_reports := pl_reports p;
             rd_ocs_reports := pl_ocs_reports p |}, k, [])
    end.

Definition decode_datagram_logged (k : Counters) (datagram : list Z) (cache : ReassemblyCache) (now : Z)
    (policy : ReceivePolicy) : option (result ApiDelivery RecvError * ReassemblyCache * Counters * list string) :=
  let! (prefiltered, k, lines) :=
    if rp_drop_all_option_bearing policy then wire_option_bearing_logged k datagram
    else Some (Ok false, k, []) in
  match prefiltered with
  | Err e => Some (Err e, cache, k, lines)
  | Ok true =>
      let! (k, lines') := warn_policy_sampled k DROP_ALL_WARNINGS drop_all_message in
      Some (Ok ApiFiltered, cache, k, lines ++ lines')
  | Ok false =>
      let! (r, cache, k, lines') := process_datagram_logged k datagram cache now in
      match r with
      | Err e => Some (Err e, cache, k, lines ++ lines')
      | Ok (DeliverPayload p) =>
          let! (d, k, lines'') := apply_policy_logged k policy p in
          Some (Ok d, cache, k, lines ++ lines' ++ lines'')
      | Ok Buffered => Some (Ok ApiBuffered, cache, k, lines ++ lines')
      | Ok Dropped => Some (Ok ApiDropped, cache, k, lines ++ lines')
      end
  end.
End decode.

(** ** Lemmas *)

(** Room for [n] more warnings in every counter. *)
Definition room (n : Z) (k : Counters) : Prop := forall c, 0 <= k c /\ k c + n < 18446744073709551616.

(** One more warning of category [c]. *)
Definition count (k : Counters) (c : Category) : Counters := set_counter k c (k c + 1).

(** Whether the next warning of a category is written. *)
Definition due (k : Counters) (c : Category) : bool := (k c =? 0) || ((k c + 1) mod 64 =? 0).

Definition count_all (k : Counters) (cs : list Category) : Counters := foldl count k cs.

(** The lines written for warnings of these categories. *)
Fixpoint lines_due (k : Counters) (cs : list Category) : Z :=
  match cs with
  | [] => 0
  | c :: cs => (if due k c then 1 else 0) + lines_due (count k c) cs
  end.

(** A stage that raised the categories [cs] and wrote the lines [lines]. *)
Definition logs (k : Counters) (cs : list Category) (k' : Counters) (lines : list string) : Prop :=
  k' = count_all k cs /\ len lines = lines_due k cs.

Lemma logs_nil k : logs k [] k [].
Proof. done. Qed.

Lemma lines_due_app cs cs' : forall k, lines_due k (cs ++ cs') = lines_due k cs + lines_due (count_all k cs) cs'.
Proof. induction cs as [|c cs IH]; intros k; [done|]. cbn [lines_due app]. rewrite IH. apply Z.add_assoc. Qed.

Lemma logs_app k cs k' lines cs' k2 lines' :
  logs k cs k' lines -> logs k' cs' k2 lines' -> logs k (cs ++ cs') k2 (lines ++ lines').
Proof.
  intros [-> Hl] [-> Hl']. split; [by unfold count_all; rewrite foldl_app|]. by rewrite len_app, lines_due_app, Hl, Hl'.
Qed.

Lemma room_count n k c : room (1 + n) k -> room n (count k c).
Proof.
  intros Hk c'. unfold count, set_counter. destruct (Hk c'), (Hk c). destruct (decide (c' = c)); lia.
Qed.

Lemma room_count_all cs : forall n k, 0 <= n -> room (len cs + n) k -> room n (count_all k cs).
Proof.
  induction cs as [|c cs IH]; intros n k Hn Hk; [done|]. cbn [count_all foldl]. apply IH; [done|].
  apply room_count. rewrite len_cons in Hk. by rewrite Z.add_assoc.
Qed.

Lemma room_weaken n m k : m <= n -> room n k -> room m k.
Proof. intros Hm Hk c. destruct (Hk c). lia. Qed.

Lemma sample_lines (c1 : Z) (m m' : string) :
  len (if (c1 + 1 =? 1) || ((c1 + 1) mod 64 =? 0) then [if c1 + 1 =? 1 then m else m'] else []) =
  (if (c1 =? 0) || ((c1 + 1) mod 64 =? 0) then 1 else 0) + 0.
Proof. replace (c1 + 1 =? 1) with (c1 =? 0) by lia. by destruct (_ || _). Qed.

Lemma warn_policy_sampled_ok k c m :
  room 1 k -> exists k' lines, warn_policy_sampled k c m = Some (k', lines) /\ logs k [c] k' lines.
Proof.
  intros Hk. destruct (Hk c). unfold warn_policy_sampled, logs, lines_due, due, POLICY_WARN_SAMPLE_INTERVAL.
  destruct (Z.leb_spec (k c + 1) 18446744073709551615); [|lia]. do 2 eexists. split; [done|].
  rewrite Z.mod_small by lia. split; [done|]. by apply sample_lines.
Qed.

Lemma warn_sampled_ok k c m :
  room 1 k -> exists k' lines, warn_sampled k c m = Some (k', lines) /\ logs k [c] k' lines.
Proof.
  intros Hk. destruct (Hk c). unfold warn_sampled, should_log_sampled, logs, lines_due, due, WARN_SAMPLE_INTERVAL.
  destruct (Z.leb_spec (k c + 1) 18446744073709551615); [|lia]. do 2 eexists. split; [done|].
  rewrite Z.mod_small by lia. split; [done|].
  rewrite <- (sample_lines (k c) m (m +:+ sample_suffix (k c + 1))). by destruct (_ || _).
Qed.

Lemma warn_all_ok ws : forall k,
  room (len ws) k -> exists k' lines, warn_all k ws = Some (k', lines) /\ logs k ws.*1 k' lines.
Proof.
  induction ws as [|[c m] ws IH]; intros k Hk; [by do 2 eexists|]. cbn [warn_all]. rewrite len_cons in Hk.
  pose proof (len_nonneg ws). destruct (warn_sampled_ok k c m) as (k1 & l1 & -> & Hl1); [by apply (room_weaken (1 + len ws)); [lia|]|].
  destruct (IH k1) as (k2 & l2 & -> & Hl2); [by destruct Hl1 as [-> _]; apply room_count|].
  do 2 eexists. split; [done|]. by apply (logs_app _ [c] k1 l1).
Qed.

(** What the warnings of a datagram of [64 KiB] need, with the policy's. *)
Definition Counters_wf : Counters -> Prop := room 1048576.

(** The category of an error of the header stage; the prefilter says nothing of checksums. *)
Definition error_categories (prefilter : bool) (e : RecvError) : list Category :=
  match e with
  | UdpChecksumMismatch _ _ => if prefilter then [] else [UDP_CHECKSUM_WARNINGS]
  | e => (receive_udp_warnings e).*1
  end.

Lemma error_categories_udp e : (receive_udp_warnings e).*1 = error_categories false e.
Proof. by destruct e as [[]| | | |]. Qed.

Definition result_categories {A} (prefilter : bool) (r : result A RecvError) : list Category :=
  match r with Err e => error_categories prefilter e | Ok _ => [] end.

Lemma IpRepr_parse_error d n : IpRepr_parse d <> Some (Err (UdpLengthInvalid n)).
Proof. unfold IpRepr_parse, IpRepr_parse_v4. cbv zeta. repeat case_match; done. Qed.

(** The prefilter with a log is the prefilter. *)
Lemma wire_option_bearing_logged_ok k d :
  room 1 k -> match wire_option_bearing d with
  | Some r => exists k' lines, wire_option_bearing_logged k d = Some (r, k', lines) /\
      logs k (result_categories true r) k' lines
  | None => True
  end.
Proof.
  intros Hk. unfold wire_option_bearing, wire_option_bearing_logged.
  destruct (IpRepr_parse d) as [[[ip udp_at]|e]|] eqn:Ep; cbn [map_err]; [|..|done].
  2:{ destruct e; try by eauto using logs_nil. by apply IpRepr_parse_error in Ep. }
  destruct (slice d udp_at _) as [u|]; [|done]. destruct (UdpHeader_parse u) as [[udp|e]|]; cbn [map_err]; [| |done].
  2:{ destruct e; try by eauto using logs_nil. unfold warn_udp_length_below_min.
      edestruct warn_sampled_ok as (k' & lines & -> & Hl); eauto. }
  destruct (_ <? _).
  { unfold warn_udp_length_exceeds_ip. edestruct warn_sampled_ok as (k' & lines & -> & Hl); eauto. }
  cbv zeta. destruct (slice d _ _); [|done]. destruct (_ =? 0); [by eauto using logs_nil|].
  destruct (UdpHeader_compute_checksum _ _ _) as [x|]; [|done].
  destruct (x =? _); eauto using logs_nil.
Qed.

(** ** Properties *)

Definition policy_categories : list Category := [DROP_ALL_WARNINGS; REQUIRED_OPTION_WARNINGS; REQUIRED_OCS_WARNINGS].

(** The warnings about options: of the loop, and of options discarded. *)
Definition option_categories : list Category :=
  loop_categories ++ [PAD_WARNINGS; OCS_ZERO_WITH_UDP_CHECKSUM_WARNINGS; OCS_MISMATCH_WARNINGS; TLV_PARSE_WARNINGS].

(** The categories that go with what decoding returned. *)
Definition decode_categories (policy : ReceivePolicy) (r : result ApiDelivery RecvError) (cs : list Category) : Prop :=
  match r with
  | Err e => cs = error_categories (rp_drop_all_option_bearing policy) e
  | Ok ApiFiltered => exists cs' c, cs = cs' ++ [c] /\ Forall (fun c => c ∈ option_categories) cs' /\ c ∈ policy_categories
  | Ok (ApiReceived rd) =>
      exists ws bearing, cs = ws.*1 /\
        explains ws (DeliverPayload
          {| pl_data := rd_data rd; pl_options := rd_options rd; pl_option_bearing := bearing;
             pl_reports := rd_reports rd; pl_ocs_reports := rd_ocs_reports rd |})
  | Ok (ApiBuffered | ApiDropped) => Forall (fun c => c ∈ loop_categories) cs
  end.

Lemma loop_option_category c : c ∈ loop_categories -> c ∈ option_categories.
Proof. intros Hc. apply elem_of_app. by left. Qed.

Lemma explains_options ws p : explains ws (DeliverPayload p) -> Forall (fun c => c ∈ option_categories) ws.*1.
Proof.
  intros (first & last_ & -> & Hf & st & reports & _ & He). rewrite fmap_app. apply Forall_app. split.
  - apply Forall_fmap. apply (Forall_impl _ _ _ Hf). intros w. apply loop_option_category.
  - assert (forall cs, bool_decide (Forall (fun c => c ∈ option_categories) cs) = true -> last_.*1 = cs ->
      Forall (fun c => c ∈ option_categories) last_.*1) as Hc by (by intros cs Hcs%bool_decide_eq_true ->).
    destruct st; cbn in He; [|destruct He as [He|[He _]]..|destruct He as [He|He]| |];
      by eapply Hc; [|exact He].
Qed.

Lemma apply_policy_logged_ok k policy p ws :
  room 1 (count_all k ws.*1) -> explains ws (DeliverPayload p) ->
  exists cs k' lines, apply_policy_logged (count_all k ws.*1) policy p = Some (apply_policy policy p, k', lines) /\
    logs (count_all k ws.*1) cs k' lines /\ decode_categories policy (Ok (apply_policy policy p)) (ws.*1 ++ cs).
Proof.
  intros Hk He. pose proof (explains_options ws p He) as Ho. unfold apply_policy_logged, apply_policy.
  destruct (_ && pl_option_bearing p); [|destruct (missing_required_option policy (pl_reports p)); [|destruct (_ && negb _)]].
  1-3: edestruct warn_policy_sampled_ok as (k' & lines & -> & Hl); [done|]; do 3 eexists; split; [done|];
    split; [exact Hl|]; eexists _, _; split; [done|]; split; [done|]; by apply (bool_decide_eq_true_1 _).
  exists [], (count_all k ws.*1), []. split; [done|]. split; [apply logs_nil|]. rewrite app_nil_r.
  exists ws, (pl_option_bearing p). split; [done|]. by destruct p.
Qed.

(** After the prefilter, when it lets the datagram through. *)
Lemma process_logged_ok `{Crc32c} k d c now policy :
  bytes d -> Cache_wf c -> Counters_wf k ->
  (rp_drop_all_option_bearing policy = true -> wire_option_bearing d = Some (Ok false)) ->
  exists r c' cs k' lines,
    (let! (r, cache, k, lines') := process_datagram_logged k d c now in
     match r with
     | Err e => Some (Err e, cache, k, [] ++ lines')
     | Ok (DeliverPayload p) =>
         let! (d, k, lines'') := apply_policy_logged k policy p in Some (Ok d, cache, k, [] ++ lines' ++ lines'')
     | Ok Buffered => Some (Ok ApiBuffered, cache, k, [] ++ lines')
     | Ok Dropped => Some (Ok ApiDropped, cache, k, [] ++ lines')
     end) = Some (to_api policy r, c', k', lines) /\
    process_datagram d c now = Some (r, c') /\ logs k cs k' lines /\ decode_categories policy (to_api policy r) cs.
Proof.
  intros Hb Hc Hk Hpre. unfold process_datagram_logged.
  destruct (process_datagram_explained d c now Hb Hc) as (r & c' & ws & -> & Hp & Hlen & He). rewrite Hp.
  assert (len ws <= 262160) as Hlw by done. pose proof (len_nonneg ws).
  destruct (warn_all_ok ws k) as (k' & lines & -> & Hl); [by eapply room_weaken, Hk; lia|].
  exists r, c'. destruct r as [[p| |]|e].
  - pose proof Hl as [-> _].
    destruct (apply_policy_logged_ok k policy p ws) as (cs & k2 & lines2 & -> & Hl2 & Hcat); [|done|].
    { apply room_count_all; [done|]. unfold len. rewrite length_fmap. fold (len ws). by eapply room_weaken, Hk; lia. }
    exists (ws.*1 ++ cs), k2, (lines ++ lines2). do 2 (split; [done|]). split; [|done].
    by apply (logs_app _ _ (count_all k ws.*1)).
  - eexists _, _, _. do 2 (split; [done|]). split; [exact Hl|]. by apply Forall_fmap.
  - eexists _, _, _. do 2 (split; [done|]). split; [exact Hl|]. by apply Forall_fmap.
  - eexists _, _, _. do 2 (split; [done|]). split; [exact Hl|]. rewrite He, error_categories_udp. cbn.
    destruct (rp_drop_all_option_bearing policy); [|done]. specialize (Hpre eq_refl).
    apply process_datagram_error in Hp as [Hu _]; [|done..]. by rewrite wire_option_bearing_spec, Hu in Hpre.
Qed.

(** C33. The log agrees with the result.  Decoding with the log returns what
    [decode_datagram] returns.  A datagram with a bad UDP Length or checksum increments
    exactly its category's counter (a checksum seen by the prefilter has none); one the
    policy filters increments the policy's counter last; a datagram that is handed over
    increments the PAD or an OCS counter exactly when its OCS report says that the pad or the
    OCS failed or was a forbidden zero, the TLV counter only when none of its own options is
    reported, and besides at most the order, NOP and APC counters, which are all that a
    buffered or dropped one increments.  Of the warnings of a category the first and every
    64th are written. *)
Theorem decode_warnings `{Crc32c} (k : Counters) (d : list Z) (c : ReassemblyCache) (now : Z)
    (policy : ReceivePolicy) :
  bytes d -> Cache_wf c -> Counters_wf k ->
  exists r c' cs lines, decode_datagram_logged k d c now policy = Some (r, c', count_all k cs, lines) /\
    decode_datagram d c now policy = Some (r, c') /\ decode_categories policy r cs /\
    len lines = lines_due k cs.
Proof.
  intros Hb Hc Hk. unfold decode_datagram_logged, decode_datagram.
  pose proof (process_logged_ok k d c now policy Hb Hc Hk) as Hproc.
  assert (room 1 k) as Hk1 by (by eapply room_weaken, Hk; lia).
  destruct (rp_drop_all_option_bearing policy) eqn:Hd.
  - destruct (receive_udp_spec d Hb) as (u & Hu & _). pose proof (wire_option_bearing_logged_ok k d Hk1) as Hw.
    assert (is_Some (wire_option_bearing d)) as [w Ew] by (rewrite wire_option_bearing_spec, Hu by done; eauto).
    rewrite Ew in *. destruct Hw as (k' & lines & -> & Hl & Hlen). destruct w as [[|]|e].
    + cbn [count_all foldl lines_due result_categories] in Hl, Hlen. subst k'. apply len_zero_nil in Hlen as ->.
      edestruct warn_policy_sampled_ok as (k' & lines & -> & -> & Hlen); [done|].
      do 4 eexists. split; [done|]. split; [done|]. split; [|exact Hlen]. exists [], DROP_ALL_WARNINGS.
      split; [done|]. split; [constructor|constructor].
    + cbn [count_all foldl lines_due result_categories] in Hl, Hlen. subst k'. apply len_zero_nil in Hlen as ->.
      destruct Hproc as (r & c' & cs & k' & lines & -> & -> & [-> Hlen] & Hcat); [done|]. by do 4 eexists.
    + subst k'. do 4 eexists. split; [done|]. split; [done|]. split; [|exact Hlen]. cbn. by rewrite Hd.
  - destruct Hproc as (r & c' & cs & k' & lines & -> & -> & [-> Hlen] & Hcat); [done|]. by do 4 eexists.
Qed.

(** The 64th datagram that the drop-all policy filters. *)
Lemma decode_warnings_witness :
  let policy := {| rp_required_options := []; rp_drop_all_option_bearing := true; rp_ocs_required := false |} in
  let k := fun c : Category => if decide (c = DROP_ALL_WARNINGS) then 63 else 0 in
  exists r c' cs lines,
    @decode_datagram_logged crc32c_bitwise k (nth 0 example_built []) ReassemblyCache_new 5 policy
      = Some (r, c', count_all k cs, lines) /\ r = Ok ApiFiltered /\ decode_categories policy r cs /\
    lines = ["dropping UDP datagram because receive policy rejects all option-bearing packets (sample #64; repeated warnings in this category are sampled)"].
Proof.
  intros policy k.
  destruct (@decode_warnings crc32c_bitwise k (nth 0 example_built []) ReassemblyCache_new 5 policy)
    as (r & c' & cs & lines & Hr & _ & Hcat & Hlen).
  - evaluate.
  - apply with_limits_wf, ReassemblyLimits_default_wf.
  - intros c. unfold k. destruct (decide _); lia.
  - assert (@decode_datagram_logged crc32c_bitwise k (nth 0 example_built []) ReassemblyCache_new 5 policy =
      Some (Ok ApiFiltered, ReassemblyCache_new, set_counter k DROP_ALL_WARNINGS 64,
        ["dropping UDP datagram because receive policy rejects all option-bearing packets (sample #64; repeated warnings in this category are sampled)"]))
      as E by (vm_compute; reflexivity).
    exists r, c', cs, lines. split; [exact Hr|]. rewrite E in Hr. injection Hr as <- <- _ <-.
    split; [reflexivity|]. split; [exact Hcat|reflexivity].
Defined.

(** ** The sampling rate *)

(** Lines written for the first [n] warnings. *)
Definition written (n : Z) : Z := (if n =? 0 then 0 else 1) + n / 64.

(** Of [n] warnings of one category, the first and every 64th are written. *)
Lemma lines_due_written c n : forall k,
  0 <= k c -> lines_due k (replicate n c) = written (k c + Z.of_nat n) - written (k c).
Proof.
  induction n as [|n IH]; intros k Hk; cbn [replicate lines_due]; [rewrite Z.add_0_r; lia|].
  assert (count k c c = k c + 1) as Hc by (unfold count, set_counter; by rewrite decide_True).
  rewrite IH, Hc by lia. replace (k c + 1 + Z.of_nat n) with (k c + Z.of_nat (S n)) by lia.
  enough ((if due k c then 1 else 0) = written (k c + 1) - written (k c)) by lia. unfold due, written.
  destruct (Z.eqb_spec (k c) 0), (Z.eqb_spec ((k c + 1) mod 64) 0), (Z.eqb_spec (k c + 1) 0);
    cbn [orb]; Z.to_euclidean_division_equations; lia.
Qed.
