(* ===== verification/Json.v ===== *)
(** A strict reader for flat JSON objects: the specification of the JSON lines of
    the command-line tools.

    An object is a sequence of members whose values are texts or bare words; the
    only escapes are those of the quote and the backslash, control characters are
    refused in texts, and a bare word is a decimal number without leading zeros,
    [true], [false] or [null].  Every object this reader accepts is JSON.  The
    lemmas read back what [render_object] writes. *)

From stdpp Require Import pretty.
From Stdlib Require Import Ascii.
From S2P Require Import Prelude Model Kind Ip Text.

(** ** The reader *)

Inductive json_value : Type :=
| JText (t : list Z)
| JBare (t : list Z).

Fixpoint read_text (bs : list Z) : option (list Z * list Z) :=
  match bs with
  | [] => None
  | b :: rest =>
      if b =? 34 then Some ([], rest)
      else if b <? 32 then None
      else if b =? 92 then
        match rest with
        | c :: rest' =>
            if (c =? 34) || (c =? 92)
            then let! (t, r) := read_text rest' in Some (c :: t, r)
            else None
        | [] => None
        end
      else let! (t, r) := read_text rest in Some (b :: t, r)
  end.

Fixpoint span_bare (bs : list Z) : list Z * list Z :=
  match bs with
  | [] => ([], [])
  | b :: rest =>
      if (b =? 44) || (b =? 125) then ([], bs)
      else let '(t, r) := span_bare rest in (b :: t, r)
  end.

Definition is_digit (b : Z) : bool := (48 <=? b) && (b <=? 57).

Definition bare_ok (t : list Z) : bool :=
  bool_decide (t ∈ [as_bytes "true"; as_bytes "false"; as_bytes "null"; as_bytes "0"])
  || match t with
     | b :: _ => negb (b =? 48) && forallb is_digit t
     | [] => false
     end.

Definition read_value (bs : list Z) : option (json_value * list Z) :=
  match bs with
  | b :: rest =>
      if b =? 34 then let! (t, r) := read_text rest in Some (JText t, r)
      else let '(t, r) := span_bare bs in ensure (bare_ok t); Some (JBare t, r)
  | [] => None
  end.

Definition read_member (bs : list Z) : option (list Z * json_value * list Z) :=
  match bs with
  | 34 :: rest =>
      let! (k, r) := read_text rest in
      match r with
      | 58 :: r => let! (v, r) := read_value r in Some (k, v, r)
      | _ => None
      end
  | _ => None
  end.

Fixpoint read_members (fuel : nat) (bs : list Z) : option (list (list Z * json_value)) :=
  match fuel with
  | O => None
  | S fuel =>
      let! (k, v, r) := read_member bs in
      match r with
      | [125] => Some [(k, v)]
      | 44 :: r => let! ms := read_members fuel r in Some ((k, v) :: ms)
      | _ => None
      end
  end.

(** Every member takes at least five bytes, so the length is fuel enough. *)
Definition read_object (bs : list Z) : option (list (list Z * json_value)) :=
  match bs with
  | 123 :: rest => read_members (length rest) rest
  | _ => None
  end.

(** ** Writing *)

Definition escape (t : list Z) : list Z :=
  concat ((fun b => if (b =? 34) || (b =? 92) then [92; b] else [b]) <$> t).

Definition render_value (v : json_value) : list Z :=
  match v with
  | JText t => 34 :: escape t ++ [34]
  | JBare t => t
  end.

Definition render_member (m : list Z * json_value) : list Z :=
  34 :: escape m.1 ++ 34 :: 58 :: render_value m.2.

Fixpoint render_members (ms : list (list Z * json_value)) : list Z :=
  match ms with
  | [] => []
  | [m] => render_member m
  | m :: ms => render_member m ++ 44 :: render_members ms
  end.

Definition render_object (ms : list (list Z * json_value)) : list Z :=
  123 :: render_members ms ++ [125].

Definition printable (t : list Z) : Prop := Forall (fun b => 32 <= b < 256) t.

Definition value_ok (v : json_value) : Prop :=
  match v with JText t => printable t | JBare t => bare_ok t = true end.

Definition member_ok (m : list Z * json_value) : Prop := printable m.1 /\ value_ok m.2.

(** ** Lemmas: reading what was written *)

Lemma read_text_escape t rest : printable t -> read_text (escape t ++ 34 :: rest) = Some (t, rest).
Proof.
  induction 1 as [|b t Hb _ IH]; [done|]. unfold escape. cbn [fmap list_fmap concat]. fold (escape t).
  rewrite <- app_assoc. destruct (Z.eqb_spec b 34) as [->|H34]; [|destruct (Z.eqb_spec b 92) as [->|H92]];
    cbn [orb app read_text].
  - change (92 =? 34) with false. change (92 <? 32) with false. change (92 =? 92) with true.
    change (34 =? 34) with true. cbn [orb]. by rewrite IH.
  - change (92 =? 34) with false. change (92 <? 32) with false. change (92 =? 92) with true.
    cbn [orb]. by rewrite IH.
  - destruct (Z.eqb_spec b 34); [done|]. destruct (Z.ltb_spec b 32); [lia|].
    destruct (Z.eqb_spec b 92); [done|]. by rewrite IH.
Qed.

Lemma bare_chars t : bare_ok t = true -> Forall (fun b => b <> 44 /\ b <> 125 /\ b <> 34) t /\ t <> [].
Proof.
  unfold bare_ok. intros [Hw|Hd]%orb_true_iff.
  - apply bool_decide_eq_true in Hw.
    repeat (apply elem_of_cons in Hw as [->|Hw]; [split; [evaluate|intros Hn; vm_compute in Hn; discriminate Hn]|]).
    by apply elem_of_nil in Hw.
  - destruct t as [|b t]; [done|]. apply andb_true_iff in Hd as [_ Hd]. split; [|done].
    apply Forall_forall. intros x Hx%list_elem_of_In. apply (proj1 (forallb_forall _ _) Hd x) in Hx.
    unfold is_digit in Hx. bool_cases; done || lia.
Qed.

Lemma span_bare_app t b rest :
  Forall (fun b => b <> 44 /\ b <> 125 /\ b <> 34) t -> b = 44 \/ b = 125 ->
  span_bare (t ++ b :: rest) = (t, b :: rest).
Proof.
  intros Ht Hb. induction Ht as [|x t (H1 & H2 & _) _ IH]; cbn [app span_bare].
  - by destruct Hb as [->| ->].
  - destruct (Z.eqb_spec x 44); [done|]. destruct (Z.eqb_spec x 125); [done|]. by rewrite IH.
Qed.

Lemma read_value_render v b rest :
  value_ok v -> b = 44 \/ b = 125 -> read_value (render_value v ++ b :: rest) = Some (v, b :: rest).
Proof.
  intros Hv Hb. destruct v as [t|t]; cbn [render_value value_ok] in *.
  - cbn [app read_value]. rewrite <- app_assoc. cbn [app]. by rewrite read_text_escape.
  - destruct (bare_chars t Hv) as [Hc Hne]. destruct t as [|x t]; [done|]. cbn [app read_value].
    apply Forall_cons in Hc as [(H1 & H2 & H3) Hc]. destruct (Z.eqb_spec x 34); [done|].
    change (x :: t ++ b :: rest) with ((x :: t) ++ b :: rest).
    rewrite span_bare_app; [|by constructor|done]. by rewrite Hv.
Qed.

Lemma read_member_render m b rest :
  member_ok m -> b = 44 \/ b = 125 ->
  read_member (render_member m ++ b :: rest) = Some (m, b :: rest).
Proof.
  intros [Hk Hv] Hb. destruct m as [k v]. unfold render_member. cbn [fst snd] in *.
  cbn [app read_member]. rewrite <- app_assoc. cbn [app]. rewrite read_text_escape by done.
  by rewrite read_value_render.
Qed.

Lemma read_members_render ms fuel :
  Forall member_ok ms -> ms <> [] -> (length ms <= fuel)%nat ->
  read_members fuel (render_members ms ++ [125]) = Some ms.
Proof.
  intros Hms. revert fuel. induction Hms as [|m ms Hm Hms IH]; [done|]. intros fuel _ Hf.
  destruct fuel as [|fuel]; [simpl in Hf; lia|]. destruct ms as [|m' ms].
  - cbn [render_members read_members]. rewrite read_member_render by auto. by destruct m.
  - change (render_members (m :: m' :: ms)) with (render_member m ++ 44 :: render_members (m' :: ms)).
    rewrite <- app_assoc. cbn [app read_members]. rewrite read_member_render by auto.
    rewrite IH; [by destruct m|done|simpl in *; lia].
Qed.

Lemma render_members_length ms : (length ms <= length (render_members ms ++ [125%Z]))%nat.
Proof.
  induction ms as [|m ms IH]; [simpl; lia|]. destruct ms as [|m' ms].
  - rewrite length_app. simpl. lia.
  - change (render_members (m :: m' :: ms)) with (render_member m ++ 44 :: render_members (m' :: ms)).
    rewrite <- app_assoc, length_app. cbn [app length] in *. lia.
Qed.

(** What [render_object] writes is read back. *)
Lemma read_object_render ms : Forall member_ok ms -> ms <> [] -> read_object (render_object ms) = Some ms.
Proof.
  intros Hms Hne. unfold render_object. cbn [read_object]. apply read_members_render; [done..|].
  apply render_members_length.
Qed.

(** ** Lemmas: the tools' formats *)

(** Texts without quotes, backslashes and control characters need no escapes. *)
Definition plain (t : list Z) : Prop := Forall (fun b => 32 <= b < 256 /\ b <> 34 /\ b <> 92) t.

Lemma plain_escape t : plain t -> escape t = t.
Proof.
  induction 1 as [|b t (_ & H1 & H2) _ IH]; [done|]. unfold escape. cbn [fmap list_fmap concat]. fold (escape t).
  destruct (Z.eqb_spec b 34); [done|]. destruct (Z.eqb_spec b 92); [done|]. cbn [orb app]. by rewrite IH.
Qed.

Lemma plain_printable t : plain t -> printable t.
Proof. intros Ht. apply (Forall_impl _ _ _ Ht). tauto. Qed.

Lemma plain_app a b : plain a -> plain b -> plain (a ++ b).
Proof. intros. by apply Forall_app. Qed.

(** Decimal numbers. *)
Lemma pretty_char d : (d < 10)%N -> Z.of_N (N_of_ascii (pretty_N_char d)) = 48 + Z.of_N d.
Proof.
  intros Hd.
  assert (d = 0 \/ d = 1 \/ d = 2 \/ d = 3 \/ d = 4 \/ d = 5 \/ d = 6 \/ d = 7 \/ d = 8 \/ d = 9)%N as Hc by lia.
  by destruct Hc as [->|[->|[->|[->|[->|[->|[->|[->|[->| ->]]]]]]]]].
Qed.

Lemma pretty_digits x : (0 < x)%N -> forall s, exists c ds,
  as_bytes (pretty_N_go x s) = c :: ds ++ as_bytes s /\ 49 <= c <= 57 /\ Forall (fun b => is_digit b = true) ds.
Proof.
  induction (N.lt_wf_0 x) as [x _ IH]. intros Hx s. rewrite pretty_N_go_step by done.
  pose proof (pretty_char (x mod 10) (N.mod_lt x 10 ltac:(done))) as Hc.
  assert (as_bytes (String (pretty_N_char (x mod 10)) s) = 48 + Z.of_N (x mod 10) :: as_bytes s) as Hs
    by (rewrite <- Hc; done).
  destruct (N.eq_dec (x / 10)%N 0%N) as [E|E].
  - rewrite E, pretty_N_go_0, Hs. exists (48 + Z.of_N (x mod 10)), []. split; [done|]. split; [|constructor].
    apply N.div_small_iff in E; [|done]. rewrite N.mod_small by done. lia.
  - destruct (IH (x / 10)%N (N.div_lt x 10 Hx eq_refl) (proj1 (N.neq_0_lt_0 _) E) (String (pretty_N_char (x mod 10)) s))
      as (c & ds & -> & Hc' & Hds).
    exists c, (ds ++ [48 + Z.of_N (x mod 10)]). rewrite Hs, <- app_assoc. split; [done|]. split; [done|].
    apply Forall_app. split; [done|]. constructor; [|constructor].
    pose proof (N.mod_lt x 10 ltac:(done)) as Hm. clear -Hm. set (m := (x mod 10)%N) in *. clearbody m.
    unfold is_digit. bool_cases; done || lia.
Qed.

Lemma show_cases x : 0 <= x ->
  as_bytes (show x) = [48] \/
  exists c ds, as_bytes (show x) = c :: ds /\ 49 <= c <= 57 /\ Forall (fun b => is_digit b = true) ds.
Proof.
  intros Hx. destruct x as [|p|p]; [by left| |lia]. right. unfold show.
  change (pretty (Z.pos p)) with (pretty_N_go (N.pos p) "").
  destruct (pretty_digits (N.pos p) ltac:(lia) "") as (c & ds & -> & Hc & Hds).
  exists c, ds. split; [|done]. by change (as_bytes "") with (@nil Z); rewrite app_nil_r.
Qed.

Lemma digit_bound b : is_digit b = true -> 48 <= b <= 57.
Proof. unfold is_digit. bool_cases; done || lia. Qed.

Lemma show_bare x : 0 <= x -> bare_ok (as_bytes (show x)) = true.
Proof.
  intros [-> |(c & ds & -> & Hc & Hds)]%show_cases; [done|]. unfold bare_ok. apply orb_true_iff. right.
  destruct (Z.eqb_spec c 48); [lia|]. cbn [negb andb forallb]. apply andb_true_iff. split.
  - unfold is_digit. bool_cases; done || lia.
  - apply forallb_forall. intros x' Hx'%list_elem_of_In. rewrite Forall_forall in Hds. by apply Hds.
Qed.

Lemma show_plain x : 0 <= x -> plain (as_bytes (show x)).
Proof.
  intros [-> |(c & ds & -> & Hc & Hds)]%show_cases; [by repeat constructor|]. constructor; [lia|].
  apply (Forall_impl _ _ _ Hds). intros b ?%digit_bound. lia.
Qed.

Lemma show_ipv4_plain a : Ipv4Addr_wf a -> plain (as_bytes (show_ipv4 a)).
Proof.
  intros Ha. unfold Ipv4Addr_wf, octets, u8 in Ha. decompose_Forall_hyps. unfold show_ipv4. rewrite !as_bytes_app.
  repeat apply plain_app; try (apply show_plain; lia); by repeat constructor.
Qed.

Lemma hex_digits bs :
  bytes bs -> Forall (fun c => 48 <= c <= 57 \/ 97 <= c <= 102) (hex_bytes bs).
Proof.
  induction 1 as [|b bs [? ?] _ IH]; [constructor|]. unfold hex_bytes. cbn [fmap list_fmap concat hex_byte app].
  assert (forall d, 0 <= d < 16 -> 48 <= hex_digit d <= 57 \/ 97 <= hex_digit d <= 102) as Hd.
  { intros d Hd. unfold hex_digit. bool_cases; lia. }
  do 2 (constructor; [apply Hd; dlia|]). done.
Qed.

Lemma hex_plain bs : bytes bs -> as_bytes (hex bs) = hex_bytes bs /\ plain (as_bytes (hex bs)).
Proof.
  intros Hb. pose proof (hex_digits bs Hb) as Hc.
  assert (as_bytes (hex bs) = hex_bytes bs) as ->.
  { apply as_from_bytes. apply (Forall_impl _ _ _ Hc). unfold u8. lia. }
  split; [done|]. apply (Forall_impl _ _ _ Hc). lia.
Qed.
