(* ===== verification/CliSend.v ===== *)
(** The sending tool (src/src/bin/udpopt-send.rs).

    Argument parsing is clap's; [Args] is its result, with the defaults of the
    source in [Args_default].  What the operating system answers (the random seed,
    opening the socket and the manifest, each send, each manifest row) is a
    [SendIo]; what the tool does is a list of [Event]s, in order, so that the
    datagrams put on the wire before an error are part of the result.  Writing to
    standard output is taken to succeed.  A generated payload longer than
    [isize::MAX] is the capacity panic of [vec!]. *)

From S2P Require Import Prelude Model Kind Parse Typed Serialize Checksum Ip Udp Surplus Ocs.
From S2P Require Import Split Reassembly RecvOptions Pipeline Socket Api EndToEnd FragEndToEnd ApiCorrect Text.

(** ** Arguments and errors *)

Definition SEND_IPV4_HEADER_LEN : Z := 20.
Definition UDP_LENGTH_AT : Z := SEND_IPV4_HEADER_LEN + 4.
Definition UDP_CHECKSUM_AT : Z := SEND_IPV4_HEADER_LEN + 6.

Record Args : Type := {
  arg_src : Ipv4Addr;
  arg_dst : Ipv4Addr;
  arg_src_port : Z;
  arg_dst_port : Z;
  arg_payload : string;
  arg_payload_hex : option string;
  arg_payload_size : option Z;
  arg_count : Z;
  arg_seq_start : Z;
  arg_apc : bool;
  arg_mds : option Z;
  arg_mrds_size : option Z;
  arg_mrds_segments : Z;
  arg_req : option string;
  arg_res : option string;
  arg_max_datagram_len : Z;
  arg_no_frag : bool;
  arg_peer_mrds_size : Z;
  arg_peer_mrds_segments : Z;
  arg_identification : option Z;
  arg_raw_options_hex : option string;
  arg_ocs_hex : option string;
  arg_pad_hex : option string;
  arg_udp_cksum_zero : bool;
  arg_frag_emit : option (list Z);
  arg_frag_gap_ms : Z;
  arg_hexdump : bool;
  arg_manifest : option string;
}.

Definition Args_default : Args :=
  {| arg_src := Build_Ipv4Addr 127 0 0 1; arg_dst := Build_Ipv4Addr 127 0 0 1;
     arg_src_port := 40000; arg_dst_port := 40001; arg_payload := "hello from udpopt-send";
     arg_payload_hex := None; arg_payload_size := None; arg_count := 1; arg_seq_start := 0;
     arg_apc := false; arg_mds := None; arg_mrds_size := None; arg_mrds_segments := 2;
     arg_req := None; arg_res := None; arg_max_datagram_len := 1500; arg_no_frag := false;
     arg_peer_mrds_size := LIMITS_MRDS_DEFAULT_IPV4;
     arg_peer_mrds_segments := LIMITS_MIN_REASSEMBLY_SEGMENTS; arg_identification := None;
     arg_raw_options_hex := None; arg_ocs_hex := None; arg_pad_hex := None;
     arg_udp_cksum_zero := false; arg_frag_emit := None; arg_frag_gap_ms := 0;
     arg_hexdump := false; arg_manifest := None |}.

Inductive CliError : Type :=
| Message (text : string)
| CliIo (e : IoError)
| CliSendError (e : SendError)
| Permission.

Definition from_socket (error : SocketError) : CliError :=
  match error with
  | PermissionDenied => Permission
  | other => CliSendError (SendSocket other)
  end.

Definition CliError_display `{IoDisplay} (e : CliError) : string :=
  match e with
  | Message text => text
  | CliIo e => io_display e
  | CliSendError e => SendError_display e
  | Permission => "permission denied"
  end.

(** ** Hexadecimal fields *)

(** [parse_hex_vec(input)?] with the tool's error type. *)
Definition parse_hex (input : string) : option (result (list Z) CliError) :=
  let! r := parse_hex_vec input in
  Some (map_err Message r).

Definition parse_ocs_field (input : string) : option (result (list Z) CliError) :=
  let! r := parse_hex input in
  let? bytes_ := r in
  Some (if len bytes_ =? 2 then Ok bytes_
        else Err (Message ("--ocs-hex must be exactly 2 bytes, got " +:+ show (len bytes_)))).

Definition parse_pad_byte (input : string) : option (result Z CliError) :=
  let! r := parse_hex input in
  let? bytes_ := r in
  Some match bytes_ with
       | [byte] => Ok byte
       | bytes_ => Err (Message ("--pad-hex must be exactly 1 byte, got " +:+ show (len bytes_)))
       end.

Definition parse_token (input : string) : option (result (list Z) CliError) :=
  let! r := parse_hex input in
  let? bytes_ := r in
  Some (if len bytes_ =? 4 then Ok bytes_
        else Err (Message ("token must be exactly 4 bytes, got " +:+ show (len bytes_)))).

(** [.as_deref().map(f).transpose()]. *)
Definition transpose {A} (f : string -> option (result A CliError)) (input : option string) :
    option (result (option A) CliError) :=
  match input with
  | None => Some (Ok None)
  | Some s => let! r := f s in let? x := r in Some (Ok (Some x))
  end.

(** ** Payload and options *)

(** [isize::MAX], the largest capacity of a vector of bytes. *)
Definition ISIZE_MAX : Z := 9223372036854775807.

Definition U64_MAX : Z := 18446744073709551615.

(** [u64::to_be_bytes]. *)
Definition u64_to_be (x : Z) : list Z := u32_to_be (x / 4294967296) ++ u32_to_be (x mod 4294967296).

Definition payload_for (args : Args) (seq : Z) : option (result (list Z) CliError) :=
  match arg_payload_hex args with
  | Some hex_payload => parse_hex hex_payload
  | None =>
      match arg_payload_size args with
      | Some n =>
          ensure (n <=? ISIZE_MAX);
          let payload := zeros n in
          let seq_bytes := u64_to_be seq in
          let prefix_len := Z.min (len payload) (len seq_bytes) in
          let! prefix := slice seq_bytes 0 prefix_len in
          let! payload := copy_at payload 0 prefix in
          Some (Ok (imap (fun index byte =>
            if Z.of_nat index <? prefix_len then byte else Z.of_nat index mod 256) payload))
      | None => Some (Ok (as_bytes (arg_payload args)))
      end
  end.

Definition send_options (args : Args) : option (result SendOptions CliError) :=
  let options := SendOptions_new in
  let options := if arg_apc args then SendOptions_with_apc options else options in
  let! options :=
    match arg_mds args with
    | Some n => SendOptions_push_typed options {| max_datagram_size := n |}
    | None => Some options
    end in
  let! options :=
    match arg_mrds_size args with
    | Some n => SendOptions_push_typed options
        {| mrds_max_reassembled_size := n; mrds_max_segments := arg_mrds_segments args |}
    | None => Some options
    end in
  let! r := transpose parse_token (arg_req args) in
  let? token := r in
  let! options :=
    match token with
    | Some t => SendOptions_push_typed options {| req_token := t |}
    | None => Some options
    end in
  let! r := transpose parse_token (arg_res args) in
  let? token := r in
  let! options :=
    match token with
    | Some t => SendOptions_push_typed options {| res_token := t |}
    | None => Some options
    end in
  Some (Ok options).

Definition builds_options (args : Args) : bool :=
  arg_apc args || bool_decide (is_Some (arg_mds args)) || bool_decide (is_Some (arg_mrds_size args))
  || bool_decide (is_Some (arg_req args)) || bool_decide (is_Some (arg_res args)).

Definition raw_options_datagram (args : Args) (payload : list Z) (body_hex : string) :
    option (result (list Z) CliError) :=
  let! r := parse_hex body_hex in
  let? given := r in
  let body := zeros LENGTH_OCS ++ given in
  let upper_bound := SEND_IPV4_HEADER_LEN + LENGTH_UDP_HEADER + len payload + 1 + len body in
  if U16_MAX <? upper_bound
  then Some (Err (Message ("raw-options datagram exceeds the 16-bit length fields: up to "
                             +:+ show upper_bound +:+ " bytes")))
  else
  let! datagram := assemble_datagram (arg_src args) (arg_dst args) (arg_src_port args)
                     (arg_dst_port args) payload body in
  if arg_max_datagram_len args <? len datagram
  then Some (Err (Message ("raw-options datagram is too large: " +:+ show (len datagram)
                             +:+ " bytes, max " +:+ show (arg_max_datagram_len args) +:+ " bytes")))
  else Some (Ok datagram).

(** ** Wire faults *)

Record WireLayout : Type := { wl_starts_at : Z; wl_needs_pad : bool }.

Definition WireLayout_ocs_at (l : WireLayout) : Z := wl_starts_at l + usize_of_bool (wl_needs_pad l).

(** Outer [option]: panic; inner [option]: the source's return type. *)
Definition surplus_layout (datagram : list Z) : option (option WireLayout) :=
  if len datagram <? SEND_IPV4_HEADER_LEN + LENGTH_UDP_HEADER then Some None else
  let! hi := get datagram UDP_LENGTH_AT in
  let! lo := get datagram (UDP_LENGTH_AT + 1) in
  let udp_len := u16_from_be hi lo in
  Some match checked_add SEND_IPV4_HEADER_LEN udp_len with
       | None => None
       | Some starts_at =>
           if starts_at <? len datagram
           then Some {| wl_starts_at := starts_at; wl_needs_pad := negb (starts_at mod 2 =? 0) |}
           else None
       end.

Record WireFaults : Type := {
  wf_ocs : option (list Z);
  wf_pad : option Z;
  wf_zero_udp_checksum : bool;
}.

Definition WireFaults_parse (args : Args) : option (result WireFaults CliError) :=
  let! r := transpose parse_ocs_field (arg_ocs_hex args) in
  let? ocs := r in
  let! r := transpose parse_pad_byte (arg_pad_hex args) in
  let? pad := r in
  Some (Ok {| wf_ocs := ocs; wf_pad := pad; wf_zero_udp_checksum := arg_udp_cksum_zero args |}).

(** The datagram after the faults. *)
Definition WireFaults_apply (self : WireFaults) (datagram : list Z) :
    option (result (list Z) CliError) :=
  let! datagram :=
    if wf_zero_udp_checksum self then copy_at datagram UDP_CHECKSUM_AT (zeros 2)
    else Some datagram in
  match wf_ocs self, wf_pad self with
  | None, None => Some (Ok datagram)
  | ocs, pad =>
      let! layout := surplus_layout datagram in
      match layout with
      | None => Some (Err (Message "--ocs-hex and --pad-hex need a datagram with a surplus area"))
      | Some layout =>
          let! r :=
            match pad with
            | None => Some (Ok datagram)
            | Some pad =>
                if negb (wl_needs_pad layout)
                then Some (Err (Message
                  "--pad-hex needs an alignment pad, which only an odd payload length creates"))
                else let! d := set_at datagram (wl_starts_at layout) pad in Some (Ok d)
            end in
          let? datagram := r in
          match ocs with
          | None => Some (Ok datagram)
          | Some ocs =>
              let! d := copy_at datagram (WireLayout_ocs_at layout) ocs in Some (Ok d)
          end
      end
  end.

(** [for datagram in &mut datagrams { faults.apply(datagram)? }]. *)
Fixpoint apply_all (faults : WireFaults) (datagrams : list (list Z)) :
    option (result (list (list Z)) CliError) :=
  match datagrams with
  | [] => Some (Ok [])
  | d :: rest =>
      let! r := WireFaults_apply faults d in
      let? d := r in
      let! r := apply_all faults rest in
      let? ds := r in
      Some (Ok (d :: ds))
  end.

(** ** Which datagrams are sent *)

Definition emit_order (requested : option (list Z)) (built : Z) : result (list Z) CliError :=
  match requested with
  | None => Ok (seqZ 0 built)
  | Some requested =>
      if is_nil requested then Err (Message "--frag-emit needs at least one datagram index")
      else
        match List.find (fun index => built <=? index) requested with
        | Some index => Err (Message ("--frag-emit index " +:+ show index
            +:+ " is out of range; this send built " +:+ show built +:+ " datagram(s)"))
        | None => Ok requested
        end
  end.

Section send_tool.
Context `{Crc32c}.

Definition build_datagrams_for_send (addrs : DatagramAddrs) (payload : list Z)
    (options : SendOptions) (config : SendConfig) (identifications : IdentificationGenerator) :
    option (result (list (list Z) * option Z) SendError * IdentificationGenerator) :=
  ensure (bool_decide (cf_identification config = None));
  let! r := build_outgoing_datagrams addrs payload options config in
  match r with
  | Err FragmentIdentificationRequired =>
      let '(id, identifications) := IdentificationGenerator_next_id identifications in
      match map_err SendSplit id with
      | Err e => Some (Err e, identifications)
      | Ok identification =>
          let! r := build_outgoing_datagrams addrs payload options
            {| cf_max_datagram_len := cf_max_datagram_len config; cf_peer := cf_peer config;
               cf_fragmentation := cf_fragmentation config;
               cf_identification := Some identification |} in
          Some (match r with
                | Ok datagrams => Ok (datagrams, Some identification)
                | Err e => Err e
                end, identifications)
      end
  | Err e => Some (Err e, identifications)
  | Ok datagrams => Some (Ok (datagrams, None), identifications)
  end.

(** ** Running the tool *)

(** What the operating system answers: [io_send k] to the [k]-th send of the run,
    [io_row i] to writing the manifest row of the [i]-th logical datagram. *)
Record SendIo : Type := {
  io_random : result IdentificationGenerator IoError;
  io_sender : result unit SocketError;
  io_manifest : result unit IoError;
  io_send : Z -> result Z SocketError;
  io_row : Z -> result unit IoError;
}.

Inductive Event : Type :=
| Sleep (ms : Z)
| SendTo (dst : Ipv4Addr) (datagram : list Z)
| Print (line : string)
| Row (line : string).

Record SendState : Type := {
  ss_identifications : IdentificationGenerator;
  ss_sends : Z;
  ss_events : list Event;
}.

Definition log_event (st : SendState) (e : Event) : SendState :=
  {| ss_identifications := ss_identifications st; ss_sends := ss_sends st;
     ss_events := ss_events st ++ [e] |}.

Definition set_identifications (st : SendState) (g : IdentificationGenerator) : SendState :=
  {| ss_identifications := g; ss_sends := ss_sends st; ss_events := ss_events st |}.

Definition count_send (st : SendState) : SendState :=
  {| ss_identifications := ss_identifications st; ss_sends := ss_sends st + 1;
     ss_events := ss_events st |}.

(** The loop over the emission order. *)
Fixpoint emit_loop (io : SendIo) (args : Args) (index : Z) (datagrams : list (list Z))
    (position sent_bytes : Z) (order : list Z) (st : SendState) :
    option (result Z CliError * SendState) :=
  match order with
  | [] => Some (Ok sent_bytes, st)
  | datagram_index :: rest =>
      let st := if (0 <? position) && (0 <? arg_frag_gap_ms args)
                then log_event st (Sleep (arg_frag_gap_ms args)) else st in
      let! datagram := get datagrams datagram_index in
      let answer := io_send io (ss_sends st) in
      let st := count_send (log_event st (SendTo (arg_dst args) datagram)) in
      match map_err from_socket answer with
      | Err e => Some (Err e, st)
      | Ok n =>
          match checked_add sent_bytes n with
          | None => Some (Err (Message "sent byte count overflow"), st)
          | Some sent_bytes =>
              let st := if arg_hexdump args
                then log_event st (Print ("datagram[" +:+ show index +:+ "." +:+ show datagram_index
                                            +:+ "] " +:+ hex datagram))
                else st in
              emit_loop io args index datagrams (position + 1) sent_bytes rest st
          end
      end
  end.

Definition sent_line (args : Args) (seq : Z) (payload : list Z) (order : list Z) (sent_bytes : Z) :
    string :=
  "sent seq=" +:+ show seq +:+ " payload=" +:+ show (len payload) +:+ " datagrams="
    +:+ show (len order) +:+ " bytes=" +:+ show sent_bytes +:+ " " +:+ show_ipv4 (arg_src args)
    +:+ ":" +:+ show (arg_src_port args) +:+ " -> " +:+ show_ipv4 (arg_dst args) +:+ ":"
    +:+ show (arg_dst_port args).

(** A quoted JSON key or text. *)
Definition quoted (s : string) : string := dquote +:+ s +:+ dquote.

Definition manifest_row (args : Args) (seq : Z) (identification : option Z) (payload order : list Z)
    (sent_bytes : Z) : string :=
  let identification := match identification with None => "null" | Some value => show value end in
  "{" +:+ quoted "seq" +:+ ":" +:+ show seq
    +:+ "," +:+ quoted "src" +:+ ":" +:+ quoted (show_ipv4 (arg_src args))
    +:+ "," +:+ quoted "dst" +:+ ":" +:+ quoted (show_ipv4 (arg_dst args))
    +:+ "," +:+ quoted "src_port" +:+ ":" +:+ show (arg_src_port args)
    +:+ "," +:+ quoted "dst_port" +:+ ":" +:+ show (arg_dst_port args)
    +:+ "," +:+ quoted "identification" +:+ ":" +:+ identification
    +:+ "," +:+ quoted "payload_len" +:+ ":" +:+ show (len payload)
    +:+ "," +:+ quoted "payload_crc32c" +:+ ":" +:+ show (crc32c payload)
    +:+ "," +:+ quoted "datagrams" +:+ ":" +:+ show (len order)
    +:+ "," +:+ quoted "bytes" +:+ ":" +:+ show sent_bytes +:+ "}".

(** Building one logical datagram: raw options or the built ones. *)
Definition build_one (args : Args) (addrs : DatagramAddrs) (config : SendConfig) (payload : list Z)
    (identifications : IdentificationGenerator) :
    option (result (list (list Z) * option Z) CliError * IdentificationGenerator) :=
  match arg_raw_options_hex args with
  | Some body_hex =>
      let! r := raw_options_datagram args payload body_hex in
      Some (match r with Ok d => Ok ([d], None) | Err e => Err e end, identifications)
  | None =>
      let! r := send_options args in
      match r with
      | Err e => Some (Err e, identifications)
      | Ok options =>
          let! (r, identifications) :=
            build_datagrams_for_send addrs payload options config identifications in
          Some (map_err CliSendError r, identifications)
      end
  end.

(** A logical datagram ready to be sent: its wire datagrams, faults applied, and
    the order to send them in. *)
Record prepared : Type := {
  pr_seq : Z;
  pr_payload : list Z;
  pr_identification : option Z;
  pr_datagrams : list (list Z);
  pr_order : list Z;
}.

(** The body of the loop over the logical datagrams, up to the emission. *)
Definition prepare_one (args : Args) (faults : WireFaults) (addrs : DatagramAddrs)
    (config : SendConfig) (index : Z) (identifications : IdentificationGenerator) :
    option (result prepared CliError * IdentificationGenerator) :=
  if U64_MAX <? arg_seq_start args + index
  then Some (Err (Message "sequence number overflow"), identifications) else
  let seq := arg_seq_start args + index in
  let! r := payload_for args seq in
  match r with
  | Err e => Some (Err e, identifications)
  | Ok payload =>
  let! (r, identifications) := build_one args addrs config payload identifications in
  match r with
  | Err e => Some (Err e, identifications)
  | Ok (datagrams, identification) =>
  let! r := apply_all faults datagrams in
  match r with
  | Err e => Some (Err e, identifications)
  | Ok datagrams =>
  match emit_order (arg_frag_emit args) (len datagrams) with
  | Err e => Some (Err e, identifications)
  | Ok order =>
      Some (Ok {| pr_seq := seq; pr_payload := payload; pr_identification := identification;
                  pr_datagrams := datagrams; pr_order := order |}, identifications)
  end end end end.

(** The whole body of the loop. *)
Definition send_one (io : SendIo) (args : Args) (faults : WireFaults) (addrs : DatagramAddrs)
    (config : SendConfig) (index : Z) (st : SendState) : option (result unit CliError * SendState) :=
  let! (r, identifications) :=
    prepare_one args faults addrs config index (ss_identifications st) in
  let st := set_identifications st identifications in
  match r with
  | Err e => Some (Err e, st)
  | Ok p =>
  let! (r, st) := emit_loop io args index (pr_datagrams p) 0 0 (pr_order p) st in
  match r with
  | Err e => Some (Err e, st)
  | Ok sent_bytes =>
  let st := log_event st (Print (sent_line args (pr_seq p) (pr_payload p) (pr_order p) sent_bytes)) in
  match arg_manifest args with
  | None => Some (Ok tt, st)
  | Some _ =>
      Some (map_err CliIo (io_row io index),
            log_event st (Row (manifest_row args (pr_seq p) (pr_identification p) (pr_payload p)
                                 (pr_order p) sent_bytes)))
  end end end.

(** The remaining [n] of the logical datagrams, from [index] on. *)
Fixpoint send_all (io : SendIo) (args : Args) (faults : WireFaults) (addrs : DatagramAddrs)
    (config : SendConfig) (n : nat) (index : Z) (st : SendState) :
    option (result unit CliError * SendState) :=
  match n with
  | O => Some (Ok tt, st)
  | S n =>
      let! (r, st) := send_one io args faults addrs config index st in
      match r with
      | Err e => Some (Err e, st)
      | Ok _ => send_all io args faults addrs config n (index + 1) st
      end
  end.

Definition args_addrs (args : Args) : DatagramAddrs :=
  {| da_src := arg_src args; da_dst := arg_dst args; da_src_port := arg_src_port args;
     da_dst_port := arg_dst_port args |}.

Definition base_config (args : Args) : SendConfig :=
  {| cf_max_datagram_len := arg_max_datagram_len args;
     cf_peer := {| pl_max_reassembled_size := arg_peer_mrds_size args;
                   pl_max_segments := arg_peer_mrds_segments args |};
     cf_fragmentation := if arg_no_frag args then Disabled else Auto;
     cf_identification := None |}.

(** A given seed, or one from the random device. *)
Definition first_generator (io : SendIo) (args : Args) : result IdentificationGenerator CliError :=
  match arg_identification args with
  | Some seed => Ok (IdentificationGenerator_new seed)
  | None => map_err CliIo (io_random io)
  end.

Definition run (io : SendIo) (args : Args) : option (result unit CliError * list Event) :=
  if arg_count args =? 0 then Some (Err (Message "count must be at least 1"), []) else
  if bool_decide (is_Some (arg_raw_options_hex args)) && builds_options args
  then Some (Err (Message
    "--raw-options-hex replaces the option set; drop --apc, --mds, --mrds-size, --req and --res"), [])
  else
  let! r := WireFaults_parse args in
  match r with
  | Err e => Some (Err e, [])
  | Ok faults =>
  match first_generator io args with
  | Err e => Some (Err e, [])
  | Ok identifications =>
  match map_err from_socket (io_sender io) with
  | Err e => Some (Err e, [])
  | Ok _ =>
  match match arg_manifest args with Some _ => map_err CliIo (io_manifest io) | None => Ok tt end with
  | Err e => Some (Err e, [])
  | Ok _ =>
      let! (r, st) := send_all io args faults (args_addrs args) (base_config args)
        (Z.to_nat (arg_count args)) 0
        {| ss_identifications := identifications; ss_sends := 0; ss_events := [] |} in
      Some (r, ss_events st)
  end end end end.

(** The exit code and the line on standard error. *)
Definition main `{IoDisplay} (io : SendIo) (args : Args) : option (Z * option string * list Event) :=
  let! (r, events) := run io args in
  Some match r with
       | Ok _ => (0, None, events)
       | Err Permission =>
           (2, Some "udpopt-send: operation requires CAP_NET_RAW or root privileges", events)
       | Err error => (1, Some ("udpopt-send: " +:+ CliError_display error), events)
       end.
End send_tool.
