(* ===== verification/CliSendCorrect.v ===== *)
(** Theorems on the sending tool: the deliberate wire faults as a receiver sees
    them, the datagrams a run puts on the wire, and its totality. *)

From S2P Require Import Prelude Model Kind Parse Typed Serialize Checksum Ip Udp Surplus Ocs.
From S2P Require Import Split Reassembly RecvOptions Pipeline Socket Api EndToEnd FragEndToEnd ApiCorrect Text CliSend.

(** ** Lemmas: wire faults *)

Definition WireFaults_wf (f : WireFaults) : Prop :=
  match wf_ocs f with Some o => len o = 2 /\ bytes o | None => True end /\
  match wf_pad f with Some v => u8 v | None => True end.

(** The UDP header, the pad and the OCS after the faults. *)
Definition fault_udp (f : WireFaults) (udp : UdpHeader) : UdpHeader :=
  if wf_zero_udp_checksum f then UdpHeader_with_checksum udp 0 else udp.
Definition fault_pad (f : WireFaults) (pad : list Z) : list Z :=
  match wf_pad f with Some v => [v] | None => pad end.
Definition fault_ocs (f : WireFaults) (ocs : list Z) : list Z := default ocs (wf_ocs f).

(** The fields the tool addresses by offset. *)
Definition wire_front (ip : IpRepr) (udp : UdpHeader) : list Z :=
  ip_header ip ++ u16_to_be (udp_src_port udp) ++ u16_to_be (udp_dst_port udp).

Lemma len_wire_front ip udp : len (wire_front ip udp) = 24.
Proof. unfold wire_front. by rewrite !len_app, len_ip_header. Qed.

Lemma wire_fields ip udp tail :
  wire ip udp tail =
  wire_front ip udp ++ u16_to_be (udp_length udp) ++ u16_to_be (udp_checksum udp) ++ tail.
Proof. unfold wire, wire_front, udp_header. by rewrite <- !app_assoc. Qed.

Lemma wire_zero_checksum ip udp tail :
  copy_at (wire ip udp tail) UDP_CHECKSUM_AT (zeros 2) = Some (wire ip (UdpHeader_with_checksum udp 0) tail).
Proof.
  rewrite !wire_fields, !(app_assoc (wire_front _ _)).
  apply copy_at_middle; [|done]. by rewrite len_app, len_wire_front.
Qed.

Lemma surplus_layout_wire ip udp tail :
  UdpHeader_wf udp ->
  surplus_layout (wire ip udp tail) =
  Some (if udp_length udp <? 8 + len tail
        then Some {| wl_starts_at := 20 + udp_length udp;
                     wl_needs_pad := negb ((20 + udp_length udp) mod 2 =? 0) |}
        else None).
Proof.
  intros (_ & _ & Hl & _). pose proof (len_nonneg tail). unfold surplus_layout. rewrite len_wire.
  change (SEND_IPV4_HEADER_LEN + LENGTH_UDP_HEADER) with 28.
  destruct (Z.ltb_spec (28 + len tail) 28); [lia|].
  change UDP_LENGTH_AT with (24 + 0). change (24 + 0 + 1) with (24 + 1).
  rewrite wire_fields, <- (len_wire_front ip udp), !get_app_shift by lia.
  cbn [u16_to_be app]. change (get (?a :: ?b :: ?l) 0) with (Some a).
  change (get (?a :: ?b :: ?l) 1) with (Some b). cbv iota.
  rewrite u16_from_to_be by done. unfold checked_add, USIZE_MAX, SEND_IPV4_HEADER_LEN. unfold u16 in Hl.
  destruct (Z.leb_spec (20 + udp_length udp) 18446744073709551615); [|lia].
  by destruct (Z.ltb_spec (20 + udp_length udp) (28 + len tail)),
    (Z.ltb_spec (udp_length udp) (8 + len tail)); try lia.
Qed.

(** The outcome of the faults on a datagram without and with a surplus area. *)
Lemma faults_none f d :
  wf_ocs f = None -> wf_pad f = None -> wf_zero_udp_checksum f = false ->
  WireFaults_apply f d = Some (Ok d).
Proof. intros Ho Hp Hz. unfold WireFaults_apply. by rewrite Ho, Hp, Hz. Qed.

Lemma faults_zero f ip udp tail :
  (if wf_zero_udp_checksum f then copy_at (wire ip udp tail) UDP_CHECKSUM_AT (zeros 2)
   else Some (wire ip udp tail)) = Some (wire ip (fault_udp f udp) tail).
Proof. unfold fault_udp. destruct (wf_zero_udp_checksum f); [apply wire_zero_checksum|done]. Qed.

Lemma fault_udp_wf f udp : UdpHeader_wf udp -> UdpHeader_wf (fault_udp f udp).
Proof.
  unfold fault_udp. destruct (wf_zero_udp_checksum f); [|done]. intros (? & ? & ? & ?).
  split; [done|]. split; [done|]. split; [done|]. unfold u16. simpl. lia.
Qed.

Lemma fault_udp_length f udp : udp_length (fault_udp f udp) = udp_length udp.
Proof. unfold fault_udp. by destruct (wf_zero_udp_checksum f). Qed.

Definition no_surplus : CliError := Message "--ocs-hex and --pad-hex need a datagram with a surplus area".
Definition no_pad : CliError :=
  Message "--pad-hex needs an alignment pad, which only an odd payload length creates".

Lemma faults_plain f ip udp tail :
  UdpHeader_wf udp -> udp_length udp = 8 + len tail ->
  WireFaults_apply f (wire ip udp tail) =
  Some (if bool_decide (wf_ocs f = None /\ wf_pad f = None) then Ok (wire ip (fault_udp f udp) tail)
        else Err no_surplus).
Proof.
  intros Hu Hl. unfold WireFaults_apply. rewrite faults_zero, surplus_layout_wire by (by apply fault_udp_wf).
  rewrite fault_udp_length, Hl, Z.ltb_irrefl.
  destruct (wf_ocs f), (wf_pad f); (rewrite bool_decide_true by done) ||
    (rewrite bool_decide_false by (by intros [? ?])); done.
Qed.

Lemma len_pad_of data : len (pad_of data) = usize_of_bool (len data mod 2 =? 1).
Proof. unfold pad_of. by destruct (_ =? 1). Qed.

Lemma faults_surplus f ip udp data ocs rest :
  WireFaults_wf f -> UdpHeader_wf udp -> udp_length udp = 8 + len data -> len ocs = 2 ->
  WireFaults_apply f (wire ip udp (data ++ pad_of data ++ ocs ++ rest)) =
  Some (if bool_decide (is_Some (wf_pad f)) && negb (len data mod 2 =? 1) then Err no_pad
        else Ok (wire ip (fault_udp f udp)
                   (data ++ fault_pad f (pad_of data) ++ fault_ocs f ocs ++ rest))).
Proof.
  intros (Ho & Hp) Hu Hl Ho2. pose proof (len_nonneg data). pose proof (len_nonneg rest).
  pose proof (len_nonneg (pad_of data)).
  unfold WireFaults_apply. rewrite faults_zero, surplus_layout_wire by (by apply fault_udp_wf).
  rewrite fault_udp_length, Hl, !len_app, Ho2.
  destruct (Z.ltb_spec (8 + len data) (8 + (len data + (len (pad_of data) + (2 + len rest))))); [|lia].
  unfold WireLayout_ocs_at. cbn [wl_starts_at wl_needs_pad].
  assert (negb ((20 + (8 + len data)) mod 2 =? 0) = (len data mod 2 =? 1)) as ->.
  { destruct (Z.eqb_spec ((20 + (8 + len data)) mod 2) 0), (Z.eqb_spec (len data mod 2) 1); try done; dlia. }
  rewrite <- len_pad_of. set (w := fault_udp f udp).
  set (h := ip_header ip ++ udp_header w).
  assert (len h = 28) as Hh by (unfold h; by rewrite len_app, len_ip_header, len_udp_header).
  assert (forall pad o, wire ip w (data ++ pad ++ o ++ rest) = (h ++ data) ++ pad ++ o ++ rest) as Hwire
    by (intros; unfold wire, h; by rewrite <- !app_assoc).
  assert (forall pad o, len pad = len (pad_of data) -> len o = 2 ->
    copy_at (wire ip w (data ++ pad ++ ocs ++ rest)) (20 + (8 + len data) + len (pad_of data)) o
    = Some (wire ip w (data ++ pad ++ o ++ rest))) as Hocs.
  { intros pad o Hpl Hol. rewrite !Hwire, !(app_assoc (h ++ data)). apply copy_at_middle; [|lia].
    rewrite !len_app. lia. }
  unfold fault_pad, fault_ocs. destruct (wf_pad f) as [v|].
  - rewrite bool_decide_true by done. cbn [andb].
    assert (exists p, (if len data mod 2 =? 1 then pad_of data = [p] else True)) as [p Hpd]
      by (exists 0; unfold pad_of; by destruct (_ =? 1)).
    destruct (len data mod 2 =? 1) eqn:E; cbn [negb]; [|by destruct (wf_ocs f)].
    unfold set_at. assert (copy_at (wire ip w (data ++ pad_of data ++ ocs ++ rest)) (20 + (8 + len data)) [v]
      = Some (wire ip w (data ++ [v] ++ ocs ++ rest))) as Hset.
    { rewrite !Hwire, Hpd. apply copy_at_middle; [rewrite len_app; lia|done]. }
    destruct (wf_ocs f) as [o|]; rewrite Hset; [|done].
    destruct Ho as [Hol _]. rewrite (Hocs [v] o); [done|by rewrite Hpd|done].
  - rewrite bool_decide_false by (by intros [? ?]). cbn [andb].
    destruct (wf_ocs f) as [o|]; [|done]. destruct Ho as [Hol _]. by rewrite Hocs.
Qed.

(** ** Lemmas: parsed arguments *)

Lemma hex_text_bytes text bs : hex_text text bs -> bytes bs.
Proof. induction 1 as [|a b x text bs Hd _ IH]; constructor; [by eapply denotes_u8|done]. Qed.

Lemma parse_hex_Ok s bs : parse_hex s = Some (Ok bs) -> hex_text (clean s) bs /\ bytes bs.
Proof.
  unfold parse_hex. destruct (parse_hex_vec s) as [[l|e]|] eqn:E; [|done|done]. intros [= <-].
  apply parse_hex_vec_Ok in E. eauto using hex_text_bytes.
Qed.

Lemma transpose_Ok {A} (f : string -> option (result A CliError)) (P : A -> Prop) s x :
  (forall s x, f s = Some (Ok x) -> P x) -> transpose f s = Some (Ok x) ->
  match x with Some x => P x | None => True end.
Proof.
  intros Hf. unfold transpose. destruct s as [s|]; [|by intros [= <-]].
  destruct (f s) as [[y|e]|] eqn:E; [|done|done]. intros [= <-]. eauto.
Qed.

Lemma parse_ocs_field_Ok s o : parse_ocs_field s = Some (Ok o) -> len o = 2 /\ bytes o.
Proof.
  unfold parse_ocs_field. destruct (parse_hex s) as [[l|e]|] eqn:E; [|done|done].
  apply parse_hex_Ok in E as [_ Hb]. destruct (Z.eqb_spec (len l) 2); [|done]. by intros [= <-].
Qed.

Lemma parse_pad_byte_Ok s v : parse_pad_byte s = Some (Ok v) -> u8 v.
Proof.
  unfold parse_pad_byte. destruct (parse_hex s) as [[l|e]|] eqn:E; [|done|done].
  apply parse_hex_Ok in E as [_ Hb]. destruct l as [|x [|y l]]; [done| |done]. intros [= <-].
  by decompose_Forall_hyps.
Qed.

Lemma parse_token_Ok s t : parse_token s = Some (Ok t) -> len t = 4 /\ bytes t.
Proof.
  unfold parse_token. destruct (parse_hex s) as [[l|e]|] eqn:E; [|done|done].
  apply parse_hex_Ok in E as [_ Hb]. destruct (Z.eqb_spec (len l) 4); [|done]. by intros [= <-].
Qed.

Lemma WireFaults_parse_wf args f : WireFaults_parse args = Some (Ok f) -> WireFaults_wf f.
Proof.
  unfold WireFaults_parse. destruct (transpose parse_ocs_field _) as [[o|e]|] eqn:Eo; [|done|done].
  destruct (transpose parse_pad_byte _) as [[v|e]|] eqn:Ev; [|done|done]. intros [= <-].
  split; cbn [wf_ocs wf_pad].
  - by eapply (transpose_Ok _ (fun o => len o = 2 /\ bytes o)), Eo; apply parse_ocs_field_Ok.
  - by eapply (transpose_Ok _ u8), Ev; apply parse_pad_byte_Ok.
Qed.

(** ** Lemmas: faults at the receiver *)

(** Any OCS in front of [rest]: zero, the computed one, or another. *)
Lemma ocs_validate_any o rest n udp :
  len o = 2 -> bytes o -> bytes rest -> u16 n ->
  ocs_validate (o ++ rest) n udp =
  Some (if bool_decide (o = [0; 0]) then (if udp =? 0 then OcsUnused else OcsIgnoreOptions)
        else if bool_decide (o = u16_to_be (ocs_value rest n)) then OcsValid else OcsError OcsMismatch).
Proof.
  intros (a & b & ->)%len_2_inv Ho Hr Hn. destruct (ocs_value_u16 rest n) as [Hw Hz].
  case_bool_decide as E0; [injection E0 as -> ->; cbn [app]; rewrite ocs_validate_spec; [done|by apply (Forall_app _ [0; 0])|done]|].
  case_bool_decide as Ec; [rewrite Ec; by apply ocs_validate_compute|]. cbn [app].
  rewrite ocs_validate_spec; [|by apply (Forall_app _ [a; b])|done].
  decompose_Forall_hyps. rename select (u8 a) into Ha. rename select (u8 b) into Hb.
  pose proof (word_total_nonneg rest Hr). pose proof (u16_from_be_u16 a b Ha Hb) as Hv.
  pose proof (ocs_value_cancel rest n ltac:(unfold u16 in *; lia)) as Hc.
  cbn [word_total]. destruct (Z.eqb_spec (u16_from_be a b) 0) as [E|E].
  { exfalso. apply E0. unfold u8, u16_from_be in *. repeat f_equal; lia. }
  destruct (Z.eqb_spec (ones_complement (u16_from_be a b + word_total rest + n)) 0xffff) as [Ev|]; [|done].
  exfalso. apply Ec. rewrite <- (u16_to_from_be a b) by done. f_equal.
  unfold u16 in *. apply ones_complement_ffff in Ev; [|lia]. apply ones_complement_ffff in Hc; [|lia].
  dlia.
Qed.

(** What the receiver reports of the OCS after the faults. *)
Definition fault_status (f : WireFaults) (computed : list Z) : OcsStatus :=
  match wf_ocs f with
  | None => StValid
  | Some o =>
      if bool_decide (o = [0; 0]) then (if wf_zero_udp_checksum f then StUnused else StInvalidZero)
      else if bool_decide (o = computed) then StValid else StFailed
  end.

Definition status_of (chk : OcsCheck) : OcsStatus :=
  match chk with
  | OcsValid => StValid | OcsUnused => StUnused | OcsIgnoreOptions => StInvalidZero
  | OcsError _ => StFailed
  end.

Definition args_wire (args : Args) (payload given : list Z) : IpRepr * UdpHeader :=
  let body := 0 :: 0 :: given in
  (assembled_ip (arg_src args) (arg_dst args) payload body,
   assembled_udp (arg_src args) (arg_dst args) (arg_src_port args) (arg_dst_port args) payload body).

Section faulty.
Context (args : Args) (payload given : list Z) (f : WireFaults).
Hypothesis Hf : WireFaults_wf f.
Hypothesis Hw : assemble_wf (arg_src args) (arg_dst args) (arg_src_port args) (arg_dst_port args)
  payload (0 :: 0 :: given).

Abbreviation ip := (args_wire args payload given).1.
Abbreviation udp := (args_wire args payload given).2.
Abbreviation surplus_size := (len (pad_of payload) + 2 + len given).
Abbreviation computed := (u16_to_be (ocs_value given surplus_size)).
Abbreviation tail' := (payload ++ fault_pad f (pad_of payload) ++ fault_ocs f computed ++ given).

Lemma fault_ocs_wf : len (fault_ocs f computed) = 2 /\ bytes (fault_ocs f computed).
Proof. unfold fault_ocs. destruct Hf as [Ho _], (wf_ocs f); [done|]. split; [done|apply u16_to_be_bytes]. Qed.

Lemma assembled_faulty :
  wire_wf ip udp (payload ++ pad_of payload ++ computed ++ given) /\ u16 surplus_size.
Proof.
  destruct (assembled_wire _ _ _ _ _ _ Hw) as [Hwire _]. rewrite assembled_tail_cons in Hwire.
  split; [done|]. destruct Hwire as ((_ & _ & _ & Hu) & _ & Htl & _).
  rewrite !len_app in Htl. change (len computed) with 2 in Htl.
  pose proof (len_nonneg payload). pose proof (len_nonneg given). pose proof (len_nonneg (pad_of payload)).
  unfold u16 in *. lia.
Qed.

(** A pad is overwritten only where there is one. *)
Lemma fault_pad_len d' :
  WireFaults_apply f (wire ip udp (payload ++ pad_of payload ++ computed ++ given)) = Some (Ok d') ->
  d' = wire ip (fault_udp f udp) tail' /\ len (fault_pad f (pad_of payload)) = len (pad_of payload) /\
  bytes (fault_pad f (pad_of payload)).
Proof.
  destruct assembled_faulty as [(_ & _ & _ & Hu & _) _].
  rewrite (faults_surplus f ip udp payload computed given Hf Hu) by done.
  unfold fault_pad, pad_of. destruct Hf as [_ Hp], (wf_pad f) as [v|].
  - rewrite bool_decide_true by done. cbn [andb]. destruct (len payload mod 2 =? 1); [|done].
    cbn [negb]. intros [= <-]. split; [done|]. split; [done|]. by constructor.
  - rewrite bool_decide_false by (by intros [? ?]). intros [= <-]. split; [done|]. split; [done|].
    destruct (_ =? 1); repeat constructor; lia.
Qed.

Lemma faulty_wf :
  len (fault_pad f (pad_of payload)) = len (pad_of payload) -> bytes (fault_pad f (pad_of payload)) ->
  wire_wf ip (fault_udp f udp) tail'.
Proof.
  intros Hl Hb. destruct assembled_faulty as [(Hip & Hihl & Htl & Hu & Hul & Hbt) _].
  destruct fault_ocs_wf as [Ho Hob].
  assert (len tail' = len (payload ++ pad_of payload ++ computed ++ given)) as Hlen
    by (rewrite !len_app, Hl, Ho; done).
  split; [done|]. split; [done|]. rewrite Hlen. split; [done|]. split; [by apply fault_udp_wf|].
  rewrite fault_udp_length. split; [done|]. rewrite !Forall_app in *. by destruct Hbt as (? & _ & _ & ?).
Qed.

Lemma faulty_check :
  exists chk, ocs_validate (fault_ocs f computed ++ given) surplus_size (udp_checksum (fault_udp f udp))
    = Some chk /\ status_of chk = fault_status f computed.
Proof.
  destruct assembled_faulty as [(_ & _ & _ & _ & _ & Hb) Hn]. destruct fault_ocs_wf as [Ho Hob].
  rewrite !Forall_app in Hb. destruct Hb as (_ & _ & _ & Hg).
  rewrite ocs_validate_any by done. eexists. split; [done|].
  assert ((udp_checksum (fault_udp f udp) =? 0) = wf_zero_udp_checksum f) as ->.
  { unfold fault_udp. destruct (wf_zero_udp_checksum f); [done|]. apply Z.eqb_neq, udp_checksum_value_u16. }
  unfold fault_status, fault_ocs. destruct (wf_ocs f) as [o|]; cbn [default].
  - repeat case_bool_decide; try done. by destruct (wf_zero_udp_checksum f).
  - destruct (ocs_value_u16 given surplus_size) as [Hv Hz]. rewrite bool_decide_false, bool_decide_true; [done|done|].
    intros He. apply Hz. rewrite <- (u16_from_to_be (ocs_value given surplus_size)) by done.
    injection He as -> ->. done.
Qed.

Lemma faulty_received :
  wire_wf ip (fault_udp f udp) tail' ->
  receive_udp (wire ip (fault_udp f udp) tail') = Some (Ok (wire_view ip (fault_udp f udp) tail')).
Proof.
  intros Hwf. apply receive_udp_wire; [done|]. rewrite fault_udp_length. unfold fault_udp.
  destruct (wf_zero_udp_checksum f); [done|]. intros _. cbn [args_wire snd udp_length assembled_udp
    UdpHeader_with_checksum udp_checksum]. rewrite sub_prefix by lia.
  unfold assembled_udp. by rewrite udp_checksum_value_with_checksum.
Qed.
End faulty.

(** The machine widths of the arguments. *)
Definition args_addrs_wf (args : Args) : Prop := DatagramAddrs_wf (args_addrs args).

Lemma raw_assemble_wf args payload given :
  args_addrs_wf args -> bytes payload -> bytes given -> 28 + len payload + 1 + len (0 :: 0 :: given) <= 65535 ->
  assemble_wf (arg_src args) (arg_dst args) (arg_src_port args) (arg_dst_port args) payload (0 :: 0 :: given).
Proof.
  intros (Hs & Hd & Hsp & Hdp) Hp Hg Hl. do 5 (split; [done|]). split; [by do 2 (constructor; [done|])|].
  rewrite !len_cons in *. pose proof (len_nonneg given). split; [lia|].
  unfold assembled_surplus. pose proof (len_assembled_pad payload (0 :: 0 :: given)). rewrite !len_cons. lia.
Qed.

Lemma raw_options_datagram_Ok args payload body_hex d :
  args_addrs_wf args -> bytes payload -> raw_options_datagram args payload body_hex = Some (Ok d) ->
  exists given, hex_text (clean body_hex) given /\
    assemble_wf (arg_src args) (arg_dst args) (arg_src_port args) (arg_dst_port args) payload (0 :: 0 :: given) /\
    d = assembled (args_addrs args) payload (0 :: 0 :: given) /\ len d <= arg_max_datagram_len args.
Proof.
  intros (Hs & Hd & Hsp & Hdp) Hp. unfold raw_options_datagram.
  destruct (parse_hex body_hex) as [[given|e]|] eqn:E; [|done|done]. apply parse_hex_Ok in E as [Ht Hg].
  change (zeros LENGTH_OCS ++ given) with (0 :: 0 :: given).
  change (SEND_IPV4_HEADER_LEN + LENGTH_UDP_HEADER) with 28. unfold U16_MAX.
  destruct (Z.ltb_spec 65535 (28 + len payload + 1 + len (0 :: 0 :: given))); [done|].
  pose proof (raw_assemble_wf args payload given (conj Hs (conj Hd (conj Hsp Hdp))) Hp Hg ltac:(lia)) as Hw.
  assert (assemble_datagram (arg_src args) (arg_dst args) (arg_src_port args) (arg_dst_port args) payload
    (0 :: 0 :: given) = Some (assembled (args_addrs args) payload (0 :: 0 :: given))) as ->
    by (by apply assemble_spec).
  destruct (Z.ltb_spec (arg_max_datagram_len args) (len (assembled (args_addrs args) payload (0 :: 0 :: given))));
    [done|]. intros [= <-]. by exists given.
Qed.

(** The receiver's processing after the pad check: options that the OCS does not
    let through are not looked at. *)
Definition process_parsed `{Crc32c} (view : udp_view) (given payload : list Z) (offset : Z)
    (c : ReassemblyCache) (now : Z) (st : OcsStatus) : outcome :=
  match st with
  | StValid | StUnused =>
      let! parsed := parse_options given payload offset in
      match parsed with
      | Ok po =>
          dispatch (fun datagram cache => process_datagram_inner 1 datagram cache now false)
            view c now true po st
      | Err _ => Some (Ok (deliver_without_options payload true st), c)
      end
  | st => Some (Ok (deliver_without_options payload true st), c)
  end.


Definition example_fault_args (ocs pad : option string) (zero : bool) : Args :=
  {| arg_src := example_src; arg_dst := example_dst; arg_src_port := 4000; arg_dst_port := 5000;
     arg_payload := "odd"; arg_payload_hex := None; arg_payload_size := None; arg_count := 1;
     arg_seq_start := 0; arg_apc := false; arg_mds := None; arg_mrds_size := None;
     arg_mrds_segments := 2; arg_req := None; arg_res := None; arg_max_datagram_len := 1500;
     arg_no_frag := false; arg_peer_mrds_size := 2926; arg_peer_mrds_segments := 2;
     arg_identification := Some 7; arg_raw_options_hex := Some "0a020000"; arg_ocs_hex := ocs;
     arg_pad_hex := pad; arg_udp_cksum_zero := zero; arg_frag_emit := None; arg_frag_gap_ms := 0;
     arg_hexdump := false; arg_manifest := None |}.

Definition example_raw : list Z :=
  match raw_options_datagram (example_fault_args None None false) [111; 100; 100] "0a020000" with
  | Some (Ok d) => d
  | _ => []
  end.

Definition example_faulted (f : WireFaults) : list Z :=
  match WireFaults_apply f example_raw with Some (Ok d) => d | _ => [] end.

