(* ===== verification/CliSendRun.v ===== *)
(** Runs of the sending tool: no argument of the right width makes it panic, and
    what it puts on the wire is planned by the arguments alone. *)

From S2P Require Import Prelude Model Kind Parse Typed Serialize Checksum Ip Udp Surplus Ocs.
From S2P Require Import Split Reassembly RecvOptions Pipeline Socket Api EndToEnd FragEndToEnd ApiCorrect Text CliSend CliSendCorrect.

(** ** Well-formed arguments *)

Definition opt_holds {A} (P : A -> Prop) (x : option A) : Prop :=
  match x with Some x => P x | None => True end.

#[export] Instance opt_holds_dec {A} (P : A -> Prop) `{forall x, Decision (P x)} x : Decision (opt_holds P x).
Proof. destruct x; cbn [opt_holds]; apply _. Defined.

(** Every number has its width, the texts to be read as hexadecimal are ASCII, and
    a generated payload can be allocated. *)
Record Args_wf (args : Args) : Prop := {
  aw_addrs : args_addrs_wf args;
  aw_payload_hex : opt_holds is_ascii (arg_payload_hex args);
  aw_raw_options : opt_holds is_ascii (arg_raw_options_hex args);
  aw_ocs : opt_holds is_ascii (arg_ocs_hex args);
  aw_pad : opt_holds is_ascii (arg_pad_hex args);
  aw_req : opt_holds is_ascii (arg_req args);
  aw_res : opt_holds is_ascii (arg_res args);
  aw_size : opt_holds (fun n => 0 <= n <= ISIZE_MAX) (arg_payload_size args);
  aw_count : 0 <= arg_count args;
  aw_seq : 0 <= arg_seq_start args;
  aw_mds : opt_holds u16 (arg_mds args);
  aw_mrds : opt_holds u16 (arg_mrds_size args);
  aw_segments : u8 (arg_mrds_segments args);
  aw_max : usize (arg_max_datagram_len args);
  aw_peer_size : u16 (arg_peer_mrds_size args);
  aw_peer_segments : u8 (arg_peer_mrds_segments args);
  aw_id : opt_holds u32 (arg_identification args);
  aw_emit : opt_holds (Forall (fun i => 0 <= i)) (arg_frag_emit args);
}.

Definition generator_wf (g : IdentificationGenerator) : Prop := opt_holds u32 (ig_next g).

Definition SendIo_wf (io : SendIo) : Prop :=
  match io_random io with Ok g => generator_wf g | Err _ => True end.

(** ** Lemmas: reading the arguments *)

Lemma parse_hex_total s : is_ascii s -> exists r, parse_hex s = Some r.
Proof. intros [r Hr]%parse_hex_vec_ascii. unfold parse_hex. rewrite Hr. eauto. Qed.

Lemma transpose_total {A} (f : string -> option (result A CliError)) s :
  (forall s, is_ascii s -> exists r, f s = Some r) -> opt_holds is_ascii s ->
  exists r, transpose f s = Some r.
Proof.
  intros Hf Hs. destruct s as [s|]; [|by eexists]. cbn [transpose].
  destruct (Hf s Hs) as [[x|e] ->]; by eexists.
Qed.

Lemma parse_ocs_field_total s : is_ascii s -> exists r, parse_ocs_field s = Some r.
Proof. intros [[l|e] Hr]%parse_hex_total; unfold parse_ocs_field; rewrite Hr; eauto. Qed.

Lemma parse_pad_byte_total s : is_ascii s -> exists r, parse_pad_byte s = Some r.
Proof. intros [[l|e] Hr]%parse_hex_total; unfold parse_pad_byte; rewrite Hr; eauto. Qed.

Lemma parse_token_total s : is_ascii s -> exists r, parse_token s = Some r.
Proof. intros [[l|e] Hr]%parse_hex_total; unfold parse_token; rewrite Hr; eauto. Qed.

#[local] Hint Resolve parse_ocs_field_total parse_pad_byte_total parse_token_total : rust.

Section reading.
Context (args : Args).
Hypothesis Ha : Args_wf args.

Lemma WireFaults_parse_total : exists r, WireFaults_parse args = Some r.
Proof.
  unfold WireFaults_parse.
  destruct (transpose_total parse_ocs_field (arg_ocs_hex args)) as [[o|e] ->];
    [auto with rust|apply Ha| |by eexists].
  destruct (transpose_total parse_pad_byte (arg_pad_hex args)) as [[v|e] ->];
    [auto with rust|apply Ha|by eexists|by eexists].
Qed.

Lemma u64_to_be_wf x : len (u64_to_be x) = 8 /\ bytes (u64_to_be x).
Proof. split; [done|]. apply Forall_app. auto with rust. Qed.

Lemma payload_for_total seq :
  exists r, payload_for args seq = Some r /\ forall p, r = Ok p -> bytes p.
Proof.
  unfold payload_for. pose proof (aw_payload_hex _ Ha) as Hh. pose proof (aw_size _ Ha) as Hn.
  destruct (arg_payload_hex args) as [s|].
  - destruct (parse_hex_total s Hh) as [r Hr]. exists r. split; [done|]. intros p ->. by eapply parse_hex_Ok.
  - destruct (arg_payload_size args) as [n|]; cbn [opt_holds] in Hn.
    2:{ eexists. split; [done|]. intros p [= <-]. apply as_bytes_bytes. }
    destruct (u64_to_be_wf seq) as [Hl Hb].
    destruct (Z.leb_spec n ISIZE_MAX); [|lia]. rewrite Hl, len_zeros by lia. rewrite slice_Some by lia.
    unfold copy_at. rewrite len_sub, len_zeros by lia.
    destruct (Z.leb_spec (0 + (Z.min n 8 - 0)) n); [|lia]. cbn [andb Z.leb].
    change (0 <=? 0) with true. cbv iota. eexists. split; [done|]. intros p [= <-].
    apply Forall_lookup. intros i b Hi. rewrite list_lookup_imap in Hi.
    match type of Hi with context [?l !! i] => destruct (l !! i) as [y|] eqn:Ey end; [|done].
    injection Hi as <-. destruct (_ <? _); [|unfold u8; dlia].
    eapply Forall_lookup_1, Ey. rewrite !Forall_app. auto with rust.
Qed.
End reading.

(** ** Lemmas: building *)

Section building.
Context `{Crc32cSpec} (args : Args).
Hypothesis Ha : Args_wf args.

(** One optional typed option. *)
Lemma push_optional (T : Type) `{TypedOptionLaws T} {A} (s : SendOptions) (mk : A -> T)
    (x : option A) :
  opt_holds (fun x => typed_wf (mk x)) x -> SendOptions_wf s ->
  exists s', match x with Some x => SendOptions_push_typed s (mk x) | None => Some s end = Some s' /\
    SendOptions_wf s'.
Proof.
  intros Hx Hs. destruct x as [x|]; [|eauto]. destruct (push_typed_total T s (mk x) Hx) as (o & Ho & _ & Hw & _).
  eexists. split; [done|]. unfold SendOptions_wf, SendOptions_push_raw. cbn [so_raw_options].
  apply Forall_app. split; [done|]. by constructor.
Qed.

Lemma token_wf s x :
  transpose parse_token s = Some (Ok x) -> opt_holds (fun t => bytes t /\ len t = 4) x.
Proof.
  intros Hx. apply (transpose_Ok parse_token (fun t => bytes t /\ len t = 4) s x); [|done].
  by intros s' t [? ?]%parse_token_Ok.
Qed.

Lemma send_options_total :
  exists r, send_options args = Some r /\ forall o, r = Ok o -> SendOptions_wf o.
Proof.
  unfold send_options. set (s0 := if arg_apc args then _ else _).
  assert (SendOptions_wf s0) as Hs0 by (unfold s0; destruct (arg_apc args); constructor).
  clearbody s0.
  destruct (push_optional MdsOption s0 (fun n => {| max_datagram_size := n |}) (arg_mds args))
    as (s1 & -> & Hs1); [apply Ha|done|].
  destruct (push_optional MrdsOption s1
    (fun n => {| mrds_max_reassembled_size := n; mrds_max_segments := arg_mrds_segments args |})
    (arg_mrds_size args)) as (s2 & -> & Hs2); [|done|].
  { pose proof (aw_mrds _ Ha) as Hm. destruct (arg_mrds_size args); [|done]. split; [done|apply Ha]. }
  destruct (transpose_total parse_token (arg_req args)) as [[t|e] Ht]; [auto using parse_token_total|apply Ha| |];
    rewrite Ht; [|by eexists].
  destruct (push_optional ReqOption s2 Build_ReqOption t) as (s3 & -> & Hs3);
    [by eapply token_wf, Ht|done|].
  destruct (transpose_total parse_token (arg_res args)) as [[u|e] Hu]; [auto using parse_token_total|apply Ha| |];
    rewrite Hu; [|by eexists].
  destruct (push_optional ResOption s3 Build_ResOption u) as (s4 & -> & Hs4);
    [by eapply token_wf, Hu|done|].
  eexists. split; [done|]. by intros o [= <-].
Qed.

(** The datagrams of a send: each one assembled from a payload and a body, none
    longer than the limit. *)
Definition assembled_within (d : list Z) : Prop :=
  len d <= arg_max_datagram_len args /\
  exists payload body, d = assembled (args_addrs args) payload body /\
    assemble_wf (arg_src args) (arg_dst args) (arg_src_port args) (arg_dst_port args) payload body.

Lemma base_config_wf id : opt_holds u32 id ->
  SendConfig_wf {| cf_max_datagram_len := arg_max_datagram_len args; cf_peer := cf_peer (base_config args);
    cf_fragmentation := cf_fragmentation (base_config args); cf_identification := id |}.
Proof. intros Hid. split; [apply Ha|]. split; [apply Ha|]. split; [apply Ha|]. by destruct id. Qed.

Lemma built_within payload options cf ds :
  SendConfig_wf cf -> cf_max_datagram_len cf = arg_max_datagram_len args -> bytes payload ->
  built (args_addrs args) payload options cf ds -> Forall assembled_within ds.
Proof.
  intros Hc Hm Hp (Hmax & Hs & Hu & [[Hl ->]|(Hl & _ & id & frags & Hid & Hsp & -> & Hlen)]).
  - constructor; [|constructor]. assert (wire_len payload (body_of (sort_by_rank (sent_options payload options))) <= 65535)
      by lia.
    assert (assemble_wf (arg_src args) (arg_dst args) (arg_src_port args) (arg_dst_port args) payload
      (body_of (sort_by_rank (sent_options payload options)))) as Hw.
    { apply (assembled_wf (args_addrs args)); [apply Ha|done|by apply body_of_bytes|by apply body_len|done]. }
    split; [|eauto]. unfold assembled. rewrite len_wire, len_assembled_tail by apply Hw.
    unfold wire_len in Hl. lia.
  - assert (SplitConfig_wf (split_config cf id)) as Hw.
    { apply split_config_wf; [done| |lia]. destruct Hc as (_ & _ & _ & Hi). by rewrite Hid in Hi. }
    pose proof (split_sent _ _ _ _ _ _ _ _ (aw_addrs _ Ha) Hw Hp (body_of_bytes _ Hs) Hsp) as Hsent.
    rewrite Forall_fmap in *. rewrite Forall_forall in *. intros x Hx. split; [rewrite <- Hm; by apply Hlen|].
    apply list_elem_of_lookup in Hx as [i Hi]. destruct (Forall2_lookup_r _ _ _ _ _ Hsent Hi) as (fr & _ & _ & Hf).
    exists [], (frag_body x). split; [done|]. apply Hf.
Qed.
End building.

Section preparing.
Context `{Crc32cSpec} (args : Args).
Hypothesis Ha : Args_wf args.

Lemma next_id_wf g r g' :
  generator_wf g -> IdentificationGenerator_next_id g = (r, g') ->
  generator_wf g' /\ forall id, r = Ok id -> u32 id.
Proof.
  unfold generator_wf, IdentificationGenerator_next_id. destruct (ig_next g) as [id|] eqn:E.
  - intros Hid [= <- <-]. cbn [opt_holds ig_next] in *. split; [|by intros id' [= <-]].
    unfold u32, U32_MAX in *. bool_cases; simpl; lia.
  - intros _ [= <- <-]. by rewrite E.
Qed.

Lemma build_datagrams_total payload options g :
  bytes payload -> SendOptions_wf options -> generator_wf g ->
  exists r g', build_datagrams_for_send (args_addrs args) payload options (base_config args) g = Some (r, g') /\
    generator_wf g' /\ forall ds id, r = Ok (ds, id) -> Forall (assembled_within args) ds.
Proof.
  intros Hp Ho Hg. unfold build_datagrams_for_send. rewrite bool_decide_true by done.
  pose proof (base_config_wf args Ha None I) as Hc.
  destruct (build_outgoing_spec (args_addrs args) payload options (base_config args) (aw_addrs _ Ha) Hp Ho Hc)
    as (r & -> & Hr).
  destruct r as [ds|e].
  { do 2 eexists. split; [done|]. split; [done|]. intros ds' id [= <- <-]. by eapply built_within. }
  assert (e = FragmentIdentificationRequired \/ e <> FragmentIdentificationRequired) as [->|He]
    by (destruct (decide (e = FragmentIdentificationRequired)); auto).
  2:{ exists (Err e), g. split; [by destruct e|]. split; [done|]. by intros. }
  destruct (IdentificationGenerator_next_id g) as [[id|e] g'] eqn:En; cbn [map_err];
    destruct (next_id_wf _ _ _ Hg En) as [Hg' Hid].
  2:{ do 2 eexists. split; [done|]. split; [done|]. by intros. }
  pose proof (base_config_wf args Ha (Some id) (Hid id eq_refl)) as Hc'.
  match goal with |- context [build_outgoing_datagrams _ _ _ ?cf] => set (cfg := cf) in * end.
  destruct (build_outgoing_spec (args_addrs args) payload options cfg (aw_addrs _ Ha) Hp Ho Hc')
    as (r & -> & Hr').
  do 2 eexists. split; [done|]. split; [done|]. intros ds id'. destruct r as [ds'|]; [|done].
  intros [= <- <-]. by eapply built_within.
Qed.

Lemma raw_options_datagram_total payload body_hex :
  bytes payload -> is_ascii body_hex ->
  exists r, raw_options_datagram args payload body_hex = Some r.
Proof.
  intros Hp Hb. destruct (raw_options_datagram args payload body_hex) eqn:E; [eauto|]. exfalso. revert E.
  unfold raw_options_datagram. destruct (parse_hex_total _ Hb) as [[given|e] Hg]; rewrite Hg; [|done].
  destruct (parse_hex_Ok _ _ Hg) as [_ Hgb]. change (zeros LENGTH_OCS ++ given) with (0 :: 0 :: given).
  change (SEND_IPV4_HEADER_LEN + LENGTH_UDP_HEADER) with 28. unfold U16_MAX.
  destruct (Z.ltb_spec 65535 (28 + len payload + 1 + len (0 :: 0 :: given))); [done|].
  rewrite assemble_spec; [by case_match|]. by apply raw_assemble_wf; [apply Ha|done..].
Qed.

Lemma build_one_total payload g :
  bytes payload -> generator_wf g ->
  exists r g', build_one args (args_addrs args) (base_config args) payload g = Some (r, g') /\
    generator_wf g' /\ forall ds id, r = Ok (ds, id) -> Forall (assembled_within args) ds.
Proof.
  intros Hp Hg. unfold build_one. pose proof (aw_raw_options _ Ha) as Hraw.
  destruct (arg_raw_options_hex args) as [body_hex|].
  - destruct (raw_options_datagram_total payload body_hex Hp Hraw) as [r Hr]. rewrite Hr.
    do 2 eexists. split; [done|]. split; [done|]. intros ds id. destruct r as [d|]; [|done]. intros [= <- <-].
    constructor; [|constructor]. destruct (raw_options_datagram_Ok _ _ _ _ (aw_addrs _ Ha) Hp Hr)
      as (given & _ & Hw & -> & Hl). split; [done|]. eauto.
  - destruct (send_options_total args Ha) as ([o|e] & -> & Ho); [|by do 2 eexists].
    destruct (build_datagrams_total payload o g Hp (Ho o eq_refl) Hg) as (r & g' & -> & Hg' & Hd).
    do 2 eexists. split; [done|]. split; [done|]. intros ds id. destruct r as [[ds' id']|]; [|done].
    intros [= <- <-]. by eapply Hd.
Qed.

Lemma faults_total f d :
  WireFaults_wf f -> assembled_within args d ->
  exists r, WireFaults_apply f d = Some r /\ forall d', r = Ok d' -> len d' = len d.
Proof.
  intros Hf (_ & payload & body & -> & Hw). unfold assembled.
  pose proof (assembled_udp_wf _ _ _ _ _ _ Hw) as Hu.
  assert (len body <> 1) as Hb1 by apply Hw.
  destruct body as [|a [|b rest]]; [|done|].
  - rewrite faults_plain; [|done|].
    2:{ unfold assembled_tail. simpl. by rewrite app_nil_r. }
    eexists. split; [done|]. case_bool_decide; [|done]. intros d' [= <-]. by rewrite !len_wire.
  - rewrite assembled_tail_cons, faults_surplus by done. eexists. split; [done|]. intros d'.
    destruct (bool_decide (is_Some (wf_pad f)) && _) eqn:Ep; [done|]. intros [= <-].
    rewrite !len_wire, !len_app. f_equal. f_equal. destruct (fault_ocs_wf payload rest f Hf) as [-> _].
    f_equal. unfold fault_pad, pad_of in *. destruct (wf_pad f); [|done].
    rewrite bool_decide_true in Ep by done. by destruct (len payload mod 2 =? 1).
Qed.

Lemma apply_all_total f ds :
  WireFaults_wf f -> Forall (assembled_within args) ds ->
  exists r, apply_all f ds = Some r /\ forall ds', r = Ok ds' ->
    Forall2 (fun d d' => WireFaults_apply f d = Some (Ok d') /\ len d' <= arg_max_datagram_len args) ds ds'.
Proof.
  intros Hf. induction 1 as [|d ds Hd _ (r & IH & Hr)]; [by exists (Ok []); split; [|intros ? [= <-]]|].
  cbn [apply_all]. destruct (faults_total f d Hf Hd) as ([d'|e] & Hdf & Hl); rewrite Hdf; [|by eexists].
  rewrite IH. destruct r as [ds'|e]; [|by eexists]. eexists. split; [done|]. intros ? [= <-].
  constructor; [|by apply Hr]. split; [done|]. rewrite (Hl d' eq_refl). apply Hd.
Qed.
End preparing.

(** ** The plan of a run *)

Section plan.
Context `{Crc32cSpec} (args : Args) (faults : WireFaults).

(** The wire datagrams of a prepared send, in the order of emission. *)
Definition emitted (p : prepared) : list (list Z) := omap (get (pr_datagrams p)) (pr_order p).

(** The logical datagrams of a run, up to the first that cannot be prepared: a
    function of the arguments and of the first identification. *)
Fixpoint plan (n : nat) (index : Z) (g : IdentificationGenerator) : option (list prepared) :=
  match n with
  | O => Some []
  | S n =>
      let! (r, g) := prepare_one args faults (args_addrs args) (base_config args) index g in
      match r with
      | Err _ => Some []
      | Ok p => let! ps := plan n (index + 1) g in Some (p :: ps)
      end
  end.

(** What the events put on the wire. *)
Definition sent (events : list Event) : list (Ipv4Addr * list Z) :=
  omap (fun e => match e with SendTo dst d => Some (dst, d) | _ => None end) events.

Definition prepared_wf (p : prepared) : Prop :=
  Forall (fun i => 0 <= i < len (pr_datagrams p)) (pr_order p) /\
  Forall (fun d => len d <= arg_max_datagram_len args) (pr_datagrams p).

Lemma sent_app a b : sent (a ++ b) = sent a ++ sent b.
Proof. apply omap_app. Qed.

Lemma emit_order_range requested n order :
  0 <= n -> opt_holds (Forall (fun i => 0 <= i)) requested -> emit_order requested n = Ok order ->
  Forall (fun i => 0 <= i < n) order.
Proof.
  intros Hn Hr. destruct requested as [l|]; cbn [emit_order opt_holds] in *.
  - destruct (is_nil l); [done|]. destruct (List.find _ l) eqn:E; [done|]. intros [= <-].
    rewrite Forall_forall in *. intros i Hi. specialize (Hr i Hi). apply list_elem_of_In in Hi.
    pose proof (find_none _ _ E i Hi) as Hb. apply Z.leb_gt in Hb. lia.
  - intros [= <-]. apply Forall_forall. intros i Hi%elem_of_seqZ. lia.
Qed.

Hypothesis Ha : Args_wf args.
Hypothesis Hf : WireFaults_wf faults.

Lemma prepare_one_total index g :
  0 <= index -> generator_wf g ->
  exists r g', prepare_one args faults (args_addrs args) (base_config args) index g = Some (r, g') /\
    generator_wf g' /\ forall p, r = Ok p -> prepared_wf p.
Proof.
  intros Hi Hg. unfold prepare_one. destruct (_ <? _); [by do 2 eexists|].
  destruct (payload_for_total args Ha (arg_seq_start args + index)) as ([payload|e] & -> & Hp); [|by do 2 eexists].
  destruct (build_one_total args Ha payload g (Hp _ eq_refl) Hg) as ([[ds id]|e] & g' & -> & Hg' & Hd);
    [|by do 2 eexists].
  destruct (apply_all_total args faults ds Hf (Hd _ _ eq_refl)) as ([ds'|e] & -> & Hl); [|by do 2 eexists]. specialize (Hl _ eq_refl).
  destruct (emit_order (arg_frag_emit args) (len ds')) as [order|e] eqn:Eo; [|by do 2 eexists].
  do 2 eexists. split; [done|]. split; [done|]. intros p [= <-]. split; cbn [pr_order pr_datagrams].
  - eapply emit_order_range; [apply len_nonneg|apply Ha|done].
  - apply Forall_lookup. intros i d Hd'. by destruct (Forall2_lookup_r _ _ _ _ _ Hl Hd') as (? & _ & _ & ?).
Qed.

(** A stretch of the run that sends a prefix of [target], all of it on success. *)
Definition extends (st st' : SendState) (target : list (list Z)) (ok : bool) : Prop :=
  exists evs, ss_events st' = ss_events st ++ evs /\
    sent evs `prefix_of` ((fun d => (arg_dst args, d)) <$> target) /\
    (ok = true -> sent evs = (fun d => (arg_dst args, d)) <$> target).

Lemma extends_quiet st e : sent [e] = [] -> forall st' target ok,
  extends (log_event st e) st' target ok -> extends st st' target ok.
Proof.
  intros He st' target ok (evs & Hev & Hp & Ho). exists (e :: evs). cbn [ss_events log_event] in Hev.
  rewrite Hev, <- app_assoc. split; [done|]. change (e :: evs) with ([e] ++ evs). rewrite sent_app, He. done.
Qed.

Lemma extends_cons st st' d target ok :
  extends (count_send (log_event st (SendTo (arg_dst args) d))) st' target ok -> extends st st' (d :: target) ok.
Proof.
  intros (evs & Hev & Hp & Ho). exists (SendTo (arg_dst args) d :: evs).
  cbn [ss_events log_event count_send] in Hev. rewrite Hev, <- app_assoc. split; [done|].
  change (sent (SendTo (arg_dst args) d :: evs)) with ((arg_dst args, d) :: sent evs). cbn [fmap list_fmap].
  split; [by apply prefix_cons|]. intros Hok. by rewrite Ho.
Qed.

Lemma extends_stop st target : extends st st target (is_nil target).
Proof.
  exists []. rewrite app_nil_r. split; [done|]. split; [apply prefix_nil|]. by intros ->%is_nil_true.
Qed.

Lemma extends_fail st target : extends st st target false.
Proof. exists []. rewrite app_nil_r. split; [done|]. split; [apply prefix_nil|done]. Qed.

Lemma extends_trans st1 st2 st3 t1 t2 ok :
  extends st1 st2 t1 true -> extends st2 st3 t2 ok -> extends st1 st3 (t1 ++ t2) ok.
Proof.
  intros (e1 & H1 & _ & Ho1) (e2 & H2 & Hp2 & Ho2). exists (e1 ++ e2). rewrite H2, H1, <- app_assoc.
  split; [done|]. rewrite sent_app, fmap_app, (Ho1 eq_refl). split; [by apply prefix_app|].
  intros Hok. by rewrite Ho2.
Qed.

Lemma extends_weaken st st' t1 t2 : extends st st' t1 false -> extends st st' (t1 ++ t2) false.
Proof.
  intros (evs & Hev & Hp & _). exists evs. split; [done|]. split; [|done]. rewrite fmap_app.
  by apply prefix_app_r.
Qed.

Lemma emit_loop_total io index ds : forall order position sent_bytes st,
  Forall (fun i => 0 <= i < len ds) order ->
  exists r st', emit_loop io args index ds position sent_bytes order st = Some (r, st') /\
    ss_identifications st' = ss_identifications st /\ extends st st' (omap (get ds) order) (is_ok r).
Proof.
  induction order as [|i order IH]; intros position sent_bytes st Hr.
  - do 2 eexists. split; [done|]. split; [done|]. apply extends_stop.
  - apply Forall_cons in Hr as [Hi Hr]. cbn [emit_loop omap list_omap].
    destruct (get_is_Some ds i Hi) as [d Hd]. rewrite Hd.
    set (st0 := if _ && _ then log_event st _ else st).
    assert (forall st' t ok, extends st0 st' t ok -> extends st st' t ok) as Hst0
      by (unfold st0; intros; destruct (_ && _); [by apply (extends_quiet _ (Sleep (arg_frag_gap_ms args)))|done]).
    assert (ss_identifications st0 = ss_identifications st) as Hid by (unfold st0; by destruct (_ && _)).
    destruct (io_send io (ss_sends st0)) as [n|e]; cbn [map_err].
    2:{ do 2 eexists. split; [done|]. split; [done|]. apply Hst0, extends_cons, extends_fail. }
    destruct (checked_add sent_bytes n) as [m|].
    2:{ do 2 eexists. split; [done|]. split; [done|]. apply Hst0, extends_cons, extends_fail. }
    set (st1 := count_send _).
    set (st2 := if arg_hexdump args then log_event st1 _ else st1).
    destruct (IH (position + 1) m st2 Hr) as (r & st' & -> & Hid' & He).
    do 2 eexists. split; [done|]. split; [rewrite Hid'; unfold st2; by destruct (arg_hexdump args)|].
    apply Hst0, extends_cons. fold st1. unfold st2 in He.
    destruct (arg_hexdump args); [by eapply extends_quiet, He|done].
Qed.

Lemma log_extends st st' e target ok :
  sent [e] = [] -> extends st st' target ok -> extends st (log_event st' e) target ok.
Proof.
  intros He (evs & Hev & Hp & Ho). exists (evs ++ [e]). cbn [ss_events log_event].
  rewrite Hev, <- app_assoc. split; [done|]. by rewrite sent_app, He, app_nil_r.
Qed.

Lemma send_one_plan io index st :
  0 <= index -> generator_wf (ss_identifications st) ->
  exists r st' q g', send_one io args faults (args_addrs args) (base_config args) index st = Some (r, st') /\
    prepare_one args faults (args_addrs args) (base_config args) index (ss_identifications st) = Some (q, g') /\
    ss_identifications st' = g' /\ generator_wf g' /\
    match q with
    | Err e => r = Err e /\ extends st st' [] true
    | Ok p => prepared_wf p /\ extends st st' (emitted p) (is_ok r)
    end.
Proof.
  intros Hi Hg. unfold send_one.
  destruct (prepare_one_total index _ Hi Hg) as (q & g' & Hq & Hg' & Hp). rewrite Hq.
  destruct q as [p|e].
  2:{ do 4 eexists. split; [done|]. split; [done|]. split; [done|]. split; [done|]. split; [done|].
      exists []. by rewrite app_nil_r. }
  specialize (Hp p eq_refl). set (st0 := set_identifications st g').
  destruct (emit_loop_total io index (pr_datagrams p) (pr_order p) 0 0 st0 (proj1 Hp))
    as (r & st1 & -> & Hid & He).
  assert (forall st' ok, extends st0 st' (emitted p) ok -> extends st st' (emitted p) ok) as Hst0 by done.
  destruct r as [n|e].
  2:{ do 4 eexists. split; [done|]. split; [done|]. split; [done|]. split; [done|]. split; [done|]. by apply Hst0. }
  cbn [is_ok] in He. destruct (arg_manifest args).
  - do 4 eexists. split; [done|]. split; [done|]. split; [done|]. split; [done|]. split; [done|].
    apply Hst0, log_extends, log_extends; [done..|]. destruct He as (evs & H1 & H2 & H3). exists evs.
    split; [done|]. split; [done|]. intros _. by apply H3.
  - do 4 eexists. split; [done|]. split; [done|]. split; [done|]. split; [done|]. split; [done|].
    by apply Hst0, log_extends.
Qed.

Lemma send_all_plan io n : forall index st,
  0 <= index -> generator_wf (ss_identifications st) ->
  exists r st' ps, send_all io args faults (args_addrs args) (base_config args) n index st = Some (r, st') /\
    plan n index (ss_identifications st) = Some ps /\ Forall prepared_wf ps /\
    extends st st' (concat (emitted <$> ps)) (is_ok r) /\ (is_ok r = true -> length ps = n).
Proof.
  induction n as [|n IH]; intros index st Hi Hg.
  - do 3 eexists. split; [done|]. split; [done|]. split; [constructor|]. split; [apply extends_stop|done].
  - cbn [send_all plan].
    destruct (send_one_plan io index st Hi Hg) as (r & st1 & q & g & -> & -> & Hid & Hg1 & Hq).
    destruct q as [p|e].
    2:{ destruct Hq as [-> He]. do 3 eexists. split; [done|]. split; [done|]. split; [constructor|].
        split; [|done]. destruct He as (evs & H1 & H2 & H3). by exists evs. }
    destruct Hq as [Hp He]. rewrite <- Hid in Hg1.
    destruct (IH (index + 1) st1 ltac:(lia) Hg1) as (r' & st2 & ps & Hs & Hpl & Hw & He' & Hn).
    rewrite Hid in Hpl. rewrite Hpl. destruct r as [[]|e]; cbn [is_ok] in He.
    + rewrite Hs. do 3 eexists. split; [done|]. split; [done|]. split; [by constructor|].
      split; [by eapply extends_trans|]. intros Hok. cbn [length]. by rewrite Hn.
    + do 3 eexists. split; [done|]. split; [done|]. split; [by constructor|]. split; [|done].
      by apply extends_weaken.
Qed.
End plan.

(** ** Properties *)

(** What keeps a run from sending anything: no datagram asked for, an option set given twice,
    a fault that does not parse, no identification to start from, no socket, no manifest. *)
Definition refused (io : SendIo) (args : Args) : Prop :=
  arg_count args = 0 \/
  is_Some (arg_raw_options_hex args) /\
    (arg_apc args = true \/ is_Some (arg_mds args) \/ is_Some (arg_mrds_size args) \/
     is_Some (arg_req args) \/ is_Some (arg_res args)) \/
  (exists e, WireFaults_parse args = Some (Err e)) \/
  (arg_identification args = None /\ exists e, io_random io = Err e) \/
  (exists e, io_sender io = Err e) \/
  (is_Some (arg_manifest args) /\ exists e, io_manifest io = Err e).

(** [run] behind its checks. *)
Lemma run_cases `{Crc32c} (io : SendIo) (args : Args) :
  Args_wf args ->
  (refused io args /\ exists e, run io args = Some (Err e, [])) \/
  (~ refused io args /\ exists faults g, WireFaults_parse args = Some (Ok faults) /\
    first_generator io args = Ok g /\
    run io args = (let! (r, st) := send_all io args faults (args_addrs args) (base_config args)
      (Z.to_nat (arg_count args)) 0 {| ss_identifications := g; ss_sends := 0; ss_events := [] |} in
      Some (r, ss_events st))).
Proof.
  intros Ha. unfold run, refused.
  destruct (Z.eqb_spec (arg_count args) 0) as [Hc|Hc]; [left; eauto|].
  destruct (bool_decide _ && _) eqn:Eb.
  { apply andb_true_iff in Eb as [Hraw%bool_decide_eq_true_1 Hb]. left. split; [|eauto]. right. left. split; [done|].
    unfold builds_options in Hb. repeat (apply orb_true_iff in Hb as [Hb|Hb]); rewrite ?bool_decide_eq_true in Hb; tauto. }
  assert (~ (is_Some (arg_raw_options_hex args) /\
    (arg_apc args = true \/ is_Some (arg_mds args) \/ is_Some (arg_mrds_size args) \/
     is_Some (arg_req args) \/ is_Some (arg_res args)))) as Hraw.
  { intros [Hr Hb]. rewrite bool_decide_true in Eb by done. cbn [andb] in Eb. unfold builds_options in Eb.
    repeat (apply orb_false_iff in Eb as [Eb ?]). repeat match goal with H : bool_decide _ = false |- _ =>
      apply bool_decide_eq_false_1 in H end. destruct (arg_apc args); [done|]. intuition congruence. }
  destruct (WireFaults_parse_total args Ha) as [[f|e] Hf]; rewrite Hf; [|left; eauto 10].
  destruct (first_generator io args) as [g|e] eqn:Eg.
  2:{ left. split; [|eauto]. do 3 right. left. unfold first_generator in Eg.
      destruct (arg_identification args); [done|]. destruct (io_random io); [done|eauto]. }
  destruct (io_sender io) as [[]|e]; [|left; cbn [map_err]; eauto 10]. cbn [map_err].
  destruct (match arg_manifest args with Some _ => _ | None => _ end) as [[]|e] eqn:Em.
  2:{ left. split; [|eauto]. do 5 right. destruct (arg_manifest args); [|done]. split; [eauto|].
      destruct (io_manifest io); [done|eauto]. }
  right. split; [|by exists f, g]. intros [?|[?|[[e He]|[[Hi [e He]]|[[e He]|[[x Hx] [e He]]]]]]]; try done.
  - unfold first_generator in Eg. by rewrite Hi, He in Eg.
  - by rewrite Hx, He in Em.
Qed.


(** Two logical datagrams of twenty bytes, each split in two; the second send of
    the run fails. *)
Definition example_run_args : Args :=
  {| arg_src := example_src; arg_dst := example_dst; arg_src_port := 4000; arg_dst_port := 5000;
     arg_payload := ""; arg_payload_hex := None; arg_payload_size := Some 20; arg_count := 2;
     arg_seq_start := 5; arg_apc := true; arg_mds := Some 1500; arg_mrds_size := None;
     arg_mrds_segments := 2; arg_req := None; arg_res := None; arg_max_datagram_len := 60;
     arg_no_frag := false; arg_peer_mrds_size := 2926; arg_peer_mrds_segments := 2;
     arg_identification := Some 7; arg_raw_options_hex := None; arg_ocs_hex := None;
     arg_pad_hex := None; arg_udp_cksum_zero := false; arg_frag_emit := None; arg_frag_gap_ms := 0;
     arg_hexdump := false; arg_manifest := None |}.

Definition example_io (fails : Z) : SendIo :=
  {| io_random := Err {| raw_os_error := None |}; io_sender := Ok tt; io_manifest := Ok tt;
     io_send := fun k => if k =? fails then Err (Io {| raw_os_error := None |}) else Ok 60;
     io_row := fun _ => Ok tt |}.

(** The socket cannot be opened. *)
Definition no_socket_io : SendIo :=
  {| io_random := Err {| raw_os_error := None |}; io_sender := Err PermissionDenied; io_manifest := Ok tt;
     io_send := fun _ => Ok 60; io_row := fun _ => Ok tt |}.

Lemma example_run_args_wf : Args_wf example_run_args.
Proof.
  constructor; try done; unfold args_addrs_wf, DatagramAddrs_wf, addrs_wf, Ipv4Addr_wf, usize; evaluate.
Qed.

Lemma example_not_refused : ~ refused (example_io 9) example_run_args.
Proof.
  intros [Hx|[[[x Hx] _]|[[e Hx]|[[Hx _]|[[e Hx]|[[x Hx] _]]]]]]; [discriminate Hx..| |discriminate Hx|discriminate Hx|discriminate Hx].
  vm_compute in Hx. discriminate Hx.
Qed.

