(* ===== verification/CliRecv.v ===== *)
(** The receiving tool (src/src/bin/udpopt-recv.rs).

    As in [CliSend], [Args] is what clap parsed, the operating system's answers are
    a [RecvIo] ([rio_recv k] is what the [k]-th [RawReceiver::recv] returned, the
    datagrams being those [Socket.recv_with_deadline] delivers, and [rio_now k] the
    clock after it), and the lines printed are part of the result.  The warning
    about a receive timeout is a line on standard error. *)

From S2P Require Import Prelude Model Kind Parse Typed Checksum Ip Udp Surplus Ocs.
From S2P Require Import Reassembly RecvOptions Pipeline Socket Api FragEndToEnd Text.

(** ** Arguments and errors *)

Record Args : Type := {
  arg_dst_port : Z;
  arg_src_port : option Z;
  arg_own_src : option Ipv4Addr;
  arg_timeout_ms : Z;
  arg_count : Z;
  arg_max_reassembled_size : Z;
  arg_max_segments : Z;
  arg_max_pending_partials : Z;
  arg_reassembly_timeout_ms : Z;
  arg_hexdump : bool;
  arg_json : bool;
}.

Definition Args_default : Args :=
  {| arg_dst_port := 40001; arg_src_port := None; arg_own_src := None; arg_timeout_ms := 2000;
     arg_count := 1; arg_max_reassembled_size := LIMITS_MRDS_DEFAULT_IPV4;
     arg_max_segments := LIMITS_MIN_REASSEMBLY_SEGMENTS;
     arg_max_pending_partials := LIMITS_REASSEMBLY_MAX_PENDING_PARTIALS;
     arg_reassembly_timeout_ms := 120000; arg_hexdump := false; arg_json := false |}.

Inductive CliError : Type :=
| Message (text : string)
| CliIo (e : IoError)
| Permission.

Definition from_socket (error : SocketError) : CliError :=
  match error with
  | PermissionDenied => Permission
  | Io error => CliIo error
  end.

Definition CliError_display `{IoDisplay} (e : CliError) : string :=
  match e with
  | Message text => text
  | CliIo e => io_display e
  | Permission => "permission denied"
  end.

(** ** The logger *)

(** The levels of the log facade, the most severe first, with their names. *)
Inductive Level : Type := LevelError | LevelWarn | LevelInfo | LevelDebug | LevelTrace.

Definition Level_name (l : Level) : string :=
  match l with
  | LevelError => "ERROR" | LevelWarn => "WARN" | LevelInfo => "INFO" | LevelDebug => "DEBUG" | LevelTrace => "TRACE"
  end.

(** [metadata.level() <= Level::Warn]. *)
Definition StderrLogger_enabled (l : Level) : bool :=
  match l with LevelError | LevelWarn => true | _ => false end.

(** The lines [log] writes to standard error. *)
Definition StderrLogger_log (l : Level) (message : string) : list string :=
  if StderrLogger_enabled l then ["udpopt-recv: " +:+ Level_name l +:+ ": " +:+ message] else [].

(** ** Names *)

Definition ocs_status_name (status : OcsStatus) : string :=
  match status with
  | StAbsent => "absent"
  | StValid => "valid"
  | StUnused => "unused"
  | StFailed => "failed"
  | StInvalidZero => "invalid-zero"
  | StUnobserved => "unobserved"
  end.

Definition kind_name (kind : OptionKind) : string :=
  match kind with
  | Eol => "EOL"
  | Nop => "NOP"
  | Apc => "APC"
  | Frag => "FRAG"
  | Mds => "MDS"
  | Mrds => "MRDS"
  | Req => "REQ"
  | Res => "RES"
  | Other byte => "0x" +:+ show_02x byte
  end.

Definition status_name (status : OptionStatus) : string :=
  match status with Success => "success" | Failed => "failed" | Ignored => "ignored" end.

Definition source_name (source : OptionSource) : string :=
  match source with Datagram => "datagram" | FragmentSet => "fragment-set" end.

(** The same function as the sending tool's. *)
Definition recv_hex (bs : list Z) : string := from_bytes (concat (hex_byte <$> bs)).

Definition option_list (options : list RawOption) : string :=
  join_comma ((fun o => kind_name (ro_kind o) +:+ ":" +:+ recv_hex (ro_value o)) <$> options).

Definition report_list (reports : list OptionReport) : string :=
  join_comma ((fun r => kind_name (opr_kind r) +:+ ":" +:+ status_name (opr_status r) +:+ ":"
                          +:+ source_name (opr_source r)) <$> reports).

Definition ocs_report_list (reports : list OcsReport) : string :=
  join_comma ((fun r => ocs_status_name (ocr_status r) +:+ ":" +:+ source_name (ocr_source r))
                <$> reports).

(** [input.replace(from, to)] for a one-byte pattern. *)
Definition replace (from : Z) (to : list Z) (bs : list Z) : list Z :=
  concat ((fun b => if b =? from then to else [b]) <$> bs).

Definition json_escape (input : string) : string :=
  from_bytes (replace 34 [92; 34] (replace 92 [92; 92] (as_bytes input))).

(** ** Summaries and lines *)

Record WireSummary : Type := {
  ws_src : Ipv4Addr;
  ws_dst : Ipv4Addr;
  ws_src_port : Z;
  ws_dst_port : Z;
  ws_ip_total_len : Z;
  ws_udp_len : Z;
  ws_surplus_len : Z;
}.

Definition summarize (datagram : list Z) : option (result WireSummary RecvError) :=
  let! parsed := IpRepr_parse datagram in
  let? (ip, udp_at) := map_err RecvHeader parsed in
  let! udp_bytes := slice datagram udp_at (len datagram) in
  let! parsed := UdpHeader_parse udp_bytes in
  let? udp := map_err RecvHeader parsed in
  Some (Ok {| ws_src := ip_src ip; ws_dst := ip_dst ip; ws_src_port := udp_src_port udp;
              ws_dst_port := udp_dst_port udp; ws_ip_total_len := ip_total_len ip;
              ws_udp_len := udp_length udp;
              ws_surplus_len :=
                match locate_surplus ip udp with Some layout => surplus_len layout | None => 0 end |}).

(** [{}:{} -> {}:{}] of the endpoints. *)
Definition endpoints (wire : WireSummary) : string :=
  show_ipv4 (ws_src wire) +:+ ":" +:+ show (ws_src_port wire) +:+ " -> " +:+ show_ipv4 (ws_dst wire)
    +:+ ":" +:+ show (ws_dst_port wire).

Section printing.
Context `{Crc32c, IoDisplay}.

Definition print_text (index : Z) (summary : result WireSummary RecvError)
    (delivery : result Delivery RecvError) : string :=
  match summary, delivery with
  | Ok wire, Ok (DeliverPayload p) =>
      "recv[" +:+ show index +:+ "] payload=" +:+ recv_hex (pl_data p)
        +:+ " payload_len=" +:+ show (len (pl_data p))
        +:+ " option_bearing=" +:+ show_bool (pl_option_bearing p)
        +:+ " options=" +:+ option_list (pl_options p) +:+ " reports=" +:+ report_list (pl_reports p)
        +:+ " ocs_reports=" +:+ ocs_report_list (pl_ocs_reports p)
        +:+ " surplus=" +:+ show (ws_surplus_len wire) +:+ " " +:+ endpoints wire
  | Ok wire, Ok Buffered =>
      "recv[" +:+ show index +:+ "] buffered surplus=" +:+ show (ws_surplus_len wire) +:+ " "
        +:+ endpoints wire
  | Ok wire, Ok Dropped =>
      "recv[" +:+ show index +:+ "] dropped surplus=" +:+ show (ws_surplus_len wire) +:+ " "
        +:+ endpoints wire
  | _, Err error => "recv[" +:+ show index +:+ "] error=" +:+ RecvError_display error
  | Err error, _ => "recv[" +:+ show index +:+ "] error=" +:+ RecvError_display error
  end.

(** A JSON member: the key with a bare value, or with a quoted one. *)
Definition member (key value : string) : string := dquote +:+ key +:+ dquote +:+ ":" +:+ value.
Definition text_member (key value : string) : string :=
  member key (dquote +:+ value +:+ dquote).

(** The members both kinds of line share, after the delivery. *)
Definition wire_members (wire : WireSummary) : string :=
  "," +:+ text_member "src" (show_ipv4 (ws_src wire))
    +:+ "," +:+ text_member "dst" (show_ipv4 (ws_dst wire))
    +:+ "," +:+ member "src_port" (show (ws_src_port wire))
    +:+ "," +:+ member "dst_port" (show (ws_dst_port wire))
    +:+ "," +:+ member "ip_total_len" (show (ws_ip_total_len wire))
    +:+ "," +:+ member "udp_len" (show (ws_udp_len wire))
    +:+ "," +:+ member "surplus_len" (show (ws_surplus_len wire)).

Definition error_line (index : Z) (error : RecvError) : string :=
  "{" +:+ member "index" (show index) +:+ "," +:+ text_member "delivery" "error"
    +:+ "," +:+ text_member "error" (json_escape (RecvError_display error)) +:+ "}".

Definition print_json (index : Z) (summary : result WireSummary RecvError)
    (delivery : result Delivery RecvError) : string :=
  match summary, delivery with
  | Ok wire, Ok (DeliverPayload p) =>
      "{" +:+ member "index" (show index) +:+ "," +:+ text_member "delivery" "payload"
        +:+ wire_members wire
        +:+ "," +:+ member "payload_len" (show (len (pl_data p)))
        +:+ "," +:+ member "payload_crc32c" (show (crc32c (pl_data p)))
        +:+ "," +:+ text_member "payload_hex" (recv_hex (pl_data p))
        +:+ "," +:+ member "option_bearing" (show_bool (pl_option_bearing p))
        +:+ "," +:+ text_member "options" (json_escape (option_list (pl_options p)))
        +:+ "," +:+ text_member "reports" (json_escape (report_list (pl_reports p)))
        +:+ "," +:+ text_member "ocs_reports" (json_escape (ocs_report_list (pl_ocs_reports p)))
        +:+ "}"
  | Ok wire, Ok Buffered =>
      "{" +:+ member "index" (show index) +:+ "," +:+ text_member "delivery" "buffered"
        +:+ wire_members wire +:+ "}"
  | Ok wire, Ok Dropped =>
      "{" +:+ member "index" (show index) +:+ "," +:+ text_member "delivery" "dropped"
        +:+ wire_members wire +:+ "}"
  | _, Err error => error_line index error
  | Err error, _ => error_line index error
  end.

(** ** Running the tool *)

Record RecvIo : Type := {
  rio_bind : Z -> option Z -> option Ipv4Addr -> result unit SocketError;
  rio_set_timeout : option Z -> result unit SocketError;
  rio_recv : Z -> result (option (list Z)) SocketError;
  rio_now : Z -> Z;
}.

(** Nanoseconds; zero milliseconds wait forever. *)
Definition read_timeout (args : Args) : option Z :=
  if 0 <? arg_timeout_ms args then Some (arg_timeout_ms args * 1000000) else None.

Definition recv_limits (args : Args) : ReassemblyLimits :=
  {| rl_max_reassembled_size := arg_max_reassembled_size args;
     rl_max_segments := arg_max_segments args;
     rl_max_pending_partials := arg_max_pending_partials args;
     rl_timeout := arg_reassembly_timeout_ms args * 1000000 |}.

(** The loop, [fuel] being [count - received]; the number of datagrams received,
    whether one failed, and the lines printed. *)
Fixpoint recv_loop (io : RecvIo) (args : Args) (fuel : nat) (received : Z) (processing_error : bool)
    (cache : ReassemblyCache) : option (result (Z * bool) CliError * list string) :=
  match fuel with
  | O => Some (Ok (received, processing_error), [])
  | S fuel =>
      match rio_recv io received with
      | Err e => Some (Err (from_socket e), [])
      | Ok None => Some (Ok (received, processing_error), [])
      | Ok (Some datagram) =>
          let received := received + 1 in
          let dump := if arg_hexdump args
            then ["datagram[" +:+ show received +:+ "] " +:+ recv_hex datagram] else [] in
          let! summary := summarize datagram in
          let! (delivery, cache) := process_datagram datagram cache (rio_now io (received - 1)) in
          let processing_error := processing_error || negb (is_ok summary) || negb (is_ok delivery) in
          let line := if arg_json args then print_json received summary delivery
                      else print_text received summary delivery in
          let! (r, lines) := recv_loop io args fuel received processing_error cache in
          Some (r, dump ++ line :: lines)
      end
  end.

Definition timeout_warning (received count : Z) : string :=
  "udpopt-recv: WARN: receive timeout: stopped after " +:+ show received +:+ " of " +:+ show count
    +:+ " matching datagrams".

(** The result, the lines on standard output and the tool's own lines on standard error; the
    lines its logger writes there for the pipeline's warnings are those of [Warnings]. *)
Definition run (io : RecvIo) (args : Args) : option (result unit CliError * list string * list string) :=
  if arg_count args =? 0 then Some (Err (Message "count must be at least 1"), [], []) else
  match map_err from_socket (rio_bind io (arg_dst_port args) (arg_src_port args) (arg_own_src args)) with
  | Err e => Some (Err e, [], [])
  | Ok _ =>
  match map_err from_socket (rio_set_timeout io (read_timeout args)) with
  | Err e => Some (Err e, [], [])
  | Ok _ =>
      let! (r, lines) := recv_loop io args (Z.to_nat (arg_count args)) 0 false
                           (ReassemblyCache_with_limits (recv_limits args)) in
      Some match r with
           | Err e => (Err e, lines, [])
           | Ok (received, processing_error) =>
               let warning := if received <? arg_count args
                              then [timeout_warning received (arg_count args)] else [] in
               (if processing_error
                then Err (Message
                  "one or more received datagrams failed header, checksum, or option processing")
                else Ok tt, lines, warning)
           end
  end end.

(** The exit code, standard output and the tool's own lines on standard error. *)
Definition main (io : RecvIo) (args : Args) : option (Z * list string * list string) :=
  let! (r, lines, errors) := run io args in
  Some match r with
       | Ok _ => (0, lines, errors)
       | Err Permission =>
           (2, lines, errors ++ ["udpopt-recv: operation requires CAP_NET_RAW or root privileges"])
       | Err error => (1, lines, errors ++ ["udpopt-recv: " +:+ CliError_display error])
       end.
End printing.
