(* ===== verification/CliRecvCorrect.v ===== *)
(** Theorems on the receiving tool: what a run prints and returns is what the
    pipeline says of the datagrams received, and its JSON lines are JSON. *)

From stdpp Require Import pretty.
From S2P Require Import Prelude Model Kind Parse Typed Checksum Ip Udp Surplus Ocs.
From S2P Require Import Reassembly RecvOptions Pipeline Socket Api FragEndToEnd Text CliRecv.

(** ** Lemmas: summaries *)

Definition summary_of (v : udp_view) : WireSummary :=
  {| ws_src := ip_src (uv_ip v); ws_dst := ip_dst (uv_ip v);
     ws_src_port := udp_src_port (uv_udp v); ws_dst_port := udp_dst_port (uv_udp v);
     ws_ip_total_len := ip_total_len (uv_ip v); ws_udp_len := udp_length (uv_udp v);
     ws_surplus_len := match locate_surplus (uv_ip v) (uv_udp v) with
                       | Some layout => surplus_len layout | None => 0 end |}.

Lemma get_app_l {A} (a b : list A) i : i < len a -> get (a ++ b) i = get a i.
Proof.
  intros Hi. unfold get. destruct (Z.leb_spec 0 i); [|done]. apply lookup_app_l. len_lia.
Qed.

(** The header is in the first eight bytes. *)
Lemma UdpHeader_parse_app a b : 8 <= len a -> UdpHeader_parse (a ++ b) = UdpHeader_parse a.
Proof.
  intros Ha. unfold UdpHeader_parse. change UDP_HEADER_LEN with 8. rewrite len_app.
  pose proof (len_nonneg b). destruct (Z.ltb_spec (len a + len b) 8), (Z.ltb_spec (len a) 8); try lia.
  by rewrite !get_app_l by lia.
Qed.

Lemma summarize_received d v : bytes d -> receive_udp d = Some (Ok v) -> summarize d = Some (Ok (summary_of v)).
Proof.
  intros Hb. unfold receive_udp, summarize. destruct (IpRepr_parse_total d Hb) as (r & -> & Hr).
  destruct r as [[ip off]|e]; [|done]. destruct (Hr _ _ eq_refl) as (Hw & -> & Hl). cbn [map_err].
  pose proof (transport_payload_len ip (proj1 Hl)) as Htl. pose proof (header_len_bounds ip Hw) as Hh.
  rewrite (slice_Some d 0), (slice_Some d (IpRepr_header_len ip)) by lia.
  set (dg := sub d 0 (IpRepr_header_len ip + IpRepr_transport_payload_len ip)).
  assert (len dg = ip_total_len ip) as Hdg by (unfold dg; rewrite len_sub; lia).
  rewrite slice_Some by lia.
  assert (sub d (IpRepr_header_len ip) (len d) =
    sub dg (IpRepr_header_len ip) (len dg) ++ sub d (ip_total_len ip) (len d)) as ->.
  { unfold dg at 1. rewrite sub_sub by lia. rewrite Hdg, !Z.add_0_l. apply sub_split; lia. }
  set (u := sub dg _ _). assert (bytes u) as Hbu by (unfold u, dg; auto with rust).
  destruct (UdpHeader_parse_total u Hbu) as (r & Hu & Hok). rewrite Hu.
  destruct r as [udp|e]; [|done]. rewrite UdpHeader_parse_app, Hu by (by eapply Hok). cbn [map_err].
  destruct (_ <? _); [done|]. destruct (slice dg _ _); [|done]. cbv zeta.
  destruct (_ =? 0); [by intros [= <-]|].
  destruct (UdpHeader_compute_checksum _ _ _) as [x|]; [|done]. destruct (x =? _); [by intros [= <-]|done].
Qed.

Lemma summarize_total d : bytes d -> exists s, summarize d = Some s.
Proof.
  intros Hb. unfold summarize. destruct (IpRepr_parse_total d Hb) as (r & -> & Hr).
  destruct r as [[ip off]|e]; [|by eexists]. destruct (Hr _ _ eq_refl) as (Hw & -> & Hl). cbn [map_err].
  pose proof (header_len_bounds ip Hw) as Hh. rewrite slice_Some by lia.
  destruct (UdpHeader_parse_total (sub d (IpRepr_header_len ip) (len d))) as ([udp|e] & -> & _);
    [auto with rust|by eexists|by eexists].
Qed.

(** A datagram the pipeline accepts has a summary. *)
Lemma summarize_ok `{Crc32c} d c now r c' :
  bytes d -> Cache_wf c -> process_datagram d c now = Some (r, c') ->
  exists s, summarize d = Some s /\
    (is_ok r = true -> exists v, receive_udp d = Some (Ok v) /\ s = Ok (summary_of v)).
Proof.
  intros Hb Hc Hp. destruct (summarize_total d Hb) as [s Hs]. exists s. split; [done|]. intros Hr.
  destruct (receive_udp_spec d Hb) as ([v|e] & Hu & _).
  - exists v. split; [done|]. rewrite (summarize_received d v Hb Hu) in Hs. by injection Hs as <-.
  - exfalso. pose proof (proj2 (process_datagram_error d c now e c Hb Hc) (conj Hu eq_refl)) as He.
    rewrite Hp in He. by injection He as -> ->.
Qed.

(** ** Lemmas: the loop *)

Section run.
Context `{Crc32c, IoDisplay} (io : RecvIo) (args : Args).

(** The datagrams of a run with their times, and the socket error that ended it. *)
Fixpoint arrivals (fuel : nat) (k : Z) : list (Z * list Z) * option SocketError :=
  match fuel with
  | O => ([], None)
  | S fuel =>
      match rio_recv io k with
      | Err e => ([], Some e)
      | Ok None => ([], None)
      | Ok (Some d) => let '(rest, e) := arrivals fuel (k + 1) in ((rio_now io k, d) :: rest, e)
      end
  end.

(** The lines about the [k]-th datagram. *)
Definition lines_for (k : Z) (d : list Z) (r : result Delivery RecvError) : list string :=
  (if arg_hexdump args then ["datagram[" +:+ show k +:+ "] " +:+ recv_hex d] else [])
  ++ match summarize d with
     | Some s => [if arg_json args then print_json k s r else print_text k s r]
     | None => []
     end.

(** All lines, from the [k]-th datagram on. *)
Fixpoint all_lines (k : Z) (ds : list (Z * list Z)) (rs : list (result Delivery RecvError)) : list string :=
  match ds, rs with
  | (_, d) :: ds, r :: rs => lines_for (k + 1) d r ++ all_lines (k + 1) ds rs
  | _, _ => []
  end.

Hypothesis Hio : forall k d, rio_recv io k = Ok (Some d) -> bytes d.

Lemma recv_loop_spec fuel : forall k failed c,
  Cache_wf c ->
  exists rs c', process_all c (arrivals fuel k).1 = Some (rs, c') /\
    recv_loop io args fuel k failed c =
    Some (match (arrivals fuel k).2 with
          | Some e => Err (from_socket e)
          | None => Ok (k + len (arrivals fuel k).1, failed || negb (forallb is_ok rs))
          end, all_lines k (arrivals fuel k).1 rs).
Proof.
  induction fuel as [|fuel IH]; intros k failed c Hc.
  - exists [], c. split; [done|]. cbn. by rewrite Z.add_0_r, orb_false_r.
  - cbn [arrivals recv_loop]. destruct (rio_recv io k) as [[d|]|e] eqn:Er.
    + pose proof (Hio _ _ Er) as Hb.
      destruct (process_datagram_ok d c (rio_now io k) Hb Hc) as (r & c1 & Hp & Hc1 & _).
      destruct (summarize_ok d c _ r c1 Hb Hc Hp) as (s & Hs & Hok). rewrite Hs.
      replace (k + 1 - 1) with k by lia. rewrite Hp.
      destruct (arrivals fuel (k + 1)) as [ds err] eqn:Ea. cbn [fst snd process_all]. rewrite Hp.
      destruct (IH (k + 1) (failed || negb (is_ok s) || negb (is_ok r)) c1 Hc1) as (rs & c' & Hpa & Hl).
      rewrite Ea in Hpa, Hl. cbn [fst snd] in Hpa, Hl. rewrite Hpa. exists (r :: rs), c'. split; [done|].
      rewrite Hl. cbn [all_lines forallb]. unfold lines_for. rewrite Hs, <- app_assoc.
      destruct err; [done|]. do 3 f_equal. f_equal; [rewrite len_cons; lia|].
      rewrite negb_andb. destruct r as [dl|]; cbn [is_ok negb].
      * destruct (Hok eq_refl) as (v & _ & ->). cbn. by rewrite !orb_false_r.
      * by rewrite !orb_true_r.
    + exists [], c. split; [done|]. cbn. by rewrite Z.add_0_r, orb_false_r.
    + by exists [], c.
Qed.

End run.

(** A whole run. *)
Lemma run_spec `{Crc32c, IoDisplay} (io : RecvIo) (args : Args) :
  (forall k d, rio_recv io k = Ok (Some d) -> bytes d) ->
  ReassemblyLimits_wf (recv_limits args) -> 0 < arg_count args ->
  rio_bind io (arg_dst_port args) (arg_src_port args) (arg_own_src args) = Ok tt ->
  rio_set_timeout io (read_timeout args) = Ok tt ->
  let '(ds, err) := arrivals io (Z.to_nat (arg_count args)) 0 in
  exists rs c', process_all (ReassemblyCache_with_limits (recv_limits args)) ds = Some (rs, c') /\
    run io args =
    Some (match err with
          | Some e => Err (from_socket e)
          | None =>
              if forallb is_ok rs then Ok tt
              else Err (Message
                "one or more received datagrams failed header, checksum, or option processing")
          end, all_lines args 0 ds rs,
          match err with
          | None => if len ds <? arg_count args then [timeout_warning (len ds) (arg_count args)] else []
          | Some _ => []
          end).
Proof.
  intros Hio HL Hn Hb Ht. destruct (arrivals io _ 0) as [ds err] eqn:Ea.
  destruct (recv_loop_spec io args Hio (Z.to_nat (arg_count args)) 0 false
    (ReassemblyCache_with_limits (recv_limits args)) (with_limits_wf _ HL)) as (rs & c' & Hp & Hl).
  rewrite Ea in Hp, Hl. cbn [fst snd] in Hp, Hl. exists rs, c'. split; [done|].
  unfold run. destruct (Z.eqb_spec (arg_count args) 0); [lia|]. rewrite Hb, Ht. cbn [map_err]. rewrite Hl.
  destruct err as [e|]; [done|]. cbn [orb]. rewrite Z.add_0_l. by destruct (forallb is_ok rs).
Qed.

Lemma arrivals_bytes (io : RecvIo) fuel k :
  (forall k d, rio_recv io k = Ok (Some d) -> bytes d) -> Forall (fun a => bytes a.2) (arrivals io fuel k).1.
Proof.
  intros Hio. revert k. induction fuel as [|fuel IH]; intros k; [constructor|]. cbn [arrivals].
  destruct (rio_recv io k) as [[d|]|e] eqn:E; [|constructor..]. specialize (IH (k + 1)).
  destruct (arrivals io fuel (k + 1)). constructor; [by eapply Hio|done].
Qed.

(** ** Properties *)


Definition example_recv_args : Args :=
  {| arg_dst_port := 5000; arg_src_port := None; arg_own_src := None; arg_timeout_ms := 2000;
     arg_count := 3; arg_max_reassembled_size := 2926; arg_max_segments := 2;
     arg_max_pending_partials := 64; arg_reassembly_timeout_ms := 120000; arg_hexdump := false;
     arg_json := false |}.

(** A good datagram, a truncated one, and then a timeout. *)
Definition example_recv_io : RecvIo :=
  {| rio_bind := fun _ _ _ => Ok tt; rio_set_timeout := fun _ => Ok tt;
     rio_recv := fun k => if k =? 0 then Ok (Some example_packet)
                          else if k =? 1 then Ok (Some [0x45; 0]) else Ok None;
     rio_now := fun k => k |}.

