(* ===== verification/CliRecvJson.v ===== *)
(** The JSON lines of the receiving tool.

    [json_fields] is what a line means: the members of the object with their
    values.  The theorem reads every line a run prints with the strict reader of
    [Json] and finds exactly these members; the typing of the receive path
    ([Typing]) is what makes the numbers, hexadecimal texts and option names
    printable. *)

From stdpp Require Import pretty.
From Stdlib Require String.
From S2P Require Import Prelude Model Kind Parse Typed Checksum Ip Udp Surplus Ocs.
From S2P Require Import Reassembly RecvOptions Pipeline Typing Text Json CliRecv CliRecvCorrect.

(** ** What a line means *)

Definition number (key : string) (x : Z) : list Z * json_value := (as_bytes key, JBare (as_bytes (show x))).
Definition text (key value : string) : list Z * json_value := (as_bytes key, JText (as_bytes value)).

Definition wire_fields (wire : WireSummary) : list (list Z * json_value) :=
  [text "src" (show_ipv4 (ws_src wire)); text "dst" (show_ipv4 (ws_dst wire));
   number "src_port" (ws_src_port wire); number "dst_port" (ws_dst_port wire);
   number "ip_total_len" (ws_ip_total_len wire); number "udp_len" (ws_udp_len wire);
   number "surplus_len" (ws_surplus_len wire)].

Section fields.
Context `{Crc32c, IoDisplay}.

Definition payload_fields (p : Payload) : list (list Z * json_value) :=
  [number "payload_len" (len (pl_data p)); number "payload_crc32c" (crc32c (pl_data p));
   (as_bytes "payload_hex", JText (hex_bytes (pl_data p)));
   (as_bytes "option_bearing", JBare (as_bytes (show_bool (pl_option_bearing p))));
   text "options" (option_list (pl_options p)); text "reports" (report_list (pl_reports p));
   text "ocs_reports" (ocs_report_list (pl_ocs_reports p))].

Definition error_fields (index : Z) (e : RecvError) : list (list Z * json_value) :=
  [number "index" index; text "delivery" "error"; text "error" (RecvError_display e)].

Definition json_fields (index : Z) (summary : result WireSummary RecvError)
    (delivery : result Delivery RecvError) : list (list Z * json_value) :=
  match summary, delivery with
  | Ok wire, Ok d =>
      let name := match d with DeliverPayload _ => "payload" | Buffered => "buffered" | Dropped => "dropped" end in
      number "index" index :: text "delivery" name :: wire_fields wire
        ++ match d with DeliverPayload p => payload_fields p | _ => [] end
  | _, Err e => error_fields index e
  | Err e, _ => error_fields index e
  end.
End fields.

(** ** Lemmas: printable texts *)

Ltac plain_const := by apply (bool_decide_unpack _); vm_compute.

#[export] Instance plain_dec t : Decision (plain t).
Proof. unfold plain. apply _. Defined.

Lemma show_plain_all x : plain (as_bytes (show x)).
Proof.
  destruct (decide (0 <= x)); [by apply show_plain|]. destruct x as [|p|p]; [lia..|].
  change (as_bytes (show (Z.neg p))) with (45 :: as_bytes (show (Z.pos p))).
  constructor; [lia|]. by apply show_plain.
Qed.

Lemma show_02x_plain b : u8 b -> plain (as_bytes (show_02x b)).
Proof.
  intros Hb. pose proof (hex_plain [b]) as [_ Hp]; [by apply Forall_singleton|].
  unfold hex, hex_bytes in Hp. cbn in Hp. done.
Qed.

Lemma show_x06_plain x : u16 x -> plain (as_bytes (show_x06 x)).
Proof.
  intros Hx. unfold show_x06. rewrite as_bytes_app. apply plain_app; [plain_const|].
  pose proof (hex_plain [x / 256; x mod 256]) as [_ Hp]; [|done].
  unfold u16 in Hx. repeat constructor; dlia.
Qed.

Lemma kind_name_plain k : OptionKind_wf k -> plain (as_bytes (kind_name k)).
Proof.
  intros Hk. destruct k; [plain_const..|]. cbn [kind_name]. rewrite as_bytes_app.
  apply plain_app; [plain_const|]. by apply show_02x_plain.
Qed.

Lemma recv_hex_plain bs : bytes bs -> as_bytes (recv_hex bs) = hex_bytes bs /\ plain (as_bytes (recv_hex bs)).
Proof. apply hex_plain. Qed.

Lemma join_plain {A} (f : A -> string) (l : list A) :
  Forall (fun a => plain (as_bytes (f a))) l -> plain (as_bytes (join_comma (f <$> l))).
Proof.
  induction 1 as [|a l Ha Hl IH]; [plain_const|]. destruct l as [|b l]; [done|].
  change (join_comma (f <$> a :: b :: l)) with (f a +:+ "," +:+ join_comma (f <$> b :: l)).
  rewrite !as_bytes_app. repeat apply plain_app; [done|plain_const|done].
Qed.

Lemma option_list_plain os : Forall option_typed os -> plain (as_bytes (option_list os)).
Proof.
  intros Ho. apply join_plain, (Forall_impl _ _ _ Ho). intros o Hw. rewrite !as_bytes_app.
  pose proof (option_typed_kind o Hw). destruct Hw as [Hb _].
  repeat apply plain_app; [by apply kind_name_plain|plain_const|by apply recv_hex_plain].
Qed.

Lemma report_list_plain rs : Forall report_wf rs -> plain (as_bytes (report_list rs)).
Proof.
  intros Hr. apply join_plain, (Forall_impl _ _ _ Hr). intros r Hw. rewrite !as_bytes_app.
  repeat apply plain_app;
    [by apply kind_name_plain|plain_const|destruct (opr_status r)|plain_const|destruct (opr_source r)]; plain_const.
Qed.

Lemma ocs_report_list_plain rs : plain (as_bytes (ocs_report_list rs)).
Proof.
  apply join_plain, Forall_true. intros r. rewrite !as_bytes_app.
  repeat apply plain_app; [destruct (ocr_status r)| |destruct (ocr_source r)]; plain_const.
Qed.

(** Texts put together from constants, numbers and texts known to be plain. *)
Ltac plain_text :=
  rewrite ?as_bytes_app; repeat apply plain_app;
  lazymatch goal with
  | |- plain (as_bytes (show _)) => apply show_plain_all
  | |- plain (as_bytes (show_x06 _)) => by apply show_x06_plain
  | |- plain (as_bytes (String.String _ _)) => plain_const
  end.

Lemma HeaderError_plain e : plain (as_bytes (HeaderError_display e)).
Proof. destruct e; cbn [HeaderError_display]; plain_text. Qed.

Lemma RecvError_plain `{IoDisplay} e : result_typed (Err e) -> plain (as_bytes (RecvError_display e)).
Proof.
  intros He. destruct e; try done; cbn [RecvError_display].
  - rewrite as_bytes_app. apply plain_app; [plain_const|apply HeaderError_plain].
  - plain_text.
  - destruct He. plain_text.
Qed.

(** ** Lemmas: members *)

Lemma escape_app a b : escape (a ++ b) = escape a ++ escape b.
Proof. unfold escape. by rewrite fmap_app, concat_app. Qed.

Lemma as_bytes_json_escape s : as_bytes (json_escape s) = escape (as_bytes s).
Proof.
  unfold json_escape. pose proof (as_bytes_bytes s) as Hb. revert Hb. generalize (as_bytes s). intros bs Hb.
  assert (replace 34 [92; 34] (replace 92 [92; 92] bs) = escape bs) as ->.
  { unfold escape, replace. clear Hb. induction bs as [|b bs IH]; [done|].
    cbn [fmap list_fmap concat]. rewrite fmap_app, concat_app, IH. f_equal.
    destruct (Z.eqb_spec b 92) as [->|]; [done|]. cbn. rewrite app_nil_r.
    by destruct (Z.eqb_spec b 34) as [->|]. }
  apply as_from_bytes. induction Hb as [|b bs Hb _ IH]; [constructor|].
  change (b :: bs) with ([b] ++ bs). rewrite escape_app. apply Forall_app. split; [|done].
  unfold escape. cbn. rewrite app_nil_r. destruct (_ || _); repeat constructor; unfold u8 in *; lia.
Qed.

Lemma as_bytes_member k v :
  plain (as_bytes k) -> as_bytes (member k v) = render_member (as_bytes k, JBare (as_bytes v)).
Proof.
  intros Hk. unfold member, render_member. rewrite !as_bytes_app. cbn [fst snd render_value].
  by rewrite plain_escape.
Qed.

Lemma as_bytes_text_member k v t :
  plain (as_bytes k) -> as_bytes v = escape t -> as_bytes (text_member k v) = render_member (as_bytes k, JText t).
Proof.
  intros Hk Hv. unfold text_member. rewrite as_bytes_member by done. unfold render_member.
  cbn [fst snd render_value]. do 3 f_equal. f_equal. rewrite !as_bytes_app, Hv. done.
Qed.

Lemma text_member_plain k v :
  plain (as_bytes k) -> plain (as_bytes v) -> as_bytes (text_member k v) = render_member (text k v).
Proof. intros Hk Hv. apply as_bytes_text_member; [done|]. by rewrite plain_escape. Qed.

Lemma text_member_escaped k v :
  plain (as_bytes k) -> as_bytes (text_member k (json_escape v)) = render_member (text k v).
Proof. intros Hk. apply as_bytes_text_member; [done|]. apply as_bytes_json_escape. Qed.

Lemma number_member k x : plain (as_bytes k) -> as_bytes (member k (show x)) = render_member (number k x).
Proof. apply as_bytes_member. Qed.

(** A member list behind its comma. *)
Definition render_tail (ms : list (list Z * json_value)) : list Z := concat ((fun m => 44 :: render_member m) <$> ms).

Lemma render_members_cons m ms : render_members (m :: ms) = render_member m ++ render_tail ms.
Proof.
  revert m. induction ms as [|m' ms IH]; intros m; [by rewrite app_nil_r|].
  change (render_members (m :: m' :: ms)) with (render_member m ++ 44 :: render_members (m' :: ms)).
  rewrite IH. done.
Qed.

Lemma render_tail_cons m ms : render_tail (m :: ms) = as_bytes "," ++ render_member m ++ render_tail ms.
Proof. done. Qed.

Lemma render_tail_app a b : render_tail (a ++ b) = render_tail a ++ render_tail b.
Proof. unfold render_tail. by rewrite fmap_app, concat_app. Qed.

Lemma render_object_cons m ms :
  render_object (m :: ms) = as_bytes "{" ++ render_member m ++ render_tail ms ++ as_bytes "}".
Proof. unfold render_object. rewrite render_members_cons, <- app_assoc. done. Qed.

Definition WireSummary_wf (w : WireSummary) : Prop :=
  Ipv4Addr_wf (ws_src w) /\ Ipv4Addr_wf (ws_dst w) /\ 0 <= ws_src_port w /\ 0 <= ws_dst_port w /\
  0 <= ws_ip_total_len w /\ 0 <= ws_udp_len w /\ 0 <= ws_surplus_len w.

Lemma summary_of_wf v : view_wf v -> WireSummary_wf (summary_of v).
Proof.
  intros Hv. destruct (vw_ip _ Hv) as (? & ? & _ & Ht). destruct (vw_udp _ Hv) as (Hs & Hd & Hl & _).
  unfold u16 in *. do 2 (split; [done|]). cbn. do 4 (split; [lia|]).
  destruct (locate_surplus _ _) as [l|] eqn:E; [|done].
  apply locate_surplus_Some in E as (_ & _ & _ & Hn). destruct (needs_pad l); simpl in *; lia.
Qed.

Lemma wire_members_render w :
  WireSummary_wf w -> as_bytes (wire_members w) = render_tail (wire_fields w).
Proof.
  intros (Hs & Hd & _). unfold wire_members, wire_fields. rewrite !as_bytes_app, !render_tail_cons.
  rewrite !number_member, !text_member_plain by (by apply show_ipv4_plain || plain_const).
  by rewrite app_nil_r.
Qed.

Lemma number_ok k x : plain (as_bytes k) -> 0 <= x -> member_ok (number k x).
Proof. intros Hk Hx. split; [by apply plain_printable|by apply show_bare]. Qed.

Lemma text_ok k v : plain (as_bytes k) -> plain (as_bytes v) -> member_ok (text k v).
Proof. intros Hk Hv. by split; apply plain_printable. Qed.

Lemma wire_fields_ok w : WireSummary_wf w -> Forall member_ok (wire_fields w).
Proof.
  intros (Hs & Hd & H1 & H2 & H3 & H4 & H5). unfold wire_fields.
  repeat (apply Forall_cons; split); [..|constructor];
    solve [apply number_ok; [plain_const|done] | apply text_ok; [plain_const|by apply show_ipv4_plain]].
Qed.

Section lines.
Context `{Crc32cSpec, IoDisplay}.

Lemma payload_fields_ok p : Payload_typed p -> Forall member_ok (payload_fields p).
Proof.
  intros [Hd _ Ho Hr _]. unfold payload_fields. pose proof (crc32c_u32 (pl_data p)) as Hc. unfold u32 in Hc.
  apply Forall_cons. split; [apply number_ok; [plain_const|apply len_nonneg]|].
  apply Forall_cons. split; [apply number_ok; [plain_const|lia]|].
  apply Forall_cons. split.
  { split; [by apply plain_printable; plain_const|]. destruct (recv_hex_plain _ Hd) as [<- Hp].
    by apply plain_printable. }
  apply Forall_cons. split.
  { split; [by apply plain_printable; plain_const|]. by destruct (pl_option_bearing p). }
  repeat (apply Forall_cons; split); [..|constructor]; (apply text_ok; [plain_const|]);
    [by apply option_list_plain|by apply report_list_plain|apply ocs_report_list_plain].
Qed.

Lemma error_line_render k e :
  as_bytes (error_line k e) = render_object (error_fields k e).
Proof.
  unfold error_line, error_fields. rewrite render_object_cons, !render_tail_cons, !as_bytes_app.
  rewrite number_member, text_member_escaped, text_member_plain by plain_const.
  rewrite <- !app_assoc. done.
Qed.

(** A datagram that was processed has a well-formed summary. *)
Definition summary_ok (s : result WireSummary RecvError) (r : result Delivery RecvError) : Prop :=
  is_ok r = true -> exists w, s = Ok w /\ WireSummary_wf w.

(** A line is the object of its members. *)
Lemma print_json_render k s r :
  summary_ok s r -> result_typed r ->
  as_bytes (print_json k s r) = render_object (json_fields k s r).
Proof.
  intros Hs Hr. destruct r as [d|e']; [|by destruct s; apply error_line_render].
  destruct (Hs eq_refl) as (w & -> & Hw).
  destruct d as [p| |]; cbn [print_json json_fields]; rewrite render_object_cons, render_tail_cons, render_tail_app,
    !as_bytes_app, number_member, text_member_plain, wire_members_render by (done || plain_const);
    rewrite <- !app_assoc; [|done..].
  destruct Hr as [Hd _ _ _ _]. unfold payload_fields. rewrite !render_tail_cons, !number_member, !text_member_escaped
    by plain_const.
  rewrite as_bytes_member by plain_const. destruct (recv_hex_plain _ Hd) as [Hx Hp].
  rewrite (as_bytes_text_member _ (recv_hex _) (hex_bytes (pl_data p)));
    [|plain_const|by rewrite <- Hx, plain_escape].
  rewrite <- !app_assoc. done.
Qed.

Lemma json_fields_ok k s r :
  0 <= k -> summary_ok s r -> result_typed r ->
  Forall member_ok (json_fields k s r) /\ json_fields k s r <> [].
Proof.
  intros Hk Hs Hr.
  assert (forall e, result_typed (Err e) -> Forall member_ok (error_fields k e) /\ error_fields k e <> []) as He.
  { intros e He. split; [|done]. constructor; [by apply number_ok; [plain_const|]|].
    constructor; [by apply text_ok; plain_const|]. constructor; [|constructor].
    apply text_ok; [plain_const|by apply RecvError_plain]. }
  destruct r as [d|e']; [|by destruct s; apply He].
  destruct (Hs eq_refl) as (w & -> & Hw). split; [|done]. cbn [json_fields].
  constructor; [by apply number_ok; [plain_const|]|].
  constructor; [apply text_ok; [plain_const|destruct d; plain_const]|]. apply Forall_app.
  split; [by apply wire_fields_ok|]. destruct d as [p| |]; [by apply payload_fields_ok|constructor..].
Qed.

Lemma print_json_reads k s r :
  0 <= k -> summary_ok s r -> result_typed r ->
  read_object (as_bytes (print_json k s r)) = Some (json_fields k s r).
Proof.
  intros Hk Hs Hr. rewrite print_json_render by done.
  destruct (json_fields_ok k s r Hk Hs Hr). by apply read_object_render.
Qed.
End lines.

(** ** Runs with JSON output *)

(** What the lines from the [k]-th datagram on mean. *)
Fixpoint all_fields `{Crc32c, IoDisplay} (k : Z) (ds : list (Z * list Z)) (rs : list (result Delivery RecvError)) :
    list (option (list (list Z * json_value))) :=
  match ds, rs with
  | (_, d) :: ds, r :: rs => ((fun s => json_fields (k + 1) s r) <$> summarize d) :: all_fields (k + 1) ds rs
  | _, _ => []
  end.

(** The line [--hexdump] prints before the [k]-th datagram. *)
Definition dump_line (k : Z) (d : list Z) : string := "datagram[" +:+ show k +:+ "] " +:+ recv_hex d.

(** One line per datagram, each behind its dump if dumps are asked for. *)
Fixpoint with_dumps (hexdump : bool) (k : Z) (ds : list (Z * list Z)) (lines : list string) : list string :=
  match ds, lines with
  | (_, d) :: ds, l :: lines =>
      (if hexdump then [dump_line (k + 1) d] else []) ++ l :: with_dumps hexdump (k + 1) ds lines
  | _, _ => []
  end.

Definition read_line (l : string) : option (list (list Z * json_value)) := read_object (as_bytes l).

(** No dump is taken for an object. *)
Lemma dump_not_json k d : read_line (dump_line k d) = None.
Proof. reflexivity. Qed.

Lemma read_with_dumps hexdump : forall ds k json,
  length json = length ds -> omap read_line (with_dumps hexdump k ds json) = omap read_line json.
Proof.
  induction ds as [|[now d] ds IH]; intros k [|l json] Hl; try done. cbn [with_dumps].
  rewrite omap_app. assert (omap read_line (if hexdump then [dump_line (k + 1) d] else []) = []) as ->.
  { destruct hexdump; [|done]. cbn [omap list_omap]. by rewrite dump_not_json. }
  cbn [app omap list_omap]. rewrite IH by (cbn in Hl; lia). done.
Qed.

Lemma all_lines_read `{Crc32cSpec, IoDisplay} (args : Args) :
  arg_json args = true ->
  forall ds c k rs c', Cache_wf c -> Cache_typed c -> Forall (fun a => bytes a.2) ds -> 0 <= k ->
  process_all c ds = Some (rs, c') ->
  exists json, all_lines args k ds rs = with_dumps (arg_hexdump args) k ds json /\
    length json = length ds /\ read_line <$> json = all_fields k ds rs /\ Forall is_Some (all_fields k ds rs).
Proof.
  intros Hj. induction ds as [|[now d] ds IH]; intros c k rs c' Hc Ht Hb Hk; [by intros [= <- <-]; exists []|].
  apply Forall_cons in Hb as [Hb1 Hb]. cbn [process_all snd] in *.
  destruct (process_step_typed d c now Hb1 Hc Ht) as (r & c1 & Hp & Hr & Hc1 & Ht1 & _). rewrite Hp.
  destruct (process_all c1 ds) as [[rs1 c2]|] eqn:E; [|done]. intros [= <- <-].
  destruct (summarize_ok d c now r c1 Hb1 Hc Hp) as (s & Hs & Hok).
  destruct (IH c1 (k + 1) rs1 c2 Hc1 Ht1 Hb ltac:(lia) E) as (json & Hl & Hlen & Hread & Hall).
  exists (print_json (k + 1) s r :: json). cbn [all_lines all_fields with_dumps]. unfold lines_for.
  rewrite Hj, Hs, Hl, <- app_assoc. split; [done|]. split; [cbn; lia|].
  split; [|by constructor]. cbn [fmap list_fmap option_fmap option_map]. rewrite Hread. f_equal.
  apply print_json_reads; [lia| |done].
  intros Hr'. destruct (Hok Hr') as (v & Hu & ->). exists (summary_of v). split; [done|].
  destruct (receive_udp_spec d Hb1) as (u & Hu' & Hv). rewrite Hu in Hu'. injection Hu' as <-.
  apply summary_of_wf, Hv.
Qed.

(** ** Property *)

(** C29. With [--json] the tool prints one JSON object per datagram, and it says what
    happened: whatever arrives, the standard output of the run is one line for each
    datagram, with [--hexdump] each behind a line with its number and its bytes in
    hexadecimal, which no JSON reader takes for an object, and nothing else; the
    [i]-th object is read by a strict JSON reader as exactly the members of the
    [i]-th datagram, its number, its delivery, addresses, ports and lengths and, for
    a payload, length, CRC-32C, hexadecimal bytes, options, reports and OCS reports,
    or its error; escaping never changes a text and every number is a JSON number. *)
Theorem json_lines_faithful `{Crc32cSpec, IoDisplay} (io : RecvIo) (args : Args) :
  (forall k d, rio_recv io k = Ok (Some d) -> bytes d) ->
  ReassemblyLimits_wf (recv_limits args) -> 0 < arg_count args ->
  rio_bind io (arg_dst_port args) (arg_src_port args) (arg_own_src args) = Ok tt ->
  rio_set_timeout io (read_timeout args) = Ok tt ->
  arg_json args = true ->
  let ds := (arrivals io (Z.to_nat (arg_count args)) 0).1 in
  exists r lines warnings rs c' json,
    run io args = Some (r, lines, warnings) /\
    process_all (ReassemblyCache_with_limits (recv_limits args)) ds = Some (rs, c') /\
    lines = with_dumps (arg_hexdump args) 0 ds json /\ length json = length ds /\
    read_line <$> json = all_fields 0 ds rs /\ Forall is_Some (all_fields 0 ds rs) /\
    omap read_line lines = omap read_line json.
Proof.
  intros Hio HL Hn Hb Ht Hj. cbv zeta.
  pose proof (run_spec io args Hio HL Hn Hb Ht) as Hr.
  pose proof (arrivals_bytes io (Z.to_nat (arg_count args)) 0 Hio) as Hbs.
  destruct (arrivals io _ 0) as [ds err]. destruct Hr as (rs & c' & Hp & ->). cbn [fst] in *.
  destruct (all_lines_read args Hj ds _ 0 rs c' (with_limits_wf _ HL) (empty_typed _) Hbs ltac:(lia) Hp)
    as (json & Hl & Hlen & Hread & Hall).
  do 5 eexists. exists json. split; [done|]. split; [done|]. split; [exact Hl|]. split; [done|]. split; [done|].
  split; [done|]. rewrite Hl. by apply read_with_dumps.
Qed.

Definition example_json_args : Args :=
  {| arg_dst_port := 5000; arg_src_port := None; arg_own_src := None; arg_timeout_ms := 0;
     arg_count := 2; arg_max_reassembled_size := 2926; arg_max_segments := 2;
     arg_max_pending_partials := 64; arg_reassembly_timeout_ms := 120000; arg_hexdump := true;
     arg_json := true |}.

Definition example_json_io : RecvIo :=
  {| rio_bind := fun _ _ _ => Ok tt; rio_set_timeout := fun _ => Ok tt;
     rio_recv := fun k => if k =? 0 then Ok (Some example_wire) else Ok (Some [0x45; 0]);
     rio_now := fun k => k |}.

(** Two datagrams, each behind its dump. *)
Lemma json_lines_faithful_witness :
  let display := fun _ : IoError => "" in
  exists r lines warnings,
    @run crc32c_bitwise display example_json_io example_json_args = Some (r, lines, warnings) /\
    lines !! 2%nat = Some "datagram[2] 4500" /\
    read_line (default "" (lines !! 3%nat)) =
    Some [number "index" 2; text "delivery" "error";
          text "error" "header error: IP header truncated: need 20 bytes, have 2"] /\
    length (omap read_line lines) = 2%nat.
Proof.
  cbv zeta.
  destruct (@json_lines_faithful crc32c_bitwise crc32c_bitwise_u32 (fun _ => "") example_json_io example_json_args)
    as (r & lines & warnings & rs & c' & json & Hr & _ & _ & Hlen & Hread & Hall & Hom).
  - intros k d Hk. unfold example_json_io in Hk. cbn [rio_recv] in Hk.
    destruct (k =? 0); injection Hk as <-; [apply example_wire_bytes|evaluate].
  - unfold ReassemblyLimits_wf, usize. evaluate.
  - reflexivity.
  - reflexivity.
  - reflexivity.
  - reflexivity.
  - exists r, lines, warnings. split; [exact Hr|].
    vm_compute in Hr. injection Hr as _ <- _. do 2 (split; [vm_compute; reflexivity|]).
    vm_compute. reflexivity.
Defined.
