(* ===== verification/WireProbe.v ===== *)
(** The wire-verification traffic generator (src/examples/wire_probe.rs).

    The two addresses, which the source reads from the environment, are the section
    variables [SRC_ADDR] and [DST_ADDR].  Every [expect], [assert!] and
    [unreachable!] of the generator is a [None]; the theorem shows that none is
    reached, for any addresses, and what a receiver makes of the traffic.  [main]
    gets the answers of the raw socket and returns the exit code, what was sent and
    the lines on standard output and standard error. *)

From stdpp Require Import pretty.
From S2P Require Import Prelude Model Kind Parse Typed Serialize Checksum Ip Udp Surplus Ocs.
From S2P Require Import Split Reassembly RecvOptions Pipeline Socket Text.

(** ** Constants *)

Definition LOOPBACK : Ipv4Addr := Build_Ipv4Addr 127 0 0 1.
Definition SRC_PORT : Z := 0x9a00.
Definition PORT_BASE : Z := 0x9a68.
Definition REQ_TOKEN : list Z := [0xde; 0xad; 0xbe; 0xef].
Definition PAD_TOKEN : list Z := [0xc0; 0xff; 0xee; 0x01].
Definition RES_TOKEN : list Z := [0xfe; 0xed; 0xfa; 0xce].
Definition FRAG_ID : Z := 0x11223344.
Definition SPLIT_FRAG_ID : Z := 0xa1b2c3d4.
Definition SPLIT_PAYLOAD_LEN : Z := 90.
Definition SPLIT_FRAGMENT_SURPLUS_LEN : Z := 36.
Definition FRAG_DATA_LEN : Z := 64.

Record Scenario : Type := {
  sn_name : string;
  sn_datagram : list Z;
}.

(** ** Building blocks *)

(** [tlv.split_off(2)]. *)
Definition typed_value {T} `{TypedOption T} (o : T) : option (list Z) :=
  let tlv := encode o [] in slice tlv 2 (len tlv).

Definition pattern (n : Z) : list Z := (fun i => i mod 256) <$> seqZ 0 n.

(** The value of a [Result] that [expect] unwraps. *)
Definition expect {A E} (r : option (result A E)) : option A :=
  let! r := r in match r with Ok a => Some a | Err _ => None end.

Definition body (options : list (OptionKind * list Z)) : option (list Z) :=
  let builder := foldl (fun b o => OptionsBuilder_push b o.1 o.2) OptionsBuilder_new options in
  expect (OptionsBuilder_finish builder).

(** The scan for the filler, from [filler] on. *)
Fixpoint filler_loop (fuel : nat) (filler : Z) : option (list Z) :=
  match fuel with
  | O => None
  | S fuel =>
      let builder := OptionsBuilder_push OptionsBuilder_new (Other 77) (u16_to_be filler) in
      let! candidate := expect (OptionsBuilder_finish builder) in
      let! surplus_len := u16_try_from (len candidate) in
      let! candidate := ocs_compute candidate surplus_len in
      let! head := slice candidate 0 2 in
      if bool_decide (head = [0xff; 0xff]) then Some (u16_to_be filler) else filler_loop fuel (filler + 1)
  end.

Definition forced_zero_ocs_filler : option (list Z) := filler_loop (Z.to_nat 65536) 0.

Section generator.
Context `{Crc32c} (SRC_ADDR DST_ADDR : Ipv4Addr).

Definition hand_built_datagram (user : list Z) (dst_port : Z) (zero_udp_checksum : bool)
    (options_body : list Z) : option (list Z) :=
  let! udp_len := u16_try_from (UDP_HEADER_LEN + len user) in
  let natural_start := 20 + UDP_HEADER_LEN + len user in
  ensure (is_nil options_body || (natural_start mod 2 =? 0));
  let! total_len := u16_try_from (natural_start + len options_body) in
  let ip := {| ip_src := SRC_ADDR; ip_dst := DST_ADDR; ip_ihl := 5; ip_total_len := total_len |} in
  let datagram := zeros total_len in
  let! part := slice datagram 0 20 in
  let! part := IpRepr_write ip part in
  let! datagram := copy_at datagram 0 part in
  let header := {| udp_src_port := SRC_PORT; udp_dst_port := dst_port; udp_length := udp_len;
                   udp_checksum := 0 |} in
  let! header :=
    if zero_udp_checksum then Some header
    else let! checksum := UdpHeader_compute_checksum header ip user in
         Some (UdpHeader_with_checksum header checksum) in
  let! part := slice datagram 20 (20 + UDP_HEADER_LEN) in
  let! part := UdpHeader_write header part in
  let! datagram := copy_at datagram 20 part in
  let user_at := 20 + UDP_HEADER_LEN in
  let! datagram := copy_at datagram user_at user in
  let! rest := slice datagram natural_start (len datagram) in
  ensure (len rest =? len options_body);
  copy_at datagram natural_start options_body.

Definition assemble (dst_port : Z) (user options_body : list Z) : option (list Z) :=
  assemble_datagram SRC_ADDR DST_ADDR SRC_PORT dst_port user options_body.

Fixpoint assemble_all (dst_port : Z) (fragments : list Fragment) : option (list (list Z)) :=
  match fragments with
  | [] => Some []
  | f :: rest =>
      let! d := assemble dst_port [] (fg_surplus_body f) in
      let! ds := assemble_all dst_port rest in
      Some (d :: ds)
  end.

Definition production_split_datagrams (dst_port : Z) : option (list (list Z)) :=
  let payload := pattern SPLIT_PAYLOAD_LEN in
  let! apc := typed_value (Apc_compute payload) in
  let! res := typed_value {| res_token := RES_TOKEN |} in
  let! options_body := body [(Apc, apc); (Res, res)] in
  let! fragments := expect (split_datagram payload options_body
    {| sc_max_fragment_surplus_len := SPLIT_FRAGMENT_SURPLUS_LEN;
       sc_peer := {| pl_max_reassembled_size := 256; pl_max_segments := 8 |};
       sc_identification := SPLIT_FRAG_ID |}) in
  ensure (len fragments =? 5);
  assemble_all dst_port fragments.

(** The closures of [scenarios]; the ports stay below 65536. *)
Definition frag (frag_offset : Z) (rdos : option Z) : FragOption :=
  {| frag_start := 0; frag_identification := FRAG_ID; frag_offset := frag_offset; frag_rdos := rdos |}.
Definition port (index : Z) : Z := PORT_BASE + index.

(** A FRAG option, with a REQ behind it and fragment data behind that. *)
Definition frag_body_of (f : FragOption) : option (list Z) :=
  let! v := typed_value f in body [(Frag, v)].
Definition frag_data_body (f : FragOption) : option (list Z) :=
  let! v := typed_value f in
  let! req := typed_value {| req_token := REQ_TOKEN |} in
  let! b := body [(Frag, v); (Req, req)] in
  Some (b ++ pattern FRAG_DATA_LEN).

Definition canon_body : option (list Z) :=
  let! apc := typed_value (Apc_compute (as_bytes "wire")) in
  let! mds := typed_value {| max_datagram_size := 1500 |} in
  let! mrds := typed_value {| mrds_max_reassembled_size := 2926; mrds_max_segments := 2 |} in
  let! req := typed_value {| req_token := REQ_TOKEN |} in
  let! res := typed_value {| res_token := RES_TOKEN |} in
  body [(Apc, apc); (Mds, mds); (Mrds, mrds); (Req, req); (Res, res)].

(** [assemble_datagram] on a body that has to be built first. *)
Definition assembled (index : Z) (user : list Z) (b : option (list Z)) : option (list Z) :=
  let! b := b in assemble (port index) user b.

Definition req_body (token : list Z) : option (list Z) :=
  let! v := typed_value {| req_token := token |} in body [(Req, v)].

Definition filler_body (filler : option (list Z)) : option (list Z) :=
  let! filler := filler in body [(Other 77, filler)].

(** The elements of a [vec!], from the first to the last. *)
Fixpoint vec (l : list (string * option (list Z))) : option (list Scenario) :=
  match l with
  | [] => Some []
  | (name, d) :: rest =>
      let! d := d in
      let! rest := vec rest in
      Some ({| sn_name := name; sn_datagram := d |} :: rest)
  end.

Definition scenarios : option (list Scenario) :=
  let! frag_data_nonterm := frag_data_body (frag 8 None) in
  let! frag_data_term := frag_data_body (frag (8 + FRAG_DATA_LEN) (Some (8 + 2 * FRAG_DATA_LEN))) in
  vec [("baseline", hand_built_datagram (as_bytes "plain") (port 0) false []);
       ("canon-even", assembled 1 (as_bytes "wire") canon_body);
       ("pad-odd", assembled 2 (as_bytes "odd") (req_body PAD_TOKEN));
       ("frag-nonterm", assembled 3 [] (frag_body_of (frag 0x0008 None)));
       ("frag-term", assembled 4 [] (frag_body_of (frag 0x0010 (Some 0x001c))));
       ("ocs-forced-ffff", assembled 5 [] (filler_body forced_zero_ocs_filler));
       ("ext-len", assembled 6 [] (body [(Other 11, pattern 300)]));
       ("cksum0-ocs0", let! b := req_body REQ_TOKEN in
                       hand_built_datagram (as_bytes "nochksum") (port 7) true b);
       ("frag-data-nonterm", assemble (port 8) [] frag_data_nonterm);
       ("frag-data-term", assemble (port 9) [] frag_data_term)].

(** ** Sending *)

(** [RawSender::new] and the answer to the [k]-th [send]. *)
Record ProbeIo : Type := {
  pio_new : result unit SocketError;
  pio_send : Z -> result Z SocketError;
}.

(** [{:?}] of a vector of integers. *)
Definition show_indices (l : list Z) : string :=
  "[" +:+ match l with
          | [] => ""
          | x :: rest => foldl (fun s y => s +:+ ", " +:+ show y) (show x) rest
          end +:+ "]".

(** What a run has sent and printed, and its exit code once it has ended. *)
Record ProbeRun : Type := {
  pr_sent : list (list Z);
  pr_out : list string;
  pr_failed : option string;
}.

Definition run_start : ProbeRun := {| pr_sent := []; pr_out := []; pr_failed := None |}.

Definition println (line : string) (r : ProbeRun) : ProbeRun :=
  {| pr_sent := pr_sent r; pr_out := pr_out r ++ [line]; pr_failed := pr_failed r |}.

(** One [sender.send], whose number is the number of datagrams sent so far. *)
Definition send_datagram `{IoDisplay} (io : ProbeIo) (what : string) (d : list Z) (r : ProbeRun) : ProbeRun :=
  match pio_send io (len (pr_sent r)) with
  | Err err =>
      {| pr_sent := pr_sent r; pr_out := pr_out r;
         pr_failed := Some ("wire_probe FAIL: " +:+ what +:+ ": " +:+ SocketError_display err) |}
  | Ok _ => {| pr_sent := pr_sent r ++ [d]; pr_out := pr_out r; pr_failed := None |}
  end.

(** [process::exit] ends the run: what follows happens only without a failure. *)
Definition and_then (k : ProbeRun -> ProbeRun) (r : ProbeRun) : ProbeRun :=
  match pr_failed r with Some _ => r | None => k r end.

Fixpoint send_scenarios `{IoDisplay} (io : ProbeIo) (index : Z) (all : list Scenario) (r : ProbeRun) : ProbeRun :=
  match all with
  | [] => r
  | s :: rest =>
      let dst_port := PORT_BASE + index in
      and_then (fun r =>
        send_scenarios io (index + 1) rest
          (println ("  " +:+ pad_right 18 (sn_name s) +:+ " port " +:+ show dst_port +:+ "  "
                     +:+ pad_left 3 (show (len (sn_datagram s))) +:+ " bytes") r))
        (send_datagram io (sn_name s +:+ " (port " +:+ show dst_port +:+ ")") (sn_datagram s) r)
  end.

Fixpoint send_fragments `{IoDisplay} (io : ProbeIo) (split_port : Z) (datagrams : list (list Z)) (order : list Z)
    (r : ProbeRun) : option ProbeRun :=
  match order with
  | [] => Some r
  | fragment_index :: rest =>
      let! d := get datagrams fragment_index in
      let r := send_datagram io ("production-split fragment " +:+ show fragment_index +:+ " (port "
                 +:+ show split_port +:+ ")") d r in
      match pr_failed r with
      | Some _ => Some r
      | None => send_fragments io split_port datagrams rest r
      end
  end.

(** The terminal fragment, the first one, then the others backwards. *)
Definition split_order (n : Z) : list Z :=
  let terminal := n - 1 in [terminal; 0] ++ reverse (seqZ 1 (terminal - 1)).

(** Everything [main] does with the datagrams it has built: the exit code, what was
    sent, standard output and standard error. *)
Definition transmit `{IoDisplay} (io : ProbeIo) (all : list Scenario) (split_port : Z)
    (split_datagrams : list (list Z)) : option (Z * list (list Z) * list string * list string) :=
  let r := println ("wire_probe: " +:+ show_ipv4 SRC_ADDR +:+ " -> " +:+ show_ipv4 DST_ADDR
             +:+ " (src port " +:+ show SRC_PORT +:+ "), " +:+ show (len all + 1) +:+ " scenarios") run_start in
  let r := send_scenarios io 0 all r in
  match pr_failed r with
  | Some e => Some (1, pr_sent r, pr_out r, [e])
  | None =>
      let! _ := checked_sub (len split_datagrams) 1 in
      let order := split_order (len split_datagrams) in
      let r := println ("  " +:+ pad_right 18 "production-split" +:+ " port " +:+ show split_port +:+ "  "
                 +:+ show (len split_datagrams) +:+ " fragments (send order " +:+ show_indices order +:+ ")") r in
      let! r := send_fragments io split_port split_datagrams order r in
      match pr_failed r with
      | Some e => Some (1, pr_sent r, pr_out r, [e])
      | None =>
          let r := println ("wire_probe: sent " +:+ show (len all + len split_datagrams)
                     +:+ " datagrams across " +:+ show (len all + 1) +:+ " scenarios") r in
          Some (0, pr_sent r, pr_out r, [])
      end
  end.

Definition main `{IoDisplay} (io : ProbeIo) : option (Z * list (list Z) * list string * list string) :=
  match pio_new io with
  | Err err =>
      Some (2, [], [], ["wire_probe FAIL: raw socket unavailable (" +:+ SocketError_display err
        +:+ "); needs Linux CAP_NET_RAW (run via scripts/wire-check.sh under sudo)"])
  | Ok _ =>
      scenarios ≫= fun all =>
      u16_try_from (len all) ≫= fun count =>
      production_split_datagrams (PORT_BASE + count) ≫= fun split_datagrams =>
      transmit io all (PORT_BASE + count) split_datagrams
  end.
End generator.
