(* ===== verification/WireProbeCorrect.v ===== *)
(** Theorems on the traffic generator: every scenario is built, for any addresses,
    and the library's own receiver makes of the traffic what the scenarios are
    named after. *)

From stdpp Require Import pretty.
From S2P Require Import Prelude Model Kind Parse Typed Serialize Checksum Ip Udp Surplus Ocs.
From S2P Require Import Split Reassembly FragRoundtrip RecvOptions Pipeline Socket Api EndToEnd FragEndToEnd Text.
From S2P Require Import WireProbe.

(** ** The filler *)

Lemma filler_candidate x y :
  expect (OptionsBuilder_finish (OptionsBuilder_push OptionsBuilder_new (Other 77) [x; y]))
  = Some [0; 0; 77; 4; x; y; 0; 0].
Proof. vm_compute. reflexivity. Qed.

(** The filler is first hit where the sum comes out as all ones. *)
Lemma filler_loop_hit fuel f :
  0 <= f <= 0xb2f3 -> 0xb2f3 < f + Z.of_nat fuel -> filler_loop fuel f = Some (u16_to_be 0xb2f3).
Proof.
  revert f. induction fuel as [|fuel IH]; intros f Hf Hn; [lia|]. cbn [filler_loop].
  unfold u16_to_be at 1. rewrite filler_candidate.
  change (u16_try_from (len [0; 0; 77; 4; f / 256 mod 256; f mod 256; 0; 0])) with (Some 8). cbv iota beta.
  rewrite ocs_compute_spec; [|repeat constructor; unfold u8; dlia|unfold u16; lia].
  set (rest := [77; 4; f / 256 mod 256; f mod 256; 0; 0]).
  assert (word_total rest + 8 = 19724 + f) as Ht by (unfold rest; cbn; unfold u16_from_be; dlia).
  assert (ocs_value rest 8 = if f =? 0xb2f3 then 0xffff else 65535 - (19724 + f)) as ->.
  { unfold ocs_value. rewrite Ht. assert (ones_complement (19724 + f) = 19724 + f) as ->
      by (unfold ones_complement; bool_cases; dlia).
    destruct (Z.eqb_spec f 0xb2f3), (Z.eqb_spec (65535 - (19724 + f)) 0); lia. }
  destruct (Z.eqb_spec f 0xb2f3) as [->|Hne]; [by vm_compute|].
  change (slice (u16_to_be ?v ++ rest) 0 2) with (Some (u16_to_be v)). cbv iota beta.
  unfold u16_to_be at 1.
  rewrite bool_decide_false; [apply IH; lia|]. intros [= Hh Hl]. dlia.
Qed.

Lemma forced_filler : forced_zero_ocs_filler = Some (u16_to_be 0xb2f3).
Proof. unfold forced_zero_ocs_filler. apply filler_loop_hit; rewrite ?Z2Nat.id; lia. Qed.

(** ** The receiver's cache *)

(** A receiver that grants what the split assumes of its peer. *)
Definition probe_limits : ReassemblyLimits :=
  {| rl_max_reassembled_size := 256; rl_max_segments := 8; rl_max_pending_partials := 64;
     rl_timeout := LIMITS_REASSEMBLY_TIMEOUT_MAX |}.

(** A valid cache that holds at most the keys [ks]. *)
Record watching (c : ReassemblyCache) (ks : list FragKey) : Prop := {
  wa_wf : Cache_wf c;
  wa_limits : rc_limits c = probe_limits;
  wa_keys : forall k, is_Some (rc_partials c !! k) -> k ∈ ks;
}.

Lemma watching_start : watching (ReassemblyCache_with_limits probe_limits) [].
Proof.
  split; [|done|by intros k [? H]]. apply with_limits_wf. unfold ReassemblyLimits_wf, usize. evaluate.
Qed.

Lemma watching_len c ks : watching c ks -> ReassemblyCache_len c <= len ks.
Proof.
  intros [_ _ Hk]. unfold ReassemblyCache_len, len. rewrite <- size_dom.
  apply inj_le. unfold size, set_size. cbn. apply submseteq_length, NoDup_submseteq; [apply NoDup_elements|].
  intros k [q Hq]%elem_of_elements%elem_of_dom. apply Hk. by exists q.
Qed.

Lemma watching_absent c ks k : watching c ks -> k ∉ ks -> rc_partials c !! k = None.
Proof. intros Hw Hk. apply eq_None_not_Some. intros Hs. by apply Hk, Hw. Qed.

(** The first fragment under a key. *)
Lemma first_fragment c ks k fr data pr now f r p :
  watching c ks -> k ∉ ks -> len ks < 64 -> u16 (frag_offset fr) -> bytes data ->
  NormalizedFragment_new fr (len data) = Some f -> default 0 (nf_udp_length f) <= 256 -> 8 + nf_end f <= 256 ->
  Partial_insert (Partial_new now) f data (fp_options pr) (fp_option_failures pr) (fp_ocs_nonzero pr) probe_limits
    = Some (r, p) ->
  exists c', ReassemblyCache_insert_with_options_and_failures c k fr data pr now
      = Some (match r with
              | InsertIncomplete => Incomplete | InsertComplete d => Complete d | InsertAbort x => Abort x
              end, c') /\ watching c' (k :: ks).
Proof.
  intros Hw Hk Hn Hu Hb Hf Hd He Hp. pose proof (watching_len _ _ Hw) as Hl.
  destruct (cache_insert_wf c k fr data pr now (wa_wf _ _ Hw) Hu Hb) as (o & c' & Hi & Hc' & HL & Hsame).
  pose proof (watching_absent _ _ _ Hw Hk) as Ha.
  assert (rc_partials (ReassemblyCache_gc c now) !! k = None) as Hg.
  { apply eq_None_not_Some. intros [q [Hq _]%gc_lookup]. congruence. }
  pose proof (len_subseteq _ _ (gc_dom c now)) as Hgl. unfold ReassemblyCache_len in Hl.
  assert (partial_at c k now = Partial_new now) as Hpa by (unfold partial_at; by rewrite Hg).
  assert (rl_max_reassembled_size (rc_limits c) = 256 /\ rl_max_pending_partials (rc_limits c) = 64) as [H1 H2]
    by (by rewrite (wa_limits _ _ Hw)).
  assert (rl_max_reassembled_size (rc_limits c) <= USIZE_MAX) by (rewrite H1; done).
  pose proof (cache_insert_at c k fr data pr now f Hf ltac:(lia) ltac:(lia)
    ltac:(right; unfold ReassemblyCache_len; lia)) as Heq. rewrite Heq in *.
  rewrite Hpa in *. unfold ReassemblyCache_insert_partial in *.
  cbn [rc_limits ReassemblyCache_gc] in *. rewrite (wa_limits _ _ Hw), Hp in *.
  exists c'. split; [destruct r; by simplify_eq|]. split; [done|congruence|].
  intros k' Hk'. destruct (decide (k' = k)) as [->|Hne]; [by left|]. right. apply Hw.
  rewrite Hsame in Hk' by done. destruct Hk' as [q [Hq _]%gc_lookup]. by exists q.
Qed.

(** Keys with different ports or identifications. *)
Ltac distinct_keys := rewrite ?elem_of_cons, ?elem_of_nil; intros Hin; repeat destruct Hin as [Hin|Hin];
  done || (injection Hin; discriminate).

(** ** Receiving what was assembled *)

Section receiving.
Context `{Crc32cSpec} (src dst : Ipv4Addr).
Hypothesis Hsrc : Ipv4Addr_wf src.
Hypothesis Hdst : Ipv4Addr_wf dst.

Definition probe_key (dst_port id : Z) : FragKey :=
  {| fk_src := src; fk_dst := dst; fk_src_port := SRC_PORT; fk_dst_port := dst_port; fk_identification := id |}.

(** What an assembled datagram needs, addresses aside. *)
Definition fits (dst_port : Z) (user rest : list Z) : Prop :=
  u16 dst_port /\ bytes user /\ bytes rest /\
  28 + len user + assembled_surplus user (0 :: 0 :: rest) <= 65535.

Lemma fits_assemble dst_port user rest :
  fits dst_port user rest -> assemble_wf src dst SRC_PORT dst_port user (0 :: 0 :: rest).
Proof.
  intros (Hp & Hu & Hr & Hl). pose proof (len_nonneg rest). do 2 (split; [done|]). split; [unfold u16, SRC_PORT; lia|].
  do 2 (split; [done|]). split; [|split; [rewrite !len_cons; lia|done]].
  repeat (constructor; [unfold u8; lia|]). done.
Qed.

Lemma assembled_processed dst_port user rest po c now :
  fits dst_port user rest ->
  parse_options rest user (10 + len user + len (pad_of user)) = Some (Ok po) ->
  exists d v, assemble src dst dst_port user (0 :: 0 :: rest) = Some d /\
    process_datagram d c now =
      dispatch (fun d c => process_datagram_inner 1 d c now false) v c now true po StValid /\
    v = wire_view (assembled_ip src dst user (0 :: 0 :: rest))
          (assembled_udp src dst SRC_PORT dst_port user (0 :: 0 :: rest)) (assembled_tail user (0 :: 0 :: rest)) /\
    uv_user_data v = user.
Proof.
  intros Hf Hp. pose proof (fits_assemble _ _ _ Hf) as Hw. 
  pose proof (assemble_spec _ _ _ _ _ _ Hw) as Ha.
  destruct (assembled_wire src dst SRC_PORT dst_port user _ Hw) as [_ Hr].
  do 2 eexists. split; [exact Ha|]. split; [|split; [reflexivity|]].
  - unfold process_datagram. cbn [process_datagram_inner]. unfold wire in Hr at 1. rewrite Hr.
    rewrite receive_options_assembled by done. by rewrite Hp.
  - unfold wire_view, assembled_tail. cbn [uv_user_data]. rewrite sub_prefix; [done|]. simpl. lia.
Qed.

(** An assembled datagram without FRAG is delivered. *)
Lemma assembled_delivered dst_port user rest os rs c now :
  fits dst_port user rest ->
  parse_options rest user (10 + len user + len (pad_of user)) = Some (Ok
    {| po_options := os; po_reports := rs; po_frag := None; po_unsupported_unsafe_seen := false;
       po_fragment_failed := false |}) ->
  exists d, assemble src dst dst_port user (0 :: 0 :: rest) = Some d /\
    process_datagram d c now = Some (Ok (DeliverPayload
      {| pl_data := user; pl_options := os; pl_option_bearing := true; pl_reports := rs;
         pl_ocs_reports := [{| ocr_status := StValid; ocr_source := Datagram |}] |}), c).
Proof.
  intros Hf Hp. destruct (assembled_processed _ _ _ _ c now Hf Hp) as (d & v & Hd & Hpd & _ & Hv).
  exists d. split; [done|]. rewrite Hpd. unfold dispatch. rewrite Hv. by destruct (is_nil user).
Qed.

(** An assembled fragment, the first of its datagram. *)
Lemma assembled_fragment dst_port rest fr os rs c ks now f r p :
  let data := sub rest (frag_start fr - 10) (len rest) in
  let pr := {| fp_options := os; fp_option_failures := fragment_option_failures rs;
               fp_ocs_nonzero := Some true |} in
  fits dst_port [] rest ->
  parse_options rest [] 10 = Some (Ok
    {| po_options := os; po_reports := rs; po_frag := Some fr; po_unsupported_unsafe_seen := false;
       po_fragment_failed := false |}) ->
  10 <= frag_start fr <= 10 + len rest -> u16 (frag_offset fr) ->
  watching c ks -> probe_key dst_port (frag_identification fr) ∉ ks -> len ks < 64 ->
  NormalizedFragment_new fr (len data) = Some f -> default 0 (nf_udp_length f) <= 256 -> 8 + nf_end f <= 256 ->
  Partial_insert (Partial_new now) f data os (fragment_option_failures rs) (Some true) probe_limits = Some (r, p) ->
  match r with InsertComplete _ => False | _ => True end ->
  exists d c', assemble src dst dst_port [] (0 :: 0 :: rest) = Some d /\
    process_datagram d c now = Some (Ok (match r with InsertIncomplete => Buffered | _ => Dropped end), c') /\
    watching c' (probe_key dst_port (frag_identification fr) :: ks).
Proof.
  intros data pr Hf Hp Hs Hu Hw Hk Hn Hnf Hd He Hi Hr.
  destruct (assembled_processed _ _ _ _ c now Hf Hp) as (d & v & Hd' & Hpd & -> & Hv).
  set (v := wire_view _ _ _) in *. exists d.
  destruct (first_fragment c ks (probe_key dst_port (frag_identification fr)) fr data pr now f r p)
    as (c' & Hins & Hw'); try done; [apply Forall_sub, Hf|].
  exists c'. split; [done|]. split; [|done]. rewrite Hpd. unfold dispatch. rewrite Hv.
  cbn [is_nil negb po_frag po_fragment_failed po_unsupported_unsafe_seen andb orb fmap option_fmap option_map].
  unfold receive_fragment. cbn [negb po_options po_reports].
  assert (slice (uv_datagram v) (uv_udp_at v + frag_start fr) (uv_ip_end v) = Some data) as ->.
  { unfold v, wire_view. cbn [uv_datagram uv_udp_at uv_ip_end]. rewrite assembled_tail_cons.
    change (pad_of []) with (@nil Z). cbn [app].
    set (o := u16_to_be _). assert (len (o ++ rest) = 2 + len rest) as Hl by (by rewrite len_app).
    rewrite slice_Some by (rewrite ?len_wire; lia).
    replace (20 + frag_start fr) with (28 + (frag_start fr - 8)) by lia. rewrite sub_wire by lia.
    rewrite Hl. unfold data. replace (frag_start fr - 8) with (2 + (frag_start fr - 10)) by lia.
    change 2 with (len o). by rewrite sub_app_shift by lia. }
  change (frag_key (uv_ip v) (uv_udp v) fr) with (probe_key dst_port (frag_identification fr)).
  rewrite bool_decide_true by done. fold pr. rewrite Hins. by destruct r.
Qed.

(** ** Hand-built datagrams *)

Definition hand_ip (user ob : list Z) : IpRepr :=
  {| ip_src := src; ip_dst := dst; ip_ihl := 5; ip_total_len := 28 + len user + len ob |}.
Definition hand_udp0 (dst_port : Z) (user : list Z) : UdpHeader :=
  {| udp_src_port := SRC_PORT; udp_dst_port := dst_port; udp_length := 8 + len user; udp_checksum := 0 |}.
Definition hand_udp (dst_port : Z) (zero : bool) (user ob : list Z) : UdpHeader :=
  if zero then hand_udp0 dst_port user
  else UdpHeader_with_checksum (hand_udp0 dst_port user)
         (udp_checksum_value (hand_udp0 dst_port user) (hand_ip user ob) user).

Definition hand_wf (dst_port : Z) (user ob : list Z) : Prop :=
  u16 dst_port /\ bytes user /\ bytes ob /\ 28 + len user + len ob <= 65535 /\
  (ob = [] \/ (28 + len user) mod 2 = 0).

Lemma hand_headers_wf dst_port user ob :
  hand_wf dst_port user ob -> IpRepr_wf (hand_ip user ob) /\ UdpHeader_wf (hand_udp0 dst_port user).
Proof.
  intros (Hp & _ & _ & Hl & _). pose proof (len_nonneg user). pose proof (len_nonneg ob). split.
  - do 2 (split; [done|]). unfold hand_ip, u16. cbn [ip_ihl ip_total_len]. lia.
  - unfold UdpHeader_wf, hand_udp0, u16, SRC_PORT in *.
    cbn [udp_src_port udp_dst_port udp_length udp_checksum]. lia.
Qed.

Lemma hand_built_spec dst_port zero user ob :
  hand_wf dst_port user ob ->
  hand_built_datagram src dst user dst_port zero ob =
  Some (wire (hand_ip user ob) (hand_udp dst_port zero user ob) (user ++ ob)).
Proof.
  intros Hw. destruct (hand_headers_wf _ _ _ Hw) as [Hip Hudp]. destruct Hw as (Hp & Hu & Hb & Hl & Heven).
  pose proof (len_nonneg user). pose proof (len_nonneg ob).
  unfold hand_built_datagram, u16_try_from. change UDP_HEADER_LEN with 8. change U16_MAX with 65535.
  change (20 + 8) with 28. destruct (Z.leb_spec (8 + len user) 65535); [|lia]. cbv zeta.
  assert (is_nil ob || ((28 + len user) mod 2 =? 0) = true) as ->.
  { destruct Heven as [->|He]; [done|]. apply orb_true_iff. right. by apply Z.eqb_eq. }
  destruct (Z.leb_spec (28 + len user + len ob) 65535); [|lia].
  assert (zeros (28 + len user + len ob) = zeros 20 ++ zeros 8 ++ zeros (len user) ++ zeros (len ob)) as ->
    by (rewrite <- !zeros_app by lia; f_equal; lia).
  rewrite (slice_prefix (zeros 20)) by done. fold (hand_ip user ob).
  rewrite IpRepr_write_zeros by done. rewrite (copy_at_front (zeros 20)) by done.
  fold (hand_udp0 dst_port user).
  destruct (UdpHeader_compute_checksum_spec (hand_udp0 dst_port user) (hand_ip user ob) user Hudp Hip Hu eq_refl)
    as [-> _].
  assert ((if zero then Some (hand_udp0 dst_port user)
           else let! c := Some (udp_checksum_value (hand_udp0 dst_port user) (hand_ip user ob) user) in
                Some (UdpHeader_with_checksum (hand_udp0 dst_port user) c))
          = Some (hand_udp dst_port zero user ob)) as -> by (by destruct zero).
  set (h := ip_header _). assert (len h = 20) as Hh by apply len_ip_header.
  rewrite (slice_middle h (zeros 8)) by (by rewrite Hh).
  rewrite UdpHeader_write_zeros, copy_at_middle by (rewrite ?Hh; done).
  set (g := udp_header _). assert (len g = 8) as Hg by done.
  rewrite (app_assoc h g). rewrite copy_at_middle by (rewrite ?len_app, ?Hh, ?Hg, ?len_zeros by lia; lia).
  set (pre := (h ++ g) ++ user). replace ((h ++ g) ++ user ++ zeros (len ob)) with (pre ++ zeros (len ob) ++ [])
    by (unfold pre; by rewrite app_nil_r, <- app_assoc).
  assert (len pre = 28 + len user) as Hpre by (unfold pre; rewrite !len_app, Hh, Hg; lia).
  assert (len (pre ++ zeros (len ob) ++ []) = 28 + len user + len ob) as Hlz
    by (rewrite app_nil_r, len_app, len_zeros by lia; lia).
  rewrite Hlz, slice_Some, len_sub by lia.
  destruct (Z.eqb_spec (28 + len user + len ob - (28 + len user)) (len ob)); [|lia].
  rewrite copy_at_middle by (rewrite ?len_zeros by lia; lia). unfold pre, wire. by rewrite app_nil_r, <- !app_assoc.
Qed.

Lemma hand_built_wire dst_port zero user ob :
  hand_wf dst_port user ob ->
  let ip := hand_ip user ob in
  let udp := hand_udp dst_port zero user ob in
  wire_wf ip udp (user ++ ob) /\ udp_length udp = 8 + len user /\
  receive_udp (wire ip udp (user ++ ob)) = Some (Ok (wire_view ip udp (user ++ ob))).
Proof.
  intros Hw ip udp. destruct (hand_headers_wf _ _ _ Hw) as [Hip (H1 & H2 & H3 & H4)].
  destruct Hw as (Hp & Hu & Hb & Hl & _). pose proof (len_nonneg ob).
  assert (udp_length udp = 8 + len user) as Hul by (by unfold udp; destruct zero).
  assert (wire_wf ip udp (user ++ ob)) as Hwire.
  { split; [done|]. split; [done|]. split; [rewrite len_app; unfold ip, hand_ip; cbn [ip_total_len]; lia|].
    split; [|split; [rewrite Hul, len_app; pose proof (len_nonneg user); lia|by apply Forall_app]].
    unfold udp, hand_udp. destruct zero; [done|]. do 3 (split; [done|]). apply udp_checksum_value_u16. }
  split; [done|]. split; [done|]. apply receive_udp_wire; [done|]. intros Hne.
  rewrite Hul. replace (8 + len user - 8) with (len user) by lia. rewrite sub_prefix by done.
  unfold udp, hand_udp in *. by destruct zero.
Qed.

(** ** The scenarios *)

(** A scenario that leaves the cache alone: it is built, and delivered as [r]. *)
Definition delivers (build : option (list Z)) (r : Delivery) : Prop :=
  exists d, build = Some d /\ forall c now, process_datagram d c now = Some (Ok r, c).

(** A scenario that is the first fragment of its datagram. *)
Definition buffers (build : option (list Z)) (k : FragKey) (r : Delivery) : Prop :=
  exists d, build = Some d /\ forall c ks now, watching c ks -> k ∉ ks -> len ks < 64 ->
    exists c', process_datagram d c now = Some (Ok r, c') /\ watching c' (k :: ks).

Definition delivery (user : list Z) (os : list RawOption) (rs : list OptionReport) (st : OcsStatus) : Delivery :=
  DeliverPayload {| pl_data := user; pl_options := os; pl_option_bearing := true; pl_reports := rs;
                    pl_ocs_reports := [{| ocr_status := st; ocr_source := Datagram |}] |}.

Lemma delivers_assembled index user b rest os rs :
  b = Some (0 :: 0 :: rest) -> fits (port index) user rest ->
  parse_options rest user (10 + len user + len (pad_of user)) = Some (Ok
    {| po_options := os; po_reports := rs; po_frag := None; po_unsupported_unsafe_seen := false;
       po_fragment_failed := false |}) ->
  delivers (assembled src dst index user b) (delivery user os rs StValid).
Proof.
  intros -> Hf Hp. pose proof (assemble_spec _ _ _ _ _ _ (fits_assemble _ _ _ Hf)) as Ha.
  eexists. split; [exact Ha|]. intros c now.
  destruct (assembled_delivered _ _ _ _ _ c now Hf Hp) as (d & Hd & Hr).
  unfold assemble in Hd. rewrite Ha in Hd. injection Hd as <-. exact Hr.
Qed.

Lemma buffers_assembled dst_port rest fr os rs f r id :
  let data := sub rest (frag_start fr - 10) (len rest) in
  fits dst_port [] rest ->
  parse_options rest [] 10 = Some (Ok
    {| po_options := os; po_reports := rs; po_frag := Some fr; po_unsupported_unsafe_seen := false;
       po_fragment_failed := false |}) ->
  10 <= frag_start fr <= 10 + len rest -> u16 (frag_offset fr) ->
  NormalizedFragment_new fr (len data) = Some f -> default 0 (nf_udp_length f) <= 256 -> 8 + nf_end f <= 256 ->
  (forall now, exists p, Partial_insert (Partial_new now) f data os (fragment_option_failures rs) (Some true)
     probe_limits = Some (r, p)) ->
  match r with InsertComplete _ => False | _ => True end -> frag_identification fr = id ->
  buffers (assemble src dst dst_port [] (0 :: 0 :: rest)) (probe_key dst_port id)
    (match r with InsertIncomplete => Buffered | _ => Dropped end).
Proof.
  intros data Hf Hp Hs Hu Hn Hd He Hi Hr <-. pose proof (assemble_spec _ _ _ _ _ _ (fits_assemble _ _ _ Hf)) as Ha.
  eexists. split; [exact Ha|]. intros c ks now Hw Hk Hl. destruct (Hi now) as [p Hpi].
  destruct (assembled_fragment _ _ _ _ _ c ks now f r p Hf Hp Hs Hu Hw Hk Hl Hn Hd He Hpi Hr)
    as (d & c' & Hd' & Hpd & Hw').
  unfold assemble in Hd'. rewrite Ha in Hd'. injection Hd' as <-. by exists c'.
Qed.

Lemma baseline_delivered :
  delivers (hand_built_datagram src dst (as_bytes "plain") (port 0) false [])
    (deliver_without_options (as_bytes "plain") false StAbsent).
Proof.
  assert (hand_wf (port 0) (as_bytes "plain") []) as Hw
    by (split; [unfold u16; evaluate|]; split; [evaluate|]; split; [constructor|]; split; [done|by left]).
  eexists. split; [by apply hand_built_spec|]. intros c now.
  destruct (hand_built_wire _ false _ _ Hw) as (_ & _ & Hr).
  unfold process_datagram. cbn [process_datagram_inner]. rewrite Hr. reflexivity.
Qed.

Lemma cksum0_delivered :
  delivers (let! b := req_body REQ_TOKEN in hand_built_datagram src dst (as_bytes "nochksum") (port 7) true b)
    (delivery (as_bytes "nochksum") [{| ro_kind := Req; ro_value := REQ_TOKEN |}] [report Req Success] StUnused).
Proof.
  set (rest := [6; 6; 0xde; 0xad; 0xbe; 0xef; 0; 0]).
  set (ob := pad_of (as_bytes "nochksum") ++ 0 :: 0 :: rest).
  assert (req_body REQ_TOKEN = Some ob) as -> by (by vm_compute).
  assert (hand_wf (port 7) (as_bytes "nochksum") ob) as Hw
    by (split; [unfold u16; evaluate|]; split; [evaluate|]; split; [evaluate|]; split; [done|by right]).
  eexists. split; [by apply hand_built_spec|]. intros c now.
  destruct (hand_built_wire _ true _ _ Hw) as (Hwire & Hul & Hr).
  unfold process_datagram. cbn [process_datagram_inner]. rewrite Hr.
  pose proof (receive_options_wire _ _ (as_bytes "nochksum") 0 0 rest OcsUnused StUnused Hwire Hul
    (ocs_unused rest _) (or_intror (conj eq_refl eq_refl))) as Hro. fold ob in Hro. rewrite Hro.
  assert (forall n, parse_options rest (as_bytes "nochksum") n = Some (Ok
    {| po_options := [{| ro_kind := Req; ro_value := REQ_TOKEN |}]; po_reports := [report Req Success];
       po_frag := None; po_unsupported_unsafe_seen := false; po_fragment_failed := false |})) as ->
    by (intros n; by vm_compute).
  reflexivity.
Qed.

(** The options of the canonical scenario and of the split one. *)
Definition canon_options : list RawOption :=
  [{| ro_kind := Apc; ro_value := u32_to_be (crc32c (as_bytes "wire")) |};
   {| ro_kind := Mds; ro_value := [5; 0xdc] |}; {| ro_kind := Mrds; ro_value := [0x0b; 0x6e; 2] |};
   {| ro_kind := Req; ro_value := REQ_TOKEN |}; {| ro_kind := Res; ro_value := RES_TOKEN |}].

Definition split_options : list RawOption :=
  [{| ro_kind := Apc; ro_value := u32_to_be (crc32c (pattern SPLIT_PAYLOAD_LEN)) |};
   {| ro_kind := Res; ro_value := RES_TOKEN |}].

Lemma apc_sendable data : sendable {| ro_kind := Apc; ro_value := u32_to_be (crc32c data) |}.
Proof.
  split; [split; [unfold OptionKind_wf; evaluate|apply u32_to_be_bytes]|]. by split.
Qed.

Lemma token_sendable k v :
  bytes v -> OptionKind_wf k -> validate_option {| ro_kind := k; ro_value := v |} = Ok tt ->
  to_byte k <> KIND_FRAG -> sendable {| ro_kind := k; ro_value := v |}.
Proof. by intros. Qed.

Ltac concrete_option := apply token_sendable; [evaluate|unfold OptionKind_wf; evaluate|done..].

Lemma canon_sendable : Forall sendable canon_options /\ unique_reportable canon_options.
Proof.
  split; [|apply unique_reportable_NoDup; apply (bool_decide_eq_true_1 _); vm_compute; reflexivity].
  constructor; [apply apc_sendable|]. repeat (constructor; [concrete_option|]). constructor.
Qed.

Lemma split_sendable :
  Forall sendable split_options /\ unique_reportable split_options.
Proof.
  split; [|apply unique_reportable_NoDup; apply (bool_decide_eq_true_1 _); vm_compute; reflexivity].
  constructor; [apply apc_sendable|]. constructor; [concrete_option|constructor].
Qed.

Lemma canon_body_bytes : canon_body = Some (options_body_bytes canon_options).
Proof.
  unfold canon_body, canon_options. change (typed_value (Apc_compute (as_bytes "wire")))
    with (Some (u32_to_be (crc32c (as_bytes "wire")))). unfold u32_to_be.
  generalize ((crc32c (as_bytes "wire") / 16777216) mod 256), ((crc32c (as_bytes "wire") / 65536) mod 256),
    ((crc32c (as_bytes "wire") / 256) mod 256), (crc32c (as_bytes "wire") mod 256).
  intros a b c d. vm_compute. reflexivity.
Qed.

(** The APC is that of the data, so that every option is delivered. *)
Lemma apc_succeeds data :
  sent_status data {| ro_kind := Apc; ro_value := u32_to_be (crc32c data) |} = Success.
Proof. unfold sent_status. cbn [ro_value]. by rewrite bool_decide_true. Qed.

Lemma canon_succeeds :
  delivered_options (as_bytes "wire") canon_options = canon_options /\
  delivered_reports (as_bytes "wire") canon_options =
    [report Apc Success; report Mds Success; report Mrds Success; report Req Success; report Res Success].
Proof.
  unfold delivered_options, delivered_reports, canon_options. rewrite filter_cons_True by apply apc_succeeds.
  split; [reflexivity|]. cbn [fmap list_fmap]. rewrite apc_succeeds. reflexivity.
Qed.

Lemma canon_delivered :
  delivers (assembled src dst 1 (as_bytes "wire") canon_body)
    (delivery (as_bytes "wire") canon_options
       [report Apc Success; report Mds Success; report Mrds Success; report Req Success; report Res Success] StValid).
Proof.
  destruct canon_sendable as [Hs Hu]. rewrite canon_body_bytes. unfold assembled, assemble.
  assert (assemble_wf src dst SRC_PORT (port 1) (as_bytes "wire") (options_body_bytes canon_options)) as Hw.
  { do 2 (split; [done|]). split; [unfold u16; evaluate|]. split; [unfold u16; evaluate|]. split; [evaluate|].
    split; [|by vm_compute]. by apply options_body_bytes_bytes, sendable_encodable. }
  eexists. split; [by apply assemble_spec|]. intros c now.
  pose proof (process_assembled src dst SRC_PORT (port 1) (as_bytes "wire") canon_options c now Hs Hu Hw) as Hp.
  cbv zeta in Hp. destruct canon_succeeds as [Ho Hr]. rewrite Ho, Hr in Hp. exact Hp.
Qed.

(** A body whose bytes are known. *)
Ltac concrete_fits := split; [unfold u16; evaluate|]; split; [evaluate|]; split; [evaluate|]; by vm_compute.

Ltac concrete_delivery :=
  eapply delivers_assembled; [vm_compute; reflexivity|concrete_fits|vm_compute; reflexivity].

Lemma pad_odd_delivered :
  delivers (assembled src dst 2 (as_bytes "odd") (req_body PAD_TOKEN))
    (delivery (as_bytes "odd") [{| ro_kind := Req; ro_value := PAD_TOKEN |}] [report Req Success] StValid).
Proof. concrete_delivery. Qed.

Lemma ocs_forced_delivered :
  delivers (assembled src dst 5 [] (filler_body forced_zero_ocs_filler))
    (delivery [] [] [report (Other 77) Ignored] StValid).
Proof. rewrite forced_filler. concrete_delivery. Qed.

Lemma ext_len_delivered :
  delivers (assembled src dst 6 [] (body [(Other 11, pattern 300)]))
    (delivery [] [] [report (Other 11) Ignored] StValid).
Proof. concrete_delivery. Qed.

(** The insertion is evaluated with the arrival time left open. *)
Ltac concrete_fragment f r :=
  eapply (buffers_assembled _ _ _ _ _ f r);
    [concrete_fits|vm_compute; reflexivity|vm_compute; split; intros ?; discriminate
    |unfold u16; evaluate|vm_compute; reflexivity|vm_compute; intros ?; discriminate
    |vm_compute; intros ?; discriminate|intros now; eexists; vm_compute; reflexivity|exact I|reflexivity].

Definition nonterminal (n : Z) : NormalizedFragment :=
  {| nf_start := 0; nf_end := n; nf_udp_length := None |}.

(** Each body is evaluated before its datagram is assembled. *)
Ltac known_body b := let v := eval vm_compute in b in assert (b = v) as -> by (vm_compute; reflexivity).

Lemma frag_nonterm_buffered :
  buffers (assembled src dst 3 [] (frag_body_of (frag 0x0008 None))) (probe_key (port 3) FRAG_ID) Buffered.
Proof.
  unfold assembled. known_body (frag_body_of (frag 0x0008 None)).
  concrete_fragment (nonterminal 0) InsertIncomplete.
Qed.

(** Its RDOS lies behind the end of its data, which no set of fragments allows. *)
Lemma frag_term_dropped :
  buffers (assembled src dst 4 [] (frag_body_of (frag 0x0010 (Some 0x001c)))) (probe_key (port 4) FRAG_ID) Dropped.
Proof.
  unfold assembled. known_body (frag_body_of (frag 0x0010 (Some 0x001c))).
  concrete_fragment {| nf_start := 8; nf_end := 8; nf_udp_length := Some 28 |} (InsertAbort Overlap).
Qed.

Lemma data_nonterm_buffered :
  exists b, frag_data_body (frag 8 None) = Some b /\
    buffers (assemble src dst (port 8) [] b) (probe_key (port 8) FRAG_ID) Buffered.
Proof.
  known_body (frag_data_body (frag 8 None)). eexists. split; [reflexivity|].
  concrete_fragment (nonterminal 64) InsertIncomplete.
Qed.

Lemma data_term_buffered :
  exists b, frag_data_body (frag (8 + FRAG_DATA_LEN) (Some (8 + 2 * FRAG_DATA_LEN))) = Some b /\
    buffers (assemble src dst (port 9) [] b) (probe_key (port 9) FRAG_ID) Buffered.
Proof.
  known_body (frag_data_body (frag (8 + FRAG_DATA_LEN) (Some (8 + 2 * FRAG_DATA_LEN)))).
  eexists. split; [reflexivity|].
  concrete_fragment {| nf_start := 64; nf_end := 128; nf_udp_length := Some 136 |} InsertIncomplete.
Qed.

(** What the receiver makes of the scenarios, in their order. *)
Definition scenario_results : list Delivery :=
  [deliver_without_options (as_bytes "plain") false StAbsent;
   delivery (as_bytes "wire") canon_options
     [report Apc Success; report Mds Success; report Mrds Success; report Req Success; report Res Success] StValid;
   delivery (as_bytes "odd") [{| ro_kind := Req; ro_value := PAD_TOKEN |}] [report Req Success] StValid;
   Buffered; Dropped;
   delivery [] [] [report (Other 77) Ignored] StValid; delivery [] [] [report (Other 11) Ignored] StValid;
   delivery (as_bytes "nochksum") [{| ro_kind := Req; ro_value := REQ_TOKEN |}] [report Req Success] StUnused;
   Buffered; Buffered].

Definition scenario_keys : list FragKey :=
  [probe_key (port 9) FRAG_ID; probe_key (port 8) FRAG_ID; probe_key (port 4) FRAG_ID; probe_key (port 3) FRAG_ID].

Lemma vec_spec (l : list (string * option (list Z))) (ds : list (list Z)) :
  Forall2 (fun x d => x.2 = Some d) l ds ->
  exists all, vec l = Some all /\ sn_name <$> all = l.*1 /\ sn_datagram <$> all = ds.
Proof.
  induction 1 as [|[name o] d l ds Ho _ (all & Hall & Hn & Hd)]; [by exists []|]. cbn [snd] in Ho. subst o.
  exists ({| sn_name := name; sn_datagram := d |} :: all). cbn [vec]. rewrite Hall.
  cbn [fmap list_fmap fst sn_name sn_datagram]. by rewrite <- Hn, <- Hd.
Qed.

Lemma process_all_cons now d ds r c c1 rs c2 :
  process_datagram d c now = Some (r, c1) -> process_all c1 ds = Some (rs, c2) ->
  process_all c ((now, d) :: ds) = Some (r :: rs, c2).
Proof. intros H1 H2. cbn [process_all]. by rewrite H1, H2. Qed.

Lemma scenarios_received :
  exists all, scenarios src dst = Some all /\
    sn_name <$> all = ["baseline"; "canon-even"; "pad-odd"; "frag-nonterm"; "frag-term"; "ocs-forced-ffff"; "ext-len";
                       "cksum0-ocs0"; "frag-data-nonterm"; "frag-data-term"] /\
    forall times, length times = 10%nat ->
    exists c', process_all (ReassemblyCache_with_limits probe_limits) (zip times (sn_datagram <$> all))
        = Some (Ok <$> scenario_results, c') /\ watching c' scenario_keys.
Proof.
  unfold scenarios. destruct data_nonterm_buffered as (b8 & -> & d8 & E8 & P8).
  destruct data_term_buffered as (b9 & -> & d9 & E9 & P9).
  destruct baseline_delivered as (d0 & E0 & P0). destruct canon_delivered as (d1 & E1 & P1).
  destruct pad_odd_delivered as (d2 & E2 & P2). destruct frag_nonterm_buffered as (d3 & E3 & P3).
  destruct frag_term_dropped as (d4 & E4 & P4). destruct ocs_forced_delivered as (d5 & E5 & P5).
  destruct ext_len_delivered as (d6 & E6 & P6). destruct cksum0_delivered as (d7 & E7 & P7).
  match goal with |- context [vec ?l] =>
    destruct (vec_spec l [d0; d1; d2; d3; d4; d5; d6; d7; d8; d9]) as (all & Hall & Hn & Hd) end.
  { constructor; [exact E0|]. constructor; [exact E1|]. constructor; [exact E2|]. constructor; [exact E3|].
    constructor; [exact E4|]. constructor; [exact E5|]. constructor; [exact E6|]. constructor; [exact E7|].
    constructor; [exact E8|]. constructor; [exact E9|]. constructor. }
  exists all. split; [exact Hall|]. split; [exact Hn|]. intros times Ht. rewrite Hd. clear Hall Hn Hd.
  do 10 (destruct times as [|? times]; [done|]). destruct times; [|done]. clear E0 E1 E2 E3 E4 E5 E6 E7 E8 E9 Ht.
  destruct (P3 _ [] z2 watching_start) as (c3 & Q3 & W3); [distinct_keys|done|].
  destruct (P4 c3 _ z3 W3) as (c4 & Q4 & W4); [distinct_keys|done|].
  destruct (P8 c4 _ z7 W4) as (c8 & Q8 & W8); [distinct_keys|done|].
  destruct (P9 c8 _ z8 W8) as (c9 & Q9 & W9); [distinct_keys|done|].
  exists c9. split; [|exact W9]. cbn [zip_with].
  do 3 (eapply process_all_cons; [eauto|]). do 2 (eapply process_all_cons; [eauto|]).
  do 3 (eapply process_all_cons; [eauto|]). do 2 (eapply process_all_cons; [eauto|]). reflexivity.
Qed.

(** ** The production split *)

Definition probe_split_config : SplitConfig :=
  {| sc_max_fragment_surplus_len := SPLIT_FRAGMENT_SURPLUS_LEN;
     sc_peer := {| pl_max_reassembled_size := 256; pl_max_segments := 8 |};
     sc_identification := SPLIT_FRAG_ID |}.

Lemma split_evaluated :
  body [(Apc, u32_to_be (crc32c (pattern SPLIT_PAYLOAD_LEN))); (Res, RES_TOKEN)]
    = Some (options_body_bytes split_options) /\
  exists frags, split_datagram (pattern SPLIT_PAYLOAD_LEN) (options_body_bytes split_options) probe_split_config
      = Some (Ok frags) /\ length frags = 5%nat.
Proof.
  unfold split_options, u32_to_be. set (v := crc32c _).
  generalize ((v / 16777216) mod 256), ((v / 65536) mod 256), ((v / 256) mod 256), (v mod 256).
  intros a b c d. split; [vm_compute; reflexivity|]. eexists. split; [vm_compute; reflexivity|reflexivity].
Qed.

Lemma assemble_all_spec dst_port frags xs :
  Forall2 (fun f x => frag_body x = fg_surplus_body f /\
                      frag_sent src dst SRC_PORT dst_port SPLIT_FRAG_ID x) frags xs ->
  assemble_all src dst dst_port frags = Some (frag_datagram src dst SRC_PORT dst_port <$> xs).
Proof.
  induction 1 as [|f x frags xs (Hb & _ & _ & Hw) _ IH]; [done|]. cbn [assemble_all]. rewrite <- Hb.
  unfold assemble at 1. rewrite assemble_spec by done. by rewrite IH.
Qed.

Lemma probe_split_wf : SplitConfig_wf probe_split_config.
Proof. unfold SplitConfig_wf, u16, u8, u32, usize. evaluate. Qed.

Lemma split_built dst_port :
  u16 dst_port ->
  exists frags, let xs := omap (fun f => fragment_view (fg_surplus_body f)) frags in
    split_datagram (pattern SPLIT_PAYLOAD_LEN) (body_of split_options) probe_split_config = Some (Ok frags) /\
    length frags = 5%nat /\ length xs = 5%nat /\
    production_split_datagrams src dst dst_port = Some (frag_datagram src dst SRC_PORT dst_port <$> xs).
Proof.
  intros Hp. destruct split_evaluated as (Hb & frags & Hs & Hl). destruct split_sendable as [Hse Hu].
  exists frags. cbv zeta.
  pose proof (split_sent src dst SRC_PORT dst_port (pattern SPLIT_PAYLOAD_LEN) (options_body_bytes split_options)
    probe_split_config frags) as Hsent.
  specialize (Hsent ltac:(split; [done|]; split; [done|]; split; [unfold u16; evaluate|done]) probe_split_wf
    ltac:(evaluate) ltac:(by apply options_body_bytes_bytes, sendable_encodable) Hs).
  split; [exact Hs|]. split; [done|]. split; [by rewrite <- (Forall2_length _ _ _ Hsent)|].
  unfold production_split_datagrams. cbv zeta.
  change (typed_value (Apc_compute (pattern SPLIT_PAYLOAD_LEN)))
    with (Some (u32_to_be (crc32c (pattern SPLIT_PAYLOAD_LEN)))).
  change (typed_value {| res_token := RES_TOKEN |}) with (Some RES_TOKEN). cbv iota beta.
  rewrite Hb. fold probe_split_config. rewrite Hs. cbn [expect].
  unfold len. rewrite Hl. by apply assemble_all_spec.
Qed.
End receiving.

(** ** Sending *)

(** A stretch of a run that was to send [ds]: it has sent a prefix of them, all of
    them unless a [send] failed. *)
Definition sent_part (io : ProbeIo) (ds : list (list Z)) (r r' : ProbeRun) : Prop :=
  pr_sent r' `prefix_of` pr_sent r ++ ds /\
  (pr_failed r' = None -> pr_sent r' = pr_sent r ++ ds) /\
  ((forall k, is_ok (pio_send io k) = true) -> pr_failed r' = None).

Section sending.
Context `{IoDisplay} (io : ProbeIo).

Lemma send_datagram_part what d r : sent_part io [d] r (send_datagram io what d r).
Proof.
  unfold send_datagram, sent_part. destruct (pio_send io (len (pr_sent r))) as [n|e] eqn:E; cbn.
  - done.
  - split; [by exists [d]|]. split; [done|]. intros Hok. specialize (Hok (len (pr_sent r))). by rewrite E in Hok.
Qed.

Lemma sent_part_nil r : pr_failed r = None -> sent_part io [] r r.
Proof. intros Hf. unfold sent_part. by rewrite app_nil_r. Qed.

Lemma sent_part_failed ds ds' r r' e :
  sent_part io ds r r' -> pr_failed r' = Some e -> sent_part io (ds ++ ds') r r'.
Proof.
  intros (Hp & _ & Hok) He. split; [rewrite app_assoc; by apply prefix_app_r|].
  split; [by rewrite He|]. intros Hall. by rewrite Hok in He.
Qed.

Lemma sent_part_trans ds ds' r r1 r' :
  sent_part io ds r r1 -> pr_failed r1 = None -> sent_part io ds' r1 r' -> sent_part io (ds ++ ds') r r'.
Proof.
  intros (_ & H1 & _) Hf (H2 & H3 & H4). rewrite (H1 Hf) in *. rewrite <- app_assoc in *. done.
Qed.

Lemma sent_part_println line ds r r' : sent_part io ds (println line r) r' -> sent_part io ds r r'.
Proof. done. Qed.

Lemma send_scenarios_part all : forall index r,
  pr_failed r = None -> sent_part io (sn_datagram <$> all) r (send_scenarios io index all r).
Proof.
  induction all as [|s all IH]; intros index r Hf; [by apply sent_part_nil|]. cbn [send_scenarios fmap list_fmap].
  cbv zeta. unfold and_then. set (r1 := send_datagram io _ _ r).
  pose proof (send_datagram_part (sn_name s +:+ " (port " +:+ show (PORT_BASE + index) +:+ ")") (sn_datagram s) r) as H1.
  fold r1 in H1. change (sn_datagram s :: (sn_datagram <$> all)) with ([sn_datagram s] ++ (sn_datagram <$> all)).
  destruct (pr_failed r1) eqn:E1; [by eapply sent_part_failed|].
  eapply sent_part_trans; [exact H1|done|]. eapply sent_part_println, IH. done.
Qed.

Lemma send_fragments_part split_port ds order : forall r,
  pr_failed r = None -> Forall (fun i => is_Some (get ds i)) order ->
  exists r', send_fragments io split_port ds order r = Some r' /\ sent_part io (omap (get ds) order) r r'.
Proof.
  induction order as [|i order IH]; intros r Hf Ho; [exists r; split; [done|by apply sent_part_nil]|].
  apply Forall_cons in Ho as [[d Hd] Ho]. cbn [send_fragments omap list_omap]. rewrite Hd. cbv zeta.
  set (r1 := send_datagram io _ d r).
  pose proof (send_datagram_part ("production-split fragment " +:+ show i +:+ " (port " +:+ show split_port +:+ ")") d r)
    as H1. fold r1 in H1. change (d :: omap (get ds) order) with ([d] ++ omap (get ds) order).
  destruct (pr_failed r1) eqn:E1; [exists r1; split; [done|by eapply sent_part_failed]|].
  destruct (IH r1 E1 Ho) as (r' & -> & H2). exists r'. split; [done|]. by eapply sent_part_trans.
Qed.

(** Everything the probe sends, in order. *)
Definition traffic (all : list Scenario) (split : list (list Z)) : list (list Z) :=
  (sn_datagram <$> all) ++ omap (get split) (split_order (len split)).

Lemma transmit_spec src dst all split_port split :
  2 <= len split ->
  exists code sent out errors, transmit src dst io all split_port split = Some (code, sent, out, errors) /\
    sent `prefix_of` traffic all split /\ (code = 0 -> sent = traffic all split) /\
    ((forall k, is_ok (pio_send io k) = true) -> code = 0).
Proof.
  intros Hl. unfold transmit. cbv zeta. set (r0 := println _ run_start).
  pose proof (send_scenarios_part all 0 r0 eq_refl) as H1. set (r1 := send_scenarios io 0 all r0) in *.
  destruct (pr_failed r1) as [e|] eqn:E1.
  { do 4 eexists. split; [done|]. pose proof (sent_part_failed _ (omap (get split) (split_order (len split))) _ _ _ H1 E1)
      as (Hp & _ & _). split; [exact Hp|]. split; [done|]. intros Hok. destruct H1 as (_ & _ & H1).
    by rewrite H1 in E1. }
  unfold checked_sub. destruct (Z.leb_spec 1 (len split)); [|lia].
  match goal with |- context [send_fragments io split_port split _ ?r] => set (r2 := r) end.
  destruct (send_fragments_part split_port split (split_order (len split)) r2 E1) as (r3 & -> & H3).
  { unfold split_order. cbv zeta. cbn [app]. do 2 (constructor; [apply get_is_Some; lia|]).
    apply Forall_reverse, Forall_forall. intros i Hi%elem_of_seqZ. apply get_is_Some. lia. }
  pose proof (sent_part_trans _ _ _ _ _ H1 E1 (sent_part_println _ _ _ _ H3)) as (Hp & Hs & Hok).
  destruct (pr_failed r3) eqn:E3; do 4 eexists; (split; [done|]); (split; [exact Hp|]).
  - split; [done|]. intros Hall. by specialize (Hok Hall).
  - split; [|done]. intros _. by apply Hs.
Qed.
End sending.

(** ** Property *)

Lemma process_all_app `{Crc32c} a b : forall c rs1 c1 rs2 c2,
  process_all c a = Some (rs1, c1) -> process_all c1 b = Some (rs2, c2) ->
  process_all c (a ++ b) = Some (rs1 ++ rs2, c2).
Proof.
  induction a as [|[now d] a IH]; intros c rs1 c1 rs2 c2; [by intros [= <- <-]|]. cbn [process_all app].
  destruct (process_datagram d c now) as [[r c']|]; [|done].
  destruct (process_all c' a) as [[rs c'']|] eqn:E; [|done]. intros [= <- <-] H2. by rewrite (IH _ _ _ _ _ E H2).
Qed.

Lemma list_5 {A} (l : list A) : length l = 5%nat -> exists a b c d e, l = [a; b; c; d; e].
Proof. destruct l as [|a [|b [|c [|d [|e [|]]]]]]; try done. eauto 10. Qed.

(** The first element last, and the ones before it backwards. *)
Lemma probe_order_perm {A} (a b c d e : A) : e :: [a; d; c; b] ≡ₚ [a; b; c; d; e].
Proof.
  etransitivity; [apply (Permutation_cons_append [a; d; c; b])|]. cbn [app]. constructor.
  etransitivity; [|apply (Permutation_app_comm [e] [b; c; d])]. cbn [app].
  etransitivity; [apply (Permutation_app_comm [d; c; b] [e])|]. cbn [app]. constructor.
  symmetry. apply (Permutation_rev [b; c; d]).
Qed.

(** The five fragments in the order of the probe, from a cache that has seen the
    scenarios. *)
Lemma split_received `{Crc32cSpec} src dst ds c t0 later :
  Ipv4Addr_wf src -> Ipv4Addr_wf dst -> production_split_datagrams src dst (port 10) = Some ds ->
  watching c (scenario_keys src dst) -> length later = 4%nat -> Forall (window probe_limits t0) later ->
  len ds = 5 /\
  exists c', process_all c (zip (t0 :: later) (omap (get ds) (split_order (len ds)))) =
    Some (replicate 4 (Ok Buffered)
            ++ [Ok (DeliverPayload (expected (pattern SPLIT_PAYLOAD_LEN) split_options true))], c').
Proof.
  intros Hs Hd Hds Hw Hl Hwin.
  destruct (split_built src dst Hs Hd (port 10) ltac:(unfold u16; evaluate)) as (frags & Hsp & Hf & Hx & Hp).
  rewrite Hds in Hp. injection Hp as ->. remember (omap _ frags) as xs eqn:Hxs.
  destruct (list_5 xs Hx) as (x0 & x1 & x2 & x3 & x4 & ->). split; [reflexivity|].
  destruct (list_5 (t0 :: later)) as (t0' & t1 & t2 & t3 & t4 & [= <- ->]); [by rewrite <- Hl|].
  set (g := frag_datagram src dst SRC_PORT (port 10)).
  change (zip _ _) with ((t0, g x4) :: [(t1, g x0); (t2, g x3); (t3, g x2); (t4, g x1)]).
  destruct split_sendable as [Hse Hu].
  destruct (fragments_received src dst SRC_PORT (port 10) (pattern SPLIT_PAYLOAD_LEN) split_options
    ltac:(split; [done|]; split; [done|]; unfold u16; evaluate) ltac:(evaluate) Hse Hu probe_split_config frags c t0
    (g x4) [(t1, g x0); (t2, g x3); (t3, g x2); (t4, g x1)] probe_split_wf Hsp) as (c' & Hc & _);
    rewrite ?(wa_limits _ _ Hw), ?Hf.
  - unfold ReassemblyLimits_wf, usize. evaluate.
  - by vm_compute.
  - by vm_compute.
  - unfold len. by rewrite Hf.
  - apply (watching_absent _ _ _ Hw). unfold scenario_keys. distinct_keys.
  - pose proof (watching_len _ _ Hw) as Hn. change (len (scenario_keys src dst)) with 4 in Hn. simpl. lia.
  - rewrite <- Hxs. cbn [fmap list_fmap fst snd]. fold g.
    apply probe_order_perm.
  - exact (proj1 (Forall_fmap fst _ [(t1, g x0); (t2, g x3); (t3, g x2); (t4, g x1)]) Hwin).
  - exists c'. rewrite Hf in Hc. exact Hc.
Qed.

(** C30. The probe sends what it says, and the library receives it as the scenarios
    intend: for any two addresses no [expect], assertion or [unreachable!] of the
    generator fails; whatever the socket answers, [main] returns having sent a
    prefix of the traffic, all of it with exit code 0 when no send fails; and a
    receiver that grants the limits of the split delivers the user data and options
    of each scenario with the OCS status it was built for, buffers the lone
    fragments, drops the one whose RDOS lies behind its data, and puts the five
    production fragments together in the order terminal, first, others backwards. *)
Theorem probe_traffic_received `{Crc32cSpec, IoDisplay} (src dst : Ipv4Addr) (io : ProbeIo)
    (times : list Z) (t0 : Z) (later : list Z) :
  Ipv4Addr_wf src -> Ipv4Addr_wf dst -> length times = 10%nat -> length later = 4%nat ->
  Forall (window probe_limits t0) later -> pio_new io = Ok tt ->
  exists all split, scenarios src dst = Some all /\ production_split_datagrams src dst (port 10) = Some split /\
    (exists code sent out errors, main src dst io = Some (code, sent, out, errors) /\
       sent `prefix_of` traffic all split /\ (code = 0 -> sent = traffic all split) /\
       ((forall k, is_ok (pio_send io k) = true) -> code = 0)) /\
    exists c', process_all (ReassemblyCache_with_limits probe_limits)
        (zip (times ++ t0 :: later) (traffic all split)) =
      Some (Ok <$> scenario_results ++ replicate 4 Buffered
              ++ [DeliverPayload (expected (pattern SPLIT_PAYLOAD_LEN) split_options true)], c').
Proof.
  intros Hs Hd Ht Hl Hwin Hnew. destruct (scenarios_received src dst Hs Hd) as (all & Hall & Hn & Hrecv).
  destruct (split_built src dst Hs Hd (port 10) ltac:(unfold u16; evaluate)) as (frags & _ & _ & _ & Hsplit).
  destruct (Hrecv times Ht) as (c1 & Hp1 & Hw).
  destruct (split_received src dst _ c1 t0 later Hs Hd Hsplit Hw Hl Hwin) as (H5 & c2 & Hp2).
  set (split := _ <$> _) in Hsplit, Hp2, H5. clearbody split.
  assert (length all = 10%nat) as Hlen by (apply (f_equal length) in Hn; by rewrite length_fmap in Hn).
  exists all, split. split; [done|]. split; [done|]. split.
  - unfold main. rewrite Hnew, Hall. unfold mbind, option_bind at 1. unfold len at 1. rewrite Hlen.
    change (u16_try_from (Z.of_nat 10)) with (Some 10). unfold option_bind at 1. fold (port 10). rewrite Hsplit.
    cbn [option_bind]. apply transmit_spec. lia.
  - exists c2. unfold traffic. rewrite zip_with_app by (by rewrite Ht, length_fmap, Hlen).
    rewrite fmap_app. eapply process_all_app; [exact Hp1|exact Hp2].
Qed.

Definition example_probe_io : ProbeIo := {| pio_new := Ok tt; pio_send := fun _ => Ok 0 |}.

Lemma probe_traffic_received_witness :
  let display := fun _ : IoError => "" in
  exists all split sent out errors c',
    @main crc32c_bitwise LOOPBACK LOOPBACK display example_probe_io = Some (0, sent, out, errors) /\
    sent = traffic all split /\
    @process_all crc32c_bitwise (ReassemblyCache_with_limits probe_limits)
      (zip (replicate 10 0 ++ 100 :: [101; 102; 103; 104]) sent) =
    Some (Ok <$> @scenario_results crc32c_bitwise ++ replicate 4 Buffered
            ++ [DeliverPayload (@expected crc32c_bitwise (pattern SPLIT_PAYLOAD_LEN) (@split_options crc32c_bitwise) true)], c').
Proof.
  cbv zeta.
  destruct (@probe_traffic_received crc32c_bitwise crc32c_bitwise_u32 (fun _ => "") LOOPBACK LOOPBACK example_probe_io
    (replicate 10 0) 100 [101; 102; 103; 104])
    as (all & split & _ & _ & (code & sent & out & errors & Hm & _ & He & Hok) & c' & Hc').
  - unfold Ipv4Addr_wf. evaluate.
  - unfold Ipv4Addr_wf. evaluate.
  - reflexivity.
  - reflexivity.
  - unfold window, probe_limits. repeat constructor; vm_compute; first [discriminate|reflexivity].
  - reflexivity.
  - specialize (Hok (fun _ => eq_refl)). subst code. exists all, split, sent, out, errors, c'.
    split; [exact Hm|]. rewrite (He eq_refl). split; [reflexivity|exact Hc'].
Defined.
