(* ===== verification/ProbeEnv.v ===== *)
(** The environment of the wire probe (src/examples/wire_probe.rs, lines 35 to 47): the two
    addresses, read from text or the loopback address, and the whole program from them on.

    [Ipv4Addr_from_str] is the standard library's parser: four decimal numbers of one to
    three digits below 256, without leading zeros, separated by dots, in at most 15 bytes.
    [env] is what the environment answers; a variable that is unset or no Unicode has no
    value. *)

From S2P Require Import Prelude Model Kind Parse Typed Serialize Checksum Ip Udp Surplus Ocs.
From S2P Require Import Split Reassembly RecvOptions Pipeline Socket Text WireProbe.

(** ** Reading an address *)

(** The value of a decimal digit. *)
Definition to_digit10 (c : Z) : option Z := if (48 <=? c) && (c <=? 57) then Some (c - 48) else None.

(** The digits at the front: their value, their number and the rest; [None] after more than
    three. *)
Fixpoint read_digits (acc count : Z) (text : list Z) : option (Z * Z * list Z) :=
  match text with
  | c :: rest =>
      match to_digit10 c with
      | Some d => if 3 <? count + 1 then None else read_digits (acc * 10 + d) (count + 1) rest
      | None => Some (acc, count, text)
      end
  | [] => Some (acc, count, text)
  end.

Definition read_number (text : list Z) : option (Z * list Z) :=
  let has_leading_0 := match text with c :: _ => c =? 48 | [] => false end in
  let! (result, digit_count, rest) := read_digits 0 0 text in
  if digit_count =? 0 then None
  else if has_leading_0 && (1 <? digit_count) then None
  else if result <? 256 then Some (result, rest) else None.

(** A dot, then a number. *)
Definition read_dot_number (text : list Z) : option (Z * list Z) :=
  match text with c :: rest => if c =? 46 then read_number rest else None | [] => None end.

Definition Ipv4Addr_from_str (s : string) : option Ipv4Addr :=
  let text := as_bytes s in
  if 15 <? len text then None else
  let! (a, text) := read_number text in
  let! (b, text) := read_dot_number text in
  let! (c, text) := read_dot_number text in
  let! (d, text) := read_dot_number text in
  if is_nil text then Some (Build_Ipv4Addr a b c d) else None.

(** ** The program *)

(** The address, or the line written before exiting with code 64. *)
Definition addr_env (env : string -> option string) (var : string) : result Ipv4Addr string :=
  match env var with
  | Some value =>
      match Ipv4Addr_from_str value with
      | Some a => Ok a
      | None => Err ("wire_probe FAIL: " +:+ var +:+ "=" +:+ value +:+ " is not an IPv4 address")
      end
  | None => Ok LOOPBACK
  end.

(** The addresses are read on first use: when the first scenario is built, the source
    address before the destination. *)
Definition main_env `{Crc32c, IoDisplay} (env : string -> option string) (io : ProbeIo) :
    option (Z * list (list Z) * list string * list string) :=
  match pio_new io with
  | Err _ => main LOOPBACK LOOPBACK io
  | Ok _ =>
      match addr_env env "WIRE_SRC_ADDR" with
      | Err line => Some (64, [], [], [line])
      | Ok src =>
          match addr_env env "WIRE_DST_ADDR" with
          | Err line => Some (64, [], [], [line])
          | Ok dst => main src dst io
          end
      end
  end.

(** ** Round trip *)

Lemma read_digits_app acc count ds n m rest :
  read_digits acc count ds = Some (n, m, []) ->
  match rest with c :: _ => to_digit10 c = None | [] => True end ->
  read_digits acc count (ds ++ rest) = Some (n, m, rest).
Proof.
  revert acc count. induction ds as [|c ds IH]; intros acc count; cbn [read_digits app].
  - intros [= <- <-]. destruct rest as [|c rest]; [done|]. intros Hc. cbn [read_digits]. by rewrite Hc.
  - destruct (to_digit10 c); [|done]. destruct (3 <? count + 1); [done|]. apply IH.
Qed.

Lemma read_number_app ds x rest :
  read_number ds = Some (x, []) -> match rest with c :: _ => to_digit10 c = None | [] => True end ->
  read_number (ds ++ rest) = Some (x, rest).
Proof.
  unfold read_number. destruct (read_digits 0 0 ds) as [[[n m] r]|] eqn:E; [|done].
  destruct ds as [|c ds]; [injection E as <- <- <-; cbn; done|].
  destruct (m =? 0) eqn:Em; [done|]. destruct (_ && _) eqn:Ez; [done|]. destruct (n <? 256) eqn:En; [|done].
  intros [= -> ->] Hr. rewrite (read_digits_app _ _ _ _ _ _ E Hr), Em, En. cbn [app]. by rewrite Ez.
Qed.

(** Every octet is printed as one to three digits that read back as it. *)
Lemma show_octet x : u8 x -> read_number (as_bytes (show x)) = Some (x, []) /\ len (as_bytes (show x)) <= 3.
Proof.
  intros Hx. assert (Forall (fun x => read_number (as_bytes (show x)) = Some (x, []) /\ len (as_bytes (show x)) <= 3)
    (seqZ 0 256)) as Hall by evaluate.
  rewrite Forall_forall in Hall. apply Hall, elem_of_seqZ. unfold u8 in Hx. lia.
Qed.

(** What [show_ipv4] prints, [from_str] reads. *)
Lemma ipv4_text_roundtrip a : Ipv4Addr_wf a -> Ipv4Addr_from_str (show_ipv4 a) = Some a.
Proof.
  destruct a as [a b c d]. unfold Ipv4Addr_wf, octets. cbn [oct0 oct1 oct2 oct3].
  intros Hw. decompose_Forall_hyps.
  destruct (show_octet a) as [Ha Hla], (show_octet b) as [Hb Hlb], (show_octet c) as [Hc Hlc],
    (show_octet d) as [Hd Hld]; [done..|].
  unfold Ipv4Addr_from_str, show_ipv4. cbn [oct0 oct1 oct2 oct3]. rewrite !as_bytes_app.
  change (as_bytes ".") with [46]. rewrite !len_app.
  destruct (Z.ltb_spec 15 (len (as_bytes (show a)) + (len [46] + (len (as_bytes (show b)) + (len [46] +
    (len (as_bytes (show c)) + (len [46] + len (as_bytes (show d)))))))));
    [unfold len in *; cbn [length] in *; lia|].
  rewrite (read_number_app _ _ _ Ha) by done. cbn [app read_dot_number]. rewrite Z.eqb_refl.
  rewrite (read_number_app _ _ _ Hb) by done. cbn [app read_dot_number]. rewrite Z.eqb_refl.
  rewrite (read_number_app _ _ _ Hc) by done. cbn [app read_dot_number]. rewrite Z.eqb_refl.
  by rewrite Hd.
Qed.

(** With the addresses in the environment as text, the probe runs with those addresses. *)
Lemma main_env_addresses `{Crc32c, IoDisplay} env io src dst :
  Ipv4Addr_wf src -> Ipv4Addr_wf dst -> is_ok (pio_new io) = true ->
  env "WIRE_SRC_ADDR"%string = Some (show_ipv4 src) -> env "WIRE_DST_ADDR"%string = Some (show_ipv4 dst) ->
  main_env env io = main src dst io.
Proof.
  intros Hs Hd Hio Es Ed. unfold main_env, addr_env. rewrite Es, Ed, !ipv4_text_roundtrip by done.
  destruct (pio_new io); [reflexivity|discriminate Hio].
Qed.

(** A text that is no address ends the run with code 64 and nothing sent. *)
Lemma main_env_refused `{Crc32c, IoDisplay} env io value :
  is_ok (pio_new io) = true -> env "WIRE_SRC_ADDR"%string = Some value -> Ipv4Addr_from_str value = None ->
  main_env env io = Some (64, [], [], ["wire_probe FAIL: WIRE_SRC_ADDR=" +:+ value +:+ " is not an IPv4 address"]).
Proof. intros Hio Es Hn. unfold main_env, addr_env. rewrite Es, Hn. destruct (pio_new io); [reflexivity|discriminate Hio]. Qed.
