(* ===== verification/Spike.v ===== *)
(** The spike pair (src/examples/spike_client.rs, src/examples/spike_server.rs and the
    case table they share, src/examples/support/common.rs).

    The client builds one datagram per case with its own checksum code and sends it;
    the server matches what arrives against the same table.  The answers of the
    sockets are arguments: [send] of the client, and for the server the [Arrival]s
    its loop observes, each with the clock at the loop's test.  Additions that the
    source does on [u16] or [u32] are checked, [None] being the overflow panic. *)

From stdpp Require Import pretty.
From S2P Require Import Prelude Model Checksum Ip Socket Text.

(** ** support/common.rs *)

Definition IP_HDR_LEN : Z := 20.
Definition UDP_HDR_LEN : Z := 8.
Definition MTU : Z := 1500.
Definition MARKER_BASE : Z := 0x9868.

Definition pattern (n : Z) : list Z := (fun i => i mod 256) <$> seqZ 0 n.

Inductive Check : Type := Wire | WireRaw | SendFails.

#[export] Instance Check_eq_dec : EqDecision Check.
Proof. solve_decision. Defined.

Inductive CksumMode : Type := Auto | Zero | Bad.

Record CaseParts : Type := {
  cp_label : string;
  cp_udp_data_len : Z;
  cp_surplus_len : Z;
  cp_written_ip_total_len : Z;
  cp_udp_len_override : option Z;
  cp_cksum : CksumMode;
  cp_check : Check;
}.

Definition UDP_DATA_DIMS : list Z := [0; 1; 13; 1392].
Definition SURPLUS_DIMS : list Z := [0; 1; 8; 39; 40; 1471; 1472; 1473].

Definition combo (label : string) (udp_data_len surplus_len written_ip_total_len : Z) : CaseParts :=
  let physical := IP_HDR_LEN + UDP_HDR_LEN + udp_data_len + surplus_len in
  let check := if MTU <? physical then SendFails else Wire in
  {| cp_label := label; cp_udp_data_len := udp_data_len; cp_surplus_len := surplus_len;
     cp_written_ip_total_len := written_ip_total_len; cp_udp_len_override := None; cp_cksum := Auto;
     cp_check := check |}.

(** The body of the inner loop. *)
Definition combos (d s : Z) : list CaseParts :=
  let physical := IP_HDR_LEN + UDP_HDR_LEN + d + s in
  let name := "d" +:+ show d +:+ "-s" +:+ show s in
  [combo (name +:+ "-honest") d s physical]
  ++ (if 0 <? s then [combo (name +:+ "-under") d s (physical - s)] else [])
  ++ [combo (name +:+ "-over") d s (physical + 40)].

Definition anomaly (label : string) (udp_len_override : option Z) (cksum : CksumMode) : CaseParts :=
  {| cp_label := label; cp_udp_data_len := 0; cp_surplus_len := 40;
     cp_written_ip_total_len := IP_HDR_LEN + UDP_HDR_LEN + 40; cp_udp_len_override := udp_len_override;
     cp_cksum := cksum; cp_check := WireRaw |}.

Definition case_parts : list CaseParts :=
  concat ((fun d => concat ((fun s => combos d s) <$> SURPLUS_DIMS)) <$> UDP_DATA_DIMS)
  ++ [combo "over-mtu-3000" 0 2972 3000;
      anomaly "cksum-zero" None Zero; anomaly "cksum-bad" None Bad;
      anomaly "len-overclaim" (Some 500) Auto; anomaly "len-under-8" (Some 4) Auto].

Definition marker_port (index : Z) : option Z :=
  u16_try_from (MARKER_BASE + index mod 65536).

Inductive SpikeError : Type :=
| SpikePermission
| SpikeIo (e : IoError).

Definition SpikeError_from (e : IoError) : SpikeError :=
  match raw_os_error e with
  | Some code => if (code =? EPERM) || (code =? EACCES) then SpikePermission else SpikeIo e
  | None => SpikeIo e
  end.

(** ** spike_client.rs *)

Module Client.

Definition CLIENT_IP : Ipv4Addr := Build_Ipv4Addr 10 0 0 1.
Definition SERVER_IP : Ipv4Addr := Build_Ipv4Addr 10 0 0 2.
Definition SRC_PORT : Z := 40000.

Record Case : Type := {
  cc_label : string;
  cc_udp_data_len : Z;
  cc_surplus_len : Z;
  cc_written_ip_total_len : Z;
  cc_udp_len_override : option Z;
  cc_cksum : CksumMode;
  cc_check : Check;
}.

Definition udp_len (c : Case) : Z := UDP_HDR_LEN + cc_udp_data_len c.
Definition physical_len (c : Case) : Z := IP_HDR_LEN + udp_len c + cc_surplus_len c.

Definition case_of (p : CaseParts) : Case :=
  {| cc_label := cp_label p; cc_udp_data_len := cp_udp_data_len p; cc_surplus_len := cp_surplus_len p;
     cc_written_ip_total_len := cp_written_ip_total_len p; cc_udp_len_override := cp_udp_len_override p;
     cc_cksum := cp_cksum p; cc_check := cp_check p |}.

Definition cases : list Case := case_of <$> case_parts.

(** The loop over the two-byte chunks and the remainder, on a [u32] sum. *)
Fixpoint sum_chunks (sum : Z) (bs : list Z) : option Z :=
  match bs with
  | a :: b :: rest =>
      let sum := sum + u16_from_be a b in
      ensure (sum <=? U32_MAX); sum_chunks sum rest
  | [last] => let sum := sum + u16_from_be last 0 in ensure (sum <=? U32_MAX); Some sum
  | [] => Some sum
  end.

(** Two rounds fold any [u32]. *)
Definition ones_complement_checksum (bs : list Z) : option Z :=
  let! sum := sum_chunks 0 bs in
  let! sum := fold_carries 2 sum in
  Some (not16 (sum mod 65536)).

Definition udp_checksum (src dst : Ipv4Addr) (udp : list Z) : option Z :=
  let pseudo := octets src ++ octets dst ++ [0] ++ [IPPROTO_UDP] ++ u16_to_be (len udp mod 65536) ++ udp in
  let! sum := ones_complement_checksum pseudo in
  Some (if sum =? 0 then 0xffff else sum).

(** [Vec::resize] to a greater length. *)
Definition resize (l : list Z) (n x : Z) : list Z := take (Z.to_nat n) l ++ replicate (Z.to_nat (n - len l)) x.

Definition build_datagram (c : Case) (dst_port : Z) : option (list Z) :=
  let udp_len := udp_len c in
  let pkt := [0x45] ++ [0x00] ++ u16_to_be (cc_written_ip_total_len c mod 65536) ++ u16_to_be dst_port
             ++ u16_to_be 0 ++ [64] ++ [IPPROTO_UDP] ++ u16_to_be 0 ++ octets CLIENT_IP ++ octets SERVER_IP in
  let! header := slice pkt 0 IP_HDR_LEN in
  let! ip_checksum := ones_complement_checksum header in
  let! pkt := copy_at pkt 10 (u16_to_be ip_checksum) in
  let written_udp_len := default (udp_len mod 65536) (cc_udp_len_override c) in
  let pkt := pkt ++ u16_to_be SRC_PORT ++ u16_to_be dst_port ++ u16_to_be written_udp_len ++ u16_to_be 0 in
  let pkt := resize pkt (IP_HDR_LEN + UDP_HDR_LEN + cc_udp_data_len c) 0xaa in
  let! udp := slice pkt IP_HDR_LEN (IP_HDR_LEN + udp_len) in
  let! computed := udp_checksum CLIENT_IP SERVER_IP udp in
  let udp_checksum :=
    match cc_cksum c with
    | Auto => computed
    | Zero => 0
    | Bad => let bad := (computed + 1) mod 65536 in if bad =? 0 then 1 else bad
    end in
  let! pkt := copy_at pkt (IP_HDR_LEN + 6) (u16_to_be udp_checksum) in
  Some (pkt ++ pattern (cc_surplus_len c)).

Definition EMSGSIZE : Z := 90.

(** The counters of the loop, and the lines printed. *)
Record Tally : Type := {
  ta_sent : Z;
  ta_emsgsize : Z;
  ta_failed : Z;
  ta_lines : list string;
}.

Definition count_sent (t : Tally) : Tally :=
  {| ta_sent := ta_sent t + 1; ta_emsgsize := ta_emsgsize t; ta_failed := ta_failed t; ta_lines := ta_lines t |}.
Definition count_emsgsize (t : Tally) : Tally :=
  {| ta_sent := ta_sent t; ta_emsgsize := ta_emsgsize t + 1; ta_failed := ta_failed t; ta_lines := ta_lines t |}.
Definition count_failed (t : Tally) (line : string) : Tally :=
  {| ta_sent := ta_sent t; ta_emsgsize := ta_emsgsize t; ta_failed := ta_failed t + 1;
     ta_lines := ta_lines t ++ [line] |}.

Section client.
Context `{IoDisplay}.

(** [send_to]: the number of bytes sent, or the error. *)
Context (send : list Z -> result Z IoError).

Definition score (c : Case) (port : Z) (r : result Z IoError) (t : Tally) : Tally :=
  let head := "  " +:+ pad_right 18 (cc_label c) +:+ " port " +:+ show port +:+ " physical="
                +:+ show (physical_len c) +:+ " -> FAIL " in
  match cc_check c with
  | Wire | WireRaw =>
      match r with
      | Ok _ => count_sent t
      | Err e => count_failed t (head +:+ "unexpected send error: " +:+ io_display e)
      end
  | SendFails =>
      match r with
      | Err e =>
          if bool_decide (raw_os_error e = Some EMSGSIZE) then count_emsgsize t
          else count_failed t (head +:+ "expected EMSGSIZE, got: " +:+ io_display e)
      | Ok n => count_failed t (head +:+ "expected EMSGSIZE but sent " +:+ show n +:+ "B")
      end
  end.

Fixpoint send_loop (i : Z) (all : list Case) (t : Tally) : option Tally :=
  match all with
  | [] => Some t
  | c :: rest =>
      let! port := marker_port i in
      let! pkt := build_datagram c port in
      send_loop (i + 1) rest (score c port (send pkt) t)
  end.

(** [ret] is what [setsockopt(IP_HDRINCL)] returned, [last_os_error] its errno. *)
Definition client_set_hdrincl (ret : Z) (last_os_error : IoError) : result unit IoError :=
  if negb (ret =? 0) then Err last_os_error else Ok tt.

(** [open_send_socket], before its errors become [SpikeError]s; [socket] is the answer to
    opening the raw socket. *)
Definition open_send_socket (socket : result unit IoError) (ret : Z) (last_os_error : IoError) : result unit IoError :=
  let* _ := socket in
  let* _ := client_set_hdrincl ret last_os_error in
  Ok tt.

(** The exit code and the lines; [opened] is the answer to [open_send_socket]. *)
Definition main (opened : result unit IoError) : option (Z * list string * list string) :=
  match map_err SpikeError_from opened with
  | Err SpikePermission =>
      Some (2, [], ["spike_client FAIL: raw socket needs CAP_NET_RAW (run via scripts/spike.sh under sudo)"])
  | Err (SpikeIo e) => Some (1, [], ["spike_client FAIL: " +:+ io_display e])
  | Ok _ =>
      let all := cases in
      let first := "spike_client: " +:+ show_ipv4 CLIENT_IP +:+ " -> " +:+ show_ipv4 SERVER_IP +:+ " (src port "
                     +:+ show SRC_PORT +:+ "), " +:+ show (len all) +:+ " cases" in
      let! t := send_loop 0 all {| ta_sent := 0; ta_emsgsize := 0; ta_failed := 0; ta_lines := [first] |} in
      let client_ok := ta_failed t =? 0 in
      let last := "spike_client: " +:+ (if client_ok then "PASS (send-side)" else "FAIL (send-side)")
                    +:+ " (" +:+ show (ta_sent t) +:+ " sent, " +:+ show (ta_emsgsize t)
                    +:+ " EMSGSIZE as expected (Finding B), " +:+ show (ta_failed t) +:+ " failed)" in
      Some (if client_ok then 0 else 1, ta_lines t ++ [last], [])
  end.
End client.
End Client.

(** ** spike_server.rs *)

Module Server.

(** Nanoseconds. *)
Definition DEADLINE : Z := 30 * 1000000000.

Record Observation : Type := {
  ob_total_len : Z;
  ob_udp_len_field : Z;
  ob_surplus : option (list Z);
}.

Record Case : Type := {
  sc_label : string;
  sc_surplus_len : Z;
  sc_written_ip_total_len : Z;
  sc_check : Check;
  sc_physical_len : Z;
}.

Definition case_of (p : CaseParts) : Case :=
  {| sc_label := cp_label p; sc_surplus_len := cp_surplus_len p;
     sc_written_ip_total_len := cp_written_ip_total_len p; sc_check := cp_check p;
     sc_physical_len := IP_HDR_LEN + UDP_HDR_LEN + cp_udp_data_len p + cp_surplus_len p |}.

Definition cases : list Case := case_of <$> case_parts.

Record Marker : Type := {
  mk_dst_port : Z;
  mk_total_len : Z;
  mk_udp_len_field : Z;
  mk_surplus : option (list Z);
}.

(** The big-endian [u16] at an index, which panics past the end. *)
Definition u16_at (data : list Z) (i : Z) : option Z :=
  let! a := get data i in
  let! b := get data (i + 1) in
  Some (u16_from_be a b).

(** Outer [option]: panic; inner [option]: the source's return type. *)
Definition match_marker (data : list Z) (n_cases : Z) : option (option Marker) :=
  if len data <? IP_HDR_LEN then Some None else
  let! first := get data 0 in
  let ihl := Z.land first 0x0f * 4 in
  let! protocol := get data 9 in
  if (ihl <? IP_HDR_LEN) || (len data <? ihl) || negb (protocol =? IPPROTO_UDP) then Some None else
  let! total_len := u16_at data 2 in
  if (len data <? total_len) || (total_len <? ihl + UDP_HDR_LEN) then Some None else
  let! udp := slice data ihl (len data) in
  let! dst_port := u16_at udp 2 in
  let! udp_len := u16_at udp 4 in
  let! end_ := u16_try_from (MARKER_BASE + n_cases mod 65536) in
  if negb ((MARKER_BASE <=? dst_port) && (dst_port <? end_)) then Some None else
  let! surplus :=
    if (UDP_HDR_LEN <=? udp_len) && (ihl + udp_len <=? total_len)
    then let! s := slice data (ihl + udp_len) total_len in Some (Some s)
    else Some None in
  Some (Some {| mk_dst_port := dst_port; mk_total_len := total_len; mk_udp_len_field := udp_len;
                mk_surplus := surplus |}).

(** [trim_end] of a text whose only white space is the space. *)
Fixpoint trim_start (bs : list Z) : list Z :=
  match bs with
  | b :: rest => if b =? 32 then trim_start rest else bs
  | [] => []
  end.
Definition trim_end (bs : list Z) : list Z := reverse (trim_start (reverse bs)).

Definition hex (bs : list Z) (max : Z) : string :=
  let s := concat ((fun b => hex_byte b ++ [32]) <$> take (Z.to_nat max) bs) in
  let s := if max <? len bs then s ++ as_bytes "..." else s in
  from_bytes (trim_end s).

(** [seen[idx] = ...] when the slot is free. *)
Definition observe (seen : list (option Observation)) (m : Marker) : option (list (option Observation)) :=
  let! idx := checked_sub (mk_dst_port m) MARKER_BASE in
  if idx <? len seen then
    let! slot := get seen idx in
    match slot with
    | None => set_at seen idx (Some {| ob_total_len := mk_total_len m; ob_udp_len_field := mk_udp_len_field m;
                                       ob_surplus := mk_surplus m |})
    | Some _ => Some seen
    end
  else Some seen.

(** [expected(i)] for the cases in order, next to what was seen. *)
Definition all_wire_seen (all : list Case) (seen : list (option Observation)) : bool :=
  forallb (fun x => bool_decide (sc_check x.1 = SendFails) || match x.2 with Some _ => true | None => false end)
    (zip all seen).

(** The clock at the loop's test, and what [recv] then returned. *)
Record Arrival : Type := {
  ar_now : Z;
  ar_recv : result (list Z) IoError;
}.

(** A loop that is still running when the arrivals are used up, or has ended. *)
Inductive collected : Type :=
| Waiting (seen : list (option Observation))
| Collected (seen : list (option Observation))
| RecvFailed (e : SpikeError).

Fixpoint collect (all : list Case) (deadline : Z) (seen : list (option Observation)) (arrivals : list Arrival) :
    option collected :=
  if all_wire_seen all seen then Some (Collected seen) else
  match arrivals with
  | [] => Some (Waiting seen)
  | a :: rest =>
      if deadline <=? ar_now a then Some (Collected seen) else
      match ar_recv a with
      | Err e => if is_timeout e then collect all deadline seen rest else Some (RecvFailed (SpikeError_from e))
      | Ok data =>
          let! m := match_marker data (len all) in
          match m with
          | None => collect all deadline seen rest
          | Some m => let! seen := observe seen m in collect all deadline seen rest
          end
      end
  end.

(** ** The report *)

Record Totals : Type := {
  to_pass : Z;
  to_fail : Z;
  to_skip : Z;
  to_rewritten : Z;
  to_lines : list string;
}.

(** The line about an observed case and its verdict. *)
Definition verdict (c : Case) (obs : Observation) (head note : string) : bool * string :=
  match sc_check c with
  | Wire =>
      let want := pattern (sc_surplus_len c) in
      let got := default [] (ob_surplus obs) in
      let ok := bool_decide (got = want) && (ob_total_len obs =? sc_physical_len c) in
      (ok, head +:+ "  " +:+ (if ok then "PASS" else "FAIL") +:+ "  surplus=" +:+ show (len got) +:+ "B ["
             +:+ hex got 8 +:+ "] (expected " +:+ show (sc_surplus_len c) +:+ "B) total="
             +:+ show (ob_total_len obs) +:+ note)
  | _ =>
      let surplus_desc :=
        match ob_surplus obs with
        | Some s => "surplus=" +:+ show (len s) +:+ "B [" +:+ hex s 8 +:+ "]"
        | None => "surplus=<no well-defined surplus: UDP Length field inconsistent>"
        end in
      (true, head +:+ "  PASS  delivered despite anomaly: total=" +:+ show (ob_total_len obs) +:+ " udp-len-field="
               +:+ show (ob_udp_len_field obs) +:+ " " +:+ surplus_desc)
  end.

Definition report_case (i : Z) (c : Case) (slot : option Observation) (t : Totals) : option Totals :=
  let! port := marker_port i in
  if bool_decide (sc_check c = SendFails) then
    Some {| to_pass := to_pass t; to_fail := to_fail t; to_skip := to_skip t + 1;
            to_rewritten := to_rewritten t; to_lines := to_lines t |}
  else
    let head := "  " +:+ pad_right 18 (sc_label c) +:+ " port " +:+ show port in
    match slot with
    | None =>
        Some {| to_pass := to_pass t; to_fail := to_fail t + 1; to_skip := to_skip t;
                to_rewritten := to_rewritten t;
                to_lines := to_lines t ++ [head +:+ "  MISS  no datagram within " +:+ show (DEADLINE / 1000000000)
                                             +:+ "s"] |}
    | Some obs =>
        let lied := negb (sc_written_ip_total_len c =? ob_total_len obs) in
        let note := if lied then " (wrote " +:+ show (sc_written_ip_total_len c)
                                   +:+ "; kernel rewrote -- Finding A)" else "" in
        let '(ok, line) := verdict c obs head note in
        Some {| to_pass := if ok then to_pass t + 1 else to_pass t;
                to_fail := if ok then to_fail t else to_fail t + 1;
                to_skip := to_skip t;
                to_rewritten := if lied then to_rewritten t + 1 else to_rewritten t;
                to_lines := to_lines t ++ [line] |}
    end.

Fixpoint report_loop (i : Z) (all : list Case) (seen : list (option Observation)) (t : Totals) : option Totals :=
  match all with
  | [] => Some t
  | c :: rest =>
      match seen with
      | [] => None
      | slot :: seen' => let! t := report_case i c slot t in report_loop (i + 1) rest seen' t
      end
  end.

Definition report (all : list Case) (seen : list (option Observation)) : option (bool * list string) :=
  let! t := report_loop 0 all seen {| to_pass := 0; to_fail := 0; to_skip := 0; to_rewritten := 0;
                                      to_lines := ["spike_server: results"] |} in
  let all_pass := to_fail t =? 0 in
  Some (all_pass,
        to_lines t ++ ["spike_server: " +:+ (if all_pass then "PASS (all deliverable cases)"
                                             else "FAIL (a deliverable case did not match)")
          +:+ " (" +:+ show (to_pass t) +:+ " delivered+passed, " +:+ show (to_skip t)
          +:+ " skipped send-limit cases, " +:+ show (to_fail t) +:+ " failed; Finding A confirmed on "
          +:+ show (to_rewritten t) +:+ " lying-Total-Length cases)"]).

(** ** The program *)

(** [Socket::new] with [set_read_timeout], and the clock before the loop. *)
Record ServerIo : Type := {
  sio_open : result unit IoError;
  sio_start : Z;
  sio_arrivals : list Arrival;
}.

(** [None] is a panic; [Some None] a run that has not ended yet. *)
Definition run (io : ServerIo) : option (option (result (bool * list string) SpikeError)) :=
  match sio_open io with
  | Err e => Some (Some (Err (SpikeError_from e)))
  | Ok _ =>
      let all := cases in
      let seen := replicate (length all) None in
      let! c := collect all (sio_start io + DEADLINE) seen (sio_arrivals io) in
      match c with
      | Waiting _ => Some None
      | RecvFailed e => Some (Some (Err e))
      | Collected seen => let! r := report all seen in Some (Some (Ok r))
      end
  end.

Definition main `{IoDisplay} (io : ServerIo) : option (option (Z * list string * list string)) :=
  let! r := run io in
  Some match r with
       | None => None
       | Some (Ok (true, lines)) => Some (0, lines, [])
       | Some (Ok (false, lines)) => Some (1, lines, [])
       | Some (Err SpikePermission) =>
           Some (2, [], ["spike_server FAIL: raw recv socket needs CAP_NET_RAW (run via scripts/spike.sh under sudo)"])
       | Some (Err (SpikeIo e)) => Some (1, [], ["spike_server FAIL: " +:+ io_display e])
       end.
End Server.
