(* ===== verification/SpikeCorrect.v ===== *)
(** Theorems on the spike pair: its checksum is the library's, and when the kernel
    behaves as the spike's findings say, client and server both pass. *)

From stdpp Require Import pretty.
From S2P Require Import Prelude Model Checksum Ip Socket Text Spike.

(** ** The client's checksum *)

Lemma word_total_bound bs : bytes bs -> 0 <= word_total bs <= 65535 * ((len bs + 1) / 2).
Proof.
  induction bs as [|a|a b l IH] using bytes_pair_ind; intros Hb; simpl; [done|..];
    decompose_Forall_hyps; unfold u8, u16_from_be in *.
  - change (len [a]) with 1. change ((1 + 1) / 2) with 1. lia.
  - specialize (IH ltac:(done)). rewrite !len_cons. dlia.
Qed.

Lemma sum_chunks_spec bs : forall s,
  bytes bs -> 0 <= s -> s + word_total bs <= U32_MAX ->
  Client.sum_chunks s bs = Some (s + word_total bs).
Proof.
  induction bs as [|a|a b l IH] using bytes_pair_ind; intros s Hb Hs Hm; cbn [Client.sum_chunks word_total] in *.
  - by rewrite Z.add_0_r.
  - destruct (Z.leb_spec (s + u16_from_be a 0) U32_MAX); [done|lia].
  - decompose_Forall_hyps. pose proof (word_total_nonneg l ltac:(done)). unfold u8 in *.
    assert (0 <= u16_from_be a b) by (unfold u16_from_be; lia).
    destruct (Z.leb_spec (s + u16_from_be a b) U32_MAX); [|lia]. rewrite IH by (done || lia). f_equal. lia.
Qed.

Lemma fold_carries_ones s : u32 s -> fold_carries 2 s = Some (ones_complement s).
Proof.
  unfold u32. intros Hs. unfold fold_carries, wrap32, ones_complement. rewrite !land_ffff, !shiftr_16.
  destruct (Z.eqb_spec (s / 65536) 0); [f_equal; bool_cases; dlia|].
  assert (s mod 65536 + s / 65536 < 131072) by dlia. rewrite (Z.mod_small (s mod 65536 + s / 65536)) by dlia.
  set (t := s mod 65536 + s / 65536) in *. assert (s mod 65535 = t mod 65535 /\ 0 < t) as [Hm Ht] by (unfold t; dlia).
  destruct (Z.eqb_spec (t / 65536) 0); [f_equal; bool_cases; dlia|].
  rewrite (Z.mod_small (t mod 65536 + t / 65536)) by dlia.
  destruct (Z.eqb_spec ((t mod 65536 + t / 65536) / 65536) 0); [f_equal; bool_cases; dlia|dlia].
Qed.

(** No sum of at most 131072 bytes overflows. *)
Lemma checksum_spec bs :
  bytes bs -> len bs <= 131072 ->
  Client.ones_complement_checksum bs = Some (internet_checksum bs) /\ u16 (internet_checksum bs).
Proof.
  intros Hb Hl. pose proof (word_total_bound bs Hb) as Hw.
  assert (word_total bs <= U32_MAX) as Hm by (unfold U32_MAX; dlia).
  pose proof (represents_add_slice bs Checksum_new 0 Hb represents_new) as Hr. rewrite Z.add_0_l in Hr.
  pose proof (represents_finish _ _ Hr) as Hf. pose proof (represents_finish_u16 _ _ Hr) as Hu.
  unfold Client.ones_complement_checksum, internet_checksum in *. rewrite sum_chunks_spec by (done || lia).
  rewrite Z.add_0_l, fold_carries_ones by (unfold u32, U32_MAX in *; lia).
  pose proof (ones_complement_bound (word_total bs)) as Hob. rewrite Z.mod_small by lia.
  split; [|done]. f_equal. rewrite Hf. apply not16_u16. unfold u16. lia.
Qed.

Lemma udp_checksum_total src dst udp :
  Ipv4Addr_wf src -> Ipv4Addr_wf dst -> bytes udp -> len udp <= 65535 ->
  exists ck, Client.udp_checksum src dst udp = Some ck /\ u16 ck /\ ck <> 0.
Proof.
  intros Hs Hd Hb Hl. unfold Client.udp_checksum. cbv zeta.
  match goal with |- context [Client.ones_complement_checksum ?p] => destruct (checksum_spec p) as [-> Hu] end.
  - repeat (apply Forall_app; split); [done|done|evaluate|evaluate|apply u16_to_be_bytes|done].
  - unfold len in *. rewrite !length_app. simpl. lia.
  - eexists. split; [done|]. unfold u16 in *. bool_cases; lia.
Qed.

(** ** What the client builds *)

Definition head_bytes (total port : Z) (ck : list Z) : list Z :=
  [0x45; 0x00] ++ u16_to_be total ++ u16_to_be port ++ [0; 0; 64; 17] ++ ck
  ++ octets Client.CLIENT_IP ++ octets Client.SERVER_IP.

Definition udp_bytes (port length ck : Z) : list Z :=
  u16_to_be Client.SRC_PORT ++ u16_to_be port ++ u16_to_be length ++ u16_to_be ck.

Definition written_udp_len (c : Client.Case) : Z :=
  default (Client.udp_len c) (Client.cc_udp_len_override c).

Record case_wf (c : Client.Case) : Prop := {
  cw_data : 0 <= Client.cc_udp_data_len c;
  cw_surplus : 0 <= Client.cc_surplus_len c;
  cw_physical : Client.physical_len c <= 65535;
  cw_written : u16 (Client.cc_written_ip_total_len c);
  cw_override : u16 (written_udp_len c);
}.

Definition user_data (c : Client.Case) : list Z := replicate (Z.to_nat (Client.cc_udp_data_len c)) 0xaa.

Lemma user_data_bytes c : bytes (user_data c).
Proof. apply Forall_replicate. unfold u8. lia. Qed.

Lemma len_user_data c : 0 <= Client.cc_udp_data_len c -> len (user_data c) = Client.cc_udp_data_len c.
Proof. intros. unfold len, user_data. rewrite length_replicate. lia. Qed.

Lemma len_pattern n : 0 <= n -> len (pattern n) = n.
Proof. intros. unfold len, pattern. rewrite length_fmap, length_seqZ. lia. Qed.

Lemma udp_bytes_bytes port n ck : bytes (udp_bytes port n ck).
Proof. unfold udp_bytes. repeat (apply Forall_app; split); apply u16_to_be_bytes. Qed.

Lemma build_datagram_spec c port :
  case_wf c -> u16 port ->
  exists hk ck, bytes hk /\ len hk = 2 /\
    Client.build_datagram c port =
    Some (head_bytes (Client.cc_written_ip_total_len c) port hk
            ++ udp_bytes port (written_udp_len c) ck ++ user_data c ++ pattern (Client.cc_surplus_len c)).
Proof.
  intros [Hd Hs Hp Hw Ho] Hport. unfold Client.physical_len, Client.udp_len in Hp.
  change IP_HDR_LEN with 20 in Hp. change UDP_HDR_LEN with 8 in Hp.
  unfold Client.build_datagram. cbv zeta. unfold u16 in Hw. rewrite (Z.mod_small (Client.cc_written_ip_total_len c)) by lia.
  set (h0 := [0x45] ++ _). assert (len h0 = 20) as Hl by done.
  assert (bytes h0) as Hb.
  { unfold h0. repeat (apply Forall_app; split); try apply u16_to_be_bytes; evaluate. }
  change IP_HDR_LEN with 20. rewrite (slice_Some h0), sub_full by lia.
  destruct (checksum_spec h0 Hb) as [-> Hu]; [lia|]. set (hk := u16_to_be (internet_checksum h0)).
  assert (copy_at h0 10 hk = Some (head_bytes (Client.cc_written_ip_total_len c) port hk)) as -> by done.
  set (h := head_bytes _ _ _). assert (len h = 20) as Hh by done.
  assert (default (Client.udp_len c mod 65536) (Client.cc_udp_len_override c) = written_udp_len c) as ->.
  { unfold written_udp_len, Client.udp_len in *. change UDP_HDR_LEN with 8 in *.
    destruct (Client.cc_udp_len_override c); [done|]. simpl. apply Z.mod_small. lia. }
  fold (udp_bytes port (written_udp_len c) 0). set (u := udp_bytes _ _ 0). assert (len u = 8) as Hul by done.
  assert (Client.resize (h ++ u) (20 + UDP_HDR_LEN + Client.cc_udp_data_len c) 0xaa = h ++ u ++ user_data c) as ->.
  { unfold Client.resize, user_data. change UDP_HDR_LEN with 8. rewrite len_app, Hh, Hul.
    replace (20 + 8 + Client.cc_udp_data_len c - (20 + 8)) with (Client.cc_udp_data_len c) by lia.
    rewrite take_ge, app_assoc; [done|]. unfold len in Hh, Hul. rewrite length_app. lia. }
  pose proof (len_user_data c Hd) as Hlu.
  assert (slice (h ++ u ++ user_data c) 20 (20 + Client.udp_len c) = Some (u ++ user_data c)) as ->.
  { rewrite slice_Some by (rewrite ?len_app; unfold Client.udp_len; change UDP_HDR_LEN with 8; lia).
    f_equal. apply sub_suffix; [done|]. rewrite len_app. unfold Client.udp_len. change UDP_HDR_LEN with 8. lia. }
  destruct (udp_checksum_total Client.CLIENT_IP Client.SERVER_IP (u ++ user_data c)) as (computed & -> & _).
  { unfold Ipv4Addr_wf. evaluate. }
  { unfold Ipv4Addr_wf. evaluate. }
  { apply Forall_app. split; [apply udp_bytes_bytes|apply user_data_bytes]. }
  { rewrite len_app. lia. }
  set (ck := match Client.cc_cksum c with Auto => _ | Zero => _ | Bad => _ end).
  exists hk, ck. split; [apply u16_to_be_bytes|]. split; [reflexivity|].
  set (u6 := u16_to_be Client.SRC_PORT ++ u16_to_be port ++ u16_to_be (written_udp_len c)).
  replace (h ++ u ++ user_data c) with ((h ++ u6) ++ [0; 0] ++ user_data c)
    by (unfold u, u6, udp_bytes; by rewrite <- !app_assoc).
  change (20 + 6) with 26. rewrite copy_at_middle by done. done.
Qed.

(** ** What the kernel delivers *)

(** Finding A: the datagram arrives with its Total Length set to the length of the
    buffer and a header checksum of the kernel's. *)
Definition kernel_delivers (pkt d : list Z) : Prop :=
  exists hk, bytes hk /\ len hk = 2 /\
    d = sub pkt 0 2 ++ u16_to_be (len pkt) ++ sub pkt 4 10 ++ hk ++ sub pkt 12 (len pkt).

Lemma build_datagram_len c port pkt :
  case_wf c -> u16 port -> Client.build_datagram c port = Some pkt -> len pkt = Client.physical_len c.
Proof.
  intros Hc Hp Hb. destruct (build_datagram_spec c port Hc Hp) as (hk & ck & _ & Hl & Hb'). rewrite Hb in Hb'.
  apply (inj Some) in Hb' as ->. destruct Hc as [Hd Hs _ _ _].
  assert (len (head_bytes (Client.cc_written_ip_total_len c) port hk) = 20) as Hh.
  { unfold head_bytes. rewrite !len_app, Hl. done. }
  rewrite !len_app, Hh, len_user_data, len_pattern by done. unfold Client.physical_len, Client.udp_len.
  change (len (udp_bytes _ _ _)) with 8. change IP_HDR_LEN with 20. change UDP_HDR_LEN with 8. lia.
Qed.

Lemma list_2 {A} (l : list A) : len l = 2 -> exists a b, l = [a; b].
Proof.
  destruct l as [|a [|b [|c l]]]; try done; [eauto|]. rewrite !len_cons. pose proof (len_nonneg l). lia.
Qed.

Lemma kernel_delivers_spec c port pkt d :
  case_wf c -> u16 port -> Client.build_datagram c port = Some pkt -> kernel_delivers pkt d ->
  exists a b ck, d = head_bytes (Client.physical_len c) port [a; b]
    ++ udp_bytes port (written_udp_len c) ck ++ user_data c ++ pattern (Client.cc_surplus_len c).
Proof.
  intros Hc Hp Hb (hk & Hhb & Hl & ->). pose proof (build_datagram_len c port pkt Hc Hp Hb) as Hlen.
  destruct (build_datagram_spec c port Hc Hp) as (hk0 & ck & Hb0 & Hl0 & Hb'). rewrite Hb in Hb'.
  apply (inj Some) in Hb' as ->. destruct (list_2 hk Hl) as (a & b & ->). destruct (list_2 hk0 Hl0) as (a0 & b0 & ->).
  exists a, b, ck. rewrite Hlen. unfold head_bytes at 2 3 4.
  set (tail := udp_bytes _ _ _ ++ _). set (w := Client.cc_written_ip_total_len c) in *.
  assert (forall x : list Z, sub (([0x45; 0x00] ++ u16_to_be w ++ u16_to_be port ++ [0; 0; 64; 17] ++ [a0; b0]
    ++ octets Client.CLIENT_IP ++ octets Client.SERVER_IP) ++ x) 12 (20 + len x)
    = octets Client.CLIENT_IP ++ octets Client.SERVER_IP ++ x) as Hsub.
  { intros x.
    apply (sub_suffix ([0x45; 0x00] ++ u16_to_be w ++ u16_to_be port ++ [0; 0; 64; 17] ++ [a0; b0])
      (octets Client.CLIENT_IP ++ octets Client.SERVER_IP ++ x)); [done|].
    unfold len. rewrite !length_app. simpl. lia. }
  assert (Client.physical_len c = 20 + len tail) as ->.
  { rewrite <- Hlen. unfold tail. rewrite (len_app (head_bytes _ _ _)). done. }
  rewrite Hsub. done.
Qed.

(** ** What the server matches *)

Definition observed_surplus (c : Client.Case) : option (list Z) :=
  let w := written_udp_len c in
  if (UDP_HDR_LEN <=? w) && (IP_HDR_LEN + w <=? Client.physical_len c)
  then Some (sub (user_data c ++ pattern (Client.cc_surplus_len c)) (w - UDP_HDR_LEN)
               (Client.cc_udp_data_len c + Client.cc_surplus_len c))
  else None.

Definition marker_of (c : Client.Case) (port : Z) : Server.Marker :=
  {| Server.mk_dst_port := port; Server.mk_total_len := Client.physical_len c;
     Server.mk_udp_len_field := written_udp_len c; Server.mk_surplus := observed_surplus c |}.

Lemma match_marker_spec c port pkt d n :
  case_wf c -> MARKER_BASE <= port < MARKER_BASE + n -> 0 <= n <= 1000 ->
  Client.build_datagram c port = Some pkt -> kernel_delivers pkt d ->
  Server.match_marker d n = Some (Some (marker_of c port)).
Proof.
  intros Hc Hport Hn Hb Hk. unfold MARKER_BASE in *.
  destruct (kernel_delivers_spec c port pkt d Hc ltac:(unfold u16; lia) Hb Hk) as (a & b & ck & ->).
  destruct Hc as [Hd Hs Hp Hw Ho]. set (tail := user_data c ++ pattern (Client.cc_surplus_len c)).
  assert (len tail = Client.cc_udp_data_len c + Client.cc_surplus_len c) as Hlt
    by (unfold tail; rewrite len_app, len_user_data, len_pattern; lia).
  set (d := head_bytes _ _ _ ++ _).
  assert (Client.physical_len c = 28 + len tail) as Hphys
    by (unfold Client.physical_len, Client.udp_len, IP_HDR_LEN, UDP_HDR_LEN; lia).
  assert (len d = Client.physical_len c) as Hld.
  { rewrite Hphys. unfold d. rewrite (app_assoc (head_bytes _ _ _)), len_app. done. }
  pose proof (len_nonneg tail). unfold Server.match_marker. rewrite Hld.
  change IP_HDR_LEN with 20. change UDP_HDR_LEN with 8. destruct (Z.ltb_spec (Client.physical_len c) 20); [lia|].
  change (get d 0) with (Some 0x45). change (get d 9) with (Some 17). cbv zeta iota.
  change (Z.land 69 15 * 4) with 20. change (20 <? 20) with false. change (17 =? IPPROTO_UDP) with true.
  destruct (Z.ltb_spec (Client.physical_len c) 20); [lia|]. cbn [orb negb].
  assert (Server.u16_at d 2 = Some (Client.physical_len c)) as ->.
  { change (Server.u16_at d 2) with (Some (u16_from_be (Client.physical_len c / 256 mod 256) (Client.physical_len c mod 256))).
    f_equal. apply u16_from_to_be. unfold u16. lia. }
  destruct (Z.ltb_spec (Client.physical_len c) (Client.physical_len c)); [lia|].
  destruct (Z.ltb_spec (Client.physical_len c) (20 + 8)); [lia|]. cbn [orb].
  assert (slice d 20 (Client.physical_len c) = Some (udp_bytes port (written_udp_len c) ck ++ tail)) as ->.
  { rewrite slice_Some by lia. f_equal. unfold d. apply sub_suffix; [done|]. rewrite Hphys, len_app.
    change (len (udp_bytes _ _ _)) with 8. change (len (head_bytes _ _ _)) with 20. lia. }
  assert (Server.u16_at (udp_bytes port (written_udp_len c) ck ++ tail) 2 = Some port) as ->.
  { change (Some (u16_from_be (port / 256 mod 256) (port mod 256)) = Some port). f_equal.
    apply u16_from_to_be. unfold u16. lia. }
  assert (Server.u16_at (udp_bytes port (written_udp_len c) ck ++ tail) 4 = Some (written_udp_len c)) as ->.
  { change (Some (u16_from_be (written_udp_len c / 256 mod 256) (written_udp_len c mod 256)) = Some (written_udp_len c)).
    f_equal. by apply u16_from_to_be. }
  unfold u16_try_from, MARKER_BASE. rewrite (Z.mod_small n) by lia. change U16_MAX with 65535.
  destruct (Z.leb_spec (0x9868 + n) 65535); [|lia]. destruct (Z.leb_spec 0x9868 port); [|lia].
  destruct (Z.ltb_spec port (0x9868 + n)); [|lia]. cbn [andb negb].
  unfold marker_of, observed_surplus. change IP_HDR_LEN with 20. change UDP_HDR_LEN with 8. cbv zeta. fold tail.
  destruct (Z.leb_spec 8 (written_udp_len c)); [|done].
  destruct (Z.leb_spec (20 + written_udp_len c) (Client.physical_len c)); [|done]. cbn [andb].
  rewrite slice_Some by lia. do 4 f_equal. rewrite Hphys, <- Hlt. unfold d.
  rewrite (app_assoc (head_bytes _ _ _)). replace (20 + written_udp_len c) with (28 + (written_udp_len c - 8)) by lia.
  apply (sub_app_shift (head_bytes (Client.physical_len c) port [a; b] ++ udp_bytes port (written_udp_len c) ck) tail
    (written_udp_len c - 8) (len tail)). lia.
Qed.

(** ** The case table *)

(** What the table promises of each case. *)
Record parts_ok (p : CaseParts) : Prop := {
  po_wf : case_wf (Client.case_of p);
  po_mtu : cp_check p = SendFails <-> MTU < Client.physical_len (Client.case_of p);
  po_honest : cp_check p = Wire -> cp_udp_len_override p = None;
}.

Definition parts_okb (p : CaseParts) : bool :=
  let c := Client.case_of p in
  (0 <=? cp_udp_data_len p) && (0 <=? cp_surplus_len p) && (Client.physical_len c <=? 65535)
  && bool_decide (u16 (cp_written_ip_total_len p)) && bool_decide (u16 (written_udp_len c))
  && Bool.eqb (bool_decide (cp_check p = SendFails)) (MTU <? Client.physical_len c)
  && (negb (bool_decide (cp_check p = Wire)) || bool_decide (cp_udp_len_override p = None)).

Lemma parts_okb_ok p : parts_okb p = true -> parts_ok p.
Proof.
  unfold parts_okb. cbv zeta. rewrite !andb_true_iff, !Z.leb_le, !bool_decide_eq_true.
  intros ((((((H1 & H2) & H3) & H4) & H5) & H6) & H7). split.
  - by split.
  - apply Bool.eqb_prop in H6. rewrite <- Z.ltb_lt, <- H6. by rewrite bool_decide_eq_true.
  - intros Hw. rewrite bool_decide_true in H7 by done. by apply bool_decide_eq_true in H7.
Qed.

Lemma table_ok : Forall parts_ok case_parts.
Proof.
  apply (Forall_impl (fun p => parts_okb p = true)); [|apply parts_okb_ok].
  apply Forall_forall. intros p Hp%list_elem_of_In. revert p Hp. apply forallb_forall. vm_compute. reflexivity.
Qed.

Lemma table_len : length case_parts = 97%nat.
Proof. vm_compute. reflexivity. Qed.

Lemma table_lookup i p : case_parts !! i = Some p -> parts_ok p /\ (i < 97)%nat.
Proof.
  intros Hi. split; [|rewrite <- table_len; by eapply lookup_lt_Some].
  pose proof table_ok as Ht. rewrite Forall_lookup in Ht. by eapply Ht.
Qed.

Lemma marker_port_spec i : 0 <= i < 97 -> marker_port i = Some (MARKER_BASE + i).
Proof.
  intros Hi. unfold marker_port, u16_try_from, MARKER_BASE, U16_MAX. rewrite Z.mod_small by lia.
  destruct (Z.leb_spec (0x9868 + i) 65535); [done|lia].
Qed.

(** ** The client's run *)

(** Finding B: what does not fit the MTU is refused with [EMSGSIZE], the rest is
    sent. *)
Definition kernel_sends (send : list Z -> result Z IoError) : Prop :=
  forall pkt, if len pkt <=? MTU then exists n, send pkt = Ok n
              else exists e, send pkt = Err e /\ raw_os_error e = Some Client.EMSGSIZE.

Lemma send_loop_ok `{IoDisplay} send parts : forall i t,
  kernel_sends send -> Forall parts_ok parts -> 0 <= i -> i + len parts <= 97 ->
  exists t', Client.send_loop send i (Client.case_of <$> parts) t = Some t' /\
    Client.ta_failed t' = Client.ta_failed t /\ Client.ta_lines t' = Client.ta_lines t /\
    Client.ta_sent t' + Client.ta_emsgsize t' = Client.ta_sent t + Client.ta_emsgsize t + len parts.
Proof.
  induction parts as [|p parts IH]; intros i t Hsend Hok Hi Hn.
  { exists t. do 3 (split; [done|]). unfold len. simpl. lia. }
  rewrite len_cons in *. pose proof (len_nonneg parts). apply Forall_cons in Hok as [[Hw Hm _] Hok].
  cbn [fmap list_fmap Client.send_loop]. rewrite marker_port_spec by lia.
  assert (u16 (MARKER_BASE + i)) as Hp by (unfold u16, MARKER_BASE; lia).
  destruct (build_datagram_spec _ _ Hw Hp) as (hk & ck & _ & _ & Hb).
  pose proof (build_datagram_len _ _ _ Hw Hp Hb) as Hl. rewrite Hb.
  match type of Hb with _ = Some ?q => generalize dependent q end. intros pkt _ Hl.
  set (t1 := Client.score _ _ _ _).
  assert (Client.ta_failed t1 = Client.ta_failed t /\ Client.ta_lines t1 = Client.ta_lines t /\
    Client.ta_sent t1 + Client.ta_emsgsize t1 = Client.ta_sent t + Client.ta_emsgsize t + 1) as (E1 & E2 & E3).
  { unfold t1, Client.score. cbv zeta. change (Client.cc_check (Client.case_of p)) with (cp_check p).
    specialize (Hsend pkt). rewrite Hl in Hsend.
    destruct (Z.leb_spec (Client.physical_len (Client.case_of p)) MTU) as [Hle|Hgt].
    - destruct Hsend as [n ->]. destruct (cp_check p) eqn:Ec; [|..].
      1, 2: cbn; do 2 (split; [done|]); lia.
      exfalso. pose proof (proj1 Hm eq_refl). lia.
    - destruct Hsend as (e & -> & He). rewrite (proj2 Hm Hgt), bool_decide_true by done.
      cbn. do 2 (split; [done|]). lia. }
  destruct (IH (i + 1) t1 Hsend Hok ltac:(lia) ltac:(lia)) as (t' & -> & F1 & F2 & F3).
  exists t'. split; [done|]. rewrite F1, F2, F3, E1, E2, E3. do 2 (split; [done|]). lia.
Qed.

(** ** The server's run *)

Definition observation_of (p : CaseParts) : Server.Observation :=
  let c := Client.case_of p in
  {| Server.ob_total_len := Client.physical_len c; Server.ob_udp_len_field := written_udp_len c;
     Server.ob_surplus := observed_surplus c |}.

(** Only what the cases look like was ever written down. *)
Definition faithful (seen : list (option Server.Observation)) : Prop :=
  length seen = length case_parts /\
  forall i o, seen !! i = Some (Some o) -> exists p, case_parts !! i = Some p /\ o = observation_of p.

(** The datagram [d] is case [i], as the kernel delivers it. *)
Definition is_case (i : nat) (d : list Z) : Prop :=
  exists p pkt, case_parts !! i = Some p /\
    Client.build_datagram (Client.case_of p) (MARKER_BASE + Z.of_nat i) = Some pkt /\ kernel_delivers pkt d.

(** What arrives in time: nothing, an unrelated datagram, or a case. *)
Definition arrival_ok (deadline : Z) (a : Server.Arrival) : Prop :=
  Server.ar_now a < deadline /\
  match Server.ar_recv a with
  | Err e => is_timeout e = true
  | Ok d => Server.match_marker d 97 = Some None \/ exists i, is_case i d
  end.

Definition wanted (i : nat) : Prop := exists p, case_parts !! i = Some p /\ cp_check p <> SendFails.

Lemma is_case_marker i d :
  is_case i d -> exists p, case_parts !! i = Some p /\
    Server.match_marker d 97 = Some (Some (marker_of (Client.case_of p) (MARKER_BASE + Z.of_nat i))).
Proof.
  intros (p & pkt & Hp & Hb & Hk). exists p. split; [done|]. destruct (table_lookup i p Hp) as [[Hw _ _] Hi].
  eapply match_marker_spec; try done; lia.
Qed.

(** Taking down a case: its slot is filled, the others stay. *)
Lemma observe_spec seen i p :
  faithful seen -> case_parts !! i = Some p ->
  exists seen', Server.observe seen (marker_of (Client.case_of p) (MARKER_BASE + Z.of_nat i)) = Some seen' /\
    faithful seen' /\ seen' !! i = Some (Some (observation_of p)) /\
    forall j o, seen !! j = Some (Some o) -> seen' !! j = Some (Some o).
Proof.
  intros [Hl Hf] Hp. destruct (table_lookup i p Hp) as [_ Hi]. rewrite table_len in Hl.
  unfold Server.observe. cbn [marker_of Server.mk_dst_port]. unfold checked_sub.
  destruct (Z.leb_spec MARKER_BASE (MARKER_BASE + Z.of_nat i)); [|lia].
  replace (MARKER_BASE + Z.of_nat i - MARKER_BASE) with (Z.of_nat i) by lia.
  destruct (Z.ltb_spec (Z.of_nat i) (len seen)); [|unfold len in *; lia].
  assert (get seen (Z.of_nat i) = seen !! i) as ->
    by (unfold get; destruct (Z.leb_spec 0 (Z.of_nat i)); [by rewrite Nat2Z.id|lia]).
  destruct (lookup_lt_is_Some_2 seen i) as [slot Hs]; [lia|]. rewrite Hs. destruct slot as [o|].
  - exists seen. split; [done|]. split; [by split; [rewrite table_len|]|]. split; [|done].
    destruct (Hf i o Hs) as (p' & Hp' & ->). by rewrite Hp in Hp'; injection Hp' as ->.
  - rewrite set_at_insert, Nat2Z.id by lia.
    match goal with |- context [Server.Build_Observation ?a ?b ?c] =>
      change (Server.Build_Observation a b c) with (observation_of p) end.
    eexists. split; [done|].
    assert (<[i:=Some (observation_of p)]> seen !! i = Some (Some (observation_of p))) as Hii
      by (apply list_lookup_insert_eq; lia).
    split; [|split; [done|]].
    + split; [rewrite length_insert, table_len; done|]. intros j o Hj. destruct (decide (j = i)) as [->|Hne].
      * rewrite Hii in Hj. injection Hj as <-. by exists p.
      * rewrite list_lookup_insert_ne in Hj by done. by apply Hf.
    + intros j o Hj. destruct (decide (j = i)) as [->|Hne]; [congruence|]. by rewrite list_lookup_insert_ne.
Qed.

Lemma all_wire_seen_spec seen :
  length seen = length case_parts ->
  Server.all_wire_seen Server.cases seen = true <->
  forall i, wanted i -> exists o, seen !! i = Some (Some o).
Proof.
  intros Hl. unfold Server.all_wire_seen, Server.cases. rewrite forallb_forall. split.
  - intros Hall i (p & Hp & Hc). destruct (lookup_lt_is_Some_2 seen i) as [slot Hs].
    { rewrite Hl. by eapply lookup_lt_Some. }
    specialize (Hall (Server.case_of p, slot)). rewrite <- list_elem_of_In in Hall. cbn [fst snd] in Hall.
    destruct slot as [o|]; [by exists o|]. exfalso. apply Hc. rewrite orb_false_r, bool_decide_eq_true in Hall.
    apply Hall. apply list_elem_of_lookup. exists i. rewrite lookup_zip_with, list_lookup_fmap, Hp. simpl. by rewrite Hs.
  - intros Hall [c slot] Hin%list_elem_of_In%list_elem_of_lookup. destruct Hin as [i Hi].
    rewrite lookup_zip_with, list_lookup_fmap in Hi. destruct (case_parts !! i) as [p|] eqn:Hp; [|done].
    cbn in Hi. destruct (seen !! i) as [s|] eqn:Hs; [|done]. cbn in Hi. injection Hi as <- <-.
    cbn [fst snd]. destruct (decide (cp_check p = SendFails)) as [E|E].
    + by rewrite bool_decide_true.
    + destruct (Hall i) as [o Ho]; [by exists p|]. rewrite Hs in Ho. injection Ho as ->. apply orb_true_r.
Qed.

Lemma collect_ok deadline arrivals : forall seen,
  faithful seen -> Forall (arrival_ok deadline) arrivals ->
  (forall i, wanted i -> (exists o, seen !! i = Some (Some o)) \/
     exists a d, a ∈ arrivals /\ Server.ar_recv a = Ok d /\ is_case i d) ->
  exists seen', Server.collect Server.cases deadline seen arrivals = Some (Server.Collected seen') /\
    faithful seen' /\ Server.all_wire_seen Server.cases seen' = true.
Proof.
  induction arrivals as [|a arrivals IH]; intros seen Hf Hok Hcov; cbn [Server.collect].
  - destruct (Server.all_wire_seen Server.cases seen) eqn:E; [by exists seen|]. exfalso.
    assert (Server.all_wire_seen Server.cases seen = true) as Hall; [|congruence].
    apply all_wire_seen_spec; [apply Hf|]. intros i Hi. destruct (Hcov i Hi) as [?|(x & d & Hin & _)]; [done|].
    by apply elem_of_nil in Hin.
  - destruct (Server.all_wire_seen Server.cases seen) eqn:E; [by exists seen|].
    apply Forall_cons in Hok as [[Hnow Ha] Hok]. destruct (Z.leb_spec deadline (Server.ar_now a)); [lia|].
    change (len Server.cases) with 97. destruct (Server.ar_recv a) as [d|e] eqn:Er.
    + destruct (Server.match_marker d 97) as [[m|]|] eqn:Em.
      * destruct Ha as [?|[i Hi]]; [done|]. destruct (is_case_marker i d Hi) as (p & Hp & Hm).
        rewrite Em in Hm. injection Hm as ->. destruct (observe_spec seen i p Hf Hp) as (seen' & -> & Hf' & Hi' & Hmono).
        apply IH; [done..|]. intros j Hj. destruct (Hcov j Hj) as [(o & Ho)|(x & d' & Hin & Hx & Hc)]; [left; eauto|].
        apply elem_of_cons in Hin as [->|Hin]; [|right; eauto 10]. left. rewrite Er in Hx. injection Hx as <-.
        destruct (is_case_marker j d Hc) as (p' & Hp' & Hm'). rewrite Em in Hm'. injection Hm' as Hport _ _ _.
        assert (j = i) as -> by lia. eauto.
      * apply IH; [done..|]. intros j Hj. destruct (Hcov j Hj) as [?|(x & d' & Hin & Hx & Hc)]; [by left|]. right.
        apply elem_of_cons in Hin as [->|Hin]; [|eauto 10]. rewrite Er in Hx. injection Hx as <-.
        destruct (is_case_marker j d Hc) as (p' & _ & Hm'). congruence.
      * exfalso. destruct Ha as [?|[i Hi]]; [done|]. destruct (is_case_marker i d Hi) as (p & _ & Hm). congruence.
    + rewrite Ha. apply IH; [done..|]. intros j Hj. destruct (Hcov j Hj) as [?|(x & d' & Hin & Hx & Hc)]; [by left|].
      right. apply elem_of_cons in Hin as [->|Hin]; [congruence|eauto 10].
Qed.

(** ** The report *)

(** The surplus of a case with an honest UDP Length is the pattern. *)
Lemma observed_surplus_honest p :
  parts_ok p -> cp_check p = Wire -> observed_surplus (Client.case_of p) = Some (pattern (cp_surplus_len p)).
Proof.
  intros [[Hd Hs Hp _ _] _ Ho] Hw. specialize (Ho Hw).
  set (c := Client.case_of p) in *.
  change (Client.cc_udp_data_len c) with (cp_udp_data_len p) in Hd. change (Client.cc_surplus_len c) with (cp_surplus_len p) in Hs.
  assert (written_udp_len c = 8 + cp_udp_data_len p) as Hwl.
  { unfold written_udp_len. change (Client.cc_udp_len_override c) with (cp_udp_len_override p). by rewrite Ho. }
  unfold observed_surplus. rewrite Hwl. change UDP_HDR_LEN with 8. change IP_HDR_LEN with 20. cbv zeta.
  destruct (Z.leb_spec 8 (8 + cp_udp_data_len p)); [|lia].
  destruct (Z.leb_spec (20 + (8 + cp_udp_data_len p)) (Client.physical_len c)) as [_|Hbad].
  2:{ unfold Client.physical_len, Client.udp_len, IP_HDR_LEN, UDP_HDR_LEN in Hbad. cbn in Hbad. lia. }
  cbn [andb]. f_equal. change (Client.cc_udp_data_len c) with (cp_udp_data_len p).
  change (Client.cc_surplus_len c) with (cp_surplus_len p).
  apply sub_suffix; [rewrite len_user_data by done; cbn; lia|]. rewrite len_user_data, len_pattern by done. done.
Qed.

(** A slot that was filled, or belongs to a case that was never sent. *)
Definition slot_ok (p : CaseParts) (slot : option Server.Observation) : Prop :=
  parts_ok p /\ match slot with Some o => o = observation_of p | None => cp_check p = SendFails end.

Lemma report_case_ok i p slot t :
  0 <= i < 97 -> slot_ok p slot ->
  exists t', Server.report_case i (Server.case_of p) slot t = Some t' /\ Server.to_fail t' = Server.to_fail t /\
    Server.to_pass t' + Server.to_skip t' = Server.to_pass t + Server.to_skip t + 1.
Proof.
  intros Hi [Hp Hslot]. unfold Server.report_case. rewrite marker_port_spec by done.
  change (Server.sc_check (Server.case_of p)) with (cp_check p).
  destruct (decide (cp_check p = SendFails)) as [E|E].
  { rewrite bool_decide_true by done. eexists. split; [done|]. cbn. split; [done|lia]. }
  rewrite bool_decide_false by done. destruct slot as [o|]; [|done]. subst o. cbv zeta.
  match goal with |- context [Server.verdict ?c ?o ?h ?n] =>
    assert ((Server.verdict c o h n).1 = true) as Hv; [|destruct (Server.verdict c o h n) as [ok line]] end.
  - unfold Server.verdict. change (Server.sc_check (Server.case_of p)) with (cp_check p).
    destruct (cp_check p) eqn:Ec; [|done..]. cbv zeta. cbn [fst].
    change (Server.ob_surplus (observation_of p)) with (observed_surplus (Client.case_of p)).
    rewrite observed_surplus_honest by done. cbn [default].
    rewrite bool_decide_true by done. apply Z.eqb_eq.
    unfold observation_of, Client.physical_len, Client.udp_len. cbn. lia.
  - cbn in Hv. subst ok. eexists. split; [done|]. cbn. split; [done|lia].
Qed.

Lemma report_loop_ok parts slots : Forall2 slot_ok parts slots -> forall i t,
  0 <= i -> i + len parts <= 97 ->
  exists t', Server.report_loop i (Server.case_of <$> parts) slots t = Some t' /\
    Server.to_fail t' = Server.to_fail t.
Proof.
  induction 1 as [|p slot parts slots Hs _ IH]; intros i t Hi Hn; [by exists t|]. rewrite len_cons in Hn.
  pose proof (len_nonneg parts). cbn [fmap list_fmap Server.report_loop].
  destruct (report_case_ok i p slot t ltac:(lia) Hs) as (t1 & -> & Hf & _).
  destruct (IH (i + 1) t1 ltac:(lia) ltac:(lia)) as (t' & -> & Hf'). exists t'. split; [done|]. congruence.
Qed.

Lemma report_ok seen :
  faithful seen -> Server.all_wire_seen Server.cases seen = true ->
  exists lines, Server.report Server.cases seen = Some (true, lines).
Proof.
  intros [Hl Hf] Hall. rewrite all_wire_seen_spec in Hall by done.
  assert (Forall2 slot_ok case_parts seen) as Hs.
  { apply Forall2_same_length_lookup_2; [done|]. intros i p slot Hp Hslot.
    destruct (table_lookup i p Hp) as [Hok _]. split; [done|]. destruct slot as [o|].
    - destruct (Hf i o Hslot) as (p' & Hp' & ->). by rewrite Hp in Hp'; injection Hp' as ->.
    - destruct (decide (cp_check p = SendFails)) as [E|E]; [done|]. destruct (Hall i) as [o Ho]; [by exists p|].
      congruence. }
  unfold Server.report, Server.cases.
  destruct (report_loop_ok _ _ Hs 0 {| Server.to_pass := 0; Server.to_fail := 0; Server.to_skip := 0;
    Server.to_rewritten := 0; Server.to_lines := ["spike_server: results"] |}) as (t & -> & Ht); [done|done|].
  cbv zeta. rewrite Ht. cbn [Server.to_fail]. change (0 =? 0) with true. by eexists.
Qed.

(** ** Property *)

(** C31. The spike passes when the kernel does what its findings say: no
    case of the table makes the client or the server panic; if the kernel refuses
    with EMSGSIZE exactly what exceeds the MTU, the client counts every case as
    sent or refused as expected and exits with 0; and if every case within the MTU
    arrives at least once before the deadline, rewritten as in Finding A, in any
    order, with duplicates and among timeouts and unrelated datagrams, the server
    matches each one, finds the whole surplus pattern and exits with 0.  The checksum
    of the client is the library's. *)
Theorem spike_pair_passes `{IoDisplay} (send : list Z -> result Z IoError) (io : Server.ServerIo) :
  kernel_sends send ->
  Server.sio_open io = Ok tt ->
  Forall (arrival_ok (Server.sio_start io + Server.DEADLINE)) (Server.sio_arrivals io) ->
  (forall i, wanted i -> exists a d, a ∈ Server.sio_arrivals io /\ Server.ar_recv a = Ok d /\ is_case i d) ->
  (exists lines, Client.main send (Ok tt) = Some (0, lines, [])) /\
  (exists lines, Server.main io = Some (Some (0, lines, []))) /\
  forall bs, bytes bs -> len bs <= 131072 -> Client.ones_complement_checksum bs = Some (internet_checksum bs).
Proof.
  intros Hsend Hopen Hok Hcov. split; [|split].
  - unfold Client.main, Client.cases. cbn [map_err]. cbv zeta.
    match goal with |- context [Client.send_loop send 0 _ ?t] =>
      destruct (send_loop_ok send case_parts 0 t Hsend table_ok) as (t' & -> & Hf & _); [done|done|] end.
    rewrite Hf. cbn [Client.ta_failed]. change (0 =? 0) with true. by eexists.
  - assert (faithful (replicate (length Server.cases) None)) as Hf0.
    { split; [rewrite length_replicate; unfold Server.cases; by rewrite length_fmap|]. intros i o Hi. by apply lookup_replicate in Hi as [? _]. }
    destruct (collect_ok (Server.sio_start io + Server.DEADLINE) (Server.sio_arrivals io) _ Hf0 Hok)
      as (seen & Hc & Hf & Hall); [intros i Hi; right; by apply Hcov|].
    destruct (report_ok seen Hf Hall) as [lines Hr].
    unfold Server.main, Server.run. rewrite Hopen. cbv zeta. rewrite Hc, Hr. by eexists.
  - intros bs Hb Hl. by apply checksum_spec.
Qed.

(** A kernel that leaves the header checksum empty, and a link that loses nothing. *)
Definition kernel_copy (pkt : list Z) : list Z :=
  sub pkt 0 2 ++ u16_to_be (len pkt) ++ sub pkt 4 10 ++ [0; 0] ++ sub pkt 12 (len pkt).

Definition example_send (pkt : list Z) : result Z IoError :=
  if len pkt <=? MTU then Ok (len pkt) else Err {| raw_os_error := Some Client.EMSGSIZE |}.

Definition example_arrival (i : nat) : option Server.Arrival :=
  match case_parts !! i with
  | Some p =>
      if bool_decide (cp_check p = SendFails) then None else
      match Client.build_datagram (Client.case_of p) (MARKER_BASE + Z.of_nat i) with
      | Some pkt => Some {| Server.ar_now := 0; Server.ar_recv := Ok (kernel_copy pkt) |}
      | None => None
      end
  | None => None
  end.

Definition example_server_io : Server.ServerIo :=
  {| Server.sio_open := Ok tt; Server.sio_start := 0;
     Server.sio_arrivals := {| Server.ar_now := 0; Server.ar_recv := Err {| raw_os_error := Some EAGAIN |} |}
                            :: omap example_arrival (reverse (seq 0 97)) |}.

Lemma kernel_copy_delivers pkt : kernel_delivers pkt (kernel_copy pkt).
Proof. exists [0; 0]. split; [evaluate|]. by split. Qed.

Lemma example_arrival_ok i a : example_arrival i = Some a -> arrival_ok Server.DEADLINE a.
Proof.
  unfold example_arrival. destruct (case_parts !! i) as [p|] eqn:Hp; [|done]. case_bool_decide; [done|].
  destruct (Client.build_datagram _ _) as [pkt|] eqn:Hb; [|done]. intros [= <-]. split; [done|]. right.
  exists i, p, pkt. split; [done|]. split; [done|]. apply kernel_copy_delivers.
Qed.

Lemma example_arrival_wanted i : wanted i ->
  exists a d, example_arrival i = Some a /\ Server.ar_recv a = Ok d /\ is_case i d.
Proof.
  intros (p & Hp & Hc). destruct (table_lookup i p Hp) as [[Hw _ _] Hi]. unfold example_arrival. rewrite Hp.
  rewrite bool_decide_false by done.
  assert (u16 (MARKER_BASE + Z.of_nat i)) as Hu by (unfold u16, MARKER_BASE; lia).
  destruct (build_datagram_spec _ _ Hw Hu) as (hk & ck & _ & _ & Hb). rewrite Hb.
  do 2 eexists. split; [done|]. split; [done|]. do 2 eexists. split; [done|]. split; [exact Hb|]. apply kernel_copy_delivers.
Qed.

Lemma spike_pair_passes_witness :
  let display := fun _ : IoError => "" in
  (exists lines, @Client.main display example_send (Ok tt) = Some (0, lines, [])) /\
  (exists lines, @Server.main display example_server_io = Some (Some (0, lines, []))).
Proof.
  cbv zeta. destruct (@spike_pair_passes (fun _ => "") example_send example_server_io) as (H1 & H2 & _).
  - intros pkt. unfold example_send. destruct (len pkt <=? MTU); [exists (len pkt)|eexists; split]; reflexivity.
  - reflexivity.
  - constructor; [split; reflexivity|]. apply Forall_forall. intros a (i & _ & Hi)%list_elem_of_omap.
    exact (example_arrival_ok i a Hi).
  - intros i Hi. destruct (example_arrival_wanted i Hi) as (a & d & Ha & Hd & Hc). exists a, d.
    split; [|split; [exact Hd|exact Hc]]. right. apply list_elem_of_omap. exists i. split; [|exact Ha].
    destruct Hi as (p & Hp & _). apply elem_of_reverse, elem_of_seq. destruct (table_lookup i p Hp). lia.
  - split; [exact H1|exact H2].
Defined.
