(* ===== verification/Oracles.v ===== *)
(** The oracles of the property tests and fuzz targets for the wire, option checksum,
    typed option, parser and serializer layers (src/tests/common, common_ocs,
    common_typed, common_options), one module per oracle file, and the fuzz targets
    that run them (src/fuzz/fuzz_targets).

    An oracle re-derives by independent code what the library must answer and
    asserts agreement.  Every failed assertion, [expect] or index out of range is
    [None]; [Some tt] is a pass.  A borrowed value's pointer is its offset
    ([or_at]), as in the parser's model. *)

From S2P Require Import Prelude Model Kind Parse Typed Serialize Checksum Ip Udp Surplus Ocs.

(** [assert_eq!(a, b)] and [assert_ne!(a, b)]. *)
Notation "'assert_eq' a b ; k" := (if bool_decide (a = b) then k else None)
  (at level 10, a at level 9, b at level 9, k at level 200) : rust_scope.
Notation "'assert_ne' a b ; k" := (if bool_decide (a = b) then None else k)
  (at level 10, a at level 9, b at level 9, k at level 200) : rust_scope.

(** ** tests/common: the wire layer *)

Module CommonWire.

(** The arm of a located surplus area. *)
Definition check_layout (buf : list Z) (layout : SurplusLayout) (natural_start ip_end : Z)
    (want_pad : bool) : option unit :=
  assert_eq (starts_at layout) natural_start;
  assert_eq (starts_at layout + surplus_len layout) ip_end;
  assert_eq (needs_pad layout) want_pad;
  assert_eq (SurplusLayout_range layout) (starts_at layout, ip_end);
  let! surplus := slice buf (SurplusLayout_range layout).1 (SurplusLayout_range layout).2 in
  ensure (usize_of_bool (needs_pad layout) + 2 <=? len surplus);
  let ocs_at := SurplusLayout_ocs_at layout in
  assert_eq ocs_at (starts_at layout + usize_of_bool (needs_pad layout));
  assert_eq (ocs_at mod 2) 0;
  ensure (ocs_at + 2 <=? ip_end);
  let! _ := slice buf ocs_at (ocs_at + 2) in
  Some tt.

(** From the parsed UDP header on; [usize] differences are checked. *)
Definition check_surplus (buf : list Z) (ip : IpRepr) (udp_at ip_end : Z) (udp : UdpHeader) : option unit :=
  let udp_len := udp_length udp in
  let natural_start := udp_at + udp_len in
  let layout := locate_surplus ip udp in
  if IpRepr_transport_payload_len ip <? udp_len then assert_eq layout None; Some tt else
  let! user_data := slice buf (udp_at + UDP_HEADER_LEN) natural_start in
  let! _ := UdpHeader_compute_checksum (UdpHeader_with_checksum udp 0) ip user_data in
  let! raw_surplus := checked_sub ip_end natural_start in
  let want_pad := natural_start mod 2 =? 1 in
  match layout with
  | None => ensure (raw_surplus <? usize_of_bool want_pad + 2); Some tt
  | Some layout => check_layout buf layout natural_start ip_end want_pad
  end.

Definition check_wire_invariants (buf : list Z) : option unit :=
  let! parsed := IpRepr_parse buf in
  match parsed with
  | Err _ => Some tt
  | Ok (ip, udp_at) =>
      assert_eq udp_at (IpRepr_header_len ip);
      let ip_end := IpRepr_header_len ip + IpRepr_transport_payload_len ip in
      ensure (ip_end <=? len buf);
      let! rest := slice buf udp_at (len buf) in
      let! udp := UdpHeader_parse rest in
      match udp with
      | Err _ => Some tt
      | Ok udp => check_surplus buf ip udp_at ip_end udp
      end
  end.
End CommonWire.

(** ** tests/common_ocs *)

Module CommonOcs.

(** [sort_unstable], which on integers is any sort, and [dedup]. *)
Fixpoint insert_sorted (x : Z) (l : list Z) : list Z :=
  match l with
  | [] => [x]
  | y :: r => if x <=? y then x :: y :: r else y :: insert_sorted x r
  end.
Definition sort_unstable (l : list Z) : list Z := foldr insert_sorted [] l.
Fixpoint dedup (l : list Z) : list Z :=
  match l with
  | x :: (y :: _) as r => if x =? y then dedup r else x :: dedup r
  | _ => l
  end.

Definition representative_positions (n : Z) : list Z :=
  let positions := dedup (sort_unstable [0; 1; n / 2; saturating_sub n 1]) in
  List.filter (fun pos => pos <? n) positions.

Fixpoint corrupt_loop (body : list Z) (surplus_len : Z) (positions : list Z) : option unit :=
  match positions with
  | [] => Some tt
  | i :: rest =>
      let! b := get body i in
      let! corrupted := set_at body i (Z.lxor b 0x01) in
      let! v := ocs_validate corrupted surplus_len 0x1234 in
      assert_ne v OcsValid;
      corrupt_loop body surplus_len rest
  end.

Definition check_compute_validate (bs : list Z) (surplus_len : Z) : option unit :=
  let! body := ocs_compute bs surplus_len in
  let! v := ocs_validate body surplus_len 0x1234 in
  assert_eq v OcsValid;
  corrupt_loop body surplus_len (representative_positions (len body)).

Definition check_dispositions (bs : list Z) (surplus_len : Z) : option unit :=
  let! zero_ocs := copy_at bs 0 (zeros 2) in
  let! unused := ocs_validate zero_ocs surplus_len 0 in
  assert_eq unused OcsUnused;
  let! ignored := ocs_validate zero_ocs surplus_len 1 in
  assert_eq ignored OcsIgnoreOptions;
  assert_eq (check_pad 0 true) (Ok tt);
  assert_eq (check_pad 1 true) (Err NonZeroPad);
  assert_eq (check_pad 1 false) (Ok tt);
  Some tt.

Definition check_ocs_invariants (bs : list Z) : option unit :=
  let surplus_len := default U16_MAX (u16_try_from (len bs)) in
  let! v := ocs_validate bs surplus_len 0x1234 in
  if len bs <? 2 then assert_eq v (OcsError (Overrun 0)); Some tt else
  let! _ := check_compute_validate bs surplus_len in
  let! _ :=
    if surplus_len + 1 <=? U16_MAX then check_compute_validate bs (surplus_len + 1) else Some tt in
  check_dispositions bs surplus_len.
End CommonOcs.

(** ** tests/common_typed *)

Module CommonTyped.

Definition implied_total_len (value_len : Z) : Z := value_len + 2.

Definition assert_fixed_decoder (T : Type) `{TypedOption T, EqDecision T} (value : list Z)
    (raw_kind total_len : Z) : option unit :=
  let! decoded := decode (T := T) value in
  if len value =? total_len - 2 then
    let! o := match decoded with Ok o => Some o | Err _ => None end in
    let encoded := encode o [] in
    let! e0 := get encoded 0 in
    assert_eq e0 raw_kind;
    let! e1 := get encoded 1 in
    assert_eq e1 total_len;
    let! rest := slice encoded 2 (len encoded) in
    let! again := decode rest in
    assert_eq again (Ok o); Some tt
  else
    assert_eq decoded (Err (InvalidLength raw_kind (implied_total_len (len value)))); Some tt.

Definition is_some {A} (x : option A) : bool := match x with Some _ => true | None => false end.

Definition assert_frag_decoder (value : list Z) : option unit :=
  let! decoded := Frag_decode value in
  if (len value =? LENGTH_FRAG_NON_TERMINAL - 2) || (len value =? LENGTH_FRAG_TERMINAL - 2) then
    let! o := match decoded with Ok o => Some o | Err _ => None end in
    assert_eq (is_some (frag_rdos o)) (len value =? LENGTH_FRAG_TERMINAL - 2);
    let encoded := Frag_encode o [] in
    let! e0 := get encoded 0 in
    assert_eq e0 KIND_FRAG;
    let! e1 := get encoded 1 in
    assert_eq e1 (if is_some (frag_rdos o) then LENGTH_FRAG_TERMINAL else LENGTH_FRAG_NON_TERMINAL);
    let! rest := slice encoded 2 (len encoded) in
    let! again := Frag_decode rest in
    assert_eq again (Ok o); Some tt
  else
    assert_eq decoded (Err (InvalidLength KIND_FRAG (implied_total_len (len value)))); Some tt.

Definition check_typed_decoder_invariants (value : list Z) : option unit :=
  let! _ := assert_fixed_decoder ApcOption value KIND_APC LENGTH_APC in
  let! _ := assert_fixed_decoder MdsOption value KIND_MDS LENGTH_MDS in
  let! _ := assert_fixed_decoder MrdsOption value KIND_MRDS LENGTH_MRDS in
  let! _ := assert_fixed_decoder ReqOption value KIND_REQ LENGTH_REQ in
  let! _ := assert_fixed_decoder ResOption value KIND_RES LENGTH_RES in
  assert_frag_decoder value.
End CommonTyped.

(** ** tests/common_options: the parser *)

Module CommonOptions.

Record ExpectedOption : Type := {
  eo_kind : OptionKind;
  eo_value_start : option Z;
  eo_value_end : Z;
  eo_next_pos : Z;
  eo_is_eol : bool;
}.

Inductive ExpectedStep : Type :=
| Done
| Option (o : ExpectedOption)
| Error (e : ParseError).

Definition expected_step (bs : list Z) (pos : Z) : option ExpectedStep :=
  if len bs <=? pos then Some Done else
  let! raw_kind := get bs pos in
  let option_kind := from_byte raw_kind in
  if raw_kind =? KIND_EOL then
    Some (Option {| eo_kind := option_kind; eo_value_start := None; eo_value_end := pos + 1;
                    eo_next_pos := pos + 1; eo_is_eol := true |})
  else if raw_kind =? KIND_NOP then
    Some (Option {| eo_kind := option_kind; eo_value_start := None; eo_value_end := pos + 1;
                    eo_next_pos := pos + 1; eo_is_eol := false |})
  else
    match get bs (pos + 1) with
    | None => Some (Error (Overrun pos))
    | Some len_byte =>
        if len_byte =? KIND_EXTENDED_LENGTH_MARKER then
          if len bs <? pos + 4 then Some (Error (Overrun pos)) else
          let! b2 := get bs (pos + 2) in
          let! b3 := get bs (pos + 3) in
          let total_len := u16_from_be b2 b3 in
          if total_len <? KIND_EXTENDED_LENGTH_MARKER then Some (Error (InvalidLength raw_kind total_len)) else
          let end_ := pos + total_len in
          if len bs <? end_ then Some (Error (Overrun pos)) else
          Some (Option {| eo_kind := option_kind; eo_value_start := Some (pos + 4); eo_value_end := end_;
                          eo_next_pos := end_; eo_is_eol := false |})
        else
          let total_len := len_byte in
          if total_len <? 2 then Some (Error (InvalidLength raw_kind total_len)) else
          let end_ := pos + total_len in
          if len bs <? end_ then Some (Error (Overrun pos)) else
          Some (Option {| eo_kind := option_kind; eo_value_start := Some (pos + 2); eo_value_end := end_;
                          eo_next_pos := end_; eo_is_eol := false |})
    end.

(** [assert_eq!(iter.next(), None); assert_eq!(iter.max_nop_run(), max_nop_run)]. *)
Definition assert_halted (iter : OptionsIter) (max_nop_run : Z) : option unit :=
  let! (next, iter) := OptionsIter_next iter in
  assert_eq next None;
  assert_eq (it_max_nop_run iter) max_nop_run;
  Some tt.

(** The value of an option lies where the expectation says. *)
Definition assert_value (bs : list Z) (o : OptionRef) (expected : ExpectedOption) : option unit :=
  match eo_value_start expected with
  | Some value_start =>
      assert_eq (or_at o) value_start;
      let! value := slice bs value_start (eo_value_end expected) in
      assert_eq (or_value o) value; Some tt
  | None => ensure (is_nil (or_value o)); Some tt
  end.

Fixpoint tlv_loop (fuel : nat) (bs : list Z) (iter : OptionsIter)
    (yielded current_nop_run max_nop_run expected_pos : Z) : option unit :=
  match fuel with
  | O => None
  | S fuel =>
      let! step := expected_step bs expected_pos in
      match step with
      | Done => assert_halted iter max_nop_run
      | Option expected =>
          let yielded := yielded + 1 in
          ensure (yielded <=? len bs + 1);
          let! (next, iter) := OptionsIter_next iter in
          let! o := match next with Some (Ok o) => Some o | _ => None end in
          assert_eq (or_kind o) (eo_kind expected);
          ensure (expected_pos <? eo_next_pos expected);
          let! _ := assert_value bs o expected in
          let '(current_nop_run, max_nop_run) :=
            match or_kind o with
            | Nop => (current_nop_run + 1, Z.max max_nop_run (current_nop_run + 1))
            | _ => (0, max_nop_run)
            end in
          assert_eq (it_max_nop_run iter) max_nop_run;
          if eo_is_eol expected then assert_halted iter max_nop_run
          else tlv_loop fuel bs iter yielded current_nop_run max_nop_run (eo_next_pos expected)
      | Error expected =>
          let yielded := yielded + 1 in
          ensure (yielded <=? len bs + 1);
          let! (next, iter) := OptionsIter_next iter in
          assert_eq next (Some (Err expected));
          assert_halted iter max_nop_run
      end
  end.

Definition check_tlv_parser_invariants (bs : list Z) : option unit :=
  tlv_loop (parse_fuel bs) bs (OptionsIter_new bs) 0 0 0 0.

(** *** The serializer *)

Definition canonical_rank (raw_kind : Z) : Z * Z :=
  let rank :=
    if raw_kind =? KIND_FRAG then 0
    else if raw_kind =? KIND_APC then 1
    else if raw_kind =? KIND_MDS then 2
    else if raw_kind =? KIND_MRDS then 3
    else if raw_kind =? KIND_REQ then 4
    else if raw_kind =? KIND_RES then 5
    else 1000 + raw_kind in
  (rank, raw_kind).

Definition is_out_of_scope_assigned_safe_kind (raw_kind : Z) : bool :=
  (raw_kind =? KIND_TIME) || (raw_kind =? KIND_AUTH) || (raw_kind =? KIND_EXP)
  || ((KIND_SAFE_RESERVED_MIN <=? raw_kind) && (raw_kind <=? KIND_SAFE_RESERVED_MAX)).

Definition has_valid_fixed_value_len (raw_kind value_len : Z) : bool :=
  if raw_kind =? KIND_APC then value_len =? LENGTH_APC - 2
  else if raw_kind =? KIND_FRAG
  then (value_len =? LENGTH_FRAG_NON_TERMINAL - 2) || (value_len =? LENGTH_FRAG_TERMINAL - 2)
  else if raw_kind =? KIND_MDS then value_len =? LENGTH_MDS - 2
  else if raw_kind =? KIND_MRDS then value_len =? LENGTH_MRDS - 2
  else if raw_kind =? KIND_REQ then value_len =? LENGTH_REQ - 2
  else if raw_kind =? KIND_RES then value_len =? LENGTH_RES - 2
  else true.

Definition is_builder_accepted (o : RawOption) : bool :=
  let raw_kind := to_byte (ro_kind o) in
  negb (raw_kind =? KIND_EOL) && negb (raw_kind =? KIND_NOP) && (raw_kind <? KIND_UNSAFE_MIN)
  && negb (is_out_of_scope_assigned_safe_kind raw_kind)
  && has_valid_fixed_value_len raw_kind (len (ro_value o)).

Definition encoded_len (value_len : Z) : Z :=
  if value_len <=? 252 then value_len + 2 else value_len + 4.

Fixpoint oracle_len_loop (n : Z) (options : list RawOption) : option Z :=
  match options with
  | [] => Some n
  | o :: rest =>
      let! n := if n mod 2 =? 1 then checked_add n 1 else Some n in
      let! n := checked_add n (encoded_len (len (ro_value o))) in
      oracle_len_loop n rest
  end.

Definition serialized_body_len_for_oracle (options : list RawOption) : option Z :=
  let! n := oracle_len_loop LENGTH_OCS options in
  let! n := checked_add n 1 in
  if n mod 2 =? 1 then checked_add n 1 else Some n.

Fixpoint oracle_patch_loop (start : Z) (options : list RawOption) : option (list RawOption) :=
  match options with
  | [] => Some []
  | o :: rest =>
      let! o :=
        if to_byte (ro_kind o) =? KIND_FRAG then
          let! value := copy_at (ro_value o) 0 (u16_to_be start) in
          Some {| ro_kind := ro_kind o; ro_value := value |}
        else Some o in
      let! rest := oracle_patch_loop start rest in
      Some (o :: rest)
  end.

(** Outer [option]: panic; inner [option]: the source's return type. *)
Definition patch_frag_start_for_oracle (options : list RawOption) : option (option (list RawOption)) :=
  match serialized_body_len_for_oracle options with
  | None => Some None
  | Some body_len =>
      match u16_try_from (LENGTH_UDP_HEADER + body_len) with
      | None => Some None
      | Some start => let! options := oracle_patch_loop start options in Some (Some options)
      end
  end.

(** The first loop of [canonical_semantic_options]. *)
Fixpoint all_accepted (seen_frag : bool) (options : list RawOption) : bool :=
  match options with
  | [] => true
  | o :: rest =>
      is_builder_accepted o &&
      (if to_byte (ro_kind o) =? KIND_FRAG then negb seen_frag && all_accepted true rest
       else all_accepted seen_frag rest)
  end.

(** [sort_by_key] on the oracle's own rank, a stable sort. *)
Fixpoint insert_by_key (o : RawOption) (l : list RawOption) : list RawOption :=
  match l with
  | [] => [o]
  | x :: r =>
      if rank_leb (canonical_rank (to_byte (ro_kind o))) (canonical_rank (to_byte (ro_kind x)))
      then o :: x :: r else x :: insert_by_key o r
  end.
Definition sort_by_key (l : list RawOption) : list RawOption := foldr insert_by_key [] l.

Definition canonical_semantic_options (options : list RawOption) : option (option (list RawOption)) :=
  if negb (all_accepted false options) then Some None else
  let sorted := (fun o => {| ro_kind := from_byte (to_byte (ro_kind o)); ro_value := ro_value o |})
                  <$> sort_by_key options in
  patch_frag_start_for_oracle sorted.

Definition finish_raw_options (options : list RawOption) : option (option (list Z)) :=
  let builder := OptionsBuilder_extend_raw OptionsBuilder_new options in
  let! r := OptionsBuilder_finish builder in
  Some (match r with Ok body => Some body | Err _ => None end).

(** The loop body of [parsed_semantic_options]. *)
Definition semantic_step (parsed : list RawOption) (i : item) : option (flow (list RawOption) Empty_set) :=
  let! o := match i with Ok o => Some o | Err _ => None end in
  let raw_kind := to_byte (or_kind o) in
  Some (Continue (if (raw_kind =? KIND_EOL) || (raw_kind =? KIND_NOP) then parsed
                  else parsed ++ [RawOption_from o])).

Definition parsed_semantic_options (body : list Z) : option (list RawOption) :=
  ensure (2 <=? len body);
  let! head := slice body 0 2 in
  assert_eq head [0; 0];
  let! rest := slice body 2 (len body) in
  let! (r, _) := for_each semantic_step (parse_fuel rest) (OptionsIter_new rest) [] in
  match r with inl parsed => Some parsed | inr e => match e with end end.

Definition check_serializer_invariants (options : list RawOption) : option unit :=
  let! finished := finish_raw_options options in
  match finished with
  | None => Some tt
  | Some body =>
      let! head := slice body 0 2 in
      assert_eq head [0; 0];
      assert_eq (len body mod 2) 0;
      let! rest := slice body 2 (len body) in
      let! _ := check_tlv_parser_invariants rest in
      let! expected := canonical_semantic_options options in
      let! expected := expected in
      let! parsed := parsed_semantic_options body in
      assert_eq parsed expected; Some tt
  end.

(** The loop of [raw_options_from_fuzz_bytes], which stops after four options. *)
Fixpoint fuzz_options_loop (fuel : nat) (bs : list Z) (options : list RawOption) (pos : Z) :
    option (list RawOption) :=
  match fuel with
  | O => None
  | S fuel =>
      if (pos + 3 <=? len bs) && (len options <? 4) then
        let! raw_kind := get bs pos in
        let! b1 := get bs (pos + 1) in
        let! b2 := get bs (pos + 2) in
        let value_len := Z.min (Z.lor b1 (Z.shiftl (Z.land b2 0x01) 8)) 260 in
        let pos := pos + 3 in
        let! available := checked_sub (len bs) pos in
        let take := Z.min value_len available in
        let! value := slice bs pos (pos + take) in
        fuzz_options_loop fuel bs (options ++ [{| ro_kind := from_byte raw_kind; ro_value := value |}])
          (pos + take)
      else Some options
  end.

Definition raw_options_from_fuzz_bytes (bs : list Z) : option (list RawOption) :=
  fuzz_options_loop 5 bs [] 0.
End CommonOptions.

(** ** The fuzz targets *)

Module Targets.

Definition wire_datagram (data : list Z) : option unit := CommonWire.check_wire_invariants data.
Definition options_ocs (data : list Z) : option unit := CommonOcs.check_ocs_invariants data.
Definition options_typed (data : list Z) : option unit := CommonTyped.check_typed_decoder_invariants data.
Definition options_tlv (data : list Z) : option unit := CommonOptions.check_tlv_parser_invariants data.
Definition options_serialize (data : list Z) : option unit :=
  let! options := CommonOptions.raw_options_from_fuzz_bytes data in
  CommonOptions.check_serializer_invariants options.
End Targets.
