(* ===== verification/OraclesCorrect.v ===== *)
(** The oracles of src/tests/common, common_ocs, common_typed and common_options pass on
    every input: the library agrees with the independent expectations its developers
    wrote down. *)

From S2P Require Import Prelude Model Kind Parse Typed Serialize Checksum Ip Udp Surplus Ocs Oracles.

(** Decide an assertion that holds. *)
Ltac asserted :=
  repeat first
    [ rewrite bool_decide_eq_true_2 by first [done | lia]
    | rewrite bool_decide_eq_false_2 by first [done | lia] ].

(** A fuzz target that never fails. *)
Definition passes (target : list Z -> option unit) : Prop := forall data, bytes data -> target data = Some tt.

(** ** The wire layer *)

Lemma ip_end_total ip :
  IpRepr_header_len ip <= ip_total_len ip ->
  IpRepr_header_len ip + IpRepr_transport_payload_len ip = ip_total_len ip.
Proof. unfold IpRepr_transport_payload_len, saturating_sub, IpRepr_header_len. lia. Qed.

Lemma wire_layout_passes buf ip udp_at udp l :
  IpRepr_wf ip -> UdpHeader_wf udp -> udp_at = IpRepr_header_len ip ->
  IpRepr_header_len ip <= ip_total_len ip <= len buf ->
  locate_surplus ip udp = Some l ->
  CommonWire.check_layout buf l (udp_at + udp_length udp)
    (IpRepr_header_len ip + IpRepr_transport_payload_len ip) ((udp_at + udp_length udp) mod 2 =? 1) = Some tt.
Proof.
  intros Hi Hu -> Hl Hs. pose proof (locate_surplus_spec ip udp Hi Hu (proj1 Hl)) as H.
  rewrite Hs in H. apply locate_surplus_Some in Hs as (Hst & Hp & Hn & Hr). cbv zeta in H.
  destruct H as (Hrange & Heven & Ho & Hend & _). destruct Hu as (_ & _ & Hu & _). destruct Hi as (_ & _ & Hi & _).
  pose proof (ip_end_total ip (proj1 Hl)) as He.
  unfold CommonWire.check_layout. rewrite He, Hrange. rewrite <- Hst, <- Hp.
  assert (starts_at l + surplus_len l = ip_total_len ip) as Hsum by lia.
  assert (0 <= starts_at l) by (unfold IpRepr_header_len, u16 in *; lia).
  unfold SurplusLayout_ocs_at in *.
  assert ((starts_at l + usize_of_bool (needs_pad l)) mod 2 = 0) as Hmod
    by (rewrite Zmod_even; by rewrite Heven).
  rewrite Hsum, Hmod. asserted. cbn [fst snd].
  assert (0 <= usize_of_bool (needs_pad l)) by (unfold usize_of_bool; destruct (needs_pad l); lia).
  rewrite slice_Some by lia. cbv iota beta.
  rewrite len_sub by lia. bool_cases; try lia; by rewrite slice_Some by lia.
Qed.

Lemma wire_datagram_passes (data : list Z) : bytes data -> Targets.wire_datagram data = Some tt.
Proof.
  intros Hb. unfold Targets.wire_datagram, CommonWire.check_wire_invariants.
  destruct (IpRepr_parse_total data Hb) as (res & -> & H). destruct res as [[ip udp_at]|]; [|done].
  destruct (H ip udp_at eq_refl) as (Hw & -> & Hl). asserted.
  pose proof (ip_end_total ip (proj1 Hl)) as He.
  destruct (Z.leb_spec (IpRepr_header_len ip + IpRepr_transport_payload_len ip) (len data)); [|lia].
  assert (0 <= IpRepr_header_len ip) by (destruct Hw as (_ & _ & ? & _); unfold IpRepr_header_len; lia).
  rewrite slice_Some by lia.
  destruct (UdpHeader_parse_total (sub data (IpRepr_header_len ip) (len data))) as (res & -> & Hu);
    [auto with rust|].
  destruct res as [udp|]; [|done]. destruct (Hu udp eq_refl) as (Huw & H8 & _).
  unfold CommonWire.check_surplus. destruct (Z.ltb_spec (IpRepr_transport_payload_len ip) (udp_length udp)) as [Hlt|Hge].
  { unfold locate_surplus, checked_sub. destruct (Z.leb_spec (udp_length udp) (IpRepr_transport_payload_len ip)); [lia|].
    done. }
  change UDP_HEADER_LEN with 8. rewrite slice_Some by lia.
  destruct (UdpHeader_compute_checksum_spec (UdpHeader_with_checksum udp 0) ip
              (sub data (IpRepr_header_len ip + 8) (IpRepr_header_len ip + udp_length udp))) as [-> _].
  { destruct Huw as (? & ? & ? & ?). repeat split; simpl; try done; unfold u16 in *; lia. }
  { done. }
  { auto with rust. }
  { rewrite len_sub by lia. simpl. lia. }
  unfold checked_sub.
  match goal with |- context [?a <=? ?b] => destruct (Z.leb_spec a b); [|lia] end.
  destruct (locate_surplus ip udp) as [l|] eqn:Hs.
  - by apply wire_layout_passes.
  - pose proof (locate_surplus_spec ip udp Hw Huw (proj1 Hl)) as Hn. rewrite Hs in Hn.
    cbv zeta in Hn. rewrite He. unfold usize_of_bool.
    destruct (Z.eqb_spec ((IpRepr_header_len ip + udp_length udp) mod 2) 1); bool_cases; try done; dlia.
Qed.

(** ** The option checksum *)

Lemma insert_sorted_nonneg x l :
  0 <= x -> Forall (Z.le 0) l -> Forall (Z.le 0) (CommonOcs.insert_sorted x l).
Proof. induction 2; simpl; [by repeat constructor|]. case_match; by repeat constructor. Qed.

Lemma dedup_nonneg l : Forall (Z.le 0) l -> Forall (Z.le 0) (CommonOcs.dedup l).
Proof.
  induction 1 as [|x l Hx Hl IH]; [done|]. simpl. destruct l; [by constructor|].
  case_match; [done|]. by constructor.
Qed.

Lemma representative_positions_bound n :
  0 <= n -> Forall (fun i => 0 <= i < n) (CommonOcs.representative_positions n).
Proof.
  intros Hn. unfold CommonOcs.representative_positions, CommonOcs.sort_unstable.
  assert (Forall (Z.le 0) (CommonOcs.dedup (foldr CommonOcs.insert_sorted [] [0; 1; n / 2; saturating_sub n 1]))) as H.
  { cbn [foldr]. apply dedup_nonneg. repeat apply insert_sorted_nonneg; try done; unfold saturating_sub; dlia. }
  rewrite List.Forall_forall in *. intros i [Hi Hlt]%List.filter_In. specialize (H i Hi). lia.
Qed.

Lemma lxor_1_u8 b : u8 b -> u8 (Z.lxor b 1) /\ b <> Z.lxor b 1.
Proof.
  intros Hb. assert (Forall (fun b => u8 (Z.lxor b 1) /\ b <> Z.lxor b 1) (seqZ 0 256)) as H by evaluate.
  rewrite Forall_forall in H. apply H, elem_of_seqZ. unfold u8 in Hb. lia.
Qed.

Lemma corrupt_loop_passes body n ps :
  bytes body -> u16 n -> ocs_validate body n 0x1234 = Some OcsValid ->
  Forall (fun i => 0 <= i < len body) ps -> CommonOcs.corrupt_loop body n ps = Some tt.
Proof.
  intros Hb Hn Hv. induction 1 as [|i ps Hi _ IH]; [done|]. cbn [CommonOcs.corrupt_loop].
  destruct (get_is_Some body i Hi) as [b Hg]. rewrite Hg.
  pose proof (get_Forall _ _ _ _ Hb Hg) as Hb8. destruct (lxor_1_u8 b Hb8) as [Hx Hne].
  rewrite set_at_insert by done. unfold get in Hg. destruct (0 <=? i); [|done].
  rewrite (ocs_corruption_detected body n 0x1234 (Z.to_nat i) b) by done.
  rewrite bool_decide_eq_false_2 by (by repeat case_match). done.
Qed.

Lemma compute_validate_passes bs n :
  bytes bs -> 2 <= len bs -> u16 n -> CommonOcs.check_compute_validate bs n = Some tt.
Proof.
  intros Hb Hl Hn. unfold CommonOcs.check_compute_validate.
  destruct bs as [|a [|b rest]]; [len_lia..|]. decompose_Forall_hyps.
  rewrite ocs_compute_spec by done. rewrite ocs_validate_compute by done. asserted.
  apply corrupt_loop_passes; [|done|by apply ocs_validate_compute|].
  - apply Forall_app. auto with rust.
  - apply representative_positions_bound, len_nonneg.
Qed.

Lemma options_ocs_passes (data : list Z) : bytes data -> Targets.options_ocs data = Some tt.
Proof.
  intros Hb. unfold Targets.options_ocs, CommonOcs.check_ocs_invariants.
  set (n := default U16_MAX (u16_try_from (len data))).
  assert (u16 n) as Hn.
  { subst n. unfold u16_try_from, u16, U16_MAX. pose proof (len_nonneg data). bool_cases; simpl; lia. }
  destruct data as [|a [|b rest]]; [done..|]. pose proof (len_nonneg rest).
  rewrite ocs_validate_spec by done. cbv iota beta.
  destruct (Z.ltb_spec (len (a :: b :: rest)) 2); [len_lia|].
  rewrite compute_validate_passes by (done || len_lia). cbv iota beta.
  assert ((if n + 1 <=? U16_MAX then CommonOcs.check_compute_validate (a :: b :: rest) (n + 1) else Some tt)
    = Some tt) as ->.
  { destruct (Z.leb_spec (n + 1) U16_MAX); [|done].
    apply compute_validate_passes; [done|len_lia|unfold u16, U16_MAX in *; lia]. }
  unfold CommonOcs.check_dispositions. change (a :: b :: rest) with ([a; b] ++ rest).
  rewrite copy_at_front by done. change (zeros 2 ++ rest) with (0 :: 0 :: rest).
  assert (bytes (0 :: 0 :: rest)) by (decompose_Forall_hyps; repeat constructor; auto; unfold u8; lia).
  rewrite !ocs_validate_spec by done. done.
Qed.

(** ** Typed options *)

(** An encoding parsed from [v] is kind, length and [v] again. *)
Lemma encode_decoded {T} `{TypedOptionLaws T} v (o : T) :
  bytes v -> decode v = Some (Ok o) ->
  encode o [] = to_byte (KIND T) :: (len v + 2) :: v.
Proof. intros Hb Hd. destruct (typed_decode_inv v o Hb Hd) as [Hw Hv]. by rewrite typed_encode, Hv. Qed.

Lemma slice_cons_cons {A} (a b : A) l : slice (a :: b :: l) 2 (len (a :: b :: l)) = Some l.
Proof.
  rewrite slice_Some by (rewrite !len_cons; pose proof (len_nonneg l); lia).
  change (a :: b :: l) with ([a; b] ++ l). rewrite sub_suffix; [done|done|]. by rewrite len_app.
Qed.

Lemma fixed_decoder_passes {T} `{TypedOptionLaws T, EqDecision T} v k n :
  to_byte (KIND T) = k -> bytes v ->
  (len v = n - 2 -> exists o : T, decode v = Some (Ok o)) ->
  (len v <> n - 2 -> decode (T := T) v = Some (Err (InvalidLength k (len v + 2)))) ->
  CommonTyped.assert_fixed_decoder T v k n = Some tt.
Proof.
  intros <- Hb Hok Herr. unfold CommonTyped.assert_fixed_decoder.
  destruct (Z.eqb_spec (len v) (n - 2)) as [Hl|Hl].
  - destruct (Hok Hl) as [o Ho]. rewrite Ho, (encode_decoded v o Hb Ho).
    change (get (?a :: ?b :: ?l) 0) with (Some a). change (get (?a :: ?b :: ?l) 1) with (Some b). cbv iota beta zeta.
    asserted. rewrite slice_cons_cons, Ho. asserted. done.
  - rewrite (Herr Hl). unfold CommonTyped.implied_total_len. by asserted.
Qed.

Lemma expect_value_len_Err v k n : len v <> n -> expect_value_len v k n = Err (InvalidLength k (len v + 2)).
Proof. intros Hl. unfold expect_value_len. by destruct (Z.eqb_spec (len v) n). Qed.

Ltac fixed_decoder unf split_bytes :=
  apply fixed_decoder_passes; [done|done|..]; cbn [decode Apc_typed Mds_typed Mrds_typed Req_typed Res_typed];
  unfold unf; intros Hl;
  [ unfold expect_value_len;
    match goal with |- context [?a =? ?b] => destruct (Z.eqb_spec a b) as [_|Hn]; [|by destruct Hn] end; split_bytes | by rewrite expect_value_len_Err ].

Lemma frag_decoder_passes v : bytes v -> CommonTyped.assert_frag_decoder v = Some tt.
Proof.
  intros Hb. unfold CommonTyped.assert_frag_decoder.
  change (LENGTH_FRAG_NON_TERMINAL - 2) with 8. change (LENGTH_FRAG_TERMINAL - 2) with 10.
  destruct ((len v =? 8) || (len v =? 10)) eqn:E.
  - assert (exists o, Frag_decode v = Some (Ok o) /\
      CommonTyped.is_some (frag_rdos o) = (len v =? 10)) as (o & Ho & Hs).
    { apply orb_prop in E as [E|E]; apply Z.eqb_eq in E.
      - apply len_8_inv in E as (? & ? & ? & ? & ? & ? & ? & ? & ->). by eexists.
      - apply len_10_inv in E as (? & ? & ? & ? & ? & ? & ? & ? & ? & ? & ->). by eexists. }
    pose proof (encode_decoded (T := FragOption) v o Hb Ho) as He. change encode with Frag_encode in He.
    rewrite Ho, Hs, He. asserted.
    change (get (?a :: ?b :: ?l) 0) with (Some a). change (get (?a :: ?b :: ?l) 1) with (Some b). cbv iota beta zeta.
    asserted. rewrite bool_decide_eq_true_2.
    2:{ destruct (Z.eqb_spec (len v) 8), (Z.eqb_spec (len v) 10); try done; unfold_consts; lia. }
    rewrite slice_cons_cons, Ho. asserted. done.
  - apply orb_false_elim in E as [E1%Z.eqb_neq E2%Z.eqb_neq]. rewrite Frag_decode_length by done.
    unfold CommonTyped.implied_total_len. by asserted.
Qed.

Lemma options_typed_passes (data : list Z) : bytes data -> Targets.options_typed data = Some tt.
Proof.
  intros Hb. unfold Targets.options_typed, CommonTyped.check_typed_decoder_invariants.
  assert (CommonTyped.assert_fixed_decoder ApcOption data KIND_APC LENGTH_APC = Some tt) as ->.
  { fixed_decoder Apc_decode ltac:(apply len_4_inv in Hl as (? & ? & ? & ? & ->); by eexists). }
  assert (CommonTyped.assert_fixed_decoder MdsOption data KIND_MDS LENGTH_MDS = Some tt) as ->.
  { fixed_decoder Mds_decode ltac:(apply len_2_inv in Hl as (? & ? & ->); by eexists). }
  assert (CommonTyped.assert_fixed_decoder MrdsOption data KIND_MRDS LENGTH_MRDS = Some tt) as ->.
  { fixed_decoder Mrds_decode ltac:(apply len_3_inv in Hl as (? & ? & ? & ->); by eexists). }
  assert (CommonTyped.assert_fixed_decoder ReqOption data KIND_REQ LENGTH_REQ = Some tt) as ->.
  { fixed_decoder Req_decode ltac:(apply len_4_inv in Hl as (? & ? & ? & ? & ->); by eexists). }
  assert (CommonTyped.assert_fixed_decoder ResOption data KIND_RES LENGTH_RES = Some tt) as ->.
  { fixed_decoder Res_decode ltac:(apply len_4_inv in Hl as (? & ? & ? & ? & ->); by eexists). }
  by apply frag_decoder_passes.
Qed.

(** ** The parser *)

(** The iterator after an expected option. *)
Definition iter_after (it : OptionsIter) (e : CommonOptions.ExpectedOption) : OptionsIter :=
  let run := match CommonOptions.eo_kind e with Nop => it_current_nop_run it + 1 | _ => 0 end in
  {| it_bytes := it_bytes it; it_pos := CommonOptions.eo_next_pos e; it_done := CommonOptions.eo_is_eol e;
     it_current_nop_run := run;
     it_max_nop_run := match CommonOptions.eo_kind e with Nop => Z.max (it_max_nop_run it) run
                       | _ => it_max_nop_run it end |}.

Definition agrees (bs : list Z) (it : OptionsIter) (pos : Z) (s : CommonOptions.ExpectedStep) : Prop :=
  match s with
  | CommonOptions.Done => OptionsIter_next it = Some (None, it)
  | CommonOptions.Option e =>
      pos < CommonOptions.eo_next_pos e <= len bs /\
      exists o, OptionsIter_next it = Some (Some (Ok o), iter_after it e) /\
        or_kind o = CommonOptions.eo_kind e /\ CommonOptions.assert_value bs o e = Some tt
  | CommonOptions.Error e =>
      exists it', OptionsIter_next it = Some (Some (Err e), it') /\
        it_done it' = true /\ it_max_nop_run it' = it_max_nop_run it
  end.

Lemma from_byte_not_nop k : k <> KIND_NOP -> from_byte k <> Nop.
Proof. intros. unfold from_byte. unfold_consts. bool_cases; done || lia. Qed.

(** A TLV of [total] bytes whose value follows [h] framing bytes. *)
Lemma tlv_agrees bs it k pos h total :
  it_bytes it = bs -> it_done it = false -> k <> KIND_NOP ->
  0 <= pos -> 2 <= h <= total -> pos + total <= len bs ->
  let e := {| CommonOptions.eo_kind := from_byte k; CommonOptions.eo_value_start := Some (pos + h);
              CommonOptions.eo_value_end := pos + total; CommonOptions.eo_next_pos := pos + total;
              CommonOptions.eo_is_eol := false |} in
  exists o,
    (let! (value, it') := OptionsIter_value_slice it pos h total in
     Some (Some (Ok (E := ParseError) {| or_kind := from_byte k; or_value := value; or_at := pos + h |}), it'))
      = Some (Some (Ok o), iter_after it e) /\
    or_kind o = from_byte k /\ CommonOptions.assert_value bs o e = Some tt.
Proof.
  intros Hb Hd Hk Hp Hh Ht e. unfold OptionsIter_value_slice. rewrite Hb, slice_Some by lia.
  exists {| or_kind := from_byte k; or_value := sub bs (pos + h) (pos + total); or_at := pos + h |}.
  split; [|split]; [|done|].
  - unfold iter_after. rewrite Hb, Hd. cbn [CommonOptions.eo_kind CommonOptions.eo_next_pos CommonOptions.eo_is_eol e].
    pose proof (from_byte_not_nop k Hk). by destruct (from_byte k).
  - unfold CommonOptions.assert_value. cbn [CommonOptions.eo_value_start CommonOptions.eo_value_end e or_at or_value].
    asserted. rewrite slice_Some by lia. by asserted.
Qed.

Lemma next_expected bs it pos :
  bytes bs -> it_bytes it = bs -> it_pos it = pos -> it_done it = false -> 0 <= pos ->
  exists s, CommonOptions.expected_step bs pos = Some s /\ agrees bs it pos s.
Proof.
  intros Hbs Hb Hp Hd Hpos. unfold CommonOptions.expected_step.
  assert (OptionsIter_next it = OptionsIter_next it) as Hn by done. unfold OptionsIter_next at 2 in Hn.
  rewrite Hd, Hb, Hp in Hn. cbn [orb] in Hn.
  destruct (Z.leb_spec (len bs) pos); [by eexists|].
  destruct (get_is_Some bs pos) as [k Hk]; [lia|]. rewrite Hk in Hn |- *. cbv zeta in Hn |- *.
  destruct (Z.eqb_spec k KIND_EOL) as [Ek|Hk0].
  { subst k. eexists. split; [done|]. split; [simpl; lia|]. eexists.
    split; [rewrite Hn; unfold iter_after; by rewrite Hb|done]. }
  destruct (Z.eqb_spec k KIND_NOP) as [Ek|Hk1].
  { subst k. eexists. split; [done|]. split; [simpl; lia|]. eexists.
    split; [rewrite Hn; unfold iter_after; by rewrite Hb, ?Hd|done]. }
  assert (forall e, OptionsIter_next it = OptionsIter_fail it e ->
    agrees bs it pos (CommonOptions.Error e)) as Hfail by (intros e He; unfold agrees; rewrite He; by eexists).
  destruct (get bs (pos + 1)) as [n|] eqn:Hl; [|eexists; split; [done|by apply Hfail]].
  pose proof (get_Forall _ _ _ _ Hbs Hl) as Hn8.
  destruct (Z.eqb_spec n KIND_EXTENDED_LENGTH_MARKER) as [En|Hne].
  - subst n. destruct (Z.ltb_spec (len bs) (pos + 4)); [eexists; split; [done|by apply Hfail]|].
    destruct (get_is_Some bs (pos + 2)) as [b2 H2]; [lia|]. destruct (get_is_Some bs (pos + 3)) as [b3 H3]; [lia|].
    rewrite H2, H3 in Hn |- *. change KIND_EXTENDED_LENGTH_MARKER with 255 in *.
    destruct (Z.ltb_spec (u16_from_be b2 b3) 255); [eexists; split; [done|by apply Hfail]|].
    destruct (Z.ltb_spec (len bs) (pos + u16_from_be b2 b3)); [eexists; split; [done|by apply Hfail]|].
    eexists. split; [done|]. split; [simpl; lia|]. rewrite Hn. apply tlv_agrees; done || lia.
  - destruct (Z.ltb_spec n 2); [eexists; split; [done|by apply Hfail]|].
    destruct (Z.ltb_spec (len bs) (pos + n)); [eexists; split; [done|by apply Hfail]|].
    eexists. split; [done|]. split; [simpl; lia|]. rewrite Hn. apply tlv_agrees; done || lia.
Qed.

Lemma assert_halted_passes it : OptionsIter_next it = Some (None, it) ->
  CommonOptions.assert_halted it (it_max_nop_run it) = Some tt.
Proof. intros Hn. unfold CommonOptions.assert_halted. rewrite Hn. by asserted. Qed.

Lemma tlv_loop_passes fuel bs it yielded :
  bytes bs -> it_bytes it = bs -> it_done it = false -> 0 <= yielded <= it_pos it -> it_pos it <= len bs ->
  len bs - it_pos it < Z.of_nat fuel ->
  CommonOptions.tlv_loop fuel bs it yielded (it_current_nop_run it) (it_max_nop_run it) (it_pos it) = Some tt.
Proof.
  intros Hbs. revert it yielded. induction fuel as [|fuel IH]; intros it y Hb Hd Hy Hl Hf; [lia|].
  cbn [CommonOptions.tlv_loop].
  destruct (next_expected bs it (it_pos it)) as (s & -> & Hs); [done..|lia|]. destruct s as [|e|e].
  - by apply assert_halted_passes.
  - destruct Hs as (Hpos & o & -> & Hk & Hv). destruct (Z.leb_spec (y + 1) (len bs + 1)); [|lia].
    rewrite Hk, Hv. asserted. destruct (Z.ltb_spec (it_pos it) (CommonOptions.eo_next_pos e)); [|lia].
    match goal with |- (let '(_, _) := ?p in _) = _ =>
      assert (p = (it_current_nop_run (iter_after it e), it_max_nop_run (iter_after it e))) as -> end.
    { unfold iter_after. cbn. by destruct (CommonOptions.eo_kind e). }
    asserted. destruct (CommonOptions.eo_is_eol e) eqn:Heol.
    + apply assert_halted_passes, next_done. unfold iter_after. cbn. done.
    + change (CommonOptions.eo_next_pos e) with (it_pos (iter_after it e)).
      apply IH; cbn; try done; lia.
  - destruct Hs as (it' & -> & Hd' & Hm). destruct (Z.leb_spec (y + 1) (len bs + 1)); [|lia]. asserted.
    rewrite <- Hm. by apply assert_halted_passes, next_done.
Qed.

Lemma options_tlv_passes (data : list Z) : bytes data -> Targets.options_tlv data = Some tt.
Proof.
  intros Hb. unfold Targets.options_tlv, CommonOptions.check_tlv_parser_invariants.
  pose proof (len_nonneg data).
  apply (tlv_loop_passes (parse_fuel data) data (OptionsIter_new data) 0); try done.
  unfold parse_fuel, len. cbn. lia.
Qed.

(** ** The serializer *)

Lemma oracle_rank k : CommonOptions.canonical_rank k = canonical_rank k.
Proof. unfold CommonOptions.canonical_rank, canonical_rank. by repeat case_match. Qed.

Lemma sort_by_key_rank l : CommonOptions.sort_by_key l = sort_by_rank l.
Proof.
  assert (forall o l, CommonOptions.insert_by_key o l = insert_by_rank o l) as H.
  { intros o r. induction r as [|x r IH]; [done|].
    cbn [CommonOptions.insert_by_key insert_by_rank]. unfold option_rank. by rewrite !oracle_rank, IH. }
  induction l as [|o l IH]; [done|]. cbn. unfold CommonOptions.sort_by_key in IH. by rewrite IH, H.
Qed.

Lemma accepted_by_builder o :
  RawOption_wf o -> validate_option o = Ok tt -> CommonOptions.is_builder_accepted o = true.
Proof.
  intros [Hk _]. unfold OptionKind_wf, u8 in Hk. unfold validate_option, CommonOptions.is_builder_accepted.
  change CommonOptions.is_out_of_scope_assigned_safe_kind with is_out_of_scope_assigned_safe_kind.
  set (k := to_byte (ro_kind o)) in *. set (n := len (ro_value o)).
  destruct (k =? KIND_EOL); [done|]. destruct (k =? KIND_NOP); [done|]. cbn [orb negb andb].
  change KIND_UNSAFE_MIN with 192. change U8_MAX with 255.
  destruct (Z.leb_spec 192 k), (Z.leb_spec k 255), (Z.ltb_spec k 192); try lia; [done|]. cbn [andb].
  destruct (is_out_of_scope_assigned_safe_kind k); [done|]. cbn [negb].
  destruct (EXTENDED_VALUE_LEN_MAX <? n); [done|].
  unfold validate_fixed_value_len, fixed_value_lens, CommonOptions.has_valid_fixed_value_len, FRAG_VALUE_LENS.
  repeat match goal with |- context [k =? ?m] => destruct (k =? m) end; cbn [is_nil existsb orb];
    repeat match goal with |- context [n =? ?m] => destruct (n =? m) end; done.
Qed.

Lemma all_accepted_validated seen os :
  Forall RawOption_wf os -> validate_loop seen os = Ok tt -> CommonOptions.all_accepted seen os = true.
Proof.
  intros Hw. revert seen. induction Hw as [|o os Ho _ IH]; intros seen; [done|].
  cbn [validate_loop CommonOptions.all_accepted].
  destruct (validate_option o) as [[]|] eqn:Hv; [|done]. rewrite accepted_by_builder by done. cbn [andb].
  destruct (_ =? KIND_FRAG); [|apply IH]. destruct seen; [done|]. apply IH.
Qed.

Lemma checked_body_add_oracle a b n : checked_body_add a b = Ok n -> checked_add a b = Some n.
Proof. unfold checked_body_add. destruct (checked_add a b); [|done]. case_match; [done|]. by intros [= ->]. Qed.

Lemma oracle_len_loop_spec n os m :
  body_len_loop n os = Ok m -> CommonOptions.oracle_len_loop n (normalize <$> os) = Some m.
Proof.
  revert n. induction os as [|o os IH]; intros n; cbn [body_len_loop CommonOptions.oracle_len_loop fmap list_fmap].
  { by intros [= ->]. }
  change (CommonOptions.encoded_len) with encoded_len. change (ro_value (normalize o)) with (ro_value o).
  destruct (n mod 2 =? 1).
  - destruct (checked_body_add n 1) as [n1|] eqn:E1; [|done]. rewrite (checked_body_add_oracle _ _ _ E1).
    destruct (checked_body_add n1 _) as [n2|] eqn:E2; [|done]. rewrite (checked_body_add_oracle _ _ _ E2). apply IH.
  - destruct (checked_body_add n _) as [n2|] eqn:E2; [|done]. rewrite (checked_body_add_oracle _ _ _ E2). apply IH.
Qed.

Lemma oracle_body_len os m :
  serialized_body_len os = Ok m -> CommonOptions.serialized_body_len_for_oracle (normalize <$> os) = Some m.
Proof.
  unfold serialized_body_len, CommonOptions.serialized_body_len_for_oracle. change OCS_PLACEHOLDER_LEN with LENGTH_OCS.
  destruct (body_len_loop LENGTH_OCS os) as [n|] eqn:E; [|done]. rewrite (oracle_len_loop_spec _ _ _ E).
  destruct (checked_body_add n 1) as [n1|] eqn:E1; [|done]. rewrite (checked_body_add_oracle _ _ _ E1).
  destruct (n1 mod 2 =? 1); [apply checked_body_add_oracle|by intros [= ->]].
Qed.

Lemma normalize_patch start o : patch_option start (normalize o) = normalize (patch_option start o).
Proof.
  unfold patch_option, normalize. cbn [ro_kind ro_value]. rewrite to_byte_from_byte. by case_match.
Qed.

Lemma normalize_encodable o : encodable o -> encodable (normalize o).
Proof.
  unfold encodable, RawOption_wf, OptionKind_wf, normalize. cbn [ro_kind ro_value]. by rewrite to_byte_from_byte.
Qed.

(** What the oracle expects of accepted options. *)
Lemma canonical_semantic_options_spec os body :
  Forall RawOption_wf os ->
  OptionsBuilder_finish {| ob_options := os |} = Some (Ok body) ->
  CommonOptions.canonical_semantic_options os =
    Some (Some (normalize <$> (patch_option (8 + len body) <$> sort_by_rank os))).
Proof.
  intros Hw Hf. destruct (finish_Ok {| ob_options := os |} _ Hw Hf) as (Hv & He & Hl & ->). cbn [ob_options] in *.
  rewrite len_finished by done. unfold CommonOptions.canonical_semantic_options.
  rewrite all_accepted_validated by done. cbn [negb]. rewrite sort_by_key_rank.
  change (fun o => _) with normalize. cbv zeta. unfold CommonOptions.patch_frag_start_for_oracle.
  destruct (serialized_body_len_spec (sort_by_rank os) He) as [H1 _].
  rewrite (oracle_body_len _ _ (H1 ltac:(lia))). change LENGTH_UDP_HEADER with 8.
  unfold u16_try_from, U16_MAX. destruct (Z.leb_spec (8 + len (options_body_bytes (sort_by_rank os))) 65535); [|lia].
  change CommonOptions.oracle_patch_loop with patch_loop. rewrite patch_loop_spec.
  2:{ apply Forall_fmap. apply (Forall_impl _ _ _ He). apply normalize_encodable. }
  do 2 f_equal. rewrite <- !list_fmap_compose. apply list_fmap_ext. intros _ o _. apply normalize_patch.
Qed.

(** The oracle reads the options back. *)
Lemma semantic_items off n os acc :
  Forall encodable os ->
  for_items CommonOptions.semantic_step (area_items off n os) acc = Some (inl (acc ++ (normalize <$> os))).
Proof.
  intros He. revert off n acc. induction He as [|o os Ho _ IH]; intros off n acc.
  { cbn. by rewrite app_nil_r. }
  cbn [area_items]. cbv zeta.
  assert (forall at_ items acc, for_items CommonOptions.semantic_step
    (Ok (option_ref (to_byte (ro_kind o)) (ro_value o) at_) :: items) acc =
    for_items CommonOptions.semantic_step items (acc ++ [normalize o])) as Hstep.
  { intros at_ items a. cbn [for_items]. unfold CommonOptions.semantic_step at 1. cbn [or_kind option_ref].
    rewrite to_byte_from_byte. destruct Ho as (_ & H2 & _).
    destruct (Z.eqb_spec (to_byte (ro_kind o)) KIND_EOL); [unfold_consts; lia|].
    destruct (Z.eqb_spec (to_byte (ro_kind o)) KIND_NOP); [unfold_consts; lia|]. done. }
  destruct (n mod 2 =? 1); cbn [app].
  - change (for_items CommonOptions.semantic_step (Ok (option_ref KIND_NOP [] 0) :: ?l) acc)
      with (for_items CommonOptions.semantic_step l acc). rewrite Hstep, IH. by rewrite <- app_assoc.
  - rewrite Hstep, IH. by rewrite <- app_assoc.
Qed.

Lemma parsed_semantic_options_spec os :
  Forall encodable os -> CommonOptions.parsed_semantic_options (options_body_bytes os) = Some (normalize <$> os).
Proof.
  intros He. unfold CommonOptions.parsed_semantic_options.
  destruct (options_body_drain os He) as [it Hd].
  assert (2 <= len (options_body_bytes os)) as Hl.
  { unfold options_body_bytes. rewrite len_app. change (len [0; 0]) with 2. 
    match goal with |- _ <= _ + len ?l => pose proof (len_nonneg l) end. lia. }
  destruct (Z.leb_spec 2 (len (options_body_bytes os))); [|lia].
  rewrite !slice_Some by lia. change (sub (options_body_bytes os) 0 2) with [0; 0]. asserted.
  pose proof (for_each_drain CommonOptions.semantic_step _ _ _ _ [] Hd) as Hf.
  rewrite (semantic_items 0 2 os [] He) in Hf.
  destruct (for_each _ _ _ _) as [[[r|[]] it']|]; [|done..]. simpl in Hf. by injection Hf as ->.
Qed.

Lemma serializer_passes os : Forall RawOption_wf os -> CommonOptions.check_serializer_invariants os = Some tt.
Proof.
  intros Hw. unfold CommonOptions.check_serializer_invariants, CommonOptions.finish_raw_options.
  change (OptionsBuilder_extend_raw OptionsBuilder_new os) with {| ob_options := os |}.
  destruct (OptionsBuilder_finish {| ob_options := os |}) as [[body|e]|] eqn:Hf; [|done|].
  2:{ destruct (finish_total {| ob_options := os |} Hw) as [x Hx]. congruence. }
  cbv iota beta zeta. pose proof (canonical_semantic_options_spec os body Hw Hf) as Hc.
  destruct (finish_Ok {| ob_options := os |} _ Hw Hf) as (Hv & He & Hl & ->). cbn [ob_options] in *.
  rewrite len_finished in Hc |- * by done. set (n := len (options_body_bytes (sort_by_rank os))) in *.
  pose proof (encodable_patch (8 + n) _ He) as Hp.
  assert (2 <= n) by (unfold n; rewrite len_options_body_bytes; pose proof (len_nonneg (options_area 2 (sort_by_rank os))); dlia).
  pose proof (len_finished _ He) as Hlf. fold n in Hlf.
  rewrite !slice_Some by lia. change (sub (finished _) 0 2) with [0; 0]. asserted.
  rewrite bool_decide_eq_true_2 by apply len_options_body_even.
  rewrite (options_tlv_passes (sub _ 2 _)).
  2:{ apply Forall_sub. by apply options_body_bytes_bytes. }
  cbv iota beta. rewrite Hc. unfold finished. fold n. rewrite parsed_semantic_options_spec by done. by asserted.
Qed.

Lemma fuzz_options_loop_total fuel bs os pos :
  bytes bs -> 0 <= pos -> Forall RawOption_wf os -> len os <= 4 -> 4 < Z.of_nat fuel + len os ->
  exists os', CommonOptions.fuzz_options_loop fuel bs os pos = Some os' /\ Forall RawOption_wf os'.
Proof.
  intros Hb. revert os pos. induction fuel as [|fuel IH]; intros os pos Hp Hw H4 Hf; [lia|].
  cbn [CommonOptions.fuzz_options_loop].
  destruct (Z.leb_spec (pos + 3) (len bs)); [|by exists os].
  destruct (Z.ltb_spec (len os) 4); [|by exists os]. cbn [andb].
  destruct (get_is_Some bs pos) as [k Hk]; [lia|]. destruct (get_is_Some bs (pos + 1)) as [b1 H1]; [lia|].
  destruct (get_is_Some bs (pos + 2)) as [b2 H2]; [lia|]. rewrite Hk, H1, H2. cbv zeta.
  set (n := Z.min (Z.lor b1 (Z.shiftl (Z.land b2 1) 8)) 260).
  assert (0 <= n).
  { apply Z.min_glb; [|lia]. pose proof (get_Forall _ _ _ _ Hb H1). pose proof (get_Forall _ _ _ _ Hb H2).
    unfold u8 in *. apply Z.lor_nonneg. split; [lia|]. apply Z.shiftl_nonneg, Z.land_nonneg. lia. }
  unfold checked_sub. destruct (Z.leb_spec (pos + 3) (len bs)); [|lia]. rewrite slice_Some by lia.
  apply IH.
  - lia.
  - apply Forall_app. split; [done|]. constructor; [|done]. split; [|by apply Forall_sub].
    apply from_byte_wf, (get_Forall _ _ _ _ Hb Hk).
  - rewrite len_app. change (len [_]) with 1. lia.
  - rewrite len_app. change (len [_]) with 1. lia.
Qed.

Lemma options_serialize_passes (data : list Z) : bytes data -> Targets.options_serialize data = Some tt.
Proof.
  intros Hb. unfold Targets.options_serialize, CommonOptions.raw_options_from_fuzz_bytes.
  destruct (fuzz_options_loop_total 5 data [] 0) as (os & -> & Hw); [done|lia|done|done|done|].
  by apply serializer_passes.
Qed.

(** ** Properties *)

(** C14. The library agrees with its test oracles on every input, not only on the
    sampled ones: whatever bytes the five fuzz targets of the wire and option layers
    get, no assertion fails.  So the surplus area lies where the headers say; the OCS
    validates what it computed and rejects every flipped bit tried; each typed
    decoder accepts exactly its length and round-trips; the parser yields option by
    option what the reference parser [expected_step] expects, NOP runs and the final
    halt included; and the serializer's output parses to the canonical options of
    the reference [canonical_semantic_options]. *)
Theorem option_fuzz_targets_pass :
  passes Targets.wire_datagram /\ passes Targets.options_ocs /\ passes Targets.options_typed /\
  passes Targets.options_tlv /\ passes Targets.options_serialize /\
  forall options, Forall RawOption_wf options -> CommonOptions.check_serializer_invariants options = Some tt.
Proof.
  unfold passes. auto 8 using wire_datagram_passes, options_ocs_passes, options_typed_passes, options_tlv_passes,
    options_serialize_passes, serializer_passes.
Qed.

(** The targets do run their oracles: an accepted serialization and a malformed TLV. *)
Example options_serialize_runs :
  CommonOptions.raw_options_from_fuzz_bytes [4; 2; 0; 5; 220; 10; 3; 0; 7; 7; 7] =
    Some [{| ro_kind := Mds; ro_value := [5; 220] |}; {| ro_kind := Other 10; ro_value := [7; 7; 7] |}] /\
  CommonOptions.expected_step [1; 9; 200] 1 = Some (CommonOptions.Error (Overrun 1)).
Proof. done. Qed.
