(* ===== verification/FragOracles.v ===== *)
(** The oracles of the splitter, the reassembly cache and datagram assembly
    (src/tests/common_frag_split, common_frag_reassembly, common_assemble) and the
    fuzz targets that run them.

    As in [Oracles], [None] is a failed assertion.  The reassembly oracle reads the
    clock once per fragment; [clock] gives the answers. *)

From S2P Require Import Prelude Model Kind Parse Typed Serialize Checksum Ip Udp Surplus Ocs.
From S2P Require Import Split Reassembly Socket Oracles.

(** [r.expect(..)] of a result that may also have panicked. *)
Definition expect {A E} (r : option (result A E)) : option A :=
  let! r := r in match r with Ok a => Some a | Err _ => None end.

(** [builder.push(kind, data[from..to].to_vec())] when [data] is long enough. *)
Definition push_if (condition : bool) (b : OptionsBuilder) (kind : OptionKind) (data : list Z) (from to : Z) :
    option OptionsBuilder :=
  if condition then let! value := slice data from to in Some (OptionsBuilder_push b kind value) else Some b.

(** ** tests/common_frag_split *)

Module CommonFragSplit.

Definition options_body_from_fuzz_bytes (data : list Z) : option (list Z) :=
  if match data with [] => true | b :: _ => b mod 4 =? 0 end then Some [] else
  let n := len data in
  let! b := push_if (4 <=? n) OptionsBuilder_new Req data 0 4 in
  let! b := push_if (8 <=? n) b Res data 4 8 in
  let! b := push_if (10 <=? n) b Mds data 8 10 in
  let! b := push_if (13 <=? n) b Mrds data 10 13 in
  let! b := push_if (13 <? n) b (Other 10) data 13 (Z.min n 45) in
  expect (OptionsBuilder_finish b).

Definition parsed_frag (f : Fragment) : option (FragOption * list Z) :=
  let body := fg_surplus_body f in
  let! head := slice body 0 LENGTH_OCS in
  assert_eq head [0; 0];
  let! rest := slice body LENGTH_OCS (len body) in
  let! (next, _) := OptionsIter_next (OptionsIter_new rest) in
  let! o := match next with Some (Ok o) => Some o | _ => None end in
  assert_eq (to_byte (or_kind o)) KIND_FRAG;
  let! frag := expect (Frag_decode (or_value o)) in
  let! data_start := checked_sub (frag_start frag) LENGTH_UDP_HEADER in
  ensure (data_start <=? len body);
  let! data := slice body data_start (len body) in
  Some (frag, data).

(** The assertions on one fragment; the bytes it carries. *)
Definition check_fragment (payload : list Z) (config : SplitConfig) (f : Fragment) (expected_offset : Z) :
    option (list Z) :=
  ensure (len (fg_surplus_body f) <=? sc_max_fragment_surplus_len config);
  let! (frag, data) := parsed_frag f in
  assert_eq (frag_identification frag) (sc_identification config);
  assert_eq (frag_offset frag) (fg_offset f);
  assert_eq (fg_offset f) expected_offset;
  assert_eq (frag_rdos frag) (fg_rdos f);
  assert_eq (fg_terminal f) (CommonTyped.is_some (frag_rdos frag));
  if fg_terminal f then
    let! rdos := u16_try_from (LENGTH_UDP_HEADER + len payload mod 65536) in
    assert_eq (fg_rdos f) (Some rdos); Some data
  else assert_eq (fg_rdos f) None; Some data.

Fixpoint fragments_loop (payload : list Z) (config : SplitConfig) (fragments : list Fragment)
    (reassembled_tail : list Z) (expected_offset : Z) : option (list Z) :=
  match fragments with
  | [] => Some reassembled_tail
  | f :: rest =>
      let! data := check_fragment payload config f expected_offset in
      fragments_loop payload config rest (reassembled_tail ++ data) (expected_offset + len data)
  end.

Definition check_fragments (payload per_datagram_options_body : list Z) (config : SplitConfig)
    (fragments : list Fragment) : option unit :=
  ensure (negb (is_nil fragments));
  ensure (len fragments <=? pl_max_segments (sc_peer config));
  assert_eq (len (List.filter fg_terminal fragments)) 1;
  let! l := last fragments in
  ensure (fg_terminal l);
  let! first := get fragments 0 in
  let atomic := (len fragments =? 1) && fg_terminal first in
  let! tail := fragments_loop payload config fragments [] (if atomic then 0 else LENGTH_UDP_HEADER) in
  let expected_tail :=
    if negb (is_nil per_datagram_options_body) && ((LENGTH_UDP_HEADER + len payload) mod 2 =? 1)
    then payload ++ [0] else payload in
  let expected_tail := expected_tail ++ per_datagram_options_body in
  assert_eq tail expected_tail; Some tt.

Definition check_split_invariants (payload per_datagram_options_body : list Z) (config : SplitConfig) :
    option unit :=
  let! r := split_datagram payload per_datagram_options_body config in
  match r with
  | Err _ => Some tt
  | Ok fragments => check_fragments payload per_datagram_options_body config fragments
  end.

Definition check_split_must_succeed (payload per_datagram_options_body : list Z) (config : SplitConfig) :
    option unit :=
  let! fragments := expect (split_datagram payload per_datagram_options_body config) in
  check_fragments payload per_datagram_options_body config fragments.
End CommonFragSplit.

(** ** tests/common_frag_reassembly *)

Module CommonFragReassembly.

(** [order.swap(i, j)]. *)
Definition swap (order : list Z) (i j : Z) : option (list Z) :=
  let! a := get order i in
  let! b := get order j in
  let! order := set_at order i b in
  set_at order j a.

(** The loop over [(1..fragment_count).rev().enumerate()], [upper] counting down. *)
Fixpoint order_loop (upper : nat) (seed_index : Z) (seed order : list Z) : option (list Z) :=
  match upper with
  | O => Some order
  | S below =>
      let choice := default 0 (get seed seed_index) in
      let! order := swap order (Z.of_nat upper) (choice mod (Z.of_nat upper + 1)) in
      order_loop below (seed_index + 1) seed order
  end.

Definition fragment_order (fragment_count : Z) (permutation_seed : list Z) : option (list Z) :=
  order_loop (Z.to_nat (fragment_count - 1)) 0 permutation_seed (seqZ 0 fragment_count).

Definition parsed_frag (surplus_body : list Z) : option (FragOption * list Z) :=
  let! head := slice surplus_body 0 LENGTH_OCS in
  assert_eq head [0; 0];
  let! rest := slice surplus_body LENGTH_OCS (len surplus_body) in
  let! (next, _) := OptionsIter_next (OptionsIter_new rest) in
  let! o := match next with Some (Ok o) => Some o | _ => None end in
  let! frag := expect (Frag_decode (or_value o)) in
  let! data_start := checked_sub (frag_start frag) LENGTH_UDP_HEADER in
  ensure (data_start <=? len surplus_body);
  let! data := slice surplus_body data_start (len surplus_body) in
  Some (frag, data).

Definition expected_tail (payload per_datagram_options_body : list Z) : list Z :=
  let tail :=
    if negb (is_nil per_datagram_options_body) && ((LENGTH_UDP_HEADER + len payload) mod 2 =? 1)
    then payload ++ [0] else payload in
  tail ++ per_datagram_options_body.

Definition oracle_limits : ReassemblyLimits :=
  {| rl_max_reassembled_size := U16_MAX; rl_max_segments := U8_MAX; rl_max_pending_partials := 8;
     rl_timeout := LIMITS_REASSEMBLY_TIMEOUT_MAX |}.

Definition oracle_key (identification : Z) : FragKey :=
  {| fk_src := Build_Ipv4Addr 192 0 2 1; fk_dst := Build_Ipv4Addr 198 51 100 2;
     fk_src_port := 12345; fk_dst_port := 54321; fk_identification := identification |}.

Section oracle.
Context (clock : Z -> Z).

(** The loop over the order from [position] on: the last outcome and the cache. *)
Fixpoint insert_loop (fragments : list Fragment) (key : FragKey) (order : list Z) (position : Z)
    (cache : ReassemblyCache) (completed : option ReassemblyOutcome) :
    option (option ReassemblyOutcome * ReassemblyCache) :=
  match order with
  | [] => Some (completed, cache)
  | index :: rest =>
      let! f := get fragments index in
      let! (frag, data) := parsed_frag (fg_surplus_body f) in
      let! (outcome, cache) := ReassemblyCache_insert cache key frag data (clock position) in
      if is_nil rest then insert_loop fragments key rest (position + 1) cache (Some outcome)
      else
        match outcome with
        | Incomplete => insert_loop fragments key rest (position + 1) cache completed
        | _ => None
        end
  end.

Definition check_reassembly_invariants (payload per_datagram_options_body : list Z) (config : SplitConfig)
    (permutation_seed : list Z) : option unit :=
  let config :=
    {| sc_max_fragment_surplus_len := sc_max_fragment_surplus_len config;
       sc_peer := {| pl_max_reassembled_size := U16_MAX; pl_max_segments := U8_MAX |};
       sc_identification := sc_identification config |} in
  let! r := split_datagram payload per_datagram_options_body config in
  match r with
  | Err _ => Some tt
  | Ok fragments =>
      let! order := fragment_order (len fragments) permutation_seed in
      let! (completed, cache) :=
        insert_loop fragments (oracle_key (sc_identification config)) order 0
          (ReassemblyCache_with_limits oracle_limits) None in
      match completed with
      | Some (Complete d) =>
          assert_eq (co_tail d) (expected_tail payload per_datagram_options_body);
          assert_eq (co_udp_length d) (LENGTH_UDP_HEADER + len payload);
          ensure (ReassemblyCache_is_empty cache); Some tt
      | _ => None
      end
  end.
End oracle.
End CommonFragReassembly.

(** ** tests/common_assemble *)

Module CommonAssemble.

Definition body_with (options : list Z) : list Z := [0; 0] ++ options.

(** [index as u8] of an index below 256. *)
Definition byte (data : list Z) (index : Z) : Z := default (index mod 256) (get data index).

Definition valid_frag_bytes (data : list Z) : list Z :=
  [KIND_FRAG; 12; 0; 20]
  ++ [byte data 1; byte data 2; byte data 3; byte data 4; byte data 5; byte data 6; byte data 7; byte data 8].

Definition malformed_frag_bytes (data : list Z) : list Z :=
  [KIND_FRAG; 11; 0; 20]
  ++ [byte data 1; byte data 2; byte data 3; byte data 4; byte data 5; byte data 6; byte data 7].

(** The builder behind the selectors. *)
Definition built_body (data : list Z) : option (list Z) :=
  let n := len data in
  let! b := push_if (4 <=? n) OptionsBuilder_new Req data 0 4 in
  let! b := push_if (8 <=? n) b Res data 4 8 in
  let! b := push_if (10 <=? n) b Mds data 8 10 in
  let! b := push_if (13 <=? n) b Mrds data 10 13 in
  let! b := push_if (17 <=? n) b Apc data 13 17 in
  let! b := push_if (17 <? n) b (Other 10) data 17 (Z.min n 49) in
  expect (OptionsBuilder_finish b).

Definition req_option (data : list Z) (index : Z) : list Z :=
  [KIND_REQ; 6; byte data index; byte data (index + 1); byte data (index + 2); byte data (index + 3)].

Definition options_body_from_fuzz_bytes (data : list Z) : option (list Z) :=
  match data with
  | [] => built_body data
  | b :: _ =>
      let selector := b mod 8 in
      if selector =? 1 then Some (body_with ([10; 2] ++ req_option data 1))
      else if selector =? 2 then Some (body_with ([192; 2] ++ req_option data 1))
      else if selector =? 3 then Some (body_with (valid_frag_bytes data))
      else if selector =? 4 then Some (body_with (malformed_frag_bytes data))
      else if selector =? 5 then Some (body_with (req_option data 1 ++ req_option data 5))
      else if selector =? 6 then
        let! rest := slice data 1 (len data) in
        Some (body_with (valid_frag_bytes data ++ valid_frag_bytes rest))
      else if selector =? 7 then Some (body_with [192; 2; KIND_APC; 6])
      else built_body data
  end.

(** The surplus part of [check_datagram_matches]; [as u16] wraps. *)
Definition check_assembled_surplus (datagram : list Z) (udp : UdpHeader) (layout : SurplusLayout)
    (natural_start : Z) (options_body : list Z) : option unit :=
  assert_eq (starts_at layout) natural_start;
  assert_eq (needs_pad layout) (natural_start mod 2 =? 1);
  assert_eq (SurplusLayout_range layout) (natural_start, len datagram);
  let! _ :=
    if needs_pad layout
    then let! pad := get datagram (starts_at layout) in assert_eq pad 0; Some tt else Some tt in
  let! body := slice datagram (SurplusLayout_ocs_at layout) (len datagram) in
  assert_eq (len body) (len options_body);
  let! expected_body := ocs_compute options_body (surplus_len layout mod 65536) in
  assert_eq body expected_body;
  let! v := ocs_validate body (surplus_len layout mod 65536) (udp_checksum udp) in
  assert_eq v OcsValid;
  if surplus_len layout <? U16_MAX then
    let! v := ocs_validate body ((surplus_len layout + 1) mod 65536) (udp_checksum udp) in
    assert_eq v (OcsError OcsMismatch); Some tt
  else Some tt.

Definition check_assembled_udp (datagram : list Z) (ip : IpRepr) (udp_at : Z) (udp : UdpHeader)
    (src_port dst_port : Z) (user_data options_body : list Z) : option unit :=
  assert_eq (udp_src_port udp) src_port;
  assert_eq (udp_dst_port udp) dst_port;
  assert_eq (udp_length udp) (UDP_HEADER_LEN + len user_data);
  ensure (udp_length udp <? IpRepr_transport_payload_len ip);
  let user_at := udp_at + UDP_HEADER_LEN in
  let natural_start := udp_at + udp_length udp in
  let! user := slice datagram user_at natural_start in
  assert_eq user user_data;
  let! covered := slice datagram udp_at natural_start in
  let sum := add_slice (IpRepr_pseudo_header_sum ip (udp_length udp)) covered in
  assert_eq (Checksum_finish sum) 0;
  let! checksum := UdpHeader_compute_checksum (UdpHeader_with_checksum udp 0) ip user_data in
  assert_eq (udp_checksum udp) checksum;
  let! layout := locate_surplus ip udp in
  check_assembled_surplus datagram udp layout natural_start options_body.

Definition check_datagram_matches (datagram : list Z) (src dst : Ipv4Addr) (src_port dst_port : Z)
    (user_data options_body : list Z) : option unit :=
  let! (ip, udp_at) := expect (IpRepr_parse datagram) in
  assert_eq (ip_src ip) src;
  assert_eq (ip_dst ip) dst;
  assert_eq udp_at (IpRepr_header_len ip);
  assert_eq (ip_total_len ip) (len datagram);
  assert_eq (IpRepr_header_len ip + IpRepr_transport_payload_len ip) (len datagram);
  let! rest := slice datagram udp_at (len datagram) in
  let! udp := expect (UdpHeader_parse rest) in
  check_assembled_udp datagram ip udp_at udp src_port dst_port user_data options_body.

Definition check_assembly_invariants (src dst : Ipv4Addr) (src_port dst_port : Z)
    (user_data options_body : list Z) : option unit :=
  let! datagram := assemble_datagram src dst src_port dst_port user_data options_body in
  check_datagram_matches datagram src dst src_port dst_port user_data options_body.

Definition force_odd_user_data (user_data : list Z) : list Z :=
  if len user_data mod 2 =? 0 then user_data ++ [0xa5] else user_data.
End CommonAssemble.

(** ** The fuzz targets *)

Module FragTargets.

(** [data.get(i).copied().unwrap_or(d)]. *)
Definition at_or (data : list Z) (i d : Z) : Z := default d (get data i).

Definition frag_split (data : list Z) : option unit :=
  let split_at := Z.min (len data) 192 in
  let! payload := slice data 0 split_at in
  let! rest := slice data split_at (len data) in
  let! options := CommonFragSplit.options_body_from_fuzz_bytes rest in
  let config :=
    {| sc_max_fragment_surplus_len := 16 + at_or data 0 0;
       sc_peer := {| pl_max_reassembled_size := u16_from_be (at_or data 1 0xff) (at_or data 2 0xff);
                     pl_max_segments := at_or data 3 U8_MAX |};
       sc_identification := u32_from_be (at_or data 4 0x12) (at_or data 5 0x34) (at_or data 6 0x56)
                              (at_or data 7 0x78) |} in
  CommonFragSplit.check_split_invariants payload options config.

Definition frag_reassembly (clock : Z -> Z) (data : list Z) : option unit :=
  let split_at := Z.min (len data) 192 in
  let! payload := slice data 0 split_at in
  let! rest := slice data split_at (len data) in
  let! options := CommonFragSplit.options_body_from_fuzz_bytes rest in
  let config :=
    {| sc_max_fragment_surplus_len := 16 + at_or data 0 0;
       sc_peer := {| pl_max_reassembled_size := U16_MAX; pl_max_segments := U8_MAX |};
       sc_identification := u32_from_be (at_or data 1 0x12) (at_or data 2 0x34) (at_or data 3 0x56)
                              (at_or data 4 0x78) |} in
  CommonFragReassembly.check_reassembly_invariants clock payload options config data.

Definition socket_assemble (data : list Z) : option unit :=
  let src := Build_Ipv4Addr 192 0 2 (at_or data 0 1) in
  let dst := Build_Ipv4Addr 198 51 100 (at_or data 1 2) in
  let src_port := u16_from_be (at_or data 2 0x30) (at_or data 3 0x39) in
  let dst_port := u16_from_be (at_or data 4 0x00) (at_or data 5 0x35) in
  let split := Z.min (len data) 80 in
  let! user := slice data 0 split in
  let! rest := slice data split (len data) in
  let! options := CommonAssemble.options_body_from_fuzz_bytes rest in
  let! _ := CommonAssemble.check_assembly_invariants src dst src_port dst_port user options in
  CommonAssemble.check_assembly_invariants src dst src_port dst_port
    (CommonAssemble.force_odd_user_data user) options.
End FragTargets.
