(* ===== verification/FragOraclesCorrect.v ===== *)
(** The oracles of the splitter, the reassembly cache and datagram assembly pass on
    every input. *)

From S2P Require Import Prelude Model Kind Parse Typed Serialize Checksum Ip Udp Surplus Ocs.
From S2P Require Import Split Reassembly FragRoundtrip RecvOptions Pipeline Socket EndToEnd.
From S2P Require Import Oracles OraclesCorrect FragOracles.

(** ** Options bodies derived from fuzz bytes *)

(** An option the builder takes, with a short value. *)
Definition small_option (o : RawOption) : Prop :=
  RawOption_wf o /\ validate_option o = Ok tt /\ to_byte (ro_kind o) <> KIND_FRAG /\ len (ro_value o) <= 32.

Definition small_builder (n : Z) (b : OptionsBuilder) : Prop :=
  Forall small_option (ob_options b) /\ len (ob_options b) <= n.

(** The values the pushes of the oracles use. *)
Definition pushable (k : OptionKind) (n : Z) : Prop :=
  match k with
  | Apc | Req | Res => n = 4
  | Mds => n = 2
  | Mrds => n = 3
  | Other k => k = 10 /\ n <= 32
  | _ => False
  end.

Lemma small_pushable k v : pushable k (len v) -> bytes v -> small_option {| ro_kind := k; ro_value := v |}.
Proof.
  intros Hk Hv. unfold small_option, validate_option, validate_fixed_value_len, RawOption_wf, OptionKind_wf.
  cbn [ro_kind ro_value]. change EXTENDED_VALUE_LEN_MAX with 65531.
  destruct k; try done; cbn [pushable] in Hk; [rewrite Hk; split; [split; [unfold u8; cbn [to_byte]; unfold_consts; lia|done]|done]..|].
  destruct Hk as [-> Hn]. cbn [to_byte]. split; [split; [unfold u8; lia|done]|]. split; [|split; [done|lia]].
  destruct (Z.ltb_spec 65531 (len v)); [lia|]. done.
Qed.

Lemma push_if_small n (condition : bool) b k data from to :
  small_builder n b -> bytes data ->
  (condition = true -> 0 <= from <= to /\ to <= len data /\ pushable k (to - from)) ->
  exists b', push_if condition b k data from to = Some b' /\ small_builder (n + 1) b'.
Proof.
  intros [Hb Hn] Hd Hc. unfold push_if. destruct condition; [|exists b; split; [done|]; split; [done|lia]].
  destruct (Hc eq_refl) as (H1 & H2 & H3). rewrite slice_Some by lia. eexists. split; [done|].
  split; cbn [OptionsBuilder_push ob_options].
  - apply Forall_app. split; [done|]. constructor; [|done].
    apply small_pushable; [by rewrite len_sub by lia|auto with rust].
  - rewrite len_app. change (len [_]) with 1. lia.
Qed.

Lemma options_area_small n os : Forall small_option os -> len (options_area n os) <= 35 * len os.
Proof.
  intros H. revert n. induction H as [|o os (_ & _ & _ & Ho) _ IH]; intros n; [done|].
  cbn [options_area]. cbv zeta. rewrite !len_app, len_tlv, len_cons.
  pose proof (encoded_len_pos (len (ro_value o)) (len_nonneg _)). unfold encoded_len, DEFAULT_VALUE_LEN_MAX in *.
  match goal with |- context [len (options_area ?m os)] => specialize (IH m) end.
  destruct (n mod 2 =? 1); [change (len [KIND_NOP]) with 1 in *|change (len []) with 0 in *];
    destruct (Z.leb_spec (len (ro_value o)) 252); lia.
Qed.

Lemma validate_small os : Forall small_option os -> validate_loop false os = Ok tt.
Proof.
  induction 1 as [|o os (_ & Hv & Hf & _) _ IH]; [done|]. cbn [validate_loop]. rewrite Hv.
  by destruct (Z.eqb_spec (to_byte (ro_kind o)) KIND_FRAG).
Qed.

Lemma finish_small b :
  small_builder 6 b ->
  exists body, expect (OptionsBuilder_finish b) = Some body /\ bytes body /\ 2 <= len body <= 300.
Proof.
  intros [Hs Hn]. assert (Forall RawOption_wf (ob_options b)) as Hw by (eapply Forall_impl; [exact Hs|]; by intros ? []).
  pose proof (validate_small _ Hs) as Hv. destruct (finish_spec b Hw Hv) as [Hf _].
  set (os := sort_by_rank (ob_options b)) in *.
  assert (Forall small_option os) as Hs' by (unfold os; by rewrite sort_by_rank_perm).
  assert (len os <= 6) as Hn' by (unfold os, len in *; by rewrite (Permutation_length (sort_by_rank_perm _))).
  pose proof (options_area_small 2 os Hs') as Ha. pose proof (len_nonneg (options_area 2 os)) as H0.
  pose proof (len_options_body_bytes os) as Hl. cbv zeta in Hl.
  assert (2 <= len (options_body_bytes os) <= 300) as Hb by (rewrite Hl; dlia).
  pose proof (validate_loop_encodable _ _ Hw Hv) as He. rewrite <- (sort_by_rank_perm (ob_options b)) in He. fold os in He.
  rewrite Hf by lia. eexists. split; [done|]. split; [by apply options_body_bytes_bytes, encodable_patch|].
  by rewrite len_finished.
Qed.

(** One conditional push after another, with what makes each one valid. *)
Ltac pushes :=
  repeat match goal with
  | H : small_builder ?n ?b |- context [push_if ?c ?b ?k ?data ?x ?y] =>
      let E := fresh "E" in
      destruct (push_if_small n c b k data x y H) as (? & E & ?);
        [done
        |intros Hc; first [apply Z.leb_le in Hc | apply Z.ltb_lt in Hc]; cbn [pushable]; lia
        |rewrite E; clear E; cbv iota beta]
  end.

Lemma small_new : small_builder 0 OptionsBuilder_new.
Proof. by split; [constructor|]. Qed.

Lemma split_options_body data :
  bytes data ->
  exists body, CommonFragSplit.options_body_from_fuzz_bytes data = Some body /\ bytes body /\ len body <> 1.
Proof.
  intros Hb. unfold CommonFragSplit.options_body_from_fuzz_bytes.
  destruct (match data with [] => true | b :: _ => b mod 4 =? 0 end); [by exists []|]. cbv zeta.
  pose proof small_new. pushes.
  match goal with H : small_builder _ ?b |- context [OptionsBuilder_finish ?b] =>
    destruct (finish_small b) as (body & -> & ? & ?); [destruct H; split; [done|lia]|] end.
  exists body. split; [done|]. split; [done|lia].
Qed.

(** ** The splitter *)

(** The three slices of a fragment body: OCS, options, data. *)
Lemma fragment_slices v data n :
  n = 4 + len v ->
  let body := [0; 0] ++ KIND_FRAG :: (len v + 2) :: v ++ data in
  slice body 0 LENGTH_OCS = Some [0; 0] /\
  slice body LENGTH_OCS (len body) = Some (KIND_FRAG :: (len v + 2) :: v ++ data) /\
  slice body n (len body) = Some data /\ n <= len body.
Proof.
  intros -> body. pose proof (len_nonneg v). pose proof (len_nonneg data). change LENGTH_OCS with 2.
  assert (len body = 4 + len v + len data) as Hl by (unfold body; rewrite !len_app, !len_cons, len_app, len_nil; lia).
  rewrite !slice_Some by lia. split; [done|]. split; [f_equal; apply sub_suffix; [done|by rewrite <- len_app]|].
  split; [|lia]. f_equal. unfold body.
  change ([0; 0] ++ KIND_FRAG :: ?m :: v ++ data) with (([0; 0; KIND_FRAG; m] ++ v) ++ data).
  apply sub_suffix; rewrite ?len_app; change (len [0; 0; KIND_FRAG; len v + 2]) with 4; lia.
Qed.

Lemma parsed_frag_chunk id budget f data :
  carries_chunk id budget f data ->
  let x := (fragment_frag id (fg_offset f) (fg_rdos f), data) in
  CommonFragSplit.parsed_frag f = Some x /\ CommonFragReassembly.parsed_frag (fg_surplus_body f) = Some x.
Proof.
  intros (Hf & Hw & Hd & _) x. pose proof (fragment_frag_wf _ _ _ Hw) as Hfw.
  set (v := Frag_value (fragment_frag id (fg_offset f) (fg_rdos f))).
  assert (fg_surplus_body f = [0; 0] ++ KIND_FRAG :: (len v + 2) :: v ++ data) as Hbody
    by (rewrite Hf at 1; by apply fragment_body_value).
  assert (len v = match fg_rdos f with Some _ => 10 | None => 8 end) as Hv by apply len_Frag_value.
  pose proof (bytes_Frag_value (fragment_frag id (fg_offset f) (fg_rdos f))) as Hvb. fold v in Hvb.
  destruct (next_short KIND_FRAG v data) as [it Hn]; [done|done|rewrite Hv; by destruct (fg_rdos f)| |].
  { constructor; [unfold u8, KIND_FRAG; lia|]. constructor; [unfold u8; rewrite Hv; destruct (fg_rdos f); lia|].
    by apply Forall_app. }
  assert (8 <= frag_start x.1 /\ frag_start x.1 - 8 = 4 + len v) as [Hs1 Hs2]
    by (subst x; unfold fragment_frag; cbn [fst frag_start]; rewrite Hv; destruct (fg_rdos f); lia).
  destruct (fragment_slices v data (frag_start x.1 - 8) Hs2) as (E1 & E2 & E3 & E4).
  assert (checked_sub (frag_start x.1) LENGTH_UDP_HEADER = Some (frag_start x.1 - 8)) as Hc.
  { unfold checked_sub. change LENGTH_UDP_HEADER with 8. destruct (Z.leb_spec 8 (frag_start x.1)); [done|lia]. }
  unfold CommonFragSplit.parsed_frag, CommonFragReassembly.parsed_frag. rewrite Hbody. cbv zeta.
  rewrite E1, E2, Hn. asserted. cbn [or_value or_kind option_ref].
  assert (expect (Frag_decode v) = Some x.1) as -> by (unfold v; by rewrite Frag_decode_value).
  rewrite Hc, E3. rewrite (proj2 (Z.leb_le _ _) E4). done.
Qed.

Lemma check_fragment_passes payload cfg f data :
  len payload <= 65527 ->
  carries_chunk (sc_identification cfg) (sc_max_fragment_surplus_len cfg) f data ->
  fg_rdos f = None \/ fg_rdos f = Some (8 + len payload) ->
  CommonFragSplit.check_fragment payload cfg f (fg_offset f) = Some data.
Proof.
  intros Hp Hc Hr. unfold CommonFragSplit.check_fragment.
  destruct (parsed_frag_chunk _ _ _ _ Hc) as [-> _]. destruct Hc as (Hf & _ & _ & Hl).
  rewrite (proj2 (Z.leb_le _ _) Hl). cbn [fragment_frag frag_identification frag_offset frag_rdos]. asserted.
  assert (fg_terminal f = CommonTyped.is_some (fg_rdos f)) as -> by (rewrite Hf at 1; by destruct (fg_rdos f)).
  asserted. destruct Hr as [-> | ->]; cbn [CommonTyped.is_some]; [by asserted|].
  pose proof (len_nonneg payload). rewrite Z.mod_small by lia. change LENGTH_UDP_HEADER with 8.
  unfold u16_try_from, U16_MAX. destruct (Z.leb_spec (8 + len payload) 65535); [|lia]. by asserted.
Qed.

Lemma fragments_loop_passes payload cfg chunks last : forall off acc,
  len payload <= 65527 ->
  Forall2 (carries_chunk (sc_identification cfg) (sc_max_fragment_surplus_len cfg))
    (fragments_of (sc_identification cfg) off chunks last (8 + len payload)) (chunks ++ [last]) ->
  CommonFragSplit.fragments_loop payload cfg
    (fragments_of (sc_identification cfg) off chunks last (8 + len payload)) acc off
  = Some (acc ++ concat chunks ++ last).
Proof.
  induction chunks as [|c chunks IH]; intros off acc Hp; cbn [fragments_of app];
    intros [Hc Hcs]%Forall2_cons; cbn [CommonFragSplit.fragments_loop].
  - pose proof (check_fragment_passes payload cfg _ last Hp Hc (or_intror eq_refl)) as E.
    cbn [fragment_of fg_offset] in E. by rewrite E.
  - pose proof (check_fragment_passes payload cfg _ c Hp Hc (or_introl eq_refl)) as E.
    cbn [fragment_of fg_offset] in E. rewrite E, IH by done. cbn [concat]. by rewrite <- !app_assoc.
Qed.

Lemma fragments_of_shape id chunks final rdos : forall off,
  let fs := fragments_of id off chunks final rdos in
  is_nil fs = false /\ len (List.filter fg_terminal fs) = 1 /\
  (exists l, last fs = Some l /\ fg_terminal l = true) /\
  exists f, get fs 0 = Some f /\ (len fs =? 1) && fg_terminal f = is_nil chunks.
Proof.
  induction chunks as [|c chunks IH]; intros off; cbn [fragments_of].
  - split; [done|]. split; [done|]. split; by eexists.
  - destruct (IH (off + len c)) as (Hn & Hf & (l & Hl & Ht) & _). split; [done|]. split; [done|]. split.
    + exists l. split; [|done]. cbn [last]. by destruct (fragments_of _ _ _ _ _).
    + eexists. split; [done|]. cbn [fragment_of fg_terminal]. by rewrite andb_false_r.
Qed.

Lemma expected_tail_split payload body :
  CommonFragReassembly.expected_tail payload body = reassembled_tail payload body.
Proof.
  unfold CommonFragReassembly.expected_tail, reassembled_tail, rdos_needs_options_pad. by destruct (_ && _).
Qed.

Lemma check_split_passes payload body cfg :
  SplitConfig_wf cfg -> bytes payload -> bytes body ->
  CommonFragSplit.check_split_invariants payload body cfg = Some tt.
Proof.
  intros Hw Hp Hb. unfold CommonFragSplit.check_split_invariants.
  destruct (split_datagram payload body cfg) as [[frags|e]|] eqn:Hs; [|done|].
  2:{ destruct (split_answers payload body cfg Hw) as [x Hx]. congruence. }
  destruct (split_Ok _ _ _ _ Hw Hs) as (Hy & chunks & final & Hr).
  pose proof (split_carry _ _ _ _ _ _ Hw Hp Hb Hy Hr) as Hc.
  destruct (split_cover payload body cfg frags Hw Hp Hb Hs) as (_ & _ & _ & _ & _ & _ & Hn).
  destruct Hr as [Hd -> _ _ _]. unfold fragment_layout in *.
  destruct Hw as (_ & _ & Hmax & _). destruct Hy as (_ & _ & Hsize & _).
  assert (len payload <= 65527) as Hpl.
  { rewrite len_reassembled_tail in Hsize. pose proof (len_nonneg body). unfold u16 in Hmax.
    destruct (is_nil body); dlia. }
  destruct (fragments_of_shape (sc_identification cfg) chunks final (8 + len payload)
    (if is_nil chunks then 0 else 8)) as (Hne & Hf & (l & Hl & Ht) & f & Hg & Hat).
  unfold CommonFragSplit.check_fragments. change LENGTH_UDP_HEADER with 8.
  rewrite Hne, (proj2 (Z.leb_le _ _) Hn), Hf, Hl, Ht, Hg, Hat. asserted. cbn [negb].
  rewrite fragments_loop_passes by done. cbn [app]. rewrite Hd, <- expected_tail_split.
  unfold CommonFragReassembly.expected_tail. change LENGTH_UDP_HEADER with 8. by asserted.
Qed.

(** ** Reassembly *)

Lemma swap_perm l i j :
  0 <= i < len l -> 0 <= j < len l -> exists l', CommonFragReassembly.swap l i j = Some l' /\ l' ≡ₚ l.
Proof.
  intros Hi Hj. unfold CommonFragReassembly.swap.
  destruct (get_is_Some l i Hi) as [a Ha]. destruct (get_is_Some l j Hj) as [b Hb]. rewrite Ha, Hb.
  rewrite set_at_insert by done.
  rewrite set_at_insert by (unfold len in *; rewrite length_insert; lia). eexists. split; [done|].
  unfold get in Ha, Hb. destruct (0 <=? i); [|done]. destruct (0 <=? j); [|done].
  by apply Permutation_insert_swap.
Qed.

Lemma order_loop_perm upper : forall seed_index seed order,
  Z.of_nat upper < len order \/ upper = 0%nat ->
  exists order', CommonFragReassembly.order_loop upper seed_index seed order = Some order' /\ order' ≡ₚ order.
Proof.
  induction upper as [|below IH]; intros i seed order Hu; [by eexists|].
  cbn [CommonFragReassembly.order_loop]. cbv zeta.
  destruct (swap_perm order (Z.of_nat (S below))
    (default 0 (get seed i) mod (Z.of_nat (S below) + 1))) as (o1 & -> & H1).
  - lia.
  - pose proof (Z.mod_pos_bound (default 0 (get seed i)) (Z.of_nat (S below) + 1)). lia.
  - destruct (IH (i + 1) seed o1) as (o2 & Ho & H2).
    { left. unfold len in *. rewrite (Permutation_length H1). lia. }
    exists o2. split; [done|]. by rewrite H2.
Qed.

Lemma fragment_order_perm n seed :
  0 <= n -> exists order, CommonFragReassembly.fragment_order n seed = Some order /\ order ≡ₚ seqZ 0 n.
Proof.
  intros Hn. apply order_loop_perm. unfold len. rewrite length_seqZ. lia.
Qed.

Section reassembly.
Context (clock : Z -> Z) (fragments : list Fragment) (k : FragKey).

(** The processing state [insert] passes on. *)
Definition no_processing : FragmentProcessing :=
  {| fp_options := []; fp_option_failures := []; fp_ocs_nonzero := None |}.

Fixpoint timed (position : Z) (xs : list arrival) : list (Z * arrival) :=
  match xs with
  | [] => []
  | x :: rest => (clock position, x) :: timed (position + 1) rest
  end.

Lemma timed_snd p xs : (timed p xs).*2 = xs.
Proof. revert p. induction xs as [|x xs IH]; intros p; [done|]. cbn. by rewrite IH. Qed.

Lemma timed_times p xs : 0 <= p -> Forall (fun a => exists i, 0 <= i /\ a.1 = clock i) (timed p xs).
Proof. revert p. induction xs as [|x xs IH]; intros p Hp; constructor; [eauto|apply IH; lia]. Qed.

Definition reads (index : Z) (x : arrival) : Prop :=
  exists f, get fragments index = Some f /\ CommonFragReassembly.parsed_frag (fg_surplus_body f) = Some x.

Lemma insert_loop_feed order xs o : forall p c completed c',
  Forall2 reads order xs -> order <> [] ->
  feed c k no_processing (timed p xs) = Some (replicate (length order - 1) Incomplete ++ [o], c') ->
  CommonFragReassembly.insert_loop clock fragments k order p c completed = Some (Some o, c').
Proof.
  intros p c completed c' Hr. revert p c. induction Hr as [|i x order xs (f & Hf & Hx) Hr IH]; intros p c Hne; [done|].
  intros Hfeed. cbn [CommonFragReassembly.insert_loop]. rewrite Hf, Hx. destruct x as [frag data].
  cbn [timed feed fst snd] in Hfeed.
  unfold ReassemblyCache_insert, ReassemblyCache_insert_with_options. fold no_processing.
  destruct (ReassemblyCache_insert_with_options_and_failures c k frag data no_processing (clock p))
    as [[o1 c1]|]; [|done].
  destruct (feed c1 k no_processing (timed (p + 1) xs)) as [[os c2]|] eqn:E; [|done].
  injection Hfeed as Ho <-. inversion Hr as [|i2 x2 order2 xs2 H2 Hr2]; subst; cbn [is_nil].
  - cbn [timed feed] in E. simplify_eq. cbn in Ho. simplify_eq. done.
  - replace (length (i :: i2 :: order2) - 1)%nat with (S (length order2)) in Ho by (simpl; lia).
    cbn [replicate app] in Ho. injection Ho as -> Ho. apply IH; [done|]. rewrite E, Ho.
    by replace (length (i2 :: order2) - 1)%nat with (length order2) by (simpl; lia).
Qed.

(** Feeding under one key leaves a cache with no other keys. *)
Lemma feed_only_key pr : forall xs c os c',
  Cache_wf c -> Forall (fun a => u16 (frag_offset a.2.1) /\ bytes a.2.2) xs ->
  feed c k pr xs = Some (os, c') -> (forall k', k' <> k -> rc_partials c !! k' = None) ->
  forall k', k' <> k -> rc_partials c' !! k' = None.
Proof.
  induction xs as [|[t [frag data]] xs IH]; intros c os c' Hw Hx; cbn [feed fst snd].
  { by intros [= _ <-]. }
  apply Forall_cons in Hx as [[Hu Hd] Hx]. cbn in Hu, Hd. intros Hf Hk.
  destruct (cache_insert_wf c k frag data pr t Hw Hu Hd) as (o1 & c1 & E & Hw1 & _ & Ho). rewrite E in Hf.
  destruct (feed c1 k pr xs) as [[os2 c2]|] eqn:E2; [|done]. injection Hf as _ <-.
  apply (IH c1 os2 c2); try done. intros k' Hne. rewrite (Ho k' Hne).
  destruct (rc_partials (ReassemblyCache_gc c t) !! k') as [p|] eqn:Ep; [|done].
  apply gc_lookup in Ep as [Ep _]. by rewrite Hk in Ep.
Qed.

Lemma fed_cache_empty L pr xs os c' :
  ReassemblyLimits_wf L -> Forall (fun a => u16 (frag_offset a.2.1) /\ bytes a.2.2) xs ->
  feed (ReassemblyCache_with_limits L) k pr xs = Some (os, c') -> rc_partials c' !! k = None ->
  rc_partials c' = ∅.
Proof.
  intros HL Hx Hf Hk. apply map_eq. intros k'. rewrite lookup_empty. destruct (decide (k' = k)) as [->|Hne]; [done|].
  by apply (feed_only_key pr xs _ os c' (with_limits_wf _ HL) Hx Hf).
Qed.
End reassembly.

(** What the receiver and the oracle read from each fragment. *)
Definition fragment_read (f : Fragment) (x : arrival) : Prop :=
  CommonFragReassembly.parsed_frag (fg_surplus_body f) = Some x /\
  fragment_view (fg_surplus_body f) = Some x /\ u16 (frag_offset x.1) /\ bytes x.2.

Lemma carried_reads id budget frags ds :
  Forall2 (carries_chunk id budget) frags ds ->
  exists vs, Forall2 fragment_read frags vs /\ omap (fun f => fragment_view (fg_surplus_body f)) frags = vs.
Proof.
  induction 1 as [|f d frags ds Hf _ (vs & Hv & Ho)]; [by exists []|].
  destruct (parsed_frag_chunk _ _ _ _ Hf) as [_ Hp]. destruct (carries_reads_back _ _ _ _ Hf) as [Hview _].
  exists ((fragment_frag id (fg_offset f) (fg_rdos f), d) :: vs). split.
  - constructor; [|done]. destruct Hf as (_ & (_ & Hu & _) & Hd & _). done.
  - cbn [omap list_omap]. by rewrite Hview, <- Ho.
Qed.

Lemma omap_get_seqZ {A} (vs pre : list A) : omap (get (pre ++ vs)) (seqZ (len pre) (len vs)) = vs.
Proof.
  revert pre. induction vs as [|v vs IH]; intros pre; [done|].
  rewrite len_cons, seqZ_cons by (pose proof (len_nonneg vs); lia). cbn [omap list_omap].
  rewrite get_app_r by done. change (get (v :: vs) 0) with (Some v). cbv iota. f_equal.
  replace (Z.succ (len pre)) with (len (pre ++ [v])) by (rewrite len_app; done).
  replace (Z.pred (1 + len vs)) with (len vs) by lia.
  replace (pre ++ v :: vs) with ((pre ++ [v]) ++ vs) by (by rewrite <- app_assoc). apply IH.
Qed.

Lemma reads_in_order frags vs order :
  Forall2 fragment_read frags vs -> order ≡ₚ seqZ 0 (len frags) ->
  Forall2 (reads frags) order (omap (get vs) order) /\ omap (get vs) order ≡ₚ vs.
Proof.
  intros Hv Ho. assert (len frags = len vs) as Hl by (unfold len; by rewrite (Forall2_length _ _ _ Hv)).
  pose proof (omap_get_seqZ vs []) as E. cbn [app] in E. change (len []) with 0 in E.
  split; [|rewrite Ho, Hl; by rewrite E].
  assert (Forall (fun i => 0 <= i < len frags) order) as Hb.
  { rewrite Ho. apply Forall_forall. intros i Hi%elem_of_seqZ. lia. }
  clear Ho. induction Hb as [|i order Hi _ IH]; [constructor|]. cbn [omap list_omap].
  destruct (get_is_Some frags i Hi) as [f Hf]. pose proof Hf as Hf'. unfold get in Hf'.
  destruct (Z.leb_spec 0 i); [|lia]. destruct (Forall2_lookup_l _ _ _ _ _ Hv Hf') as (x & Hx & Hr).
  assert (get vs i = Some x) as -> by (unfold get; destruct (Z.leb_spec 0 i); [done|lia]).
  constructor; [|done]. exists f. split; [done|apply Hr].
Qed.

(** The whole run takes less than the reassembly timeout. *)
Definition quick (clock : Z -> Z) : Prop :=
  forall i, 0 <= i -> clock 0 <= clock i < clock 0 + LIMITS_REASSEMBLY_TIMEOUT_MAX.

Lemma oracle_limits_wf : ReassemblyLimits_wf CommonFragReassembly.oracle_limits.
Proof. repeat split; vm_compute; intros; discriminate. Qed.

Lemma check_reassembly_passes clock payload body cfg seed :
  quick clock -> SplitConfig_wf cfg -> bytes payload -> bytes body ->
  CommonFragReassembly.check_reassembly_invariants clock payload body cfg seed = Some tt.
Proof.
  intros Hq Hw Hp Hb. unfold CommonFragReassembly.check_reassembly_invariants. cbv zeta.
  set (cfg' := {| sc_max_fragment_surplus_len := _ |}).
  assert (SplitConfig_wf cfg') as Hw'.
  { destruct Hw as (? & ? & _). split; [done|]. split; [done|]. split; vm_compute; split; intros; done. }
  destruct (split_datagram payload body cfg') as [[frags|e]|] eqn:Hs; [|done|].
  2:{ destruct (split_answers payload body cfg' Hw') as [x Hx]. congruence. }
  destruct (split_Ok _ _ _ _ Hw' Hs) as (Hy & chunks & final & Hr).
  destruct (carried_reads _ _ _ _ (split_carry _ _ _ _ _ _ Hw' Hp Hb Hy Hr)) as (vs & Hv & Hviews).
  destruct (split_cover payload body cfg' frags Hw' Hp Hb Hs) as (_ & _ & _ & _ & _ & _ & Hn).
  destruct (fragment_order_perm (len frags) seed (len_nonneg _)) as (order & -> & Hperm).
  destruct (reads_in_order _ _ _ Hv Hperm) as [Hreads Hxs]. set (xs := omap (get vs) order) in *.
  pose proof (Forall2_length _ _ _ Hreads) as Hlen. pose proof (Permutation_length Hperm) as Hlo.
  rewrite length_seqZ in Hlo. unfold len in Hlo. rewrite Nat2Z.id in Hlo.
  assert (0 < length frags)%nat as Hpos.
  { destruct Hr as [_ -> _ _ _]. unfold fragment_layout. destruct chunks; simpl; lia. }
  destruct xs as [|x xs'] eqn:Exs; [simpl in Hlen; lia|].
  set (k := CommonFragReassembly.oracle_key _).
  destruct (feed_split payload body cfg' frags (ReassemblyCache_with_limits CommonFragReassembly.oracle_limits) k
    no_processing (clock 0) x (timed clock 1 xs')) as (d & c' & Hfeed & Htail & Hudp & _ & Hgone); try done.
  - destruct Hy as (_ & _ & Hsize & _). exact Hsize.
  - rewrite timed_snd. by rewrite Hviews, Hxs.
  - apply (Forall_impl _ _ _ (timed_times clock 1 xs' ltac:(lia))). intros a (i & Hi & ->). apply Hq, Hi.
  - rewrite (insert_loop_feed clock frags k order (x :: xs') (Complete d) 0 _ None c'); [|done|by destruct order|].
    2:{ rewrite Hlo. exact Hfeed. }
    cbv iota beta. rewrite Htail, Hudp, expected_tail_split. asserted.
    assert (rc_partials c' = ∅) as Hempty.
    { refine (fed_cache_empty k _ no_processing _ _ _ oracle_limits_wf _ Hfeed Hgone).
      change ((clock 0, x) :: timed clock 1 xs') with (timed clock 0 (x :: xs')).
      rewrite <- (Forall_fmap snd (fun x => u16 (frag_offset x.1) /\ bytes x.2)), timed_snd, Hxs.
      apply Forall2_Forall_r with (1 := Hv). apply Forall_true. by intros f y (_ & _ & ?). }
    unfold ReassemblyCache_is_empty. by rewrite bool_decide_eq_true_2.
Qed.

(** ** Assembly *)

(** One more in the length field and the checksum no longer fits. *)
Lemma ocs_wrong_length body n udp :
  bytes body -> u16 n -> n + 1 <= 65535 -> ocs_validate body n udp = Some OcsValid ->
  ocs_validate body (n + 1) udp = Some (OcsError OcsMismatch).
Proof.
  intros Hb Hn Hm Hv. destruct body as [|a [|b rest]]; [done|done|].
  rewrite ocs_validate_spec in Hv by done. rewrite ocs_validate_spec by (done || (unfold u16 in *; lia)).
  destruct (u16_from_be a b =? 0); [by case_match|].
  destruct (Z.eqb_spec (ones_complement (word_total (a :: b :: rest) + n)) 65535) as [Hf|]; [|done].
  pose proof (word_total_nonneg _ Hb). unfold u16 in Hn.
  apply ones_complement_ffff in Hf; [|lia].
  destruct (Z.eqb_spec (ones_complement (word_total (a :: b :: rest) + (n + 1))) 65535) as [Hf'|]; [|done].
  apply ones_complement_ffff in Hf'; [|lia]. exfalso. dlia.
Qed.

Section assembly.
Context (src dst : Ipv4Addr) (src_port dst_port : Z) (user_data : list Z) (a b : Z) (rest : list Z).
Let options_body := a :: b :: rest.
Hypothesis (Hw : assemble_wf src dst src_port dst_port user_data options_body).

Let ip := assembled_ip src dst user_data options_body.
Let udp := assembled_udp src dst src_port dst_port user_data options_body.
Let datagram := wire ip udp (assembled_tail user_data options_body).
Let pad := pad_of user_data.
Let n := len pad + 2 + len rest.

Lemma assembled_surplus_cons : assembled_surplus user_data options_body = n.
Proof.
  unfold assembled_surplus, assembled_pad, n, pad, pad_of, options_body. cbn [is_nil negb andb]. rewrite !len_cons. lia.
Qed.

Lemma datagram_layout :
  datagram = (ip_header ip ++ udp_header udp ++ user_data ++ pad) ++ u16_to_be (ocs_value rest n) ++ rest.
Proof.
  unfold datagram, wire, options_body. rewrite assembled_tail_cons. fold pad n. by rewrite <- !app_assoc.
Qed.

Lemma len_assembled_datagram : len datagram = 28 + len user_data + n.
Proof.
  unfold datagram. rewrite len_wire, len_assembled_tail by (unfold options_body; rewrite !len_cons; pose proof (len_nonneg rest); lia).
  rewrite assembled_surplus_cons. lia.
Qed.

Lemma pad_of_len : len pad = usize_of_bool (len user_data mod 2 =? 1).
Proof. unfold pad, pad_of. by case_match. Qed.

Lemma located_surplus :
  locate_surplus ip udp =
  Some {| starts_at := 28 + len user_data; needs_pad := len user_data mod 2 =? 1; surplus_len := n |}.
Proof.
  destruct (assembled_wire src dst src_port dst_port user_data options_body Hw) as [Hwire _].
  unfold options_body in Hwire at 3. rewrite assembled_tail_cons in Hwire. fold pad n ip udp in Hwire.
  cbn [u16_to_be app] in Hwire. by rewrite (locate_surplus_wire _ _ _ _ _ _ _ Hwire).
Qed.

Lemma assembled_pad_zero :
  (if len user_data mod 2 =? 1
   then let! p := get datagram (28 + len user_data) in assert_eq p 0; Some tt else Some tt) = Some tt.
Proof.
  rewrite datagram_layout. unfold pad, pad_of. destruct (len user_data mod 2 =? 1); [|done].
  replace ((ip_header ip ++ udp_header udp ++ user_data ++ [0]) ++ u16_to_be (ocs_value rest n) ++ rest)
    with ((ip_header ip ++ udp_header udp ++ user_data) ++ 0 :: u16_to_be (ocs_value rest n) ++ rest)
    by (by rewrite <- !app_assoc).
  rewrite get_app_r; [done|]. rewrite !len_app, len_ip_header, len_udp_header. lia.
Qed.

Lemma assembled_ocs_body :
  slice datagram (28 + len user_data + len pad) (len datagram) = Some (u16_to_be (ocs_value rest n) ++ rest).
Proof.
  pose proof len_assembled_datagram as Hd. pose proof (len_nonneg user_data). pose proof (len_nonneg rest).
  pose proof (len_nonneg pad).
  rewrite slice_Some by (unfold n in *; lia). f_equal. rewrite datagram_layout.
  assert (len (ip_header ip ++ udp_header udp ++ user_data ++ pad) = 28 + len user_data + len pad) as Hl
    by (rewrite !len_app, len_ip_header, len_udp_header; lia).
  apply sub_suffix; [by rewrite Hl|]. by rewrite len_app.
Qed.

Lemma surplus_u16 : u16 n /\ n + 1 <= 65535 /\ bytes rest.
Proof.
  destruct Hw as (_ & _ & _ & _ & _ & Hb & _ & Hm). rewrite assembled_surplus_cons in Hm.
  pose proof (len_nonneg user_data). pose proof (len_nonneg rest). pose proof (len_nonneg pad).
  unfold options_body in Hb. decompose_Forall_hyps. unfold u16, n in *. split; [lia|]. split; [lia|done].
Qed.

Lemma assembled_surplus_passes :
  CommonAssemble.check_assembled_surplus datagram udp
    {| starts_at := 28 + len user_data; needs_pad := len user_data mod 2 =? 1; surplus_len := n |}
    (28 + len user_data) options_body = Some tt.
Proof.
  destruct surplus_u16 as (Hu & Hn & Hrest). pose proof len_assembled_datagram as Hd.
  unfold CommonAssemble.check_assembled_surplus, SurplusLayout_range, SurplusLayout_ocs_at.
  cbn [starts_at needs_pad surplus_len]. rewrite assembled_pad_zero, <- pad_of_len, assembled_ocs_body.
  replace ((28 + len user_data) mod 2) with (len user_data mod 2) by dlia.
  rewrite <- Hd. asserted. cbv iota beta. unfold u16 in Hu. rewrite !Z.mod_small by lia.
  unfold options_body. rewrite ocs_compute_spec by done. asserted. rewrite ocs_validate_compute by done. asserted.
  rewrite (ocs_wrong_length _ n); [|apply Forall_app; auto with rust|done|done|by apply ocs_validate_compute].
  asserted. by destruct (n <? U16_MAX).
Qed.

Lemma assembled_checksum_zero :
  Checksum_finish (add_slice (IpRepr_pseudo_header_sum ip (udp_length udp)) (udp_header udp ++ user_data)) = 0 /\
  UdpHeader_compute_checksum (UdpHeader_with_checksum udp 0) ip user_data = Some (udp_checksum udp).
Proof.
  pose proof (assembled_ip_wf _ _ _ _ _ _ Hw) as Hi. pose proof (assembled_udp_wf _ _ _ _ _ _ Hw) as Hu.
  fold ip in Hi. fold udp in Hu. assert (bytes user_data) as Hb by apply Hw.
  destruct (UdpHeader_compute_checksum_spec udp ip user_data) as [_ Ht]; [done..|].
  pose proof (udp_checksum_cancel udp ip user_data Hu Hi Hb eq_refl) as Hc.
  assert (udp_checksum_value udp ip user_data = udp_checksum udp) as Hv by done. split.
  - rewrite (represents_finish _ (udp_word_total udp ip user_data + udp_checksum udp)); [rewrite <- Hv, Hc; done|].
    replace (udp_word_total udp ip user_data + udp_checksum udp) with
      (word_total (octets (ip_src ip)) + word_total (octets (ip_dst ip)) + IPPROTO_UDP + udp_length udp
        + word_total (udp_header udp ++ user_data)).
    { apply represents_add_slice; [apply Forall_app; split; [apply bytes_udp_header|done]|].
      apply represents_pseudo_header; [done|]. apply Hu. }
    rewrite word_total_app by (by rewrite len_udp_header). unfold udp_word_total.
    destruct Hu as (H1 & H2 & H3 & H4). unfold udp_header. cbn [word_total app u16_to_be].
    rewrite !u16_from_to_be by done. lia.
  - apply UdpHeader_compute_checksum_spec; [|done..]. destruct Hu as (? & ? & ? & _).
    split; [done|]. split; [done|]. split; [done|]. split; simpl; lia.
Qed.

Lemma assembled_total : ip_total_len ip = len datagram /\ 20 + IpRepr_transport_payload_len ip = len datagram.
Proof.
  pose proof len_assembled_datagram as Hd. pose proof (len_nonneg user_data). pose proof (len_nonneg rest).
  pose proof (len_nonneg pad). assert (ip_total_len ip = len datagram) as Htot
    by (rewrite Hd; cbn [ip assembled_ip ip_total_len]; by rewrite assembled_surplus_cons).
  split; [done|]. unfold IpRepr_transport_payload_len, saturating_sub. change (ip_ihl ip * 4) with 20.
  unfold n in *. lia.
Qed.

Lemma assembled_slices :
  slice datagram 28 (28 + len user_data) = Some user_data /\
  slice datagram 20 (28 + len user_data) = Some (udp_header udp ++ user_data).
Proof.
  rewrite datagram_layout. split.
  - rewrite (app_assoc (ip_header ip)), (app_assoc _ user_data), <- app_assoc, <- app_assoc.
    apply slice_middle; by rewrite len_app, len_ip_header, len_udp_header.
  - rewrite (app_assoc (udp_header udp)), <- app_assoc, <- app_assoc.
    apply slice_middle; rewrite ?len_app, ?len_ip_header, ?len_udp_header; lia.
Qed.

Lemma assembled_udp_passes :
  CommonAssemble.check_assembled_udp datagram ip 20 udp src_port dst_port user_data options_body = Some tt.
Proof.
  destruct assembled_total as [_ Hend]. pose proof len_assembled_datagram as Hd.
  pose proof (len_nonneg user_data). pose proof (len_nonneg rest). pose proof (len_nonneg pad).
  destruct assembled_slices as [E1 E2]. destruct assembled_checksum_zero as [E3 E4].
  change (udp_length udp) with (8 + len user_data) in E3.
  unfold CommonAssemble.check_assembled_udp. change UDP_HEADER_LEN with 8. change (udp_length udp) with (8 + len user_data).
  asserted. destruct (Z.ltb_spec (8 + len user_data) (IpRepr_transport_payload_len ip)); [|unfold n in *; lia].
  change (20 + 8) with 28. replace (20 + (8 + len user_data)) with (28 + len user_data) by lia.
  rewrite E1, E2, E4, located_surplus. cbv zeta. rewrite E3. asserted. apply assembled_surplus_passes.
Qed.

Lemma assembly_passes :
  CommonAssemble.check_assembly_invariants src dst src_port dst_port user_data options_body = Some tt.
Proof.
  pose proof (assembled_ip_wf _ _ _ _ _ _ Hw) as Hi. pose proof (assembled_udp_wf _ _ _ _ _ _ Hw) as Hu.
  fold ip in Hi. fold udp in Hu. destruct assembled_total as [Htot Hend]. pose proof len_assembled_datagram as Hd.
  pose proof (len_nonneg user_data). pose proof (len_nonneg rest). pose proof (len_nonneg pad).
  unfold CommonAssemble.check_assembly_invariants. rewrite (assemble_spec _ _ _ _ _ _ Hw).
  fold ip udp. change (ip_header ip ++ udp_header udp ++ assembled_tail user_data options_body) with datagram.
  unfold CommonAssemble.check_datagram_matches.
  assert (len datagram = 20 + len (udp_header udp ++ assembled_tail user_data options_body)) as Hl
    by (unfold datagram, wire; by rewrite len_app, len_ip_header).
  assert (IpRepr_parse datagram = Some (Ok (ip, 20))) as ->
    by (apply IpRepr_parse_header; [done|done|]; rewrite Htot, Hl; pose proof (len_nonneg (udp_header udp ++ assembled_tail user_data options_body)); lia).
  cbn [expect]. change (IpRepr_header_len ip) with 20. rewrite Htot, Hend. asserted.
  rewrite slice_Some by (unfold n in *; lia).
  assert (sub datagram 20 (len datagram) = udp_header udp ++ assembled_tail user_data options_body) as ->
    by (rewrite Hl; apply sub_suffix; by rewrite len_ip_header).
  rewrite UdpHeader_parse_header by (done || (simpl; lia)). apply assembled_udp_passes.
Qed.
End assembly.

Lemma byte_u8 data i : bytes data -> u8 (CommonAssemble.byte data i).
Proof.
  intros Hb. unfold CommonAssemble.byte. destruct (get data i) as [x|] eqn:E.
  - apply (get_Forall _ _ _ _ Hb E).
  - simpl. unfold u8. apply Z.mod_pos_bound. lia.
Qed.

Ltac body_bytes :=
  unfold CommonAssemble.valid_frag_bytes, CommonAssemble.malformed_frag_bytes, CommonAssemble.req_option;
  cbn [app]; rewrite ?Forall_cons; repeat (split; [first [by apply byte_u8 | unfold u8; unfold_consts; lia]|]);
  apply Forall_nil_2.

Lemma frag_bytes_u8 data :
  bytes data -> bytes (CommonAssemble.valid_frag_bytes data) /\ bytes (CommonAssemble.malformed_frag_bytes data).
Proof. intros Hb. split; body_bytes. Qed.

Definition assembled_options (body : list Z) : Prop := bytes body /\ 2 <= len body <= 300.

Lemma body_with_ok options :
  bytes options -> len options <= 298 -> assembled_options (CommonAssemble.body_with options).
Proof.
  intros Hb Hl. split; [apply Forall_app; split; [body_bytes|done]|].
  unfold CommonAssemble.body_with. rewrite len_app. change (len [0; 0]) with 2. pose proof (len_nonneg options). lia.
Qed.

Lemma built_body_ok data :
  bytes data -> exists body, CommonAssemble.built_body data = Some body /\ assembled_options body.
Proof.
  intros Hb. unfold CommonAssemble.built_body. cbv zeta. pose proof small_new. pushes.
  match goal with H : small_builder _ ?b |- context [OptionsBuilder_finish ?b] =>
    destruct (finish_small b) as (body & -> & ? & ?); [destruct H; split; [done|lia]|] end.
  by exists body.
Qed.

Lemma assemble_options_body data :
  bytes data ->
  exists body, CommonAssemble.options_body_from_fuzz_bytes data = Some body /\ assembled_options body.
Proof.
  intros Hb. unfold CommonAssemble.options_body_from_fuzz_bytes.
  destruct data as [|x data'] eqn:E; [by apply built_body_ok|]. rewrite <- E in *. cbv zeta.
  destruct (frag_bytes_u8 data Hb) as [Hv Hm].
  repeat (destruct (_ =? _); [try (eexists; split; [done|]; apply body_with_ok; [|done]; first [done | body_bytes])|]);
    [|by apply built_body_ok].
  rewrite slice_Some by (rewrite E, len_cons; pose proof (len_nonneg data'); lia). eexists. split; [done|].
  apply body_with_ok; [|done]. apply Forall_app. split; [done|]. apply frag_bytes_u8. auto with rust.
Qed.

Lemma assembly_target_passes src dst src_port dst_port user body :
  Ipv4Addr_wf src -> Ipv4Addr_wf dst -> u16 src_port -> u16 dst_port -> bytes user -> len user <= 81 ->
  assembled_options body ->
  CommonAssemble.check_assembly_invariants src dst src_port dst_port user body = Some tt.
Proof.
  intros Hs Hd Hsp Hdp Hu Hl [Hb Hn]. destruct body as [|a [|b rest]]; [len_lia..|].
  apply assembly_passes. split; [done|]. split; [done|]. split; [done|]. split; [done|].
  split; [done|]. split; [done|]. split; [lia|]. unfold assembled_surplus.
  pose proof (len_assembled_pad user (a :: b :: rest)). lia.
Qed.

Lemma at_or_u8 data i d : bytes data -> u8 d -> u8 (FragTargets.at_or data i d).
Proof.
  intros Hb Hd. unfold FragTargets.at_or. destruct (get data i) as [x|] eqn:E; [|done].
  apply (get_Forall _ _ _ _ Hb E).
Qed.

(** The two slices of the input. *)
Lemma split_input data m :
  bytes data -> 0 <= m ->
  let n := Z.min (len data) m in
  slice data 0 n = Some (sub data 0 n) /\ slice data n (len data) = Some (sub data n (len data)) /\
  bytes (sub data 0 n) /\ bytes (sub data n (len data)) /\ len (sub data 0 n) <= m.
Proof.
  intros Hb Hm n. pose proof (len_nonneg data). rewrite !slice_Some by (subst n; lia).
  split; [done|]. split; [done|]. split; [auto with rust|]. split; [auto with rust|].
  rewrite len_sub; subst n; lia.
Qed.

Ltac width := unfold u8; unfold_consts; unfold_widths; lia.

Lemma frag_split_passes : passes FragTargets.frag_split.
Proof.
  intros data Hb. unfold FragTargets.frag_split. cbv zeta.
  destruct (split_input data 192 Hb ltac:(lia)) as (-> & -> & H1 & H2 & _).
  destruct (split_options_body _ H2) as (body & -> & Hbody & _).
  apply check_split_passes; [|done|done].
  pose proof (at_or_u8 data 0 0 Hb ltac:(width)) as H0.
  split; [|split; [|split]]; cbn [sc_max_fragment_surplus_len sc_identification sc_peer pl_max_reassembled_size pl_max_segments].
  - unfold u8, usize, USIZE_MAX in *. lia.
  - apply u32_from_be_u32; apply at_or_u8; done || width.
  - apply u16_from_be_u16; apply at_or_u8; done || width.
  - apply at_or_u8; done || width.
Qed.

Lemma frag_reassembly_passes clock : quick clock -> passes (FragTargets.frag_reassembly clock).
Proof.
  intros Hq data Hb. unfold FragTargets.frag_reassembly. cbv zeta.
  destruct (split_input data 192 Hb ltac:(lia)) as (-> & -> & H1 & H2 & _).
  destruct (split_options_body _ H2) as (body & -> & Hbody & _).
  apply check_reassembly_passes; [done| |done|done].
  pose proof (at_or_u8 data 0 0 Hb ltac:(width)) as H0.
  split; [|split; [|split]]; cbn [sc_max_fragment_surplus_len sc_identification sc_peer pl_max_reassembled_size pl_max_segments].
  - unfold u8, usize, USIZE_MAX in *. lia.
  - apply u32_from_be_u32; apply at_or_u8; done || width.
  - width.
  - width.
Qed.

Lemma socket_assemble_passes : passes FragTargets.socket_assemble.
Proof.
  intros data Hb. unfold FragTargets.socket_assemble. cbv zeta.
  destruct (split_input data 80 Hb ltac:(lia)) as (-> & -> & H1 & H2 & H3).
  destruct (assemble_options_body _ H2) as (body & -> & Hbody).
  assert (forall x y z i d, u8 x -> u8 y -> u8 z -> u8 d ->
    Ipv4Addr_wf (Build_Ipv4Addr x y z (FragTargets.at_or data i d))) as Haddr.
  { intros. unfold Ipv4Addr_wf, octets. cbn [oct0 oct1 oct2 oct3].
    rewrite !Forall_cons. split; [done|]. split; [done|]. split; [done|]. split; [by apply at_or_u8|apply Forall_nil_2]. }
  rewrite assembly_target_passes; [apply assembly_target_passes| ..]; try done; try lia;
    try (apply Haddr; width); try (apply u16_from_be_u16; apply at_or_u8; done || width).
  - unfold CommonAssemble.force_odd_user_data. case_match; [|done]. apply Forall_app. split; [done|].
    repeat constructor; width.
  - unfold CommonAssemble.force_odd_user_data. case_match; [|lia]. rewrite len_app. change (len [0xa5]) with 1. lia.
Qed.

(** ** Properties *)

(** C15. The fragmentation and assembly layers agree with their oracles on every
    input: whatever bytes the three fuzz targets get, no assertion fails, provided
    the reassembly run takes less than the reassembly timeout.  The fragments of every
    split are consecutive, within budget and count, and rebuild the tail; in any
    shuffled order they complete exactly at the last one and leave the cache empty;
    and an assembled datagram parses back to its fields, with a UDP checksum that
    verifies and an OCS that fits its length and no other. *)
Theorem frag_fuzz_targets_pass (clock : Z -> Z) :
  quick clock ->
  passes FragTargets.frag_split /\ passes (FragTargets.frag_reassembly clock) /\
  passes FragTargets.socket_assemble.
Proof. auto using frag_split_passes, frag_reassembly_passes, socket_assemble_passes. Qed.

Lemma frag_fuzz_targets_pass_witness :
  FragTargets.frag_reassembly (fun i => 0) (replicate 40 17) = Some tt.
Proof.
  destruct (frag_fuzz_targets_pass (fun i => 0)) as (_ & H & _).
  - intros i Hi. split; [reflexivity | vm_compute; reflexivity].
  - apply H. evaluate.
Defined.
