(* ===== verification/PipelineOracle.v ===== *)
(** The oracle of the receive pipeline (src/tests/common_pipeline/mod.rs) and its fuzz
    target: from the headers and the option bytes alone it predicts what
    [process_datagram] does with a datagram that reaches an empty cache.

    [None] is a failed assertion, as in [Oracles]. *)

From S2P Require Import Prelude Model Kind Parse Typed Checksum Ip Udp Surplus Ocs.
From S2P Require Import Reassembly RecvOptions Pipeline Oracles FragOracles.

Module CommonPipeline.

Definition TLV_HEADER_LEN : Z := 2.

Inductive ExpectedDisposition : Type :=
| DeliverWithoutOptions
| ZeroPayload
| Buffered
| Dropped
| ReassembledComplete
| Continue_.

(** *** Where a fragment's options end *)

Inductive FragmentOptionLimit : Type :=
| Full
| End_ (end_ : Z)
| MalformedFrag.

Definition option_end_offset (o : OptionRef) : Z := or_at o + len (or_value o).

Definition limit_body (options_bytes : list Z) (options_offset : Z) (_ : unit) (i : item) :
    option (flow unit FragmentOptionLimit) :=
  match i with
  | Err _ => Some (Return Full)
  | Ok o =>
      match or_kind o with
      | Frag =>
          let! d := Frag_decode (or_value o) in
          match d with
          | Err _ => Some (Return Full)
          | Ok frag =>
              match checked_sub (frag_start frag) options_offset with
              | None => Some (Return MalformedFrag)
              | Some end_ =>
                  if (len options_bytes <? end_) || (end_ <? option_end_offset o)
                  then Some (Return MalformedFrag) else Some (Return (End_ end_))
              end
          end
      | Other _ => if is_unsafe (or_kind o) then Some (Return Full) else Some (Continue tt)
      | Eol => Some (Return Full)
      | _ => Some (Continue tt)
      end
  end.

Definition fragment_option_limit (options_bytes : list Z) (user_data_empty : bool) (options_offset : Z) :
    option FragmentOptionLimit :=
  if negb user_data_empty then Some Full else
  let! (r, _) := for_each (limit_body options_bytes options_offset) (parse_fuel options_bytes)
                   (OptionsIter_new options_bytes) tt in
  Some match r with inl _ => Full | inr limit => limit end.

Definition minimum_known_tlv_len (option_kind : OptionKind) : option Z :=
  let b := to_byte option_kind in
  if b =? KIND_TIME then Some LENGTH_TIME
  else if b =? KIND_EXP then Some LENGTH_EXP_MIN
  else list_min (fixed_tlv_lengths option_kind).

Definition is_sub_minimum_known_option (o : OptionRef) : bool :=
  match minimum_known_tlv_len (or_kind o) with
  | None => false
  | Some min_len => len (or_value o) + TLV_HEADER_LEN <? min_len
  end.

(** *** The classification of trusted options *)

Record classify_state : Type := {
  cs_seen : list bool;
  cs_valid_frag : option FragOption;
}.

Section classify.
Context (fragment_option_context user_data_empty : bool).

(** [if valid_frag_seen.is_some() && user_data_empty { Dropped } else { DeliverWithoutOptions }]. *)
Definition rejected (s : classify_state) : ExpectedDisposition :=
  if CommonTyped.is_some (cs_valid_frag s) && user_data_empty then Dropped else DeliverWithoutOptions.

Definition classify_frag (s : classify_state) (o : OptionRef) :
    option (flow classify_state ExpectedDisposition) :=
  let raw_kind := to_byte (or_kind o) in
  if is_sub_minimum_known_option o then Some (Return (rejected s)) else
  let! seen_frag := get (cs_seen s) raw_kind in
  if seen_frag then Some (Return (rejected s)) else
  let! seen := set_at (cs_seen s) raw_kind true in
  let! d := Frag_decode (or_value o) in
  match d with
  | Ok frag => Some (Continue {| cs_seen := seen; cs_valid_frag := Some frag |})
  | Err _ => Some (Return ZeroPayload)
  end.

(** The kinds that may appear once. *)
Definition classify_known (s : classify_state) (o : OptionRef) :
    option (flow classify_state ExpectedDisposition) :=
  let raw_kind := to_byte (or_kind o) in
  if is_sub_minimum_known_option o then Some (Return (rejected s)) else
  let! slot := get (cs_seen s) raw_kind in
  let! seen := if negb slot then set_at (cs_seen s) raw_kind true else Some (cs_seen s) in
  Some (Continue {| cs_seen := seen; cs_valid_frag := cs_valid_frag s |}).

Definition classify_body (s : classify_state) (i : item) : option (flow classify_state ExpectedDisposition) :=
  match i with
  | Err _ => Some (Return (rejected s))
  | Ok o =>
      match or_kind o with
      | Eol | Nop => Some (Continue s)
      | Frag => classify_frag s o
      | Apc => if fragment_option_context then Some (Continue s) else classify_known s o
      | Mds | Mrds | Req | Res => classify_known s o
      | Other _ =>
          if is_safe (or_kind o) then
            if is_sub_minimum_known_option o then Some (Return (rejected s)) else Some (Continue s)
          else
            match cs_valid_frag s with
            | Some _ => Some (Return (if user_data_empty then Dropped else DeliverWithoutOptions))
            | None => Some (Return ZeroPayload)
            end
      end
  end.
End classify.

Definition classify_reassembly_fragment (ip : IpRepr) (udp : UdpHeader) (frag : FragOption)
    (fragment_data : list Z) (now : Z) : option ExpectedDisposition :=
  let key := {| fk_src := ip_src ip; fk_dst := ip_dst ip; fk_src_port := udp_src_port udp;
                fk_dst_port := udp_dst_port udp; fk_identification := frag_identification frag |} in
  let! (outcome, _) := ReassemblyCache_insert ReassemblyCache_new key frag fragment_data now in
  Some match outcome with
       | Incomplete => Buffered
       | Abort _ => Dropped
       | Complete _ => ReassembledComplete
       end.

(** The loop over the bytes the limit leaves, and what follows it. *)
Definition classify_limited (ip : IpRepr) (udp : UdpHeader) (options_bytes fragment_data : list Z)
    (fragment_option_context user_data_empty : bool) (now : Z) : option ExpectedDisposition :=
  let! (r, _) := for_each (classify_body fragment_option_context user_data_empty) (parse_fuel options_bytes)
                   (OptionsIter_new options_bytes)
                   {| cs_seen := replicate 256 false; cs_valid_frag := None |} in
  match r with
  | inr disposition => Some disposition
  | inl s =>
      match cs_valid_frag s with
      | Some frag =>
          if user_data_empty then classify_reassembly_fragment ip udp frag fragment_data now
          else Some DeliverWithoutOptions
      | None => Some Continue_
      end
  end.

Definition classify_trusted_options (ip : IpRepr) (udp : UdpHeader) (options_bytes : list Z)
    (user_data_empty : bool) (options_offset now : Z) : option ExpectedDisposition :=
  let! option_limit := fragment_option_limit options_bytes user_data_empty options_offset in
  match option_limit with
  | Full => classify_limited ip udp options_bytes [] false user_data_empty now
  | End_ end_ =>
      let! limited := slice options_bytes 0 end_ in
      let! fragment_data := slice options_bytes end_ (len options_bytes) in
      classify_limited ip udp limited fragment_data true user_data_empty now
  | MalformedFrag => Some Dropped
  end.

(** Outer [option]: panic; inner [option]: the source's return type. *)
Definition expected_options_disposition (datagram : list Z) (ip : IpRepr) (udp : UdpHeader)
    (user_data : list Z) (now : Z) : option (option ExpectedDisposition) :=
  match locate_surplus ip udp with
  | None => Some None
  | Some layout =>
      let! pad := get datagram (starts_at layout) in
      match check_pad pad (needs_pad layout) with
      | Err _ => Some (Some DeliverWithoutOptions)
      | Ok _ =>
          let ip_end := IpRepr_header_len ip + IpRepr_transport_payload_len ip in
          let! body := slice datagram (SurplusLayout_ocs_at layout) ip_end in
          let! check := ocs_validate body (surplus_len layout mod 65536) (udp_checksum udp) in
          match check with
          | OcsIgnoreOptions | OcsError _ => Some (Some DeliverWithoutOptions)
          | OcsValid | OcsUnused =>
              let! options_bytes := slice body LENGTH_OCS (len body) in
              let! options_offset :=
                checked_sub (SurplusLayout_ocs_at layout + LENGTH_OCS) (IpRepr_header_len ip) in
              let! d := classify_trusted_options ip udp options_bytes (is_nil user_data) options_offset now in
              Some (Some d)
          end
      end
  end.

(** *** The checks on the delivery *)

Section checks.
Context `{Crc32c}.

Definition assert_option (user_data : list Z) (o : RawOption) : option unit :=
  match ro_kind o with
  | Apc => let! d := Apc_decode (ro_value o) in assert_eq d (Ok (Apc_compute user_data)); Some tt
  | Mds => let! d := Mds_decode (ro_value o) in ensure (is_ok d); Some tt
  | Mrds => let! d := Mrds_decode (ro_value o) in ensure (is_ok d); Some tt
  | Req => let! d := Req_decode (ro_value o) in ensure (is_ok d); Some tt
  | Res => let! d := Res_decode (ro_value o) in ensure (is_ok d); Some tt
  | _ => None
  end.

Fixpoint assert_options (user_data : list Z) (options : list RawOption) : option unit :=
  match options with
  | [] => Some tt
  | o :: rest => let! _ := assert_option user_data o in assert_options user_data rest
  end.

Definition reportable (kind : OptionKind) : bool :=
  match kind with Frag | Nop | Eol => false | _ => true end.

(** A delivery with no prediction, or the prediction [Continue]. *)
Definition check_delivered (user_data : list Z) (delivery : Delivery) : option unit :=
  match delivery with
  | DeliverPayload p =>
      assert_eq (pl_data p) user_data;
      ensure (forallb (fun r => reportable (opr_kind r)) (pl_reports p));
      assert_eq (len (pl_ocs_reports p)) 1;
      assert_options user_data (pl_options p)
  | Pipeline.Buffered => Some tt
  | Pipeline.Dropped => None
  end.

Definition check_predicted (user_data : list Z) (expected : ExpectedDisposition) (delivery : Delivery) :
    option unit :=
  match expected with
  | DeliverWithoutOptions =>
      match delivery with
      | DeliverPayload p =>
          assert_eq (pl_data p) user_data;
          ensure (is_nil (pl_options p));
          ensure (pl_option_bearing p);
          ensure (is_nil (pl_reports p));
          assert_eq (len (pl_ocs_reports p)) 1; Some tt
      | _ => None
      end
  | ZeroPayload =>
      match delivery with
      | DeliverPayload p =>
          assert_eq (pl_data p) []; assert_eq (pl_options p) []; ensure (pl_option_bearing p); Some tt
      | _ => None
      end
  | Buffered => match delivery with Pipeline.Buffered => Some tt | _ => None end
  | Dropped => match delivery with Pipeline.Dropped => Some tt | _ => None end
  | ReassembledComplete => match delivery with Pipeline.Buffered => None | _ => Some tt end
  | Continue_ => check_delivered user_data delivery
  end.

(** From the UDP header on; [now] is the answer to [Instant::now]. *)
Definition check_udp (r : result Delivery RecvError) (datagram : list Z) (ip : IpRepr) (udp_at : Z)
    (udp : UdpHeader) (now : Z) : option unit :=
  if IpRepr_transport_payload_len ip <? udp_length udp then ensure (negb (is_ok r)); Some tt else
  let! user_data := slice datagram (udp_at + UDP_HEADER_LEN) (udp_at + udp_length udp) in
  let! mismatch :=
    if udp_checksum udp =? 0 then Some false else
    let! expected := UdpHeader_compute_checksum (UdpHeader_with_checksum udp 0) ip user_data in
    Some (negb (expected =? udp_checksum udp)) in
  if mismatch then ensure (negb (is_ok r)); Some tt else
  let! delivery := match r with Ok d => Some d | Err _ => None end in
  let! expected := expected_options_disposition datagram ip udp user_data now in
  match expected with
  | Some expected => check_predicted user_data expected delivery
  | None => check_delivered user_data delivery
  end.

Definition check_pipeline_invariants (now : Z) (buf : list Z) : option unit :=
  let! (r, _) := process_datagram buf ReassemblyCache_new now in
  let! parsed := IpRepr_parse buf in
  match parsed with
  | Err _ => ensure (negb (is_ok r)); Some tt
  | Ok (ip, udp_at) =>
      let ip_end := IpRepr_header_len ip + IpRepr_transport_payload_len ip in
      let! datagram := slice buf 0 ip_end in
      let! rest := slice datagram udp_at (len datagram) in
      let! udp := UdpHeader_parse rest in
      match udp with
      | Err _ => ensure (negb (is_ok r)); Some tt
      | Ok udp => check_udp r datagram ip udp_at udp now
      end
  end.
End checks.
End CommonPipeline.

(** ** The fuzz target *)

Definition process_datagram_target `{Crc32c} (now : Z) (data : list Z) : option unit :=
  CommonPipeline.check_pipeline_invariants now data.
