(* ===== verification/PipelineOracleCorrect.v ===== *)
(** The receive pipeline's oracle passes on every input: for every byte string and every
    time, [process_datagram] on an empty cache does what the independent classification
    of src/tests/common_pipeline/mod.rs predicts.

    The proof runs the two option loops side by side ([sim]); where the oracle returns a
    disposition, [predicted] says what the pipeline's option result must look like, and
    [dispatch] turns that into the delivery the oracle asserts. *)

From S2P Require Import Prelude Model Kind Parse Typed Checksum Ip Udp Surplus Ocs.
From S2P Require Import Reassembly RecvOptions Pipeline Oracles FragOracles PipelineOracle OraclesCorrect.
Import CommonPipeline.

(** ** The option loops side by side *)

(** The result of the option loop, as [parse_options] reports it. *)
Definition concluded (x : parse_state + result ParsedOptions ParseError) : result ParsedOptions ParseError :=
  match x with
  | inr r => r
  | inl s => Ok {| po_options := ps_options s; po_reports := ps_reports s; po_frag := ps_frag s;
                   po_unsupported_unsafe_seen := ps_unsupported_unsafe_seen s; po_fragment_failed := false |}
  end.

Section simulation.
Context `{Crc32c} (user_data : list Z).

(** What a disposition the oracle returns from its loop says about the option result. *)
Definition predicted (d : ExpectedDisposition) (r : result ParsedOptions ParseError) : Prop :=
  match d, r with
  | DeliverWithoutOptions, Err _ => True
  | DeliverWithoutOptions, Ok po => is_Some (po_frag po) /\ is_nil user_data = false
  | CommonPipeline.Dropped, Ok po =>
      is_Some (po_frag po) /\ is_nil user_data = true /\
      po_fragment_failed po || po_unsupported_unsafe_seen po = true
  | ZeroPayload, Ok po =>
      po_frag po = None /\ po_fragment_failed po = false /\ po_unsupported_unsafe_seen po = true
  | _, _ => False
  end.

Record sim (s : parse_state) (t : classify_state) : Prop := {
  sim_inv : parse_inv user_data s;
  sim_len : len (cs_seen t) = 256;
  sim_slot : get (cs_seen t) KIND_FRAG = get (ps_seen s) KIND_FRAG;
  sim_free : get (ps_seen s) KIND_FRAG = Some false -> ps_frag s = None;
  sim_frag : cs_valid_frag t = ps_frag s;
  sim_unsafe : ps_unsupported_unsafe_seen s = false;
  sim_reports : Forall (fun r => reportable (opr_kind r) = true) (ps_reports s);
}.

Definition step_agrees (f : flow parse_state (result ParsedOptions ParseError))
    (g : flow classify_state ExpectedDisposition) : Prop :=
  match g with
  | Continue t => exists s, f = Continue s /\ sim s t
  | Return d =>
      match f with
      | Return r => predicted d r
      | Break s => predicted d (concluded (inl s))
      | Continue _ => False
      end
  | Break _ => False
  end.

(** The code's early return and the oracle's [rejected]. *)
Lemma rejected_agrees s t e :
  sim s t ->
  predicted (rejected (is_nil user_data) t)
    match ps_frag s with
    | Some _ => if is_nil user_data then Ok (parsed_drop (ps_frag s) false true) else Err e
    | None => Err e
    end.
Proof.
  intros Hs. unfold rejected. rewrite (sim_frag _ _ Hs). destruct (ps_frag s); [|done]. cbn.
  destruct (is_nil user_data) eqn:E; cbn; [by eauto|done].
Qed.

Lemma sub_minimum_agrees o :
  is_sub_minimum_known_option o = negb (is_ok (reject_sub_minimum o)).
Proof.
  unfold is_sub_minimum_known_option, reject_sub_minimum, RecvOptions.minimum_known_tlv_len.
  fold (CommonPipeline.minimum_known_tlv_len (or_kind o)).
  destruct (CommonPipeline.minimum_known_tlv_len _) as [n|]; [|done].
  change Typed.TLV_HEADER_LEN with 2. change TLV_HEADER_LEN with 2. by destruct (_ <? _).
Qed.

(** Unassigned and UNSAFE kinds have no known minimum. *)
Lemma unsafe_no_minimum o b : or_kind o = Other b -> from_byte (to_byte (or_kind o)) = or_kind o ->
  is_safe (or_kind o) = false -> reject_sub_minimum o = Ok tt.
Proof.
  intros Hk Hf Hs. unfold reject_sub_minimum, RecvOptions.minimum_known_tlv_len, fixed_tlv_lengths, is_safe in *.
  rewrite Hk in *. cbn [to_byte] in *. unfold_consts. apply Z.ltb_ge in Hs. cbv zeta. bool_cases; try lia; done.
Qed.

Lemma single_byte_no_minimum o : or_kind o = Eol \/ or_kind o = Nop -> reject_sub_minimum o = Ok tt.
Proof.
  intros Hk. unfold reject_sub_minimum, RecvOptions.minimum_known_tlv_len, fixed_tlv_lengths.
  by destruct Hk as [-> | ->].
Qed.

(** *** One option *)

(** A kind that may appear once leaves the FRAG slot alone. *)
Lemma seen_slot t k :
  len (cs_seen t) = 256 -> u8 k -> k <> KIND_FRAG ->
  exists slot seen, get (cs_seen t) k = Some slot /\
    (if negb slot then set_at (cs_seen t) k true else Some (cs_seen t)) = Some seen /\
    len seen = 256 /\ get seen KIND_FRAG = get (cs_seen t) KIND_FRAG.
Proof.
  intros Hl Hk Hne. unfold u8 in Hk. destruct (get_is_Some (cs_seen t) k) as [b Hb]; [lia|].
  exists b. rewrite Hb. destruct b; cbn [negb]; [by eexists|].
  rewrite set_at_insert by lia. eexists. split; [done|]. split; [done|].
  split; [unfold len in *; by rewrite length_insert|]. rewrite get_insert by (unfold_consts; lia).
  by destruct (Z.eqb_spec k KIND_FRAG).
Qed.

Lemma once_agrees s t o status :
  sim s t -> OptionKind_wf (or_kind o) -> reportable (or_kind o) = true -> to_byte (or_kind o) <> KIND_FRAG ->
  is_Some status -> (status = Some Success -> delivered_ok user_data (RawOption_from o)) ->
  reject_sub_minimum o = Ok tt ->
  exists f g, parse_once s o status = Some f /\
    classify_known (is_nil user_data) t o = Some g /\ step_agrees f g.
Proof.
  intros Hs Hk Hr Hb Hst Hd Hm. unfold classify_known. rewrite sub_minimum_agrees, Hm. cbn [is_ok negb].
  destruct (parse_once_ok user_data s o status (sim_inv _ _ Hs) Hk Hst Hd) as (f & Hf & Hok). exists f.
  destruct (seen_slot t (to_byte (or_kind o))) as (slot & seen & -> & -> & Hl & Hg); [apply Hs|done..|].
  eexists. split; [done|]. split; [done|]. unfold parse_once in Hf.
  destruct (mark_seen_once_spec (ps_seen s) (to_byte (or_kind o)) (pi_seen _ _ (sim_inv _ _ Hs)) Hk)
    as (first & seen' & Hmk & _ & _ & Hg'). rewrite Hmk in Hf. destruct Hst as [st ->].
  assert (exists s', f = Continue s' /\ ps_frag s' = ps_frag s /\ ps_seen s' = seen' /\
    ps_unsupported_unsafe_seen s' = ps_unsupported_unsafe_seen s /\
    exists status', ps_reports s' = ps_reports s ++ [report (or_kind o) status'])
    as (s' & -> & Hf1 & Hf2 & Hf3 & status' & Hf4)
    by (destruct first; [destruct st|]; simplify_eq/=; eauto 10).
  exists s'. split; [done|]. destruct Hs. assert (get seen' KIND_FRAG = get (ps_seen s) KIND_FRAG) as Hg''.
  { rewrite Hg' by (unfold_consts; lia). by destruct (Z.eqb_spec (to_byte (or_kind o)) KIND_FRAG). }
  split; cbn [cs_seen cs_valid_frag]; [done|done|congruence|rewrite Hf1, Hf2, Hg''; done|congruence|congruence|].
  rewrite Hf4. apply Forall_app. split; [done|]. by apply Forall_singleton.
Qed.

Lemma frag_agrees s t o :
  sim s t -> or_kind o = Frag -> bytes (or_value o) -> reject_sub_minimum o = Ok tt ->
  exists f g, parse_frag user_data s o = Some f /\
    classify_frag (is_nil user_data) t o = Some g /\ step_agrees f g.
Proof.
  intros Hs Hk Hv Hm. unfold classify_frag. rewrite sub_minimum_agrees, Hm. cbn [is_ok negb].
  destruct (parse_frag_ok user_data s o (sim_inv _ _ Hs)) as (f & Hf & Hok); [by rewrite Hk|done|].
  exists f. rewrite Hf. unfold parse_frag in Hf. rewrite Hk in *. cbn [to_byte] in *. rewrite (sim_slot _ _ Hs).
  destruct (get (ps_seen s) KIND_FRAG) as [slot|] eqn:Eg; [|done]. destruct slot.
  { eexists. do 2 (split; [done|]). pose proof (rejected_agrees s t DuplicateFrag Hs) as Hr.
    destruct (ps_frag s); [destruct (is_nil user_data)|]; by simplify_eq. }
  pose proof (sim_len _ _ Hs) as Hl. pose proof (pi_seen _ _ (sim_inv _ _ Hs)) as Hl'.
  rewrite set_at_insert in Hf by (unfold_consts; lia). rewrite set_at_insert by (unfold_consts; lia).
  destruct (Frag_decode (or_value o)) as [[frag|]|]; [..|done]; simplify_eq; eexists; do 2 (split; [done|]).
  - eexists. split; [done|]. destruct Hs. split; try done;
      cbn [cs_seen ps_seen ps_set_frag ps_set_seen ps_frag].
    + unfold len in *. by rewrite length_insert.
    + by rewrite !get_insert by (unfold_consts; lia).
    + by rewrite get_insert, Z.eqb_refl by (unfold_consts; lia).
  - split; [|done]. by apply (sim_free _ _ Hs).
Qed.

(** A report added to the state. *)
Lemma report_sim s t k st :
  sim s t -> OptionKind_wf k -> reportable k = true -> st <> Success -> sim (ps_report s k st) t.
Proof.
  intros Hs Hk Hr Hst. pose proof (report_inv user_data s k st (sim_inv _ _ Hs) Hk Hst). destruct Hs.
  split; try done. cbn. apply Forall_app. split; [done|]. by apply Forall_singleton.
Qed.

(** An option below its minimum. *)
Lemma short_agrees ctx s t o e :
  sim s t -> reject_sub_minimum o = Err e -> (ctx = true -> or_kind o <> Apc) ->
  (forall b, or_kind o = Other b -> is_safe (or_kind o) = true) ->
  classify_body ctx (is_nil user_data) t (Ok o) = Some (Return (rejected (is_nil user_data) t)).
Proof.
  intros Hs He Hc Ho. unfold classify_body, classify_frag, classify_known. rewrite sub_minimum_agrees, He.
  cbn [is_ok negb]. destruct (or_kind o) eqn:Ek; try done.
  - rewrite single_byte_no_minimum in He by auto. done.
  - rewrite single_byte_no_minimum in He by auto. done.
  - by destruct ctx; [destruct Hc|].
  - by rewrite (Ho _ eq_refl).
Qed.

(** A kind whose first occurrence is decoded. *)
Ltac decoded_kind total Hm Ek len_ok :=
  apply once_agrees; rewrite ?Ek; try done;
    [ apply decode_status_total, total
    | intros [? ?]%decode_status_Success; split; [done|]; cbn; rewrite Ek; by eapply len_ok | by apply Hm ].

Lemma kind_agrees ctx n s t o :
  sim s t -> item_wf 0 n (Ok o) ->
  (ctx && bool_decide (or_kind o = Apc) = false -> reject_sub_minimum o = Ok tt) ->
  exists f g, parse_kind ctx user_data s o = Some f /\
    classify_body ctx (is_nil user_data) t (Ok o) = Some g /\ step_agrees f g.
Proof.
  intros Hs (Hk & Hf & Hv & _) Hm. unfold parse_kind, classify_body.
  destruct (or_kind o) eqn:Ek; rewrite ?bool_decide_eq_false_2, ?andb_false_r in Hm by done.
  - do 2 eexists. do 2 (split; [done|]). by eexists.
  - do 2 eexists. do 2 (split; [done|]). by eexists.
  - destruct ctx.
    { do 2 eexists. do 2 (split; [done|]). eexists. split; [done|]. by apply report_sim. }
    apply once_agrees; rewrite ?Ek; try done; [apply accepts_apc_total| |by auto]. intros Ha. split; [done|]. cbn.
    rewrite Ek. by apply accepts_apc_Success.
  - by apply frag_agrees; [..|apply Hm].
  - decoded_kind Mds_decode_total Hm Ek Mds_decode_Ok.
  - decoded_kind Mrds_decode_total Hm Ek Mrds_decode_Ok.
  - decoded_kind Req_decode_total Hm Ek Req_decode_Ok.
  - decoded_kind Res_decode_total Hm Ek Res_decode_Ok.
  - destruct (is_safe (Other byte)).
    + rewrite sub_minimum_agrees, Hm by done. do 2 eexists. do 2 (split; [done|]). eexists. split; [done|].
      by apply report_sim.
    + rewrite (sim_frag _ _ Hs). destruct (ps_frag s) eqn:Ef; do 2 eexists; do 2 (split; [done|]); cbn;
        rewrite Ef; [|done]. destruct (is_nil user_data) eqn:En; cbn; rewrite ?En; eauto.
Qed.

Lemma body_agrees ctx n s t i :
  sim s t -> item_wf 0 n i ->
  exists f g, parse_body ctx user_data s i = Some f /\
    classify_body ctx (is_nil user_data) t i = Some g /\ step_agrees f g.
Proof.
  intros Hs Hi. unfold parse_body. destruct i as [o|e].
  2:{ do 2 eexists. do 2 (split; [done|]). cbn. rewrite (sim_unsafe _ _ Hs). by apply rejected_agrees. }
  destruct (ctx && bool_decide (or_kind o = Apc)) eqn:Ec; cbn [negb].
  { apply kind_agrees with n; [done..|]. by rewrite Ec. }
  destruct (reject_sub_minimum o) as [[]|e] eqn:Em; [by apply kind_agrees with n|].
  pose proof (rejected_agrees s t e Hs) as Hr. rewrite (short_agrees ctx s t o e Hs Em).
  - destruct (ps_frag s); [destruct (is_nil user_data)|]; do 2 eexists; by do 2 (split; [done|]).
  - intros -> Hk. by rewrite bool_decide_eq_true_2 in Ec.
  - intros b Hb. destruct (is_safe (or_kind o)) eqn:Es; [done|]. destruct Hi as (_ & Hf & _).
    by rewrite (unsafe_no_minimum o b Hb Hf Es) in Em.
Qed.

(** *** The whole loop *)

Definition loop_agrees (x : parse_state + result ParsedOptions ParseError)
    (y : classify_state + ExpectedDisposition) : Prop :=
  match y with
  | inl t => exists s, x = inl s /\ sim s t
  | inr d => predicted d (concluded x)
  end.

Lemma items_agree ctx n items s t :
  sim s t -> Forall (item_wf 0 n) items ->
  exists x y, for_items (parse_body ctx user_data) items s = Some x /\
    for_items (classify_body ctx (is_nil user_data)) items t = Some y /\ loop_agrees x y.
Proof.
  intros Hs Hi. revert s t Hs. induction Hi as [|i items Hi _ IH]; intros s t Hs.
  { do 2 eexists. do 2 (split; [done|]). by eexists. }
  destruct (body_agrees ctx n s t i Hs Hi) as (f & g & Hf & Hg & Ha). cbn [for_items]. rewrite Hf, Hg.
  destruct g as [t'|t'|d]; [|done|].
  - destruct Ha as (s' & -> & Hs'). by apply IH.
  - destruct f as [s'|s'|r]; [done|..]; do 2 eexists; by do 2 (split; [done|]).
Qed.

Definition classify_init : classify_state := {| cs_seen := replicate 256 false; cs_valid_frag := None |}.

Lemma sim_init : sim parse_state_init classify_init.
Proof. split; try done. apply parse_inv_init. Qed.
End simulation.

(** ** Where the options of a fragment end *)

(** The pipeline's limit without its FRAG value. *)
Definition limit_of (l : RecvOptions.FragmentOptionLimit) : FragmentOptionLimit :=
  match l with
  | RecvOptions.Full => Full
  | RecvOptions.End_ e => End_ e
  | RecvOptions.MalformedFrag _ => MalformedFrag
  end.

Definition limit_flow (f : flow unit RecvOptions.FragmentOptionLimit) : flow unit FragmentOptionLimit :=
  match f with Continue s => Continue s | Break s => Break s | Return l => Return (limit_of l) end.

Lemma limit_body_agrees bs off u i :
  limit_body bs off u i = limit_flow <$> RecvOptions.limit_body bs off u i.
Proof.
  destruct i as [o|]; [|done]. unfold limit_body, RecvOptions.limit_body.
  change (RecvOptions.option_end_offset o) with (option_end_offset o).
  destruct (or_kind o); try done; [|by destruct (is_unsafe _)].
  destruct (Frag_decode _) as [[f|]|]; try done. destruct (checked_sub _ _); [|done]. by destruct (_ || _).
Qed.

Lemma limit_loop_agrees bs off fuel it u :
  for_each (limit_body bs off) fuel it u =
  (fun '(x, it) => (match x with inl u => inl u | inr l => inr (limit_of l) end, it))
    <$> for_each (RecvOptions.limit_body bs off) fuel it u.
Proof.
  revert it u. induction fuel as [|fuel IH]; intros it u; [done|]. cbn [for_each].
  destruct (OptionsIter_next it) as [[[i|] it']|]; [|done..]. rewrite limit_body_agrees.
  destruct (RecvOptions.limit_body bs off u i) as [[s|s|l]|]; cbn; [|done..]. apply IH.
Qed.

Lemma limit_agrees bs e off :
  fragment_option_limit bs e off = limit_of <$> RecvOptions.fragment_option_limit bs e off.
Proof.
  unfold fragment_option_limit, RecvOptions.fragment_option_limit. destruct e; [|done]. cbn [negb].
  rewrite limit_loop_agrees. by destruct (for_each _ _ _ _) as [[[|] ?]|].
Qed.

(** *** The FRAG option behind a limit *)

(** A FRAG option that decodes, after items that do not end the search. *)
Definition limit_found (bs : list Z) (off : Z) (items pre : list item) (o : OptionRef) (post : list item)
    (frag : FragOption) (e : Z) : Prop :=
  items = pre ++ Ok o :: post /\
  Forall (fun i => RecvOptions.limit_body bs off tt i = Some (Continue tt)) pre /\
  or_kind o = Frag /\ Frag_decode (or_value o) = Some (Ok frag) /\ e = frag_start frag - off /\
  or_at o + len (or_value o) <= e <= len bs.

Lemma limit_body_End bs off i e :
  RecvOptions.limit_body bs off tt i = Some (Return (RecvOptions.End_ e)) ->
  exists o frag, i = Ok o /\ or_kind o = Frag /\ Frag_decode (or_value o) = Some (Ok frag) /\
    e = frag_start frag - off /\ or_at o + len (or_value o) <= e <= len bs.
Proof.
  destruct i as [o|]; [|done]. unfold RecvOptions.limit_body, RecvOptions.option_end_offset.
  destruct (or_kind o) eqn:Ek; try done; [|by destruct (is_unsafe _)].
  destruct (Frag_decode _) as [[f|]|] eqn:Ed; try done.
  destruct (checked_sub _ _) as [x|] eqn:Es; [|done]. apply checked_sub_Some in Es as [-> _].
  destruct (_ || _) eqn:Eo; [done|]. apply orb_false_elim in Eo as [?%Z.ltb_ge ?%Z.ltb_ge].
  intros [= <-]. exists o, f. by do 4 (split; [done|]).
Qed.

Lemma limit_items_End bs off items e :
  for_items (RecvOptions.limit_body bs off) items tt = Some (inr (RecvOptions.End_ e)) ->
  exists pre o post frag, limit_found bs off items pre o post frag e.
Proof.
  induction items as [|i items IH]; [done|]. cbn [for_items].
  destruct (RecvOptions.limit_body bs off tt i) as [[[]|[]|l]|] eqn:Eb; try done.
  - intros (pre & o & post & frag & -> & Hp & Hr)%IH. exists (i :: pre), o, post, frag.
    split; [done|]. split; [by constructor|done].
  - intros [= ->]. destruct (limit_body_End _ _ _ _ Eb) as (o & frag & -> & Hr).
    exists [], o, items, frag.
    split; [done|]. by split; [constructor|].
Qed.

(** *** Truncating the option bytes behind an option *)

Lemma tlv_head_truncate off bs i rest m :
  tlv_head off bs i (Some rest) -> len bs - len rest <= m <= len bs ->
  tlv_head off (sub bs 0 m) i (Some (sub rest 0 (m - (len bs - len rest)))).
Proof.
  intros Hh Hm. assert (exists fr, bs = fr ++ rest /\ forall r, tlv_head off (fr ++ r) i (Some r)) as (fr & -> & Hr).
  { inversion Hh; subst.
    - exists [KIND_NOP]. split; [done|]. intros. constructor.
    - exists (k :: len v + 2 :: v). split; [done|]. intros. by constructor.
    - exists (k :: KIND_EXTENDED_LENGTH_MARKER :: u16_to_be (len v + 4) ++ v).
      split; [done|]. intros. by apply (head_ext off k v r). }
  rewrite len_app in *. pose proof (len_nonneg fr). pose proof (len_nonneg rest).
  assert (sub (fr ++ rest) 0 m = fr ++ sub rest 0 (m - len fr)) as ->.
  { rewrite (sub_split _ 0 (len fr) m), sub_prefix by (done || lia). f_equal.
    rewrite <- (sub_app_shift fr rest 0 (m - len fr)) by lia. f_equal; lia. }
  replace (m - (len fr + len rest - len rest)) with (m - len fr) by lia. apply Hr.
Qed.

(** An option with a value ends where the option after it begins. *)
Lemma tlv_head_end off bs o rest :
  tlv_head off bs (Ok o) (Some rest) -> 2 <= to_byte (or_kind o) ->
  or_at o + len (or_value o) = off + (len bs - len rest).
Proof.
  intros Hh Hk. inversion Hh; subst; cbn [option_ref or_at or_value or_kind] in *.
  - by rewrite to_byte_from_byte in Hk.
  - len_lia.
  - rewrite !len_cons, !len_app. change (len (u16_to_be _)) with 2. lia.
Qed.

Lemma tlv_stream_cons_inv off bs i rest items :
  tlv_head off bs i (Some rest) -> tlv_stream off bs items ->
  exists items', items = i :: items' /\ tlv_stream (off + (len bs - len rest)) rest items'.
Proof.
  intros Hh Hs. inversion Hs as [|? ? ? Hh'|? ? ? ? ? Hh' Hr]; subst; [inversion Hh|..].
  - by destruct (tlv_head_det _ _ _ _ _ _ Hh Hh').
  - destruct (tlv_head_det _ _ _ _ _ _ Hh Hh') as [-> [= ->]]. by eexists.
Qed.

Lemma tlv_stream_truncate off bs items items' pre o post m :
  tlv_stream off bs items -> bytes bs -> items = pre ++ Ok o :: post -> 2 <= to_byte (or_kind o) ->
  or_at o + len (or_value o) - off <= m <= len bs ->
  tlv_stream off (sub bs 0 m) items' -> exists post', items' = pre ++ Ok o :: post'.
Proof.
  intros Hs. revert items' pre m. induction Hs as [off|off bs i Hh|off bs i rest items Hh Hs IH];
    intros items' pre m Hb He Hk Hm Hs'; [by destruct pre|..].
  - destruct pre as [|? [|]]; simplify_eq/=. inversion Hh; subst. done.
  - pose proof (tlv_head_rest _ _ _ _ Hh Hb) as Hbr. pose proof (tlv_head_shrinks _ _ _ _ Hh) as Hsh.
    pose proof (len_nonneg rest) as Hr0.
    assert (len bs - len rest <= m) as Hm'.
    { destruct pre as [|x pre]; simplify_eq/=; [rewrite (tlv_head_end _ _ _ _ Hh Hk) in Hm; lia|].
      apply tlv_stream_wf in Hs; [|done]. apply Forall_app in Hs as [_ [Ho _]%Forall_cons].
      destruct Ho as (_ & _ & _ & Hat). pose proof (Hat Hk). pose proof (len_nonneg (or_value o)). lia. }
    destruct (tlv_stream_cons_inv _ _ _ _ _ (tlv_head_truncate _ _ _ _ m Hh ltac:(lia)) Hs') as (its & -> & Hs2).
    destruct pre as [|x pre]; simplify_eq/=; [by eexists|].
    rewrite !len_sub in Hs2 by lia.
    destruct (IH its pre (m - (len bs - len rest))) as [post' ->]; [done..|lia| |by eexists].
    by replace (off + (m - 0 - (m - (len bs - len rest) - 0))) with (off + (len bs - len rest)) in Hs2 by lia.
Qed.

(** *** The FRAG value the oracle's loop ends with *)

Definition is_frag (i : item) : Prop := match i with Ok o => or_kind o = Frag | Err _ => False end.

Lemma known_continue e t o t' :
  to_byte (or_kind o) <> KIND_FRAG -> classify_known e t o = Some (Continue t') ->
  cs_valid_frag t' = cs_valid_frag t /\ get (cs_seen t') KIND_FRAG = get (cs_seen t) KIND_FRAG.
Proof.
  intros Hk. unfold classify_known. destruct (is_sub_minimum_known_option o); [done|].
  destruct (get (cs_seen t) (to_byte (or_kind o))) as [slot|] eqn:Eg; [|done]. apply get_Some_lt in Eg as [H0 Hl].
  destruct slot; cbn [negb]; [by intros [= <-]|]. rewrite set_at_insert by lia. intros [= <-].
  cbn [cs_seen cs_valid_frag]. rewrite get_insert by (unfold_consts; lia). by destruct (Z.eqb_spec (to_byte (or_kind o)) KIND_FRAG).
Qed.

(** A step that goes on either records the first FRAG option or changes nothing of it. *)
Lemma classify_continue ctx e t i t' :
  classify_body ctx e t i = Some (Continue t') ->
  (exists o frag, i = Ok o /\ or_kind o = Frag /\ Frag_decode (or_value o) = Some (Ok frag) /\
     get (cs_seen t) KIND_FRAG = Some false /\
     cs_valid_frag t' = Some frag /\ get (cs_seen t') KIND_FRAG = Some true) \/
  (~ is_frag i /\ cs_valid_frag t' = cs_valid_frag t /\
   get (cs_seen t') KIND_FRAG = get (cs_seen t) KIND_FRAG).
Proof.
  destruct i as [o|]; [|done]. unfold classify_body, is_frag.
  destruct (or_kind o) eqn:Ek; try (intros Hc; right; split; [done|];
    first [by simplify_eq | apply known_continue in Hc; [done|by rewrite Ek]]).
  - destruct ctx; intros Hc; right; (split; [done|]); [by simplify_eq|].
    apply known_continue in Hc; [done|by rewrite Ek].
  - unfold classify_frag. rewrite Ek. destruct (is_sub_minimum_known_option o); [done|]. cbn [to_byte].
    destruct (get (cs_seen t) KIND_FRAG) as [[]|] eqn:Eg; [done| |done]. apply get_Some_lt in Eg as Hl.
    rewrite set_at_insert by lia. destruct (Frag_decode _) as [[frag|]|] eqn:Ed; [|done..].
    intros [= <-]. left. exists o, frag. do 5 (split; [done|]). cbn [cs_seen].
    by rewrite get_insert, Z.eqb_refl by lia.
  - intros Hc. right. split; [done|]. destruct (is_safe _); [|by destruct (cs_valid_frag t)].
    destruct (is_sub_minimum_known_option o); by simplify_eq.
Qed.

Lemma classify_no_break ctx e t i t' : classify_body ctx e t i <> Some (Break t').
Proof.
  destruct i as [o|]; [|done]. unfold classify_body, classify_frag, classify_known.
  destruct (or_kind o), ctx; try done; repeat case_match; done.
Qed.

Ltac no_break := exfalso; eapply classify_no_break; eassumption.

Lemma classify_kept ctx e items t t' frag :
  get (cs_seen t) KIND_FRAG = Some true -> cs_valid_frag t = Some frag ->
  for_items (classify_body ctx e) items t = Some (inl t') -> cs_valid_frag t' = Some frag.
Proof.
  revert t. induction items as [|i items IH]; intros t Hs Hf; cbn [for_items]; [by intros [= <-]|].
  destruct (classify_body ctx e t i) as [[t1|t1|d]|] eqn:Eb; [|no_break|done..]. intros Hr.
  destruct (classify_continue _ _ _ _ _ Eb) as [(? & ? & _ & _ & _ & ? & _)|(_ & Hf' & Hs')]; [congruence|].
  apply (IH t1); congruence.
Qed.

Lemma limit_continue_not_frag bs off i :
  RecvOptions.limit_body bs off tt i = Some (Continue tt) -> ~ is_frag i.
Proof.
  destruct i as [o|]; [|done]. unfold RecvOptions.limit_body, is_frag. intros Hl Hk. rewrite Hk in Hl.
  destruct (Frag_decode _) as [[f|]|]; try done. destruct (checked_sub _ _); [|done]. by destruct (_ || _).
Qed.

(** Behind a limit, the loop can only end with the FRAG value the limit came from. *)
Lemma classify_limited_frag bs off ctx e pre o post frag t t' :
  Forall (fun i => RecvOptions.limit_body bs off tt i = Some (Continue tt)) pre ->
  or_kind o = Frag -> Frag_decode (or_value o) = Some (Ok frag) ->
  for_items (classify_body ctx e) (pre ++ Ok o :: post) t = Some (inl t') -> cs_valid_frag t' = Some frag.
Proof.
  intros Hp Hk Hd. revert t. induction Hp as [|i pre Hi _ IH]; intros t; cbn [app for_items].
  - destruct (classify_body ctx e t (Ok o)) as [[t1|t1|d]|] eqn:Eb; [|no_break|done..].
    destruct (classify_continue _ _ _ _ _ Eb) as [(o' & f & [= <-] & _ & Hd' & _ & Hf & Hs)|(Hn & _)]; [|done].
    rewrite Hd in Hd'. simplify_eq. by apply classify_kept.
  - destruct (classify_body ctx e t i) as [[t1|t1|d]|] eqn:Eb; [|no_break|done..]. apply IH.
Qed.

(** Where the search for a limit gives up, the loop ends too, or an EOL was read. *)
Lemma full_step bs off ctx e t i t' f :
  RecvOptions.limit_body bs off tt i = Some f -> f = Continue tt \/ f = Return RecvOptions.Full ->
  classify_body ctx e t i = Some (Continue t') ->
  cs_valid_frag t' = cs_valid_frag t /\ (f = Continue tt \/ exists o, i = Ok o /\ or_kind o = Eol).
Proof.
  intros Hl Hf Hc. destruct (classify_continue _ _ _ _ _ Hc) as [(o & frag & -> & Hk & Hd & _)|(Hn & Hv & _)].
  - exfalso. unfold RecvOptions.limit_body in Hl. rewrite Hk, Hd in Hl.
    destruct (checked_sub _ _); [destruct (_ || _)|]; destruct Hf; simplify_eq.
  - split; [done|]. destruct i as [o|]; [|done]. unfold RecvOptions.limit_body, classify_body, is_unsafe in *.
    destruct (or_kind o) eqn:Ek; try (left; by simplify_eq); [by eauto|].
    revert Hl Hc. destruct (is_safe _); cbn [negb]; intros Hl Hc; [by left; simplify_eq|by destruct (cs_valid_frag t)].
Qed.

Lemma limit_no_break bs off i : RecvOptions.limit_body bs off tt i <> Some (Break tt).
Proof.
  destruct i as [o|]; [|done]. unfold RecvOptions.limit_body. destruct (or_kind o); try done; repeat case_match; done.
Qed.

Lemma tlv_head_not_eol off bs o rest : tlv_head off bs (Ok o) (Some rest) -> or_kind o <> Eol.
Proof.
  intros Hh He. apply (f_equal to_byte) in He.
  inversion Hh; subst; cbn [or_kind option_ref] in He; rewrite to_byte_from_byte in He; done.
Qed.

(** With no limit, the loop ends without a FRAG value. *)
Lemma classify_full_frag bs0 o0 ctx off bs items t t' x :
  tlv_stream off bs items -> for_items (RecvOptions.limit_body bs0 o0) items tt = Some x ->
  x = inl tt \/ x = inr RecvOptions.Full ->
  for_items (classify_body ctx true) items t = Some (inl t') -> cs_valid_frag t' = cs_valid_frag t.
Proof.
  intros Hs. revert t. induction Hs as [off|off bs i Hh|off bs i rest items Hh Hs IH]; intros t Hl Hx Hc;
    [by simplify_eq/=|..]; cbn [for_items] in *;
    destruct (classify_body ctx true t i) as [[t1|t1|d]|] eqn:Eb; try done; try no_break;
    destruct (RecvOptions.limit_body bs0 o0 tt i) as [f|] eqn:El; try done;
    (assert (f = Continue tt \/ f = Return RecvOptions.Full) as Hf
      by (destruct f as [[]|[]|l]; [auto|by apply limit_no_break in El|destruct Hx; naive_solver]));
    destruct (full_step _ _ _ _ _ _ _ _ El Hf Eb) as [Hv Hf']; [by simplify_eq|].
  rewrite <- Hv. destruct Hf' as [-> |(o & -> & Ho)]; [by eapply IH|]. by apply tlv_head_not_eol in Hh.
Qed.

(** The search for the limit, over the items of the buffer. *)
Lemma limit_items bs off items l :
  bytes bs -> tlv_stream 0 bs items -> RecvOptions.fragment_option_limit bs true off = Some l ->
  exists x, for_items (RecvOptions.limit_body bs off) items tt = Some x /\
    l = match x with inl _ => RecvOptions.Full | inr l => l end.
Proof.
  intros Hb Hs. unfold RecvOptions.fragment_option_limit. cbn [negb].
  destruct (drain_all_stream bs items Hb Hs) as [it Hd].
  rewrite <- (for_each_drain (RecvOptions.limit_body bs off) _ _ _ _ tt Hd).
  destruct (for_each _ _ _ _) as [[x it']|]; [|done]. intros [= <-]. by exists x.
Qed.

Lemma limit_full_no_frag bs off items ctx t :
  bytes bs -> tlv_stream 0 bs items -> RecvOptions.fragment_option_limit bs true off = Some RecvOptions.Full ->
  for_items (classify_body ctx true) items classify_init = Some (inl t) -> cs_valid_frag t = None.
Proof.
  intros Hb Hs Hl Hc. destruct (limit_items _ _ _ _ Hb Hs Hl) as (x & Hx & Hf).
  eapply (classify_full_frag bs off ctx 0 bs items classify_init t x); [done..| |done].
  destruct x as [[]|l]; subst; auto.
Qed.

Lemma limit_end_frag bs off items' ctx e t frag :
  bytes bs -> 0 <= e <= len bs -> RecvOptions.fragment_option_limit bs true off = Some (RecvOptions.End_ e) ->
  tlv_stream 0 (sub bs 0 e) items' ->
  for_items (classify_body ctx true) items' classify_init = Some (inl t) -> cs_valid_frag t = Some frag ->
  e = frag_start frag - off.
Proof.
  intros Hb He Hl Hs' Hc Hf. destruct (drain_all_spec bs Hb) as (items & it & _ & Hs).
  destruct (limit_items _ _ _ _ Hb Hs Hl) as (x & Hx & Hx'). destruct x as [|l]; [done|]. subst l.
  apply limit_items_End in Hx as (pre & o & post & frag' & Hi & Hp & Hk & Hd & -> & Hm).
  destruct (tlv_stream_truncate 0 bs items items' pre o post (frag_start frag' - off)) as [post' ->];
    [done..|by rewrite Hk|lia|done|].
  rewrite (classify_limited_frag _ _ _ _ _ _ _ _ _ _ Hp Hk Hd Hc) in Hf. congruence.
Qed.

(** ** The verdict on trusted options *)

Section verdict.
Context `{Crc32c} (user_data : list Z) (ip : IpRepr) (udp : UdpHeader) (now : Z).

(** The disposition [d] and the result [r] of the same option bytes [bs] at offset [off]. *)
Definition verdict (bs : list Z) (off : Z) (d : ExpectedDisposition)
    (r : result ParsedOptions ParseError) : Prop :=
  predicted user_data d r \/
  exists po, r = Ok po /\ po_unsupported_unsafe_seen po = false /\ po_fragment_failed po = false /\
    match po_frag po with
    | None => d = Continue_ /\ Forall (fun r => reportable (opr_kind r) = true) (po_reports po)
    | Some frag =>
        is_nil user_data = true /\ off <= frag_start frag <= off + len bs /\
        classify_reassembly_fragment ip udp frag (sub bs (frag_start frag - off) (len bs)) now = Some d
    end.

Lemma reassembly_total frag data :
  Frag_wf frag -> bytes data -> is_Some (classify_reassembly_fragment ip udp frag data now).
Proof.
  intros Hf Hd. unfold classify_reassembly_fragment, ReassemblyCache_insert, ReassemblyCache_insert_with_options.
  edestruct (cache_insert_wf ReassemblyCache_new) as (o & c & -> & _); [|apply Hf|apply Hd|by eexists].
  apply with_limits_wf, ReassemblyLimits_default_wf.
Qed.

(** Both loops over the same bytes. *)
Lemma loops_agree ctx bs :
  bytes bs -> exists items x y it it',
    tlv_stream 0 bs items /\
    for_each (parse_body ctx user_data) (parse_fuel bs) (OptionsIter_new bs) parse_state_init = Some (x, it) /\
    for_each (classify_body ctx (is_nil user_data)) (parse_fuel bs) (OptionsIter_new bs) classify_init = Some (y, it') /\
    for_items (classify_body ctx (is_nil user_data)) items classify_init = Some y /\ loop_agrees user_data x y.
Proof.
  intros Hb. destruct (drain_all_spec bs Hb) as (items & it & Hd & Hs).
  destruct (items_agree user_data ctx _ items _ _ (sim_init user_data) (tlv_stream_wf _ _ _ Hs Hb))
    as (x & y & Hx & Hy & Ha).
  pose proof (for_each_drain (parse_body ctx user_data) _ _ _ _ parse_state_init Hd) as Ex.
  pose proof (for_each_drain (classify_body ctx (is_nil user_data)) _ _ _ _ classify_init Hd) as Ey.
  rewrite Hx in Ex. rewrite Hy in Ey.
  apply fmap_Some in Ex as ([x' itx] & Ex & ->). apply fmap_Some in Ey as ([y' ity] & Ey & ->).
  exists items, x', y', itx, ity. auto.
Qed.

(** The loops over the bytes a limit leaves, and what follows them; [Hfrag] is what the
    limit guarantees about the FRAG value and the fragment data. *)
Lemma limited_verdict ctx bs' data bs off :
  bytes bs' -> bytes data ->
  (forall items t frag, is_nil user_data = true -> tlv_stream 0 bs' items ->
     for_items (classify_body ctx true) items classify_init = Some (inl t) -> cs_valid_frag t = Some frag ->
     off <= frag_start frag <= off + len bs /\ data = sub bs (frag_start frag - off) (len bs)) ->
  exists d x it, classify_limited ip udp bs' data ctx (is_nil user_data) now = Some d /\
    for_each (parse_body ctx user_data) (parse_fuel bs') (OptionsIter_new bs') parse_state_init = Some (x, it) /\
    verdict bs off d (concluded x).
Proof.
  intros Hb Hdata Hfrag. destruct (loops_agree ctx bs' Hb) as (items & x & y & it & it' & Hs & Hx & Hy & Hy' & Ha).
  unfold classify_limited. fold classify_init. rewrite Hy.
  destruct y as [t|d]; [|by exists d, x, it; do 2 (split; [done|]); left].
  destruct Ha as (s & -> & Hsim). pose proof (pi_frag _ _ (sim_inv _ _ _ Hsim)) as Hwf.
  pose proof (sim_frag _ _ _ Hsim) as Hf. pose proof (sim_unsafe _ _ _ Hsim) as Hu.
  destruct (cs_valid_frag t) as [frag|] eqn:Ef.
  - destruct (is_nil user_data) eqn:En.
    + destruct (Hfrag items t frag eq_refl Hs Hy' Ef) as [Hr ->]. rewrite <- Hf in Hwf.
      destruct (reassembly_total frag (sub bs (frag_start frag - off) (len bs)) Hwf Hdata) as [d Hd].
      exists d, (inl s), it. split; [done|]. split; [done|]. right. eexists. split; [done|]. cbn. by rewrite <- Hf.
    + do 3 eexists. split; [done|]. split; [done|]. left. cbn. rewrite <- Hf. by eauto.
  - do 3 eexists. split; [done|]. split; [done|]. right. eexists. split; [done|]. cbn. rewrite <- Hf.
    split; [done|]. split; [done|]. split; [done|]. by eapply sim_reports.
Qed.

Lemma options_verdict bs off :
  bytes bs -> exists d r,
    classify_trusted_options ip udp bs (is_nil user_data) off now = Some d /\
    parse_options bs user_data off = Some r /\ verdict bs off d r.
Proof.
  intros Hb. unfold classify_trusted_options, parse_options. rewrite limit_agrees.
  destruct (fragment_option_limit_spec bs (is_nil user_data) off Hb) as (l & El & Hl). rewrite El.
  cbn [fmap option_fmap option_map]. destruct l as [|e|frag]; cbn [limit_of].
  - destruct (limited_verdict false bs [] bs off Hb) as (d & x & it & -> & -> & Hv); [constructor| |].
    { intros items t frag Hn Hs Hc Hf. rewrite Hn in El. by rewrite (limit_full_no_frag _ _ _ _ _ Hb Hs El Hc) in Hf. }
    exists d, (concluded x). split; [done|]. split; [|done]. by destruct x.
  - destruct Hl as [Hn Hl]. rewrite !slice_Some by lia.
    destruct (limited_verdict true (sub bs 0 e) (sub bs e (len bs)) bs off) as (d & x & it & -> & -> & Hv);
      [auto with rust..| |].
    { intros items t frag _ Hs Hc Hf. rewrite Hn in El.
      pose proof (limit_end_frag _ _ _ _ _ _ _ Hb Hl El Hs Hc Hf). subst e. split; [lia|done]. }
    exists d, (concluded x). split; [done|]. split; [|done]. by destruct x.
  - destruct Hl as [Hn Hl]. do 2 eexists. split; [done|]. split; [done|]. left. cbn. by rewrite Hn; eauto.
Qed.
End verdict.

(** ** A fragment that reaches an empty cache

    Its outcome does not depend on the options that came with it. *)

Definition outcome_class (o : ReassemblyOutcome) : ExpectedDisposition :=
  match o with
  | Incomplete => Buffered
  | Abort _ => Dropped
  | Complete _ => ReassembledComplete
  end.

Definition result_class (r : InsertResult) : ExpectedDisposition :=
  match r with
  | InsertIncomplete => Buffered
  | InsertAbort _ => Dropped
  | InsertComplete _ => ReassembledComplete
  end.

Lemma fresh_no_duplicate now f data os fs : Partial_is_exact_duplicate (Partial_new now) f data os fs = false.
Proof. unfold Partial_is_exact_duplicate. by destruct (nf_udp_length f). Qed.

Lemma fresh_terminal now f data os fs os' fs' :
  let x := Partial_observe_terminal (Partial_new now) f data os fs in
  let y := Partial_observe_terminal (Partial_new now) f data os' fs' in
  x.1 = y.1 /\ pa_segments x.2 = [] /\ pa_segments y.2 = [] /\
  pa_terminal_end x.2 = pa_terminal_end y.2 /\ pa_udp_length x.2 = pa_udp_length y.2.
Proof.
  cbv zeta. unfold Partial_observe_terminal. destruct (nf_udp_length f) as [ul|]; [|done].
  destruct (checked_sub _ _) as [n|]; [|done]. by destruct (_ <? _).
Qed.

(** Completion looks only at the ranges of the segments and the terminal metadata. *)
Lemma complete_class p q :
  pa_terminal_end p = pa_terminal_end q -> pa_udp_length p = pa_udp_length q ->
  ((fun s => (sg_start s, sg_end s)) <$> pa_segments p) = ((fun s => (sg_start s, sg_end s)) <$> pa_segments q) ->
  result_class (Partial_complete p) = result_class (Partial_complete q).
Proof.
  intros Ht Hu Hs. unfold Partial_complete. rewrite Ht, Hu. destruct (pa_terminal_end q) as [te|]; [|done].
  destruct (pa_udp_length q); [|done].
  assert (complete_loop 0 (pa_segments p) = complete_loop 0 (pa_segments q)) as ->.
  { revert Hs. generalize 0. generalize (pa_segments q).
    induction (pa_segments p) as [|x l IH]; intros [|y l'] c Hs; cbn in Hs; [done..|].
    injection Hs as Hs He Hr. cbn [complete_loop]. rewrite Hs, He.
    repeat (destruct (_ <? _); [done|]). by apply IH. }
  destruct (complete_loop _ _) as [|cur]; [done|]. by destruct (negb _).
Qed.

Lemma fresh_insert_class now f data os fs oc os' fs' oc' L r p r' p' :
  Partial_insert (Partial_new now) f data os fs oc L = Some (r, p) ->
  Partial_insert (Partial_new now) f data os' fs' oc' L = Some (r', p') -> result_class r = result_class r'.
Proof.
  unfold Partial_insert. rewrite !fresh_no_duplicate.
  destruct (checked_add _ 1) as [n|]; [|by intros [= <- _] [= <- _]].
  destruct (_ <? _); [by intros [= <- _] [= <- _]|].
  destruct (checked_add _ (len data)) as [m|]; [|by intros [= <- _] [= <- _]].
  destruct (match checked_add m _ with Some _ => _ | None => _ end); [by intros [= <- _] [= <- _]|].
  destruct (Partial_overlaps _ _ _); [by intros [= <- _] [= <- _]|]. cbn [pa_terminal_end Partial_new].
  pose proof (fresh_terminal now f data os fs os' fs') as Ht. cbv zeta in Ht.
  destruct (Partial_observe_terminal _ _ _ os fs) as [a x], (Partial_observe_terminal _ _ _ os' fs') as [b y].
  cbn in Ht. destruct Ht as (-> & Hx & Hy & Hte & Hul). destruct b; [by intros [= <- _] [= <- _]|].
  destruct (FragmentOptions_observe_total (pa_fragment_options x) os) as [fo ->].
  destruct (FragmentOptions_observe_total (pa_fragment_options y) os') as [fo' ->].
  cbn [Partial_observe_fragment_ocs Partial_account pa_segments]. rewrite Hx, Hy.
  destruct (is_nil data); intros [= <- _] [= <- _]; by apply complete_class; cbn; rewrite ?Hx, ?Hy.
Qed.

Lemma fresh_outcome_class key frag data pr pr' now o c o' c' :
  ReassemblyCache_insert_with_options_and_failures ReassemblyCache_new key frag data pr now = Some (o, c) ->
  ReassemblyCache_insert_with_options_and_failures ReassemblyCache_new key frag data pr' now = Some (o', c') ->
  outcome_class o = outcome_class o'.
Proof.
  unfold ReassemblyCache_insert_with_options_and_failures.
  destruct (NormalizedFragment_new _ _) as [f|]; [|by intros [= <- _] [= <- _]].
  destruct (_ <? _); [by intros [= <- _] [= <- _]|].
  destruct (match checked_add _ _ with Some _ => _ | None => _ end); [by intros [= <- _] [= <- _]|].
  assert (ReassemblyCache_gc ReassemblyCache_new now = ReassemblyCache_new) as ->.
  { unfold ReassemblyCache_gc. cbn. by rewrite map_filter_empty. }
  change (rc_partials ReassemblyCache_new !! key) with (@None Partial). cbv iota.
  change (_ <=? _) with false. cbv iota. unfold ReassemblyCache_insert_partial.
  destruct (Partial_insert _ _ _ (fp_options pr) _ _ _) as [[r p]|] eqn:E; [|done].
  destruct (Partial_insert _ _ _ (fp_options pr') _ _ _) as [[r' p']|] eqn:E'; [|done].
  pose proof (fresh_insert_class _ _ _ _ _ _ _ _ _ _ _ _ _ _ E E') as Hc.
  by destruct r, r'; intros [= <- _] [= <- _].
Qed.

(** ** From the option result to the delivery *)

Section delivery.
Context `{Crc32cSpec} (now : Z).

Abbreviation second_pass := (fun datagram cache => process_datagram_inner 1 datagram cache now false).

(** A delivery passes its checks. *)
Definition accepted (user_data : list Z) (d : ExpectedDisposition) (o : outcome) : Prop :=
  exists dl c, o = Some (Ok dl, c) /\ check_predicted user_data d dl = Some tt.

Lemma predicted_accepted v c po st d :
  predicted (uv_user_data v) d (Ok po) ->
  accepted (uv_user_data v) d (dispatch second_pass v c now true po st).
Proof.
  intros Hp. unfold dispatch. destruct d; cbn in Hp; try done.
  - destruct Hp as [[f ->] ->]. cbn. do 2 eexists. split; [done|]. cbn. by asserted.
  - destruct Hp as (-> & -> & ->). destruct (is_nil _); cbn; do 2 eexists; (split; [done|]); cbn; by asserted.
  - destruct Hp as ([f ->] & -> & Hor). cbn. rewrite Hor. do 2 eexists. split; [done|]. done.
Qed.

Lemma assert_options_ok user_data os : Forall (delivered_ok user_data) os -> assert_options user_data os = Some tt.
Proof.
  induction 1 as [|o os [Hb Ho] _ IH]; [done|]. cbn [assert_options].
  assert (assert_option user_data o = Some tt) as ->; [|done]. unfold assert_option. destruct (ro_kind o); try done.
  - rewrite Ho. change (u32_to_be (crc32c user_data)) with (typed_value (Apc_compute user_data)).
    change Apc_decode with (decode (T := ApcOption)).
    rewrite typed_decode_value by apply crc32c_u32. by asserted.
  - apply len_2_inv in Ho as (? & ? & ->). done.
  - apply len_3_inv in Ho as (? & ? & ? & ->). done.
  - apply len_4_inv in Ho as (? & ? & ? & ? & ->). done.
  - apply len_4_inv in Ho as (? & ? & ? & ? & ->). done.
Qed.

(** An ordinary datagram: every option was understood and none is FRAG. *)
Lemma ordinary_accepted v c po st :
  po_frag po = None -> po_unsupported_unsafe_seen po = false -> po_fragment_failed po = false ->
  Forall (fun r => reportable (opr_kind r) = true) (po_reports po) -> parsed_inv (uv_user_data v) po ->
  accepted (uv_user_data v) Continue_ (dispatch second_pass v c now true po st).
Proof.
  intros Hf Hu Hff Hr Hpo.
  assert (forallb (fun r => reportable (opr_kind r)) (po_reports po) = true) as Hall
    by (induction Hr as [|r rs Hr _ IH]; cbn; [done|by rewrite Hr]).
  unfold dispatch. rewrite Hf, Hu, Hff. destruct (is_nil _); cbn;
    do 2 eexists; (split; [done|]); cbn; asserted; by rewrite Hall, assert_options_ok by apply Hpo.
Qed.

(** The second pass does not buffer. *)
Lemma second_pass_not_buffered d c c' :
  bytes d -> second_pass d c <> Some (Ok Pipeline.Buffered, c').
Proof.
  intros Hb. cbn [process_datagram_inner]. destruct (receive_udp_spec d Hb) as (r & -> & Hr).
  destruct r as [v|e]; [|done]. destruct (receive_options_spec v (proj1 Hr)) as (r & -> & Ho).
  destruct r as [dl|[po st]]; [by destruct Ho as (? & ? & ->)|]. unfold dispatch, receive_fragment. cbn [negb].
  repeat case_match; done.
Qed.

Lemma fragment_accepted v frag po st d data :
  view_wf v -> Frag_wf frag ->
  slice (uv_datagram v) (uv_udp_at v + frag_start frag) (uv_ip_end v) = Some data ->
  classify_reassembly_fragment (uv_ip v) (uv_udp v) frag data now = Some d ->
  accepted (uv_user_data v) d (receive_fragment second_pass v ReassemblyCache_new now true frag po st).
Proof.
  intros Hv Hf Hs Hd. unfold receive_fragment, classify_reassembly_fragment in *. cbn [negb]. rewrite Hs.
  fold (frag_key (uv_ip v) (uv_udp v) frag) in Hd. set (pr := Build_FragmentProcessing _ _ _).
  assert (bytes data) as Hb by (apply slice_inv in Hs as (-> & _); apply Forall_sub, Hv).
  assert (Cache_wf ReassemblyCache_new) as Hc by apply with_limits_wf, ReassemblyLimits_default_wf.
  destruct (ReassemblyCache_insert _ _ _ _ _) as [[o' c0]|] eqn:Ho'; [|done].
  destruct (cache_insert_wf ReassemblyCache_new (frag_key (uv_ip v) (uv_udp v) frag) frag data pr now Hc)
    as (o & c & Ho & Hc' & _); [apply Hf|done|].
  assert (d = outcome_class o) as ->.
  { rewrite (fresh_outcome_class _ _ _ _ _ _ _ _ _ _ Ho Ho'). by destruct o'; simplify_eq. }
  rewrite Ho. destruct o as [|done_|reason]; [by do 2 eexists| |by do 2 eexists].
  destruct (reassembled_completed _ _ _ _ _ _ _ _ Hc (proj1 (proj2 (proj2 Hf))) Hb Ho) as (Hul & Htb & _).
  rewrite reassembled_datagram_spec by lia.
  destruct (Z.leb_spec (28 + len (co_tail done_)) 65535); [|by do 2 eexists].
  pose proof (reassembled_wire_wf v (co_udp_length done_) (co_tail done_) Hv Hul ltac:(lia) Htb) as Hwire.
  change (reassembled_bytes _ _ _ _) with
    (wire (reassembled_ip (uv_ip v) (len (co_tail done_))) (reassembled_udp (uv_udp v) (co_udp_length done_)) (co_tail done_)).
  set (w := wire _ _ _). assert (bytes w) as Hwb by apply (vw_bytes _ (wire_view_wf _ _ _ Hwire)).
  destruct (process_inner_step 0 w c now false Hwb Hc') as (r & c2 & Hr & _); [done|].
  rewrite Hr. destruct r as [dl|e]; [|by destruct (second_pass_no_error 0 _ _ _ c now e c2 Hwire eq_refl Hc')].
  do 2 eexists. split; [done|]. destruct dl; try done. by destruct (second_pass_not_buffered w c c2 Hwb).
Qed.

Lemma verdict_accepted v bs d po st l :
  view_wf v -> parsed_inv (uv_user_data v) po -> 0 <= l -> uv_udp_at v <= l <= uv_ip_end v ->
  bs = sub (uv_datagram v) l (uv_ip_end v) ->
  verdict (uv_user_data v) (uv_ip v) (uv_udp v) now bs (l - uv_udp_at v) d (Ok po) ->
  accepted (uv_user_data v) d (dispatch second_pass v ReassemblyCache_new now true po st).
Proof.
  intros Hv Hpo Hl0 Hl -> [Hp|(po' & [= <-] & Hu & Hff & Hf)]; [by apply predicted_accepted|].
  destruct (po_frag po) as [frag|] eqn:Ef; [|destruct Hf as [-> Hr]; by apply ordinary_accepted].
  destruct Hf as (Hn & Hr & Hc). pose proof (vw_len _ Hv) as Hlen. rewrite len_sub in Hr, Hc by lia.
  rewrite sub_sub in Hc by lia.
  replace (l + (frag_start frag - (l - uv_udp_at v))) with (uv_udp_at v + frag_start frag) in Hc by lia.
  replace (l + (uv_ip_end v - l)) with (uv_ip_end v) in Hc by lia.
  unfold dispatch. rewrite Ef, Hn, Hu, Hff. cbn [negb andb orb fmap option_fmap option_map].
  destruct Hpo as (_ & _ & _ & Hwf & _). rewrite Ef in Hwf.
  eapply fragment_accepted; [done|done| |exact Hc]. rewrite slice_Some by lia. done.
Qed.

(** Options that passed the pad and OCS checks. *)
Lemma trusted_passes v l st :
  view_wf v -> uv_udp_at v <= l <= uv_ip_end v ->
  exists d dl c,
    classify_trusted_options (uv_ip v) (uv_udp v) (sub (uv_datagram v) l (uv_ip_end v)) (is_nil (uv_user_data v))
      (l - uv_udp_at v) now = Some d /\
    (let! parsed := parse_options (sub (uv_datagram v) l (uv_ip_end v)) (uv_user_data v) (l - uv_udp_at v) in
     match parsed with
     | Ok po => dispatch second_pass v ReassemblyCache_new now true po st
     | Err _ => Some (Ok (deliver_without_options (uv_user_data v) true st), ReassemblyCache_new)
     end) = Some (Ok dl, c) /\
    check_predicted (uv_user_data v) d dl = Some tt.
Proof.
  intros Hv Hl. set (bs := sub _ _ _).
  assert (bytes bs) as Hb by (unfold bs; pose proof (vw_bytes _ Hv); auto with rust).
  destruct (options_verdict (uv_user_data v) (uv_ip v) (uv_udp v) now bs (l - uv_udp_at v) Hb) as (d & r & -> & Hr & Hd).
  destruct (parse_options_spec (uv_user_data v) bs (l - uv_udp_at v) Hb) as (r' & Hr' & Hpo).
  rewrite Hr' in Hr. injection Hr as ->. rewrite Hr'. destruct r as [po|e].
  - pose proof (header_len_bounds _ (vw_ip _ Hv)). pose proof (vw_at _ Hv).
    destruct (verdict_accepted v bs d po st l) as (dl & c & Hdl & Hck); [done..|lia|done|done|done|]. by exists d, dl, c.
  - destruct Hd as [Hp|(? & [=] & _)]. destruct d; try done. do 3 eexists. do 2 (split; [done|]). cbn. by asserted.
Qed.

(** From the surplus area to the delivery. *)
Definition delivered (v : udp_view) : outcome :=
  let! r := receive_options v in
  match r with
  | inl d => Some (Ok d, ReassemblyCache_new)
  | inr (po, st) => dispatch second_pass v ReassemblyCache_new now true po st
  end.

Definition view_checks (v : udp_view) (dl : Delivery) : option unit :=
  let! expected := expected_options_disposition (uv_datagram v) (uv_ip v) (uv_udp v) (uv_user_data v) now in
  match expected with
  | Some expected => check_predicted (uv_user_data v) expected dl
  | None => check_delivered (uv_user_data v) dl
  end.

Lemma view_passes v :
  view_wf v -> exists dl c, delivered v = Some (Ok dl, c) /\ view_checks v dl = Some tt.
Proof.
  intros Hv. unfold delivered, view_checks, receive_options, expected_options_disposition.
  destruct (locate_surplus _ _) as [l|] eqn:El.
  2:{ do 2 eexists. split; [done|]. cbn. by asserted. }
  apply locate_surplus_Some in El as (Hs & _ & Hn & Hp).
  pose proof (header_len_bounds _ (vw_ip _ Hv)). pose proof (vw_at _ Hv) as Hat.
  pose proof (vw_end _ Hv) as Hend. pose proof (vw_len _ Hv). pose proof (vw_length _ Hv). pose proof (vw_max _ Hv).
  assert (0 <= usize_of_bool (needs_pad l)) by (by destruct (needs_pad l)).
  destruct (get_is_Some (uv_datagram v) (starts_at l)) as [pad ->]; [lia|].
  destruct (check_pad pad (needs_pad l)) as [[]|].
  2:{ do 2 eexists. split; [done|]. cbn. by asserted. }
  rewrite <- Hat, <- Hend. unfold SurplusLayout_ocs_at. set (at_ := starts_at l + usize_of_bool (needs_pad l)).
  assert (uv_udp_at v <= at_ /\ at_ + 2 <= uv_ip_end v) as Hat_ by lia. rewrite slice_Some by lia. set (body := sub _ _ _).
  assert (len body = uv_ip_end v - at_) as Hbl by (unfold body; rewrite len_sub; lia).
  destruct (ocs_validate_total body (surplus_len l mod 65536) (udp_checksum (uv_udp v))) as [chk ->].
  change LENGTH_OCS with 2. rewrite slice_Some by lia.
  assert (sub body 2 (len body) = sub (uv_datagram v) (at_ + 2) (uv_ip_end v)) as ->.
  { unfold body at 1. rewrite sub_sub by lia. f_equal. lia. }
  assert (checked_sub (at_ + 2) (uv_udp_at v) = Some (at_ + 2 - uv_udp_at v)) as -> by (apply checked_sub_Some; lia).
  destruct chk; try (do 2 eexists; split; [done|]; cbn; by asserted); [set (st := StValid)|set (st := StUnused)];
    (destruct (trusted_passes v (at_ + 2) st Hv) as (d & dl & c & Hd & Hdl & Hck); [lia|]);
    exists dl, c; rewrite Hd; (split; [|done]); rewrite <- Hdl;
    by destruct (parse_options _ _ _) as [[]|].
Qed.

(** *** The headers *)

(** The oracle repeats the header checks of [receive_udp]. *)
Lemma header_passes buf r c :
  process_datagram buf ReassemblyCache_new now = Some (r, c) ->
  (forall e, receive_udp buf = Some (Err e) -> is_ok r = false) ->
  (forall v, receive_udp buf = Some (Ok v) -> exists dl, r = Ok dl /\ view_checks v dl = Some tt) ->
  is_Some (receive_udp buf) -> check_pipeline_invariants now buf = Some tt.
Proof.
  intros Hr He Hv Ht. unfold check_pipeline_invariants. rewrite Hr. unfold receive_udp in *.
  destruct (IpRepr_parse buf) as [[[ip udp_at]|e]|]; [|by rewrite (He _ eq_refl)|by destruct Ht].
  cbn [map_err] in *. destruct (slice buf 0 _) as [datagram|]; [|by destruct Ht].
  destruct (slice datagram udp_at _) as [rest|]; [|by destruct Ht].
  destruct (UdpHeader_parse rest) as [[udp|e]|]; [|by rewrite (He _ eq_refl)|by destruct Ht].
  cbn [map_err] in *. unfold check_udp.
  destruct (_ <? _); [by rewrite (He _ eq_refl)|].
  destruct (slice datagram (udp_at + UDP_HEADER_LEN) _) as [user_data|]; [|by destruct Ht].
  destruct (udp_checksum udp =? 0).
  { by destruct (Hv _ eq_refl) as (dl & -> & Hd). }
  destruct (UdpHeader_compute_checksum _ _ _) as [expected|]; [|by destruct Ht].
  destruct (expected =? udp_checksum udp); [|by rewrite (He _ eq_refl)].
  by destruct (Hv _ eq_refl) as (dl & -> & Hd).
Qed.

Lemma process_datagram_passes buf : bytes buf -> process_datagram_target now buf = Some tt.
Proof.
  intros Hb. destruct (receive_udp_spec buf Hb) as (r & Hr & Hw).
  assert (process_datagram buf ReassemblyCache_new now =
    match r with Err e => Some (Err e, ReassemblyCache_new) | Ok v => delivered v end) as Hp.
  { unfold process_datagram, delivered. cbn [process_datagram_inner]. rewrite Hr. by destruct r. }
  destruct r as [v|e].
  - destruct (view_passes v (proj1 Hw)) as (dl & c & Hd & Hck). rewrite Hd in Hp.
    eapply header_passes; [done|by rewrite Hr|rewrite Hr; intros ? [= <-]; by eauto|by eauto].
  - eapply header_passes; [done|done|by rewrite Hr|by eauto].
Qed.
End delivery.

(** ** Properties *)

(** C13. The receive pipeline does what its developers' independent oracle predicts, on
    every byte string and at every time: it rejects exactly the datagrams whose headers or
    UDP checksum the oracle rejects, and otherwise delivers the user data without options,
    delivers an empty payload, buffers, drops or reassembles as the oracle's own reading of
    the surplus area says; an ordinary delivery carries the user data, one OCS report and
    options whose values decode, the APC one with the CRC of the user data. *)
Theorem process_datagram_fuzz_target_passes `{Crc32cSpec} (now : Z) :
  passes (process_datagram_target now).
Proof. intros data Hb. by apply process_datagram_passes. Qed.

Lemma process_datagram_fuzz_target_passes_witness :
  @Crc32cSpec crc32c_bitwise /\ passes (@process_datagram_target crc32c_bitwise 0) /\
  @process_datagram_target crc32c_bitwise 0 example_wire = Some tt.
Proof.
  split; [exact crc32c_bitwise_u32|]. split.
  - exact (@process_datagram_fuzz_target_passes crc32c_bitwise crc32c_bitwise_u32 0).
  - vm_compute. reflexivity.
Defined.
