(* ===== verification/WireTests.v ===== *)
(** The unit tests of the wire layer, the option checksum and the option kinds
    (src/src/wire/checksum.rs, ip.rs, udp.rs, surplus.rs, src/src/options/ocs.rs, kind.rs),
    one module per file, run on the model; [None] is a failed assertion. *)

From S2P Require Import Prelude Model Kind Parse Typed Serialize Checksum Ip Udp Surplus Ocs Text Oracles FragOracles.

(** [for x in l { .. }]. *)
Fixpoint for_all {A} (f : A -> option unit) (l : list A) : option unit :=
  match l with
  | [] => Some tt
  | x :: l => let! _ := f x in for_all f l
  end.

(** [assert_eq!(result.unwrap(), want)]-like comparisons of a computation that may panic. *)
Definition returns {A} `{EqDecision A} (m : option A) (want : A) : option unit :=
  let! x := m in
  assert_eq x want;
  Some tt.

(** [l.swap(0, 1)]. *)
Definition swap01 (l : list Z) : option (list Z) :=
  let! x := get l 0 in
  let! y := get l 1 in
  let! l := set_at l 0 y in
  set_at l 1 x.

(** Every byte, [0..=u8::MAX]. *)
Definition all_bytes : list Z := seqZ 0 256.

(** ** wire/checksum.rs *)

Module ChecksumTests.

Definition RFC1071_EXAMPLE : list Z := [0x00; 0x01; 0xf2; 0x03; 0xf4; 0xf5; 0xf6; 0xf7].

Definition rfc1071_worked_example : option unit :=
  let checksum := add_slice Checksum_new RFC1071_EXAMPLE in
  assert_eq (Checksum_sum checksum) 0xddf2;
  assert_eq (Checksum_finish checksum) 0x220d;
  assert_eq (internet_checksum RFC1071_EXAMPLE) 0x220d;
  Some tt.

Definition odd_length_trailing_byte_is_high_byte : option unit :=
  assert_eq (internet_checksum [0x01; 0x02; 0x03]) (not16 0x0402);
  assert_eq (internet_checksum [0xab]) (not16 0xab00);
  Some tt.

Definition all_zero_input : option unit :=
  let checksum := add_slice Checksum_new (replicate 6 0) in
  assert_eq (Checksum_sum checksum) 0x0000;
  assert_eq (Checksum_finish checksum) 0xffff;
  assert_eq (internet_checksum []) 0xffff;
  Some tt.

Definition end_around_carry_folds : option unit :=
  assert_eq (internet_checksum [0xff; 0xff; 0xff; 0xff]) 0x0000;
  assert_eq (internet_checksum [0x80; 0x00; 0x80; 0x01]) (not16 0x0002);
  Some tt.

Definition data_plus_stored_complement_sums_to_ones : option unit :=
  for_all (fun data =>
    let stored := internet_checksum data in
    let verify := add_slice Checksum_new data in
    let verify := add_u16 verify stored in
    assert_eq (Checksum_sum verify) 0xffff;
    assert_eq (Checksum_finish verify) 0x0000;
    Some tt)
  [RFC1071_EXAMPLE; replicate 6 0; replicate 5 0xff; [0xde; 0xad; 0xbe; 0xef; 0x01]].

Definition incremental_matches_one_shot : option unit :=
  let! head := slice RFC1071_EXAMPLE 0 4 in
  let! tail := slice RFC1071_EXAMPLE 4 (len RFC1071_EXAMPLE) in
  let split := add_slice Checksum_new head in
  let split := add_slice split tail in
  assert_eq (Checksum_finish split) (internet_checksum RFC1071_EXAMPLE);
  let scalar := add_u16 Checksum_new 0xf203 in
  let slice := add_slice Checksum_new [0xf2; 0x03] in
  assert_eq (Checksum_sum scalar) (Checksum_sum slice);
  Some tt.

(** All of them, in the order of the source. *)
Definition checksum_tests : list (option unit) :=
  [rfc1071_worked_example;
   odd_length_trailing_byte_is_high_byte;
   all_zero_input;
   end_around_carry_folds;
   data_plus_stored_complement_sums_to_ones;
   incremental_matches_one_shot].

End ChecksumTests.

(** ** wire/ip.rs *)

Module IpTests.

Definition V4_HELLO_DATAGRAM : list Z :=
  [0x45; 0x00; 0x00; 0x21; 0x00; 0x00; 0x00; 0x00; 0x40; 0x11; 0x8e; 0x95;
   0xc0; 0x00; 0x02; 0x01; 0xc6; 0x33; 0x64; 0x02;
   0x30; 0x39; 0x00; 0x35; 0x00; 0x0d; 0x9f; 0x5c;
   0x68; 0x65; 0x6c; 0x6c; 0x6f].

Definition v4_hello_repr : IpRepr :=
  {| ip_src := Build_Ipv4Addr 192 0 2 1; ip_dst := Build_Ipv4Addr 198 51 100 2; ip_ihl := 5; ip_total_len := 33 |}.

Definition v4_parse_known_datagram : option unit :=
  let! (repr, offset) := expect (IpRepr_parse V4_HELLO_DATAGRAM) in
  assert_eq repr v4_hello_repr;
  assert_eq offset 20;
  assert_eq (IpRepr_header_len repr) 20;
  assert_eq (IpRepr_transport_payload_len repr) 13;
  assert_eq (ip_src repr) (Build_Ipv4Addr 192 0 2 1);
  assert_eq (ip_dst repr) (Build_Ipv4Addr 198 51 100 2);
  Some tt.

Definition v4_write_matches_golden_bytes : option unit :=
  let! out := IpRepr_write v4_hello_repr (zeros 20) in
  let! golden := slice V4_HELLO_DATAGRAM 0 20 in
  assert_eq out golden;
  Some tt.

Definition v4_parse_skips_ip_options : option unit :=
  let! head := slice V4_HELLO_DATAGRAM 0 20 in
  let! tail := slice V4_HELLO_DATAGRAM 20 (len V4_HELLO_DATAGRAM) in
  let datagram := head ++ [0x01; 0x01; 0x01; 0x01] ++ tail in
  let! datagram := set_at datagram 0 0x46 in
  let! datagram := copy_at datagram 2 (u16_to_be 37) in
  let! datagram := copy_at datagram 10 [0; 0] in
  let! header := slice datagram 0 24 in
  let! datagram := copy_at datagram 10 (u16_to_be (internet_checksum header)) in
  let! (repr, offset) := expect (IpRepr_parse datagram) in
  assert_eq offset 24;
  assert_eq (IpRepr_header_len repr) 24;
  assert_eq (IpRepr_transport_payload_len repr) 13;
  Some tt.

(** [assert_eq!(IpRepr::parse(&d), Err(e))] of a datagram changed by [change]. *)
Definition rejects (change : option (list Z)) (e : HeaderError) : option unit :=
  let! d := change in returns (IpRepr_parse d) (Err e).

Definition v4_rejects_corrupt_input : option unit :=
  let! _ := rejects (slice V4_HELLO_DATAGRAM 0 19) (IpTruncated 20 19) in
  let! _ := rejects (set_at V4_HELLO_DATAGRAM 0 0x55) (UnsupportedVersion 5) in
  let! _ := rejects (set_at V4_HELLO_DATAGRAM 0 0x44) (BadIhl 4) in
  let! _ := rejects (copy_at V4_HELLO_DATAGRAM 2 (u16_to_be 19)) (BadIpLength 19) in
  let! _ := rejects (copy_at V4_HELLO_DATAGRAM 2 (u16_to_be 34)) (BadIpLength 34) in
  let! _ := rejects (set_at V4_HELLO_DATAGRAM 9 6) (UnexpectedProtocol 6) in
  let! x := get V4_HELLO_DATAGRAM 16 in
  rejects (set_at V4_HELLO_DATAGRAM 16 (Z.lxor x 0x01)) IpChecksumMismatch.

Definition parse_rejects_ipv6_as_unsupported_version : option unit :=
  let ipv6 :=
    [0x60; 0x00; 0x00; 0x00; 0x00; 0x0d; 0x11; 0x40;
     0x20; 0x01; 0x0d; 0xb8; 0x00; 0x00; 0x00; 0x00; 0x00; 0x00; 0x00; 0x00; 0x00; 0x00; 0x00; 0x01;
     0x20; 0x01; 0x0d; 0xb8; 0x00; 0x00; 0x00; 0x00; 0x00; 0x00; 0x00; 0x00; 0x00; 0x00; 0x00; 0x02;
     0x30; 0x39; 0x00; 0x35; 0x00; 0x0d; 0x30; 0x1f] ++ as_bytes "hello" in
  rejects (Some ipv6) (UnsupportedVersion 6).

Definition pseudo_header_sum_matches_reference : option unit :=
  assert_eq (Checksum_sum (IpRepr_pseudo_header_sum v4_hello_repr 13)) 0xec55;
  Some tt.

(** All of them, in the order of the source. *)
Definition ip_tests : list (option unit) :=
  [v4_parse_known_datagram;
   v4_write_matches_golden_bytes;
   v4_parse_skips_ip_options;
   v4_rejects_corrupt_input;
   parse_rejects_ipv6_as_unsupported_version;
   pseudo_header_sum_matches_reference].

End IpTests.

(** ** wire/udp.rs *)

Module UdpTests.
Import IpTests.

Definition hello_header : UdpHeader :=
  {| udp_src_port := 12345; udp_dst_port := 53; udp_length := 13; udp_checksum := 0x9f5c |}.

Definition parse_write_round_trip : option unit :=
  let! bytes_ := slice V4_HELLO_DATAGRAM 20 (len V4_HELLO_DATAGRAM) in
  let! header := expect (UdpHeader_parse bytes_) in
  assert_eq header hello_header;
  let! out := UdpHeader_write header (zeros UDP_HEADER_LEN) in
  let! golden := slice V4_HELLO_DATAGRAM 20 28 in
  assert_eq out golden;
  Some tt.

Definition checksum_matches_known_good_v4_datagram : option unit :=
  let! (ip, offset) := expect (IpRepr_parse V4_HELLO_DATAGRAM) in
  let! bytes_ := slice V4_HELLO_DATAGRAM offset (len V4_HELLO_DATAGRAM) in
  let! header := expect (UdpHeader_parse bytes_) in
  let! data := slice V4_HELLO_DATAGRAM (offset + UDP_HEADER_LEN) (len V4_HELLO_DATAGRAM) in
  let! checksum := UdpHeader_compute_checksum header ip data in
  assert_eq checksum 0x9f5c;
  assert_eq checksum (udp_checksum header);
  Some tt.

Definition checksum_covers_user_data_only : option unit :=
  let with_surplus := V4_HELLO_DATAGRAM ++ [0xde; 0xad; 0xbe; 0xef] in
  let! with_surplus := copy_at with_surplus 2 (u16_to_be 37) in
  let header := hello_header in
  let ip := {| ip_src := Build_Ipv4Addr 192 0 2 1; ip_dst := Build_Ipv4Addr 198 51 100 2; ip_ihl := 5;
               ip_total_len := 37 |} in
  let! user_data := slice with_surplus 28 (28 + udp_length header - UDP_HEADER_LEN) in
  returns (UdpHeader_compute_checksum header ip user_data) 0x9f5c.

Definition computed_zero_transmits_as_ffff : option unit :=
  let header := {| udp_src_port := 12345; udp_dst_port := 53; udp_length := 10; udp_checksum := 0 |} in
  let ip := {| ip_src := Build_Ipv4Addr 192 0 2 1; ip_dst := Build_Ipv4Addr 198 51 100 2; ip_ihl := 5;
               ip_total_len := 30 |} in
  returns (UdpHeader_compute_checksum header ip [0xe3; 0x34]) 0xffff.

Definition parse_rejects_corrupt_input : option unit :=
  let! bytes_ := slice V4_HELLO_DATAGRAM 20 27 in
  let! _ := returns (UdpHeader_parse bytes_) (Err (UdpTruncated 7)) in
  let! short_length := UdpHeader_write hello_header (zeros UDP_HEADER_LEN) in
  let! short_length := copy_at short_length 4 (u16_to_be 7) in
  returns (UdpHeader_parse short_length) (Err (UdpLengthInvalid 7)).

(** All of them, in the order of the source. *)
Definition udp_tests : list (option unit) :=
  [parse_write_round_trip;
   checksum_matches_known_good_v4_datagram;
   checksum_covers_user_data_only;
   computed_zero_transmits_as_ffff;
   parse_rejects_corrupt_input].

End UdpTests.

(** ** wire/surplus.rs *)

Module SurplusTests.

Definition v4 (total_len : Z) : IpRepr :=
  {| ip_src := Build_Ipv4Addr 192 0 2 1; ip_dst := Build_Ipv4Addr 198 51 100 2; ip_ihl := 5; ip_total_len := total_len |}.

Definition udp (length : Z) : UdpHeader :=
  {| udp_src_port := 12345; udp_dst_port := 53; udp_length := length; udp_checksum := 0 |}.

Definition even_natural_start : option unit :=
  let! layout := locate_surplus (v4 36) (udp 12) in
  assert_eq layout {| starts_at := 32; needs_pad := false; surplus_len := 4 |};
  assert_eq (SurplusLayout_ocs_at layout) 32;
  assert_eq (SurplusLayout_range layout) (32, 36);
  Some tt.

Definition odd_natural_start_pads_one_byte : option unit :=
  let! layout := locate_surplus (v4 38) (udp 13) in
  assert_eq layout {| starts_at := 33; needs_pad := true; surplus_len := 5 |};
  assert_eq (SurplusLayout_ocs_at layout) 34;
  assert_eq (SurplusLayout_range layout) (33, 38);
  Some tt.

Definition none_when_udp_length_fills_payload : option unit :=
  assert_eq (locate_surplus (v4 33) (udp 13)) None;
  Some tt.

Definition none_when_udp_length_exceeds_payload : option unit :=
  assert_eq (locate_surplus (v4 30) (udp 13)) None;
  Some tt.

Definition none_when_no_room_for_aligned_ocs : option unit :=
  assert_eq (locate_surplus (v4 33) (udp 12)) None;
  assert_eq (locate_surplus (v4 35) (udp 13)) None;
  let! layout := locate_surplus (v4 36) (udp 13) in
  assert_eq layout {| starts_at := 33; needs_pad := true; surplus_len := 3 |};
  Some tt.

Definition even_minimal_surplus_holds_ocs_exactly : option unit :=
  let! layout := locate_surplus (v4 34) (udp 12) in
  assert_eq layout {| starts_at := 32; needs_pad := false; surplus_len := 2 |};
  Some tt.

Definition v4_ip_options_shift_natural_start : option unit :=
  let ip := {| ip_src := Build_Ipv4Addr 192 0 2 1; ip_dst := Build_Ipv4Addr 198 51 100 2; ip_ihl := 6;
               ip_total_len := 40 |} in
  let! layout := locate_surplus ip (udp 12) in
  assert_eq layout {| starts_at := 36; needs_pad := false; surplus_len := 4 |};
  Some tt.

(** All of them, in the order of the source. *)
Definition surplus_tests : list (option unit) :=
  [even_natural_start;
   odd_natural_start_pads_one_byte;
   none_when_udp_length_fills_payload;
   none_when_udp_length_exceeds_payload;
   none_when_no_room_for_aligned_ocs;
   even_minimal_surplus_holds_ocs_exactly;
   v4_ip_options_shift_natural_start].

End SurplusTests.

(** ** options/ocs.rs *)

Module OcsTests.

Definition empty_canonical_body_patches_and_validates : option unit :=
  let! body := expect (OptionsBuilder_finish OptionsBuilder_new) in
  assert_eq body [0; 0; KIND_EOL; 0];
  let! body := ocs_compute body 4 in
  let! head := slice body 0 2 in
  assert_ne head [0; 0];
  returns (ocs_validate body 4 0x1234) OcsValid.

Definition minimal_ocs_only_body_validates : option unit :=
  let! body := ocs_compute [0; 0] 2 in
  assert_eq body [0xff; 0xfd];
  returns (ocs_validate body 2 0x1234) OcsValid.

Definition flipping_any_byte_in_patched_body_fails : option unit :=
  let! body := expect (OptionsBuilder_finish OptionsBuilder_new) in
  let! body := ocs_compute body 4 in
  for_all (fun i =>
    let! x := get body i in
    let! corrupted := set_at body i (Z.lxor x 0x01) in
    returns (ocs_validate corrupted 4 0x1234) (OcsError OcsMismatch)) (seqZ 0 (len body)).

Definition forced_zero_is_sent_as_ffff_and_validates : option unit :=
  let! body := ocs_compute [0; 0; 0xff; 0xfb] 4 in
  let! head := slice body 0 2 in
  assert_eq head [0xff; 0xff];
  returns (ocs_validate body 4 0x1234) OcsValid.

Definition odd_start_uses_full_surplus_len_but_starts_sum_at_ocs : option unit :=
  let! body := expect (OptionsBuilder_finish OptionsBuilder_new) in
  let! body := ocs_compute body 5 in
  assert_eq (check_pad 0 true) (Ok tt);
  let! _ := returns (ocs_validate body 5 0x1234) OcsValid in
  returns (ocs_validate body (len body mod 65536) 0x1234) (OcsError OcsMismatch).

Definition zero_ocs_disposition_depends_on_udp_checksum_field : option unit :=
  let body := [0; 0; KIND_EOL; 0] in
  let! _ := returns (ocs_validate body 4 0) OcsUnused in
  returns (ocs_validate body 4 1) OcsIgnoreOptions.

Definition too_short_validate_input_is_overrun : option unit :=
  let! _ := returns (ocs_validate [] 0 1) (OcsError (Overrun 0)) in
  returns (ocs_validate [0] 1 1) (OcsError (Overrun 0)).

Definition pad_check_rejects_only_present_nonzero_pad : option unit :=
  assert_eq (check_pad 0 true) (Ok tt);
  assert_eq (check_pad 1 true) (Err NonZeroPad);
  assert_eq (check_pad 1 false) (Ok tt);
  Some tt.

(** A golden vector: the OCS, validation, and the byte-swapped OCS. *)
Definition golden (body : list Z) (surplus_len : Z) (ocs : list Z) : option (list Z) :=
  let! body := ocs_compute body surplus_len in
  let! head := slice body 0 2 in
  assert_eq head ocs;
  let! _ := returns (ocs_validate body surplus_len 0x1234) OcsValid in
  let! swapped := swap01 body in
  let! _ := returns (ocs_validate swapped surplus_len 0x1234) (OcsError OcsMismatch) in
  Some body.

Definition golden_even_start_tlv_body : option unit :=
  let! _ := golden [0; 0; 0xde; 0xad; 0xbe; 0xef; 0x01; 0x00] 8 [0x61; 0x5a] in
  Some tt.

Definition golden_odd_start_pad_in_length_not_in_fold : option unit :=
  let! body := golden [0; 0; 0x01; 0x02; 0x03; 0x04] 7 [0xfb; 0xf2] in
  returns (ocs_validate body 6 0x1234) (OcsError OcsMismatch).

Definition golden_dangling_tail_byte_is_high_byte : option unit :=
  let! _ := golden [0; 0; 0xab] 3 [0x54; 0xfc] in
  Some tt.

(** All of them, in the order of the source. *)
Definition ocs_tests : list (option unit) :=
  [empty_canonical_body_patches_and_validates;
   minimal_ocs_only_body_validates;
   flipping_any_byte_in_patched_body_fails;
   forced_zero_is_sent_as_ffff_and_validates;
   odd_start_uses_full_surplus_len_but_starts_sum_at_ocs;
   zero_ocs_disposition_depends_on_udp_checksum_field;
   too_short_validate_input_is_overrun;
   pad_check_rejects_only_present_nonzero_pad;
   golden_even_start_tlv_body;
   golden_odd_start_pad_in_length_not_in_fold;
   golden_dangling_tail_byte_is_high_byte].

End OcsTests.

(** ** options/kind.rs *)

Module KindTests.

Definition from_byte_maps_named_kinds : option unit :=
  for_all (fun '(byte, expected) =>
    assert_eq (from_byte byte) expected;
    assert_eq (to_byte expected) byte;
    Some tt)
  [(KIND_EOL, Eol); (KIND_NOP, Nop); (KIND_APC, Apc); (KIND_FRAG, Frag); (KIND_MDS, Mds); (KIND_MRDS, Mrds);
   (KIND_REQ, Req); (KIND_RES, Res)].

Definition all_kind_bytes_round_trip_exactly : option unit :=
  for_all (fun byte => assert_eq (to_byte (from_byte byte)) byte; Some tt) all_bytes.

Definition unknown_boundaries_are_preserved_as_other : option unit :=
  for_all (fun byte =>
    assert_eq (from_byte byte) (Other byte);
    assert_eq (to_byte (from_byte byte)) byte;
    Some tt) [8; 191; 192; 255].

Definition safe_and_unsafe_boundary_is_exact : option unit :=
  ensure (is_safe (from_byte 191));
  ensure (negb (is_unsafe (from_byte 191)));
  ensure (negb (is_safe (from_byte 192)));
  ensure (is_unsafe (from_byte 192));
  for_all (fun byte =>
    let kind := from_byte byte in
    assert_eq (is_safe kind) (byte <? KIND_UNSAFE_MIN);
    assert_eq (is_unsafe kind) (KIND_UNSAFE_MIN <=? byte);
    Some tt) all_bytes.

Definition must_support_boundary_is_exact : option unit :=
  ensure (is_must_support (from_byte 7));
  ensure (negb (is_must_support (from_byte 8)));
  for_all (fun byte => assert_eq (is_must_support (from_byte byte)) (byte <=? KIND_RES); Some tt) all_bytes.

Definition only_eol_and_nop_are_single_byte : option unit :=
  for_all (fun byte =>
    let kind := from_byte byte in
    let single_byte := (byte =? KIND_EOL) || (byte =? KIND_NOP) in
    assert_eq (framing kind) (if single_byte then SingleByte else LengthDelimited);
    assert_eq (is_single_byte kind) single_byte;
    Some tt) all_bytes.

Definition fixed_tlv_lengths_match_must_support_table : option unit :=
  for_all (fun byte =>
    let expected :=
      if byte =? KIND_APC then [LENGTH_APC]
      else if byte =? KIND_FRAG then [LENGTH_FRAG_NON_TERMINAL; LENGTH_FRAG_TERMINAL]
      else if byte =? KIND_MDS then [LENGTH_MDS]
      else if byte =? KIND_MRDS then [LENGTH_MRDS]
      else if byte =? KIND_REQ then [LENGTH_REQ]
      else if byte =? KIND_RES then [LENGTH_RES]
      else [] in
    assert_eq (fixed_tlv_lengths (from_byte byte)) expected;
    Some tt) all_bytes.

Definition manual_other_values_classify_by_raw_byte : option unit :=
  ensure (is_single_byte (Other KIND_EOL));
  ensure (is_must_support (Other KIND_RES));
  assert_eq (fixed_tlv_lengths (Other KIND_FRAG)) [LENGTH_FRAG_NON_TERMINAL; LENGTH_FRAG_TERMINAL];
  ensure (is_safe (Other 191));
  ensure (is_unsafe (Other 192));
  Some tt.

(** All of them, in the order of the source. *)
Definition kind_tests : list (option unit) :=
  [from_byte_maps_named_kinds;
   all_kind_bytes_round_trip_exactly;
   unknown_boundaries_are_preserved_as_other;
   safe_and_unsafe_boundary_is_exact;
   must_support_boundary_is_exact;
   only_eol_and_nop_are_single_byte;
   fixed_tlv_lengths_match_must_support_table;
   manual_other_values_classify_by_raw_byte].

End KindTests.

Lemma wire_tests_pass :
  Forall (eq (Some tt)) (ChecksumTests.checksum_tests ++ IpTests.ip_tests ++ UdpTests.udp_tests
    ++ SurplusTests.surplus_tests ++ OcsTests.ocs_tests ++ KindTests.kind_tests).
Proof. vm_compute. repeat constructor. Qed.
