(* ===== verification/OptionTests.v ===== *)
(** The unit tests of the option parser, the typed options and the serializer
    (src/src/options/parse.rs, typed.rs, serialize.rs), one module per file, run on the
    model; [None] is a failed assertion. *)

From S2P Require Import Prelude Model Kind Parse Typed Serialize Checksum Ip Udp Surplus Ocs Text Oracles FragOracles WireTests.

(** ** options/parse.rs *)

Module ParseTests.

(** What [==] compares of an item: a borrowed value by its bytes. *)
Definition plain (i : option item) : option (result (OptionKind * list Z) ParseError) :=
  match i with
  | Some (Ok o) => Some (Ok (or_kind o, or_value o))
  | Some (Err e) => Some (Err e)
  | None => None
  end.

(** [assert_eq!(iter.next(), want)]. *)
Definition next_is (iter : OptionsIter) (want : option (result (OptionKind * list Z) ParseError)) :
    option OptionsIter :=
  let! (i, iter) := OptionsIter_next iter in
  assert_eq (plain i) want;
  Some iter.

Definition yields (kind : OptionKind) (value : list Z) : option (result (OptionKind * list Z) ParseError) :=
  Some (Ok (kind, value)).

Definition assert_single_error (bytes_ : list Z) (expected : ParseError) : option unit :=
  let! iter := next_is (OptionsIter_new bytes_) (Some (Err expected)) in
  let! iter := next_is iter None in
  let! iter := next_is iter None in
  Some tt.

Definition accepts_empty_input : option unit :=
  let! iter := next_is (OptionsIter_new []) None in
  assert_eq (it_max_nop_run iter) 0;
  Some tt.

Definition parses_mixed_default_extended_and_eol : option unit :=
  let head := [KIND_NOP; KIND_APC; 3; 0xaa; 200; KIND_EXTENDED_LENGTH_MARKER; 0; 255] in
  let ext_value_at := len head in
  let bytes_ := head ++ seqZ 0 251 ++ [KIND_EOL; KIND_APC] in
  let! iter := next_is (OptionsIter_new bytes_) (yields Nop []) in
  let! iter := next_is iter (yields Apc [0xaa]) in
  let! value := slice bytes_ ext_value_at (ext_value_at + 251) in
  let! iter := next_is iter (yields (Other 200) value) in
  let! iter := next_is iter (yields Eol []) in
  let! iter := next_is iter None in
  assert_eq (it_max_nop_run iter) 1;
  Some tt.

Definition accepts_exact_end_without_eol : option unit :=
  let! iter := next_is (OptionsIter_new [KIND_APC; 2; KIND_MDS; 4; 0x12; 0x34]) (yields Apc []) in
  let! iter := next_is iter (yields Mds [0x12; 0x34]) in
  let! iter := next_is iter None in
  Some tt.

Definition tracks_maximum_nop_run : option unit :=
  let! (_, iter) := drain_all [KIND_NOP; KIND_NOP; KIND_APC; 2; KIND_NOP; KIND_NOP; KIND_NOP; KIND_EOL] in
  assert_eq (it_max_nop_run iter) 3;
  Some tt.

Definition preserves_maximum_nop_run_after_error : option unit :=
  let! iter := next_is (OptionsIter_new [KIND_NOP; KIND_NOP; KIND_APC]) (yields Nop []) in
  let! iter := next_is iter (yields Nop []) in
  let! iter := next_is iter (Some (Err (Overrun 2))) in
  let! iter := next_is iter None in
  assert_eq (it_max_nop_run iter) 2;
  Some tt.

Definition preserves_unknown_safe_and_unsafe_kinds : option unit :=
  let! iter := next_is (OptionsIter_new [8; 2; 192; 2]) (yields (Other 8) []) in
  let! iter := next_is iter (yields (Other 192) []) in
  let! iter := next_is iter None in
  Some tt.

Definition malformed_default_forms_yield_one_error : option unit :=
  let! _ := assert_single_error [KIND_APC] (Overrun 0) in
  let! _ := assert_single_error [KIND_APC; 1] (InvalidLength KIND_APC 1) in
  assert_single_error [KIND_APC; 3] (Overrun 0).

Definition malformed_extended_forms_yield_one_error : option unit :=
  let! _ := assert_single_error [KIND_APC; KIND_EXTENDED_LENGTH_MARKER; 0] (Overrun 0) in
  let! _ := assert_single_error [KIND_APC; KIND_EXTENDED_LENGTH_MARKER; 0; 254] (InvalidLength KIND_APC 254) in
  assert_single_error [KIND_APC; KIND_EXTENDED_LENGTH_MARKER; 1; 0; 0] (Overrun 0).

(** All of them, in the order of the source. *)
Definition parse_tests : list (option unit) :=
  [accepts_empty_input;
   parses_mixed_default_extended_and_eol;
   accepts_exact_end_without_eol;
   tracks_maximum_nop_run;
   preserves_maximum_nop_run_after_error;
   preserves_unknown_safe_and_unsafe_kinds;
   malformed_default_forms_yield_one_error;
   malformed_extended_forms_yield_one_error].

End ParseTests.

(** ** options/typed.rs *)

Module TypedTests.
Section typed.
Context `{Crc32c}.

Definition round_trip {T} `{TypedOption T, EqDecision T} (o : T) : option unit :=
  let bytes_ := encode o [] in
  let! (i, iter) := OptionsIter_next (OptionsIter_new bytes_) in
  let! parsed := match i with Some (Ok p) => Some p | _ => None end in
  assert_eq (or_kind parsed) (KIND T);
  let! decoded := decode (or_value parsed) in
  assert_eq decoded (Ok o);
  let! (i, iter) := OptionsIter_next iter in
  assert_eq i None;
  Some tt.

Definition typed_options_encode_parse_decode_round_trip : option unit :=
  let! _ := round_trip {| apc_crc32c := 0x12345678 |} in
  let! _ := round_trip {| max_datagram_size := 1500 |} in
  let! _ := round_trip {| mrds_max_reassembled_size := 2926; mrds_max_segments := 4 |} in
  let! _ := round_trip {| req_token := [0xde; 0xad; 0xbe; 0xef] |} in
  let! _ := round_trip {| res_token := [0xca; 0xfe; 0xba; 0xbe] |} in
  let! _ := round_trip {| frag_start := 32; frag_identification := 0x01020304; frag_offset := 8;
                          frag_rdos := None |} in
  round_trip {| frag_start := 48; frag_identification := 0x11121314; frag_offset := 16;
                frag_rdos := Some 4096 |}.

Definition encodes_big_endian_wire_bytes : option unit :=
  let bytes_ := encode {| mrds_max_reassembled_size := 0x0b6e; mrds_max_segments := 0x04 |} [] in
  assert_eq bytes_ [KIND_MRDS; LENGTH_MRDS; 0x0b; 0x6e; 0x04];
  let bytes_ := encode {| frag_start := 0x0018; frag_identification := 0x01020304; frag_offset := 0x0506;
                          frag_rdos := Some 0x0708 |} [] in
  assert_eq bytes_ [KIND_FRAG; LENGTH_FRAG_TERMINAL; 0x00; 0x18; 0x01; 0x02; 0x03; 0x04; 0x05; 0x06; 0x07; 0x08];
  Some tt.

Definition apc_compute_matches_crc32c_vector : option unit :=
  let user_data := as_bytes "123456789" in
  assert_eq (crc32c user_data) 0xe3069283;
  assert_eq (Apc_compute user_data) {| apc_crc32c := 0xe3069283 |};
  Some tt.

Definition assert_invalid_len {T} `{EqDecision T} (actual : option (result T ParseError)) (option_kind n : Z) :
    option unit :=
  returns actual (Err (InvalidLength option_kind n)).

Definition typed_decoders_reject_wrong_value_lengths : option unit :=
  let! _ := assert_invalid_len (Apc_decode (zeros 3)) KIND_APC 5 in
  let! _ := assert_invalid_len (Mds_decode (zeros 1)) KIND_MDS 3 in
  let! _ := assert_invalid_len (Mrds_decode (zeros 2)) KIND_MRDS 4 in
  let! _ := assert_invalid_len (Req_decode (zeros 5)) KIND_REQ 7 in
  let! _ := assert_invalid_len (Res_decode (zeros 0)) KIND_RES 2 in
  assert_invalid_len (Frag_decode (zeros 9)) KIND_FRAG 11.

Definition frag_length_selects_terminal_flag : option unit :=
  let! _ := returns (Frag_decode [0; 10; 0; 0; 0; 1; 0; 20])
    (Ok {| frag_start := 10; frag_identification := 1; frag_offset := 20; frag_rdos := None |}) in
  returns (Frag_decode [0; 10; 0; 0; 0; 1; 0; 20; 0; 30])
    (Ok {| frag_start := 10; frag_identification := 1; frag_offset := 20; frag_rdos := Some 30 |}).

(** All of them, in the order of the source. *)
Definition typed_tests : list (option unit) :=
  [typed_options_encode_parse_decode_round_trip;
   encodes_big_endian_wire_bytes;
   apc_compute_matches_crc32c_vector;
   typed_decoders_reject_wrong_value_lengths;
   frag_length_selects_terminal_flag].
End typed.

End TypedTests.

(** ** options/serialize.rs *)

Module SerializeTests.

Definition finish_one (option_kind : OptionKind) (value : list Z) : option (result (list Z) SerializeError) :=
  OptionsBuilder_finish (OptionsBuilder_push OptionsBuilder_new option_kind value).

(** [vec![byte; n]]. *)
Definition filled (byte n : Z) : list Z := replicate (Z.to_nat n) byte.

(** The items of a body after its OCS, all of them valid. *)
Definition items_of (body : list Z) : option (list OptionRef) :=
  let! rest := slice body 2 (len body) in
  let! (items, _) := drain_all rest in
  mapM (fun i => match i with Ok o => Some o | Err _ => None end) items.

Definition empty_builder_emits_ocs_eol_and_zero_fill : option unit :=
  returns (OptionsBuilder_finish OptionsBuilder_new) (Ok [0; 0; KIND_EOL; 0]).

Definition body_starts_with_zero_ocs_placeholder : option unit :=
  let! body := expect (finish_one Req [1; 2; 3; 4]) in
  let! head := slice body 0 2 in
  assert_eq head [0; 0];
  assert_eq (len body mod 2) 0;
  Some tt.

Definition rejects_user_supplied_eol_and_nop : option unit :=
  let! _ := returns (finish_one Eol []) (Err (ReservedKind KIND_EOL)) in
  returns (finish_one Nop []) (Err (ReservedKind KIND_NOP)).

Definition rejects_unsafe_kinds : option unit :=
  returns (finish_one (Other KIND_UNSAFE_MIN) []) (Err (UnsafeKind KIND_UNSAFE_MIN)).

Definition default_length_boundary_uses_one_byte_length : option unit :=
  let! body := expect (finish_one (Other 10) (filled 0xaa DEFAULT_VALUE_LEN_MAX)) in
  returns (slice body 0 4) [0; 0; 10; 254].

Definition extended_length_boundary_uses_big_endian_total_length : option unit :=
  let! body := expect (finish_one (Other 10) (filled 0xaa (DEFAULT_VALUE_LEN_MAX + 1))) in
  returns (slice body 0 6) [0; 0; 10; KIND_EXTENDED_LENGTH_MARKER; 0x01; 0x01].

Definition rejects_unencodable_values : option unit :=
  returns (finish_one (Other 10) (filled 0 (EXTENDED_VALUE_LEN_MAX + 1)))
    (Err (ValueTooLong 10 (EXTENDED_VALUE_LEN_MAX + 1) EXTENDED_VALUE_LEN_MAX)).

Definition rejects_bodies_that_exceed_even_u16_limit : option unit :=
  returns (finish_one (Other 10) (filled 0 EXTENDED_VALUE_LEN_MAX))
    (Err (BodyTooLong (BODY_LEN_MAX + 3) BODY_LEN_MAX)).

Definition canonical_order_puts_frag_then_other_must_support_then_safe : option unit :=
  let builder := OptionsBuilder_push OptionsBuilder_new (Other 11) [0x0b] in
  let builder := OptionsBuilder_push builder Res [0x07; 0x07; 0x07; 0x07] in
  let builder := OptionsBuilder_push builder Req [0x06; 0x06; 0x06; 0x06] in
  let builder := OptionsBuilder_push builder Mrds [0x05; 0x05; 0x05] in
  let builder := OptionsBuilder_push builder Mds [0x04; 0x04] in
  let builder := OptionsBuilder_push builder Frag (filled 0x03 8) in
  let builder := OptionsBuilder_push builder Apc [0x02; 0x02; 0x02; 0x02] in
  let builder := OptionsBuilder_push builder (Other 10) [0x0a] in
  let! body := expect (OptionsBuilder_finish builder) in
  let! items := items_of body in
  let kinds := List.filter (fun kind => negb (kind =? KIND_NOP) && negb (kind =? KIND_EOL))
                 ((fun o => to_byte (or_kind o)) <$> items) in
  assert_eq kinds [KIND_FRAG; KIND_APC; KIND_MDS; KIND_MRDS; KIND_REQ; KIND_RES; 10; 11];
  Some tt.

Definition rejects_malformed_fixed_size_options : option unit :=
  let! _ := returns (finish_one Frag (zeros 7)) (Err (InvalidFixedValueLength KIND_FRAG 7)) in
  returns (finish_one Apc (zeros 3)) (Err (InvalidFixedValueLength KIND_APC 3)).

Definition rejects_out_of_scope_assigned_safe_kinds : option unit :=
  for_all (fun raw_kind => returns (finish_one (Other raw_kind) []) (Err (UnsupportedAssignedKind raw_kind)))
    [KIND_TIME; KIND_AUTH; KIND_EXP; KIND_SAFE_RESERVED_MIN; KIND_SAFE_RESERVED_MAX].

Definition rejects_duplicate_frag_options : option unit :=
  let builder := OptionsBuilder_push OptionsBuilder_new Frag (zeros 8) in
  let builder := OptionsBuilder_push builder Frag (zeros 10) in
  returns (OptionsBuilder_finish builder) (Err SerializeDuplicateFrag).

Definition patches_frag_start_to_final_body_len : option unit :=
  let! body := expect (finish_one Frag [0xff; 0xff; 0xaa; 0xbb; 0xcc; 0xdd; 0xee; 0xff]) in
  let! b4 := get body 4 in
  let! b5 := get body 5 in
  let start := u16_from_be b4 b5 in
  assert_eq start (LENGTH_UDP_HEADER + len body mod 65536);
  returns (slice body 6 12) [0xaa; 0xbb; 0xcc; 0xdd; 0xee; 0xff].

Definition stable_order_is_preserved_for_equal_kinds : option unit :=
  let builder := OptionsBuilder_push OptionsBuilder_new (Other 10) [1] in
  let builder := OptionsBuilder_push builder (Other 10) [2] in
  let builder := OptionsBuilder_push builder (Other 10) [3] in
  let! body := expect (OptionsBuilder_finish builder) in
  let! items := items_of body in
  let! values := mapM (fun o => get (or_value o) 0)
                   (List.filter (fun o => to_byte (or_kind o) =? 10) items) in
  assert_eq values [1; 2; 3];
  Some tt.

Definition inserts_one_nop_before_next_tlv_when_alignment_requires_it : option unit :=
  let builder := OptionsBuilder_push OptionsBuilder_new Mrds [0; 0; 1] in
  let builder := OptionsBuilder_push builder Req [9; 8; 7; 6] in
  let! body := expect (OptionsBuilder_finish builder) in
  assert_eq body [0; 0; KIND_MRDS; 5; 0; 0; 1; KIND_NOP; KIND_REQ; 6; 9; 8; 7; 6; KIND_EOL; 0];
  Some tt.

Definition does_not_insert_nop_before_eol_or_tail_fill : option unit :=
  let! body := expect (finish_one Mrds [0; 0; 1]) in
  assert_eq body [0; 0; KIND_MRDS; 5; 0; 0; 1; KIND_EOL];
  Some tt.

(** All of them, in the order of the source. *)
Definition serialize_tests : list (option unit) :=
  [empty_builder_emits_ocs_eol_and_zero_fill;
   body_starts_with_zero_ocs_placeholder;
   rejects_user_supplied_eol_and_nop;
   rejects_unsafe_kinds;
   default_length_boundary_uses_one_byte_length;
   extended_length_boundary_uses_big_endian_total_length;
   rejects_unencodable_values;
   rejects_bodies_that_exceed_even_u16_limit;
   canonical_order_puts_frag_then_other_must_support_then_safe;
   rejects_malformed_fixed_size_options;
   rejects_out_of_scope_assigned_safe_kinds;
   rejects_duplicate_frag_options;
   patches_frag_start_to_final_body_len;
   stable_order_is_preserved_for_equal_kinds;
   inserts_one_nop_before_next_tlv_when_alignment_requires_it;
   does_not_insert_nop_before_eol_or_tail_fill].

End SerializeTests.

Lemma option_tests_pass :
  Forall (eq (Some tt)) (ParseTests.parse_tests ++ @TypedTests.typed_tests crc32c_bitwise
    ++ SerializeTests.serialize_tests).
Proof. vm_compute. repeat constructor. Qed.
