(* ===== verification/FragTests.v ===== *)
(** The unit tests of fragmentation and reassembly (src/src/frag/split.rs, lines 287 to
    522, and src/src/frag/reassembly.rs, lines 639 to 938), run on the model.

    As in [PipelineTests], [None] is a failed assertion and [Instant::now] is [0]. *)

From S2P Require Import Prelude Model Kind Parse Typed Serialize Checksum Ip Udp Surplus Ocs.
From S2P Require Import Split Reassembly Text Oracles FragOracles.

#[export] Instance Completed_eq_dec : EqDecision Completed.
Proof. solve_decision. Defined.
#[export] Instance ReassemblyOutcome_eq_dec : EqDecision ReassemblyOutcome.
Proof. solve_decision. Defined.
#[export] Instance Fragment_eq_dec : EqDecision Fragment.
Proof. solve_decision. Defined.

(** ** frag/split.rs *)

Module SplitTests.

Definition config (max_fragment_surplus_len max_segments : Z) : SplitConfig :=
  {| sc_max_fragment_surplus_len := max_fragment_surplus_len;
     sc_peer := {| pl_max_reassembled_size := U16_MAX; pl_max_segments := max_segments |};
     sc_identification := 0x12345678 |}.

Definition parsed_frag (surplus_body : list Z) : option (FragOption * list Z) :=
  let! head := slice surplus_body 0 2 in
  assert_eq head [0; 0];
  let! rest := slice surplus_body 2 (len surplus_body) in
  let! (next, _) := OptionsIter_next (OptionsIter_new rest) in
  let! option := next in
  let! option := match option with Ok o => Some o | Err _ => None end in
  let! frag := expect (Frag_decode (or_value option)) in
  let! data_start := checked_sub (frag_start frag) LENGTH_UDP_HEADER in
  let! data := slice surplus_body data_start (len surplus_body) in
  Some (frag, data).

(** The loop of [reassemble_payload]. *)
Fixpoint reassemble_loop (ordered : list Fragment) (out : list Z) (expected_offset : Z) : option (list Z) :=
  match ordered with
  | [] => Some out
  | fragment :: ordered =>
      let! (frag, chunk) := parsed_frag (fg_surplus_body fragment) in
      assert_eq (fg_offset fragment) expected_offset;
      assert_eq (frag_offset frag) (fg_offset fragment);
      reassemble_loop ordered (out ++ chunk) (expected_offset + len chunk)
  end.

(** The order of [sort_by_key(|fragment| fragment.frag_offset)]. *)
Definition by_offset (f g : Fragment) : Prop := fg_offset f <= fg_offset g.

#[local] Instance by_offset_dec : RelDecision by_offset.
Proof. intros f g. unfold by_offset. apply _. Defined.

Definition reassemble_payload (fragments : list Fragment) : option (list Z) :=
  let ordered := merge_sort by_offset fragments in
  let atomic := (len ordered =? 1) && match ordered with f :: _ => fg_terminal f | [] => false end in
  reassemble_loop ordered [] (if atomic then 0 else LENGTH_UDP_HEADER).

Definition atomic_fragment_is_terminal : option unit :=
  let! fragments := expect (split_datagram (as_bytes "abc") [] (config 64 2)) in
  assert_eq (len fragments) 1;
  let! f0 := get fragments 0 in
  ensure (fg_terminal f0);
  assert_eq (fg_offset f0) 0;
  assert_eq (fg_rdos f0) (Some (LENGTH_UDP_HEADER + 3));
  let! (frag, chunk) := parsed_frag (fg_surplus_body f0) in
  assert_eq (frag_identification frag) 0x12345678;
  assert_eq (frag_offset frag) 0;
  assert_eq (frag_rdos frag) (Some 11);
  assert_eq chunk (as_bytes "abc");
  Some tt.

(** The loop of the next test; whether a terminal fragment was seen. *)
Fixpoint check_shared (payload : list Z) (fragments : list Fragment) (saw_terminal : bool) : option bool :=
  match fragments with
  | [] => Some saw_terminal
  | fragment :: fragments =>
      let! (frag, chunk) := parsed_frag (fg_surplus_body fragment) in
      assert_eq (frag_identification frag) 0x12345678;
      assert_eq (fg_terminal fragment) (CommonTyped.is_some (frag_rdos frag));
      let saw_terminal := saw_terminal || fg_terminal fragment in
      if fg_terminal fragment
      then assert_eq (frag_rdos frag) (Some (LENGTH_UDP_HEADER + len payload));
           check_shared payload fragments saw_terminal
      else ensure (len chunk <=? 12); assert_eq (frag_rdos frag) None;
           check_shared payload fragments saw_terminal
  end.

Definition multiple_fragments_are_contiguous_and_share_identification : option unit :=
  let payload := replicate 25 0xa5 in
  let! fragments := expect (split_datagram payload [] (config 24 4)) in
  assert_eq (len fragments) 3;
  let! saw_terminal := check_shared payload fragments false in
  ensure saw_terminal;
  let! out := reassemble_payload fragments in
  assert_eq out payload;
  Some tt.

Definition odd_rdos_adds_pad_before_original_options_body : option unit :=
  let! options_body := expect (OptionsBuilder_finish OptionsBuilder_new) in
  let payload := as_bytes "abc" in
  ensure (rdos_needs_options_pad (len payload));
  let! fragments := expect (split_datagram payload options_body (config 64 2)) in
  assert_eq (len fragments) 1;
  let! f0 := get fragments 0 in
  assert_eq (fg_rdos f0) (Some 11);
  let expected := payload ++ [0] ++ options_body in
  let! out := reassemble_payload fragments in
  assert_eq out expected;
  Some tt.

Definition rejects_reassembled_datagram_larger_than_mrds : option unit :=
  let cfg := {| sc_max_fragment_surplus_len := 64;
                sc_peer := {| pl_max_reassembled_size := 10; pl_max_segments := 2 |};
                sc_identification := 0x12345678 |} in
  let! r := split_datagram (as_bytes "abc") [] cfg in
  assert_eq r (Err (ReassembledDatagramTooLarge 11 10));
  Some tt.

Definition rejects_splits_that_exceed_peer_segment_limit : option unit :=
  let! r := split_datagram (replicate 25 0xa5) [] (config 24 1) in
  assert_eq r (Err (SegmentLimitExceeded 3 1));
  Some tt.

Definition rejects_fragment_budget_too_small_for_terminal_body : option unit :=
  let! r := split_datagram [] [] (config 13 1) in
  assert_eq r (Err (FragmentCapacityTooSmall 14 13));
  Some tt.

Definition splits_non_empty_payload_with_empty_terminal_when_budget_allows : option unit :=
  let! fragments := expect (split_datagram (as_bytes "a") [] (config 14 2)) in
  assert_eq (len fragments) 2;
  let! f0 := get fragments 0 in
  let! (first_frag, first_chunk) := parsed_frag (fg_surplus_body f0) in
  ensure (negb (fg_terminal f0));
  assert_eq (frag_offset first_frag) LENGTH_UDP_HEADER;
  assert_eq (frag_rdos first_frag) None;
  assert_eq first_chunk (as_bytes "a");
  let! f1 := get fragments 1 in
  let! (terminal_frag, terminal_chunk) := parsed_frag (fg_surplus_body f1) in
  ensure (fg_terminal f1);
  assert_eq (frag_offset terminal_frag) (LENGTH_UDP_HEADER + 1);
  assert_eq (frag_rdos terminal_frag) (Some (LENGTH_UDP_HEADER + 1));
  ensure (is_nil terminal_chunk);
  let! out := reassemble_payload fragments in
  assert_eq out (as_bytes "a");
  Some tt.

Definition rejects_too_short_original_options_body : option unit :=
  let! r := split_datagram [] [0] (config 64 1) in
  assert_eq r (Err (OptionsBodyTooShort 1));
  Some tt.

Definition rejects_unsendable_ipv4_fragment_surplus_budget : option unit :=
  let! r := split_datagram [] [] (config (FRAGMENT_SURPLUS_LEN_MAX + 1) 1) in
  assert_eq r (Err (FragmentSurplusTooLarge (FRAGMENT_SURPLUS_LEN_MAX + 1) FRAGMENT_SURPLUS_LEN_MAX));
  Some tt.

Definition largest_ipv4_fragment_budget_still_emits_sendable_fragments : option unit :=
  let payload := replicate (Z.to_nat (U16_MAX - LENGTH_UDP_HEADER)) 0xa5 in
  let! fragments := expect (split_datagram payload [] (config FRAGMENT_SURPLUS_LEN_MAX 2)) in
  assert_eq (len fragments) 2;
  ensure (forallb (fun fragment => len (fg_surplus_body fragment) <=? FRAGMENT_SURPLUS_LEN_MAX) fragments);
  let! out := reassemble_payload fragments in
  assert_eq out payload;
  Some tt.

Definition default_ipv4_mrds_payload_fits_two_ethernet_sized_fragments : option unit :=
  let payload := replicate (Z.to_nat 2918) 0xa5 in
  let cfg := {| sc_max_fragment_surplus_len := 1472; sc_peer := PeerFragmentLimits_default_ipv4;
                sc_identification := 0x12345678 |} in
  let! fragments := expect (split_datagram payload [] cfg) in
  assert_eq (len fragments) 2;
  let! f0 := get fragments 0 in
  let! f1 := get fragments 1 in
  assert_eq (fg_offset f0) LENGTH_UDP_HEADER;
  assert_eq (fg_offset f1) (LENGTH_UDP_HEADER + 1460);
  assert_eq (len (fg_surplus_body f0)) 1472;
  assert_eq (len (fg_surplus_body f1)) 1472;
  assert_eq (fg_rdos f1) (Some (LENGTH_UDP_HEADER + len payload));
  let! out := reassemble_payload fragments in
  assert_eq out payload;
  Some tt.

Definition identification_generator_does_not_wrap : option unit :=
  let generator := IdentificationGenerator_new 41 in
  let '(r, generator) := IdentificationGenerator_next_id generator in
  assert_eq r (Ok 41);
  let '(r, generator) := IdentificationGenerator_next_id generator in
  assert_eq r (Ok 42);
  let exhausted := IdentificationGenerator_new U32_MAX in
  let '(r, exhausted) := IdentificationGenerator_next_id exhausted in
  assert_eq r (Ok U32_MAX);
  let '(r, exhausted) := IdentificationGenerator_next_id exhausted in
  assert_eq r (Err IdentificationExhausted);
  let '(r, exhausted) := IdentificationGenerator_next_id exhausted in
  assert_eq r (Err IdentificationExhausted);
  Some tt.

(** In either byte order. *)
Definition random_identification_seed_keeps_exhaustion_headroom : option unit :=
  assert_eq (bounded_random_seed true U8_MAX U8_MAX U8_MAX U8_MAX) RANDOM_IDENTIFICATION_SEED_MASK;
  assert_eq (bounded_random_seed false U8_MAX U8_MAX U8_MAX U8_MAX) RANDOM_IDENTIFICATION_SEED_MASK;
  Some tt.

Definition frag_start_points_to_data_after_minimal_frag_body : option unit :=
  let! fragments := expect (split_datagram (as_bytes "abc") [] (config 64 2)) in
  let! f0 := get fragments 0 in
  let! (frag, _) := parsed_frag (fg_surplus_body f0) in
  assert_eq (frag_start frag) (LENGTH_UDP_HEADER + len (fg_surplus_body f0) - 3);
  let! rest := slice (fg_surplus_body f0) 2 (len (fg_surplus_body f0)) in
  let! (next, _) := OptionsIter_next (OptionsIter_new rest) in
  let! first_option := match next with Some (Ok o) => Some o | _ => None end in
  assert_eq (or_kind first_option) Kind.Frag;
  Some tt.

(** All of them, in the order of the source. *)
Definition split_tests : list (option unit) :=
  [atomic_fragment_is_terminal;
   multiple_fragments_are_contiguous_and_share_identification;
   odd_rdos_adds_pad_before_original_options_body;
   rejects_reassembled_datagram_larger_than_mrds;
   rejects_splits_that_exceed_peer_segment_limit;
   rejects_fragment_budget_too_small_for_terminal_body;
   splits_non_empty_payload_with_empty_terminal_when_budget_allows;
   rejects_too_short_original_options_body;
   rejects_unsendable_ipv4_fragment_surplus_budget;
   largest_ipv4_fragment_budget_still_emits_sendable_fragments;
   default_ipv4_mrds_payload_fits_two_ethernet_sized_fragments;
   identification_generator_does_not_wrap;
   random_identification_seed_keeps_exhaustion_headroom;
   frag_start_points_to_data_after_minimal_frag_body].

End SplitTests.

(** ** frag/reassembly.rs *)

Module ReassemblyTests.

Definition ID : Z := 0x01020304.

Definition key (id : Z) : FragKey :=
  {| fk_src := Build_Ipv4Addr 192 0 2 1; fk_dst := Build_Ipv4Addr 198 51 100 2; fk_src_port := 12345;
     fk_dst_port := 54321; fk_identification := id |}.

Definition frag (offset : Z) (rdos : option Z) : FragOption :=
  {| frag_start := 20; frag_identification := ID; frag_offset := offset; frag_rdos := rdos |}.

Definition raw (kind : OptionKind) (value : list Z) : RawOption := {| ro_kind := kind; ro_value := value |}.

Definition outcome_tail (outcome : ReassemblyOutcome) : option (list Z * Z) :=
  match outcome with Complete d => Some (co_tail d, co_udp_length d) | _ => None end.

(** [assert_eq!(cache.insert_with_options(..), want)]. *)
Definition gives_with (cache : ReassemblyCache) (k : FragKey) (f : FragOption) (data : string)
    (options : list RawOption) (want : ReassemblyOutcome) : option ReassemblyCache :=
  let! (outcome, cache) := ReassemblyCache_insert_with_options cache k f (as_bytes data) options 0 in
  assert_eq outcome want;
  Some cache.

(** [assert_eq!(cache.insert(..), want)]. *)
Definition gives (cache : ReassemblyCache) (k : FragKey) (f : FragOption) (data : string)
    (want : ReassemblyOutcome) : option ReassemblyCache :=
  let! (outcome, cache) := ReassemblyCache_insert cache k f (as_bytes data) 0 in
  assert_eq outcome want;
  Some cache.

(** The completing fragment, with the tail and the UDP Length it must give. *)
Definition completes (cache : ReassemblyCache) (k : FragKey) (f : FragOption) (data want : string)
    (want_udp_length : Z) : option ReassemblyCache :=
  let! (outcome, cache) := ReassemblyCache_insert cache k f (as_bytes data) 0 in
  let! (tail, udp_length) := outcome_tail outcome in
  assert_eq tail (as_bytes want);
  assert_eq udp_length want_udp_length;
  Some cache.

Definition in_order_fragments_complete : option unit :=
  let! cache := gives ReassemblyCache_new (key ID) (frag 8 None) "abc" Incomplete in
  let! cache := completes cache (key ID) (frag 11 (Some 14)) "def" "abcdef" 14 in
  ensure (ReassemblyCache_is_empty cache);
  Some tt.

Definition out_of_order_fragments_complete : option unit :=
  let! cache := gives ReassemblyCache_new (key ID) (frag 11 (Some 14)) "def" Incomplete in
  let! cache := completes cache (key ID) (frag 8 None) "abc" "abcdef" 14 in
  Some tt.

Definition atomic_terminal_completes_immediately : option unit :=
  let! _ := completes ReassemblyCache_new (key ID) (frag 0 (Some 13)) "hello" "hello" 13 in
  Some tt.

Definition empty_terminal_fragment_can_close_existing_data : option unit :=
  let! cache := gives ReassemblyCache_new (key ID) (frag 8 None) "abc" Incomplete in
  let! _ := completes cache (key ID) (frag 11 (Some 11)) "" "abc" 11 in
  Some tt.

Definition identical_duplicate_is_ignored_but_different_overlap_aborts : option unit :=
  let! cache := gives ReassemblyCache_new (key ID) (frag 8 None) "abc" Incomplete in
  let! cache := gives cache (key ID) (frag 8 None) "abc" Incomplete in
  let! cache := gives cache (key ID) (frag 8 None) "abd" (Abort Overlap) in
  ensure (ReassemblyCache_is_empty cache);
  Some tt.

Definition same_data_with_different_fragment_options_aborts : option unit :=
  let first_options := [raw Req [1; 2; 3; 4]] in
  let second_options := [raw Req [4; 3; 2; 1]] in
  let! cache := gives_with ReassemblyCache_new (key ID) (frag 8 None) "abc" first_options Incomplete in
  let! cache := gives_with cache (key ID) (frag 8 None) "abc" second_options (Abort Overlap) in
  ensure (ReassemblyCache_is_empty cache);
  Some tt.

Definition empty_terminal_duplicate_with_different_options_aborts : option unit :=
  let first_options := [raw Req [1; 2; 3; 4]] in
  let second_options := [raw Req [4; 3; 2; 1]] in
  let! cache := gives_with ReassemblyCache_new (key ID) (frag 11 (Some 11)) "" first_options Incomplete in
  let! cache := gives_with cache (key ID) (frag 11 (Some 11)) "" second_options (Abort Overlap) in
  ensure (ReassemblyCache_is_empty cache);
  Some tt.

Definition partial_overlap_aborts : option unit :=
  let! cache := gives ReassemblyCache_new (key ID) (frag 8 None) "abcd" Incomplete in
  let! _ := gives cache (key ID) (frag 10 None) "xy" (Abort Overlap) in
  Some tt.

Definition early_limit_abort_discards_existing_partial : option unit :=
  let limits := {| rl_max_reassembled_size := 12; rl_max_segments := 3; rl_max_pending_partials := 2;
                   rl_timeout := LIMITS_REASSEMBLY_TIMEOUT_MAX |} in
  let! cache := gives (ReassemblyCache_with_limits limits) (key ID) (frag 8 None) "ab" Incomplete in
  let! cache := gives cache (key ID) (frag 10 None) "abcdef" (Abort LimitExceeded) in
  let! cache := gives cache (key ID) (frag 10 (Some 12)) "cd" Incomplete in
  assert_eq (ReassemblyCache_len cache) 1;
  Some tt.

Definition inconsistent_terminal_metadata_aborts : option unit :=
  let! cache := gives ReassemblyCache_new (key ID) (frag 8 None) "abc" Incomplete in
  let! _ := gives cache (key ID) (frag 11 (Some 20)) "" (Abort Overlap) in
  let! cache := gives ReassemblyCache_new (key ID) (frag 11 (Some 14)) "def" Incomplete in
  let! _ := gives cache (key ID) (frag 8 (Some 11)) "abc" (Abort Overlap) in
  Some tt.

(** [ReassemblyLimits { max_pending_partials: 1, ..limits_from_defaults() }]. *)
Definition one_pending : ReassemblyLimits :=
  {| rl_max_reassembled_size := rl_max_reassembled_size ReassemblyLimits_default;
     rl_max_segments := rl_max_segments ReassemblyLimits_default; rl_max_pending_partials := 1;
     rl_timeout := rl_timeout ReassemblyLimits_default |}.

Definition limits_fire_and_preserve_other_keys : option unit :=
  let limits := {| rl_max_reassembled_size := 12; rl_max_segments := 2; rl_max_pending_partials := 2;
                   rl_timeout := LIMITS_REASSEMBLY_TIMEOUT_MAX |} in
  let! _ := gives (ReassemblyCache_with_limits limits) (key ID) (frag 8 None) "abcde" (Abort LimitExceeded) in
  let! cache := gives (ReassemblyCache_with_limits limits) (key ID) (frag 8 None) "a" Incomplete in
  let! cache := gives cache (key ID) (frag 9 None) "b" Incomplete in
  let! _ := gives cache (key ID) (frag 10 None) "c" (Abort LimitExceeded) in
  let! cache := gives (ReassemblyCache_with_limits one_pending) (key ID) (frag 8 None) "a" Incomplete in
  let! cache := gives cache (key (ID + 1)) (frag 8 None) "b" (Abort LimitExceeded) in
  assert_eq (ReassemblyCache_len cache) 1;
  let! _ := completes cache (key ID) (frag 9 (Some 10)) "b" "ab" 10 in
  Some tt.

Definition atomic_complete_bypasses_pending_partial_cap : option unit :=
  let! cache := gives (ReassemblyCache_with_limits one_pending) (key ID) (frag 8 None) "a" Incomplete in
  let! cache := completes cache (key (ID + 1)) (frag 0 (Some 13)) "hello" "hello" 13 in
  assert_eq (ReassemblyCache_len cache) 1;
  Some tt.

Definition gc_removes_partial_at_timeout_boundary : option unit :=
  let! cache := gives ReassemblyCache_new (key ID) (frag 8 None) "a" Incomplete in
  let cache := ReassemblyCache_gc cache (0 + duration_from_secs 119) in
  assert_eq (ReassemblyCache_len cache) 1;
  let cache := ReassemblyCache_gc cache (0 + duration_from_secs 120) in
  ensure (ReassemblyCache_is_empty cache);
  Some tt.

(** All of them, in the order of the source. *)
Definition reassembly_tests : list (option unit) :=
  [in_order_fragments_complete;
   out_of_order_fragments_complete;
   atomic_terminal_completes_immediately;
   empty_terminal_fragment_can_close_existing_data;
   identical_duplicate_is_ignored_but_different_overlap_aborts;
   same_data_with_different_fragment_options_aborts;
   empty_terminal_duplicate_with_different_options_aborts;
   partial_overlap_aborts;
   early_limit_abort_discards_existing_partial;
   inconsistent_terminal_metadata_aborts;
   limits_fire_and_preserve_other_keys;
   atomic_complete_bypasses_pending_partial_cap;
   gc_removes_partial_at_timeout_boundary].

End ReassemblyTests.

Lemma split_tests_pass : Forall (eq (Some tt)) SplitTests.split_tests.
Proof. vm_compute. repeat constructor. Qed.

Lemma reassembly_tests_pass : Forall (eq (Some tt)) ReassemblyTests.reassembly_tests.
Proof. vm_compute. repeat constructor. Qed.
