(* ===== verification/PipelineTests.v ===== *)
(** The unit tests of the receive pipeline (src/src/recv/pipeline.rs, lines 796 to 1889),
    run on the model.

    A test is a computation that panics, [None], when an assertion or an [unwrap] fails.
    [Instant::now] is [0].  The test logger gets the lines written ([Warnings]); the counters
    start at zero in each test, since other tests run beside it. *)

From S2P Require Import Prelude Model Kind Parse Typed Serialize Checksum Ip Udp Surplus Ocs.
From S2P Require Import Split Reassembly RecvOptions Pipeline Socket Api ApiCorrect Text Warnings Oracles FragOracles.

#[export] Instance Payload_eq_dec : EqDecision Payload.
Proof. solve_decision. Defined.
#[export] Instance Delivery_eq_dec : EqDecision Delivery.
Proof. solve_decision. Defined.

Module PipelineTests.
Section tests.
Context `{Crc32c}.

(** ** Helpers *)

Definition SRC : Ipv4Addr := Build_Ipv4Addr 192 0 2 1.
Definition DST : Ipv4Addr := Build_Ipv4Addr 198 51 100 2.
Definition SRC_PORT : Z := 12345.
Definition DST_PORT : Z := 54321.

Definition option_body (option_bytes : list Z) : list Z := [0; 0] ++ option_bytes.

Definition encoded {T} `{TypedOption T} (option : T) : list Z := encode option [].

Definition datagram (user_data option_bytes : list Z) : option (list Z) :=
  assemble_datagram SRC DST SRC_PORT DST_PORT user_data (option_body option_bytes).

Definition fragment_datagram (frag : FragOption) (fragment_options data : list Z) : option (list Z) :=
  datagram [] (encoded frag ++ fragment_options ++ data).

Definition datagram_with_raw_surplus (user_data raw_surplus : list Z) (checksum_zero : bool) : option (list Z) :=
  let udp_len := UDP_HEADER_LEN + len user_data in
  let total_len := 20 + udp_len + len raw_surplus in
  ensure (total_len <=? U16_MAX);
  let ip := {| ip_src := SRC; ip_dst := DST; ip_ihl := 5; ip_total_len := total_len |} in
  let! ip_bytes := IpRepr_write ip (zeros 20) in
  let udp_header := {| udp_src_port := SRC_PORT; udp_dst_port := DST_PORT; udp_length := udp_len; udp_checksum := 0 |} in
  let! udp_header :=
    if checksum_zero then Some udp_header
    else let! checksum := UdpHeader_compute_checksum udp_header ip user_data in
         Some (UdpHeader_with_checksum udp_header checksum) in
  let! udp_bytes := UdpHeader_write udp_header (zeros UDP_HEADER_LEN) in
  let! datagram := copy_at (zeros total_len) 0 ip_bytes in
  let! datagram := copy_at datagram 20 udp_bytes in
  let! datagram := copy_at datagram (20 + UDP_HEADER_LEN) user_data in
  copy_at datagram (20 + udp_len) raw_surplus.

(** [process(d)] of a datagram still to be built, before [unwrap]. *)
Definition process (datagram : option (list Z)) : option (result Delivery RecvError) :=
  let! datagram := datagram in
  let! (r, _) := process_datagram datagram ReassemblyCache_new 0 in
  Some r.

(** [process_with_cache(d, cache, now).unwrap()]. *)
Definition process_with_cache (datagram : option (list Z)) (cache : ReassemblyCache) (now : Z) :
    option (Delivery * ReassemblyCache) :=
  let! datagram := datagram in
  let! (r, cache) := process_datagram datagram cache now in
  match r with Ok d => Some (d, cache) | Err _ => None end.

Definition report (kind : OptionKind) (status : OptionStatus) (source : OptionSource) : OptionReport :=
  {| opr_kind := kind; opr_status := status; opr_source := source |}.

Definition payload_with_reports_and_ocs (data : list Z) (options : list RawOption) (option_bearing : bool)
    (reports : list OptionReport) (ocs_status : OcsStatus) : Delivery :=
  DeliverPayload {| pl_data := data; pl_options := options; pl_option_bearing := option_bearing;
                    pl_reports := reports;
                    pl_ocs_reports := [{| ocr_status := ocs_status; ocr_source := Datagram |}] |}.

Definition payload_with_reports (data : list Z) (options : list RawOption) (option_bearing : bool)
    (reports : list OptionReport) : Delivery :=
  let ocs_status := if option_bearing then StValid else StAbsent in
  payload_with_reports_and_ocs data options option_bearing reports ocs_status.

Definition payload_with_bearing (data : list Z) (options : list RawOption) (option_bearing : bool) : Delivery :=
  let reports := (fun o => report (ro_kind o) Success Datagram) <$> options in
  payload_with_reports data options option_bearing reports.

Definition payload (data : list Z) (options : list RawOption) : Delivery :=
  payload_with_bearing data options true.

Definition with_fragment_ocs_status (delivery : Delivery) (status : OcsStatus) : option Delivery :=
  match delivery with
  | DeliverPayload p => Some (DeliverPayload
      {| pl_data := pl_data p; pl_options := pl_options p; pl_option_bearing := pl_option_bearing p;
         pl_reports := pl_reports p;
         pl_ocs_reports := {| ocr_status := status; ocr_source := FragmentSet |} :: pl_ocs_reports p |})
  | _ => None
  end.

Definition with_fragment_ocs (delivery : Delivery) : option Delivery :=
  with_fragment_ocs_status delivery StValid.

Definition raw (kind : OptionKind) (value : list Z) : RawOption := {| ro_kind := kind; ro_value := value |}.

Definition frag_start_for (user_data : list Z) (fragment_options_len : Z) : option Z :=
  let udp_len := UDP_HEADER_LEN + len user_data in
  let natural_start := 20 + udp_len in
  let needs_pad := natural_start mod 2 =? 1 in
  let start := udp_len + usize_of_bool needs_pad + LENGTH_OCS + fragment_options_len in
  ensure (start <=? U16_MAX);
  Some start.

Definition split_fragment_datagrams_with_budget (payload per_datagram_options_body : list Z)
    (max_fragment_surplus_len : Z) : option (list (list Z)) :=
  let! fragments := expect (split_datagram payload per_datagram_options_body
    {| sc_max_fragment_surplus_len := max_fragment_surplus_len;
       sc_peer := {| pl_max_reassembled_size := U16_MAX; pl_max_segments := U8_MAX |};
       sc_identification := 0x01020304 |}) in
  mapM (fun fragment => assemble_datagram SRC DST SRC_PORT DST_PORT [] (fg_surplus_body fragment)) fragments.

Definition split_fragment_datagrams (payload per_datagram_options_body : list Z) : option (list (list Z)) :=
  split_fragment_datagrams_with_budget payload per_datagram_options_body 24.

(** The FRAG options the tests build, with the identification they all use. *)
Definition test_frag (start : option Z) (offset : Z) (rdos : option Z) : option FragOption :=
  let! start := start in
  Some {| frag_start := start; frag_identification := 0x01020304; frag_offset := offset; frag_rdos := rdos |}.

(** The surplus layout of a datagram, by parsing its headers again. *)
Definition layout_of (bytes_ : list Z) : option SurplusLayout :=
  let! (ip, udp_at) := expect (IpRepr_parse bytes_) in
  let! udp_bytes := slice bytes_ udp_at (len bytes_) in
  let! udp := expect (UdpHeader_parse udp_bytes) in
  locate_surplus ip udp.

(** [bytes[layout.ocs_at()..][..2].fill(0)]. *)
Definition clear_ocs (bytes_ : list Z) : option (list Z) :=
  let! layout := layout_of bytes_ in
  copy_at bytes_ (SurplusLayout_ocs_at layout) [0; 0].

(** [bytes[i] ^= 1]. *)
Definition flip_at (bytes_ : list Z) (i : Z) : option (list Z) :=
  let! x := get bytes_ i in set_at bytes_ i (Z.lxor x 1).

(** The counters of the test logger. *)
Record TestLogs : Type := { NOP_FLOOD_LOGS : Z; UDP_LENGTH_LOGS : Z; MUST_SUPPORT_ORDER_LOGS : Z }.

Definition no_logs : TestLogs := {| NOP_FLOOD_LOGS := 0; UDP_LENGTH_LOGS := 0; MUST_SUPPORT_ORDER_LOGS := 0 |}.

(** [message.contains(needle)]. *)
Definition contains (needle message : string) : bool :=
  match String.index 0 needle message with Some _ => true | None => false end.

Definition TestLogger_log (l : TestLogs) (message : string) : TestLogs :=
  {| NOP_FLOOD_LOGS := NOP_FLOOD_LOGS l + usize_of_bool (contains "consecutive UDP NOP options" message);
     UDP_LENGTH_LOGS := UDP_LENGTH_LOGS l + usize_of_bool
       (contains "below the 8-byte minimum" message || contains "exceeds IP transport payload" message);
     MUST_SUPPORT_ORDER_LOGS := MUST_SUPPORT_ORDER_LOGS l + usize_of_bool
       (contains "must-support UDP option after another SAFE option" message) |}.

(** [n] calls of [process] with the logger installed; a wanted answer is asserted each time. *)
Fixpoint repeat_logged (n : nat) (kl : Counters * TestLogs) (datagram : list Z)
    (want : option (result Delivery RecvError)) : option (Counters * TestLogs) :=
  match n with
  | O => Some kl
  | S n =>
      let! (r, _, k, lines) := process_datagram_logged kl.1 datagram ReassemblyCache_new 0 in
      ensure (match want with Some want => bool_decide (r = want) | None => true end);
      repeat_logged n (k, foldl TestLogger_log kl.2 lines) datagram want
  end.

(** ** Tests: one datagram *)

Abbreviation hello := (as_bytes "hello").
Abbreviation no_options := (@nil RawOption).

Fixpoint no_samples (n : nat) (counter : Z) : option Z :=
  match n with
  | O => Some counter
  | S n => let! (r, counter) := should_log_sampled counter in assert_eq r None; no_samples n counter
  end.

Definition warn_sampler_logs_first_then_every_interval : option unit :=
  let! (r, counter) := should_log_sampled 0 in
  assert_eq r (Some 1);
  let! counter := no_samples (Z.to_nat (WARN_SAMPLE_INTERVAL - 2)) counter in
  let! (r, counter) := should_log_sampled counter in
  assert_eq r (Some WARN_SAMPLE_INTERVAL);
  Some tt.

Definition delivers_valid_payload_and_supported_options : option unit :=
  let options := encoded (Apc_compute hello) ++ encoded {| max_datagram_size := 1500 |}
                 ++ encoded {| req_token := [1; 2; 3; 4] |} ++ [KIND_EOL] in
  let! r := expect (process (datagram hello options)) in
  assert_eq r (payload hello [raw Apc (u32_to_be (apc_crc32c (Apc_compute hello))); raw Mds (u16_to_be 1500);
                              raw Req [1; 2; 3; 4]]);
  Some tt.

Definition drops_invalid_udp_lengths : option unit :=
  let! too_short := datagram_with_raw_surplus (as_bytes "hi") [] false in
  let! too_short := copy_at too_short 24 (u16_to_be 7) in
  let! (k, logs) := repeat_logged (Z.to_nat WARN_SAMPLE_INTERVAL) (fun _ => 0, no_logs) too_short
                      (Some (Err (RecvHeader (UdpLengthInvalid 7)))) in
  ensure (1 <=? UDP_LENGTH_LOGS logs);
  let! too_long := datagram_with_raw_surplus (as_bytes "hi") [] false in
  let! too_long := copy_at too_long 24 (u16_to_be 11) in
  let! (_, logs) := repeat_logged (Z.to_nat WARN_SAMPLE_INTERVAL) (k, no_logs) too_long
                      (Some (Err (UdpLengthExceedsIpPayload 11 10))) in
  ensure (1 <=? UDP_LENGTH_LOGS logs);
  Some tt.

Definition drops_bad_udp_checksum : option unit :=
  let! bytes_ := datagram hello [] in
  let! bytes_ := flip_at bytes_ 26 in
  let! r := process (Some bytes_) in
  ensure (match r with Err (UdpChecksumMismatch _ _) => true | _ => false end);
  Some tt.

Definition delivers_without_options_when_surplus_is_absent_or_unusable : option unit :=
  let! r := expect (process (datagram_with_raw_surplus hello [] false)) in
  assert_eq r (payload_with_bearing hello [] false);
  let! r := expect (process (datagram_with_raw_surplus (as_bytes "hi") [0] false)) in
  assert_eq r (payload_with_bearing (as_bytes "hi") [] false);
  Some tt.

Definition odd_surplus_pad_must_be_zero : option unit :=
  let user_data := as_bytes "abc" in
  let options := encoded {| req_token := [9; 8; 7; 6] |} in
  let! good := datagram user_data options in
  let! r := expect (process (Some good)) in
  assert_eq r (payload user_data [raw Req [9; 8; 7; 6]]);
  let! layout := layout_of good in
  ensure (needs_pad layout);
  let! bad := set_at good (starts_at layout) 0x7f in
  let! r := expect (process (Some bad)) in
  assert_eq r (payload_with_reports_and_ocs user_data [] true [] StFailed);
  Some tt.

Definition applies_udp_checksum_and_ocs_matrix : option unit :=
  let user_data := as_bytes "matrix" in
  let token := [0xaa; 0xbb; 0xcc; 0xdd] in
  let! valid := datagram user_data (encoded {| req_token := token |}) in
  let! r := expect (process (Some valid)) in
  assert_eq r (payload user_data [raw Req token]);
  let! zero_udp_zero_ocs := copy_at valid 26 [0; 0] in
  let! zero_udp_zero_ocs := clear_ocs zero_udp_zero_ocs in
  let! r := expect (process (Some zero_udp_zero_ocs)) in
  assert_eq r (payload_with_reports_and_ocs user_data [raw Req token] true [report Req Success Datagram] StUnused);
  let! nonzero_udp_zero_ocs := clear_ocs valid in
  let! r := expect (process (Some nonzero_udp_zero_ocs)) in
  assert_eq r (payload_with_reports_and_ocs user_data [] true [] StInvalidZero);
  let! bad_ocs := flip_at valid (len valid - 1) in
  let! r := expect (process (Some bad_ocs)) in
  assert_eq r (payload_with_reports_and_ocs user_data [] true [] StFailed);
  Some tt.

(** [assert_eq!(process(&datagram(user_data, options)).unwrap(), expected)]. *)
Definition delivers (user_data options : list Z) (expected : Delivery) : option unit :=
  let! r := expect (process (datagram user_data options)) in
  assert_eq r expected;
  Some tt.

Definition malformed_tlv_discards_all_options_but_not_payload : option unit :=
  delivers hello [KIND_APC; 1; KIND_REQ; 6; 1; 2; 3; 4] (payload hello []).

Definition erratum_8834_overrun_discards_preceding_options_but_delivers_payload : option unit :=
  delivers hello [KIND_REQ; 6; 1; 2; 3; 4; 10; 8; 0xaa; 0xbb] (payload hello []).

Definition known_safe_over_minimum_length_is_ignored_locally : option unit :=
  delivers hello [KIND_MDS; 5; 0; 1; 2; KIND_REQ; 6; 4; 3; 2; 1]
    (payload_with_reports hello [raw Req [4; 3; 2; 1]] true
       [report Mds Failed Datagram; report Req Success Datagram]).

Definition known_safe_sub_minimum_length_discards_all_options : option unit :=
  delivers hello [KIND_MDS; 3; 0; KIND_REQ; 6; 4; 3; 2; 1] (payload hello []).

Definition duplicate_known_safe_sub_minimum_length_discards_all_options : option unit :=
  delivers hello [KIND_REQ; 6; 1; 2; 3; 4; KIND_REQ; 3; 9] (payload hello []).

Definition assigned_safe_sub_minimum_length_discards_all_options : option unit :=
  let! _ := delivers hello [KIND_REQ; 6; 1; 2; 3; 4; KIND_TIME; 9; 0; 0; 0; 0; 0; 0; 0] (payload hello []) in
  delivers hello [KIND_REQ; 6; 1; 2; 3; 4; KIND_EXP; 3; 0] (payload hello []).

(** The delivery of a datagram whose only visible option is an unknown UNSAFE one. *)
Definition unsafe_dropped : Delivery :=
  payload_with_reports [] [] true [report (Other KIND_UNSAFE_MIN) Failed Datagram].

Definition unknown_safe_is_ignored_but_unknown_unsafe_drops_data : option unit :=
  let! _ := delivers hello [10; 2; KIND_REQ; 6; 1; 1; 2; 2]
    (payload_with_reports hello [raw Req [1; 1; 2; 2]] true
       [report (Other 10) Ignored Datagram; report Req Success Datagram]) in
  delivers hello [KIND_UNSAFE_MIN; 2] unsafe_dropped.

Definition unknown_unsafe_precedence_survives_later_malformed_tlv : option unit :=
  delivers hello [KIND_UNSAFE_MIN; 2; KIND_APC; 6] unsafe_dropped.

Definition duplicate_non_frag_option_keeps_first_instance : option unit :=
  delivers hello [KIND_REQ; 6; 1; 2; 3; 4; KIND_REQ; 6; 9; 8; 7; 6]
    (payload_with_reports hello [raw Req [1; 2; 3; 4]] true
       [report Req Success Datagram; report Req Ignored Datagram]).

Definition frag_with_non_empty_payload_ignores_all_options : option unit :=
  let! frag := test_frag (frag_start_for hello LENGTH_FRAG_NON_TERMINAL) 0 None in
  delivers hello (encoded frag) (payload hello []).

Definition valid_empty_payload_non_terminal_frag_buffers : option unit :=
  let! frag := test_frag (frag_start_for [] LENGTH_FRAG_NON_TERMINAL) LENGTH_UDP_HEADER None in
  delivers [] (encoded frag) Buffered.

Definition valid_empty_payload_frag_with_unknown_unsafe_drops_fragment : option unit :=
  let! frag := test_frag (frag_start_for [] (LENGTH_FRAG_TERMINAL + 2)) 0 (Some 32) in
  delivers [] (encoded frag ++ [KIND_UNSAFE_MIN; 2]) Dropped.

Definition empty_payload_frag_does_not_parse_fragment_data_as_options : option unit :=
  let! frag := test_frag (frag_start_for [] LENGTH_FRAG_NON_TERMINAL) LENGTH_UDP_HEADER None in
  delivers [] (encoded frag ++ encoded frag) Buffered.

Definition empty_payload_frag_malformed_per_fragment_option_drops_fragment : option unit :=
  let! frag := test_frag (frag_start_for [] (LENGTH_FRAG_TERMINAL + 4)) 0 (Some 32) in
  delivers [] (encoded frag ++ [KIND_MDS; 5; 0; 1]) Dropped.

Definition malformed_frag_is_unsupported_unsafe : option unit :=
  let options := [KIND_FRAG; 11; 0; 20; 0; 0; 0; 1; 0; 0; 0] in
  let! _ := delivers [] options (payload [] []) in
  delivers hello options (payload [] []).

Definition sub_minimum_frag_discards_options_but_delivers_payload : option unit :=
  delivers hello [KIND_FRAG; 9; 0; 20; 0; 0; 0; 1; 0; KIND_REQ; 6; 1; 2; 3; 4] (payload hello []).

Definition duplicate_frag_discards_options_without_buffering : option unit :=
  let! frag := test_frag (frag_start_for [] (LENGTH_FRAG_TERMINAL * 2)) 0 (Some 32) in
  delivers [] (encoded frag ++ encoded frag) Dropped.

Definition nop_flood_logs_and_continues : option unit :=
  let options := replicate (Z.to_nat (LIMITS_NOP_RUN_DOS_THRESHOLD + 1)) KIND_NOP
                 ++ encoded {| req_token := [1; 3; 5; 7] |} in
  let! bytes_ := datagram hello options in
  let! kl := repeat_logged 1 (fun _ => 0, no_logs) bytes_ (Some (Ok (payload hello [raw Req [1; 3; 5; 7]]))) in
  let! (_, logs) := repeat_logged (Z.to_nat WARN_SAMPLE_INTERVAL) kl bytes_ None in
  ensure (1 <=? NOP_FLOOD_LOGS logs);
  Some tt.

Definition must_support_order_violation_logs_and_continues : option unit :=
  let! bytes_ := datagram hello [10; 2; KIND_REQ; 6; 1; 3; 5; 7] in
  let! kl := repeat_logged 1 (fun _ => 0, no_logs) bytes_
    (Some (Ok (payload_with_reports hello [raw Req [1; 3; 5; 7]] true
       [report (Other 10) Ignored Datagram; report Req Success Datagram]))) in
  let! (_, logs) := repeat_logged (Z.to_nat WARN_SAMPLE_INTERVAL) kl bytes_ None in
  ensure (1 <=? MUST_SUPPORT_ORDER_LOGS logs);
  Some tt.

Definition reprocess_drops_nested_empty_payload_frag : option unit :=
  let nested := {| frag_start := LENGTH_UDP_HEADER + LENGTH_OCS + LENGTH_FRAG_TERMINAL;
                   frag_identification := 0x11112222; frag_offset := 0; frag_rdos := Some LENGTH_UDP_HEADER |} in
  let nested_body := encode nested [0; 0] in
  let! datagrams := split_fragment_datagrams_with_budget [] nested_body 64 in
  assert_eq (len datagrams) 1;
  let! r := expect (process (get datagrams 0)) in
  assert_eq r Dropped;
  Some tt.

(** ** Tests: several datagrams, one cache *)

(** Two fragments are buffered and reassembled. *)
Definition reassembles (first second : option (list Z)) (expected : option Delivery) : option unit :=
  let! (r, cache) := process_with_cache first ReassemblyCache_new 0 in
  assert_eq r Buffered;
  let! (r, cache) := process_with_cache second cache 0 in
  assert_eq (Some r) expected;
  Some tt.

Definition reassembles_split_fragments_and_reprocesses_options : option unit :=
  let! options := expect (OptionsBuilder_finish (OptionsBuilder_push OptionsBuilder_new Req [1; 2; 3; 4])) in
  let data := as_bytes "abcdefghij" in
  let! datagrams := split_fragment_datagrams data options in
  assert_eq (len datagrams) 2;
  reassembles (get datagrams 0) (get datagrams 1)
    (with_fragment_ocs (payload_with_reports_and_ocs data [raw Req [1; 2; 3; 4]] true
       [report Req Success Datagram] StUnused)).

Definition reassembles_out_of_order_split_fragments : option unit :=
  let data := as_bytes "abcdefghijk" in
  let! datagrams := split_fragment_datagrams data [] in
  assert_eq (len datagrams) 2;
  reassembles (get datagrams 1) (get datagrams 0) (with_fragment_ocs (payload_with_bearing data [] false)).

Definition unknown_per_datagram_unsafe_after_reassembly_drops_user_data : option unit :=
  let! datagrams := split_fragment_datagrams (as_bytes "abcdefghij") [0; 0; KIND_UNSAFE_MIN; 2] in
  assert_eq (len datagrams) 2;
  reassembles (get datagrams 0) (get datagrams 1)
    (with_fragment_ocs (payload_with_reports_and_ocs [] [] true
       [report (Other KIND_UNSAFE_MIN) Failed Datagram] StUnused)).

(** A zero UDP checksum and an unused OCS. *)
Definition zero_checksums (d : list Z) : option (list Z) :=
  let! d := copy_at d 26 [0; 0] in clear_ocs d.

Definition reports_unused_ocs_for_an_all_zero_checksum_fragment_set : option unit :=
  let data := as_bytes "abcdefghijk" in
  let! datagrams := split_fragment_datagrams data [] in
  assert_eq (len datagrams) 2;
  let! datagrams := mapM zero_checksums datagrams in
  reassembles (get datagrams 0) (get datagrams 1)
    (with_fragment_ocs_status (payload_with_bearing data [] false) StUnused).

Definition reports_valid_ocs_when_a_fragment_set_mixes_valid_and_permitted_unused_forms : option unit :=
  let data := as_bytes "abcdefghijk" in
  let! datagrams := split_fragment_datagrams data [] in
  assert_eq (len datagrams) 2;
  reassembles (let! d := get datagrams 0 in zero_checksums d) (get datagrams 1)
    (with_fragment_ocs (payload_with_bearing data [] false)).

(** The first fragment of the tests below: [abc] at offset 0 of the data. *)
Definition first_frag : option FragOption :=
  test_frag (frag_start_for [] LENGTH_FRAG_NON_TERMINAL) LENGTH_UDP_HEADER None.

(** The terminal one, [def], with [n] bytes of options around FRAG. *)
Definition terminal_frag (start : option Z) : option FragOption :=
  test_frag start (LENGTH_UDP_HEADER + 3) (Some (LENGTH_UDP_HEADER + 6)).

Definition abc : list Z := as_bytes "abc".
Definition def : list Z := as_bytes "def".
Definition abcdef : list Z := as_bytes "abcdef".

Definition public_cache_insertion_mixed_with_pipeline_reports_unobserved_fragment_set_ocs : option unit :=
  let! first := first_frag in
  let! second := terminal_frag (frag_start_for [] LENGTH_FRAG_TERMINAL) in
  let key := {| fk_src := SRC; fk_dst := DST; fk_src_port := SRC_PORT; fk_dst_port := DST_PORT;
                fk_identification := 0x01020304 |} in
  let! (outcome, cache) := ReassemblyCache_insert ReassemblyCache_new key first abc 0 in
  ensure (match outcome with Incomplete => true | _ => false end);
  let! (r, cache) := process_with_cache (fragment_datagram second [] def) cache 0 in
  assert_eq (Some r) (with_fragment_ocs_status (payload_with_bearing abcdef [] false) StUnobserved);
  Some tt.

Definition fragment_local_safe_options_are_reported_after_reassembly : option unit :=
  let first_options := encoded {| max_datagram_size := 1500 |}
    ++ encoded {| mrds_max_reassembled_size := 4000; mrds_max_segments := 4 |}
    ++ encoded {| req_token := [1; 1; 1; 1] |} ++ encoded {| res_token := [2; 2; 2; 2] |} in
  let! first := test_frag (frag_start_for [] (LENGTH_FRAG_NON_TERMINAL + len first_options)) LENGTH_UDP_HEADER None in
  let second_options := encoded {| max_datagram_size := 1200 |}
    ++ encoded {| mrds_max_reassembled_size := 3000; mrds_max_segments := 2 |}
    ++ encoded {| req_token := [3; 3; 3; 3] |} ++ encoded {| res_token := [4; 4; 4; 4] |} in
  let! second := terminal_frag (frag_start_for [] (LENGTH_FRAG_TERMINAL + len second_options)) in
  reassembles (fragment_datagram first first_options abc) (fragment_datagram second second_options def)
    (with_fragment_ocs (payload_with_reports abcdef
       [raw Mds (u16_to_be 1200); raw Mrds [0x0b; 0xb8; 2]; raw Req [3; 3; 3; 3]; raw Res [4; 4; 4; 4]] false
       [report Mds Success FragmentSet; report Mrds Success FragmentSet; report Req Success FragmentSet;
        report Res Success FragmentSet])).

(** A bad second fragment drops the set; the good one then starts over. *)
Definition set_discarded (second : option (list Z)) : option unit :=
  let! first := first_frag in
  let! (r, cache) := process_with_cache (fragment_datagram first [] abc) ReassemblyCache_new 0 in
  assert_eq r Buffered;
  let! (r, cache) := process_with_cache second cache 0 in
  assert_eq r Dropped;
  ensure (ReassemblyCache_is_empty cache);
  let! valid_terminal := terminal_frag (frag_start_for [] LENGTH_FRAG_TERMINAL) in
  let! (r, cache) := process_with_cache (fragment_datagram valid_terminal [] def) cache 0 in
  assert_eq r Buffered;
  Some tt.

Definition fragment_local_unsafe_discards_existing_partial : option unit :=
  let second_options := [KIND_UNSAFE_MIN; 2] in
  let! second := terminal_frag (frag_start_for [] (LENGTH_FRAG_TERMINAL + len second_options)) in
  set_discarded (fragment_datagram second second_options def).

Definition malformed_frag_start_discards_existing_partial : option unit :=
  let! malformed := terminal_frag (Some (LENGTH_UDP_HEADER + LENGTH_OCS)) in
  set_discarded (fragment_datagram malformed [] []).

Definition sub_minimum_option_after_frag_discards_existing_partial_without_user_delivery : option unit :=
  let! malformed_terminal := terminal_frag (frag_start_for [] (LENGTH_FRAG_TERMINAL + 3)) in
  set_discarded (fragment_datagram malformed_terminal [KIND_MDS; 3; 0] def).

(** A datagram that is dropped for another reason leaves the set alone. *)
Definition set_preserved (second : option (list Z)) : option unit :=
  let! first := first_frag in
  let! (r, cache) := process_with_cache (fragment_datagram first [] abc) ReassemblyCache_new 0 in
  assert_eq r Buffered;
  let! (r, cache) := process_with_cache second cache 0 in
  assert_eq r unsafe_dropped;
  assert_eq (ReassemblyCache_len cache) 1;
  let! valid_terminal := terminal_frag (frag_start_for [] LENGTH_FRAG_TERMINAL) in
  let! (r, cache) := process_with_cache (fragment_datagram valid_terminal [] def) cache 0 in
  assert_eq (Some r) (with_fragment_ocs (payload_with_bearing abcdef [] false));
  ensure (ReassemblyCache_is_empty cache);
  Some tt.

Definition unsafe_before_frag_stops_before_frag_and_preserves_existing_partial : option unit :=
  let! second := terminal_frag (frag_start_for [] (2 + LENGTH_FRAG_TERMINAL)) in
  let unsafe_then_frag := encode second [KIND_UNSAFE_MIN; 2] ++ def in
  set_preserved (datagram [] unsafe_then_frag).

Definition unsafe_before_malformed_frag_does_not_discard_existing_partial : option unit :=
  let! malformed := terminal_frag (Some (LENGTH_UDP_HEADER + LENGTH_OCS)) in
  let unsafe_then_malformed_frag := encode malformed [KIND_UNSAFE_MIN; 2] in
  set_preserved (datagram [] unsafe_then_malformed_frag).

Definition pipeline_tests : list (option unit) :=
  [warn_sampler_logs_first_then_every_interval;
   delivers_valid_payload_and_supported_options;
   drops_invalid_udp_lengths;
   drops_bad_udp_checksum;
   delivers_without_options_when_surplus_is_absent_or_unusable;
   odd_surplus_pad_must_be_zero;
   applies_udp_checksum_and_ocs_matrix;
   malformed_tlv_discards_all_options_but_not_payload;
   erratum_8834_overrun_discards_preceding_options_but_delivers_payload;
   known_safe_over_minimum_length_is_ignored_locally;
   known_safe_sub_minimum_length_discards_all_options;
   duplicate_known_safe_sub_minimum_length_discards_all_options;
   assigned_safe_sub_minimum_length_discards_all_options;
   unknown_safe_is_ignored_but_unknown_unsafe_drops_data;
   unknown_unsafe_precedence_survives_later_malformed_tlv;
   duplicate_non_frag_option_keeps_first_instance;
   frag_with_non_empty_payload_ignores_all_options;
   valid_empty_payload_non_terminal_frag_buffers;
   valid_empty_payload_frag_with_unknown_unsafe_drops_fragment;
   empty_payload_frag_does_not_parse_fragment_data_as_options;
   reassembles_split_fragments_and_reprocesses_options;
   reassembles_out_of_order_split_fragments;
   unknown_per_datagram_unsafe_after_reassembly_drops_user_data;
   reports_unused_ocs_for_an_all_zero_checksum_fragment_set;
   reports_valid_ocs_when_a_fragment_set_mixes_valid_and_permitted_unused_forms;
   public_cache_insertion_mixed_with_pipeline_reports_unobserved_fragment_set_ocs;
   fragment_local_safe_options_are_reported_after_reassembly;
   fragment_local_unsafe_discards_existing_partial;
   unsafe_before_frag_stops_before_frag_and_preserves_existing_partial;
   unsafe_before_malformed_frag_does_not_discard_existing_partial;
   malformed_frag_start_discards_existing_partial;
   reprocess_drops_nested_empty_payload_frag;
   empty_payload_frag_malformed_per_fragment_option_drops_fragment;
   sub_minimum_option_after_frag_discards_existing_partial_without_user_delivery;
   malformed_frag_is_unsupported_unsafe;
   sub_minimum_frag_discards_options_but_delivers_payload;
   duplicate_frag_discards_options_without_buffering;
   nop_flood_logs_and_continues;
   must_support_order_violation_logs_and_continues].
End tests.
End PipelineTests.

Lemma pipeline_tests_pass : Forall (eq (Some tt)) (@PipelineTests.pipeline_tests crc32c_bitwise).
Proof. vm_compute. repeat constructor. Qed.
