(* ===== verification/ApiTests.v ===== *)
(** The unit tests of the raw receiver's filter, the public API and the sending tool
    (src/src/socket/recv.rs, src/src/api/mod.rs, src/src/bin/udpopt-send.rs), one module per
    file, run on the model, and all unit tests of the crate together.

    [None] is a failed assertion.  The arguments that the sending tool's tests parse from a
    command line are records here, since the command-line parser is a library. *)

From S2P Require Import Prelude Model Kind Parse Typed Serialize Checksum Ip Udp Surplus Ocs.
From S2P Require Import Split Reassembly RecvOptions Pipeline Socket Api EndToEnd FragEndToEnd ApiCorrect Text CliSend.
From S2P Require Import Oracles FragOracles WireTests OptionTests FragTests PipelineTests.

#[export] Instance FilterVerdict_eq_dec : EqDecision FilterVerdict.
Proof. solve_decision. Defined.

(** ** socket/recv.rs *)

Module RecvTests.

Definition SRC : Ipv4Addr := Build_Ipv4Addr 192 0 2 1.
Definition DST : Ipv4Addr := Build_Ipv4Addr 198 51 100 2.
Definition SRC_PORT : Z := 40000.
Definition DST_PORT : Z := 40001.

Definition datagram (src : Ipv4Addr) (src_port dst_port : Z) (user_data : list Z) : option (list Z) :=
  let udp_len := UDP_HEADER_LEN + len user_data in
  let total_len := 20 + udp_len in
  ensure (total_len <=? U16_MAX);
  let! out := IpRepr_write {| ip_src := src; ip_dst := DST; ip_ihl := 5; ip_total_len := total_len |}
                (zeros total_len) in
  let! udp_bytes := UdpHeader_write {| udp_src_port := src_port; udp_dst_port := dst_port; udp_length := udp_len;
                                       udp_checksum := 0 |} (zeros UDP_HEADER_LEN) in
  let! out := copy_at out 20 udp_bytes in
  copy_at out 28 user_data.

Definition matching_datagram_is_delivered_truncated_to_ip_total_len : option unit :=
  let! data := datagram SRC SRC_PORT DST_PORT (as_bytes "hello") in
  let total_len := len data in
  let data := data ++ [0xaa; 0xbb] in
  returns (filter_datagram data DST_PORT (Some SRC_PORT) None) (Deliver total_len).

Definition absent_src_port_filter_accepts_any_source_port : option unit :=
  let! data := datagram SRC 55555 DST_PORT (as_bytes "x") in
  returns (filter_datagram data DST_PORT None None) (Deliver (len data)).

Definition foreign_traffic_is_filtered : option unit :=
  let! wrong_dst := datagram SRC SRC_PORT (DST_PORT + 1) (as_bytes "scan") in
  let! _ := returns (filter_datagram wrong_dst DST_PORT (Some SRC_PORT) None) Filtered in
  let! wrong_src := datagram SRC (SRC_PORT + 1) DST_PORT (as_bytes "scan") in
  let! _ := returns (filter_datagram wrong_src DST_PORT (Some SRC_PORT) None) Filtered in
  let! own_copy := datagram SRC SRC_PORT DST_PORT (as_bytes "echo") in
  returns (filter_datagram own_copy DST_PORT (Some SRC_PORT) (Some SRC)) Filtered.

Definition unparseable_headers_are_filtered : option unit :=
  let! _ := returns (filter_datagram [] DST_PORT None None) Filtered in
  let! valid := datagram SRC SRC_PORT DST_PORT (as_bytes "ok") in
  let! short := slice valid 0 19 in
  let! _ := returns (filter_datagram short DST_PORT None None) Filtered in
  let! ip_only := IpRepr_write {| ip_src := SRC; ip_dst := DST; ip_ihl := 5; ip_total_len := 20 |} (zeros 20) in
  let! _ := returns (filter_datagram ip_only DST_PORT None None) Filtered in
  let! bad_udp_len := datagram SRC SRC_PORT DST_PORT [] in
  let! bad_udp_len := copy_at bad_udp_len 24 (u16_to_be 7) in
  returns (filter_datagram bad_udp_len DST_PORT None None) Filtered.

(** All of them, in the order of the source. *)
Definition recv_tests : list (option unit) :=
  [matching_datagram_is_delivered_truncated_to_ip_total_len;
   absent_src_port_filter_accepts_any_source_port;
   foreign_traffic_is_filtered;
   unparseable_headers_are_filtered].

End RecvTests.

(** The addresses of both test modules below. *)
Definition test_addrs : DatagramAddrs :=
  {| da_src := Build_Ipv4Addr 192 0 2 1; da_dst := Build_Ipv4Addr 198 51 100 2; da_src_port := 12345;
     da_dst_port := 54321 |}.

(** The configuration both use to force fragmentation. *)
Definition small_config : SendConfig :=
  {| cf_max_datagram_len := 64; cf_peer := {| pl_max_reassembled_size := 256; pl_max_segments := 8 |};
     cf_fragmentation := cf_fragmentation SendConfig_default;
     cf_identification := cf_identification SendConfig_default |}.

(** ** api/mod.rs *)

Module PeerTests.
Section peer.
Context `{Crc32c}.

(** With an identification in the configuration the random device is not asked. *)
Definition explicit_peer_identification_is_consumed_as_the_generator_seed : option unit :=
  let config := {| cf_max_datagram_len := cf_max_datagram_len SendConfig_default;
                   cf_peer := cf_peer SendConfig_default;
                   cf_fragmentation := cf_fragmentation SendConfig_default; cf_identification := Some 73 |} in
  let '(r, config) := take_peer_identification_generator config (Err {| raw_os_error := None |}) in
  let! identifications := match r with Ok g => Some g | Err _ => None end in
  assert_eq (cf_identification config) None;
  assert_eq (IdentificationGenerator_next_id identifications).1 (Ok 73);
  Some tt.

Definition peer_does_not_consume_an_identification_for_an_unfragmented_send : option unit :=
  let! (r, identifications) := build_peer_outgoing_datagrams test_addrs (as_bytes "small") SendOptions_new
    SendConfig_default (IdentificationGenerator_new U32_MAX) in
  let! datagrams := match r with Ok ds => Some ds | Err _ => None end in
  assert_eq (len datagrams) 1;
  assert_eq (IdentificationGenerator_next_id identifications).1 (Ok U32_MAX);
  Some tt.

Definition peer_consumes_one_identification_when_fragmentation_is_required : option unit :=
  let! (r, identifications) := build_peer_outgoing_datagrams test_addrs (replicate 80 0x5a) SendOptions_new
    small_config (IdentificationGenerator_new 73) in
  let! datagrams := match r with Ok ds => Some ds | Err _ => None end in
  ensure (1 <? len datagrams);
  assert_eq (IdentificationGenerator_next_id identifications).1 (Ok 74);
  Some tt.

(** All of them, in the order of the source. *)
Definition peer_tests : list (option unit) :=
  [explicit_peer_identification_is_consumed_as_the_generator_seed;
   peer_does_not_consume_an_identification_for_an_unfragmented_send;
   peer_consumes_one_identification_when_fragmentation_is_required].
End peer.
End PeerTests.

(** ** bin/udpopt-send.rs *)

Module SendTests.
Section send.
Context `{Crc32c}.

(** The options the tests give on the command line, after the two addresses. *)
Definition args_from (apc : bool) (mds : option Z) (raw_options_hex ocs_hex pad_hex : option string)
    (udp_cksum_zero : bool) : Args :=
  let d := Args_default in
  {| arg_src := Build_Ipv4Addr 192 0 2 1; arg_dst := Build_Ipv4Addr 198 51 100 2;
     arg_src_port := arg_src_port d; arg_dst_port := arg_dst_port d; arg_payload := arg_payload d;
     arg_payload_hex := arg_payload_hex d; arg_payload_size := arg_payload_size d; arg_count := arg_count d;
     arg_seq_start := arg_seq_start d; arg_apc := apc; arg_mds := mds; arg_mrds_size := arg_mrds_size d;
     arg_mrds_segments := arg_mrds_segments d; arg_req := arg_req d; arg_res := arg_res d;
     arg_max_datagram_len := arg_max_datagram_len d; arg_no_frag := arg_no_frag d;
     arg_peer_mrds_size := arg_peer_mrds_size d; arg_peer_mrds_segments := arg_peer_mrds_segments d;
     arg_identification := arg_identification d; arg_raw_options_hex := raw_options_hex; arg_ocs_hex := ocs_hex;
     arg_pad_hex := pad_hex; arg_udp_cksum_zero := udp_cksum_zero; arg_frag_emit := arg_frag_emit d;
     arg_frag_gap_ms := arg_frag_gap_ms d; arg_hexdump := arg_hexdump d; arg_manifest := arg_manifest d |}.

Definition udp_checksum_field (datagram : list Z) : option Z :=
  let! a := get datagram UDP_CHECKSUM_AT in
  let! b := get datagram (UDP_CHECKSUM_AT + 1) in
  Some (u16_from_be a b).

(** [surplus_layout(datagram).expect(..)]. *)
Definition layout_of (datagram : list Z) : option WireLayout :=
  let! layout := surplus_layout datagram in layout.

Definition validate_ocs (datagram : list Z) : option OcsCheck :=
  let! layout := layout_of datagram in
  let! surplus_len := checked_sub (len datagram) (wl_starts_at layout) in
  ensure (surplus_len <=? U16_MAX);
  let! body := slice datagram (WireLayout_ocs_at layout) (len datagram) in
  let! field := udp_checksum_field datagram in
  ocs_validate body surplus_len field.

(** [WireFaults::parse(&args).unwrap().apply(&mut datagram)]. *)
Definition apply_faults (args : Args) (datagram : list Z) : option (result (list Z) CliError) :=
  let! faults := expect (WireFaults_parse args) in
  WireFaults_apply faults datagram.

(** [text.contains(pattern)]. *)
Fixpoint contains_bytes (text pattern : list Z) : bool :=
  bool_decide (take (length pattern) text = pattern)
  || match text with [] => false | _ :: text => contains_bytes text pattern end.

(** [error.to_string().contains(pattern)]; the errors of these tests are messages. *)
Definition says (e : CliError) (pattern : string) : bool :=
  match e with Message text => contains_bytes (as_bytes text) (as_bytes pattern) | _ => false end.

Definition unfragmented_send_does_not_consume_or_report_an_identification : option unit :=
  let! (r, identifications) := build_datagrams_for_send test_addrs (as_bytes "small") SendOptions_new
    SendConfig_default (IdentificationGenerator_new U32_MAX) in
  let! (datagrams, identification) := match r with Ok x => Some x | Err _ => None end in
  assert_eq (len datagrams) 1;
  assert_eq identification None;
  assert_eq (IdentificationGenerator_next_id identifications).1 (Ok U32_MAX);
  Some tt.

Definition fragmented_send_consumes_and_reports_exactly_one_identification : option unit :=
  let! (r, identifications) := build_datagrams_for_send test_addrs (replicate 80 0x5a) SendOptions_new
    small_config (IdentificationGenerator_new U32_MAX) in
  let! (datagrams, identification) := match r with Ok x => Some x | Err _ => None end in
  ensure (1 <? len datagrams);
  assert_eq identification (Some U32_MAX);
  ensure (negb (is_ok (IdentificationGenerator_next_id identifications).1));
  Some tt.

Definition raw_option_bytes_reach_the_wire_under_a_correct_ocs : option unit :=
  let args := args_from false None (Some "04c80000") None None false in
  let! datagram := expect (raw_options_datagram args (as_bytes "even") "04c80000") in
  let! layout := layout_of datagram in
  ensure (negb (wl_needs_pad layout));
  let! _ := returns (slice datagram (WireLayout_ocs_at layout + LENGTH_OCS) (len datagram)) [0x04; 0xc8; 0x00; 0x00] in
  returns (validate_ocs datagram) OcsValid.

Definition an_odd_payload_creates_the_pad_that_pad_hex_corrupts : option unit :=
  let args := args_from false None (Some "0a020000") None (Some "ff") false in
  let! datagram := expect (raw_options_datagram args (as_bytes "odd") "0a020000") in
  let! layout := layout_of datagram in
  ensure (wl_needs_pad layout);
  let! datagram := expect (apply_faults args datagram) in
  let! _ := returns (get datagram (wl_starts_at layout)) 0xff in
  returns (validate_ocs datagram) OcsValid.

Definition pad_hex_is_rejected_when_the_datagram_has_no_pad : option unit :=
  let args := args_from false None (Some "0a020000") None (Some "ff") false in
  let! datagram := expect (raw_options_datagram args (as_bytes "even") "0a020000") in
  let! r := apply_faults args datagram in
  let! error := match r with Err e => Some e | Ok _ => None end in
  ensure (says error "alignment pad");
  Some tt.

Definition ocs_hex_overwrites_the_computed_checksum : option unit :=
  let args := args_from false None (Some "0a020000") (Some "dead") None false in
  let! datagram := expect (raw_options_datagram args (as_bytes "even") "0a020000") in
  let! _ := returns (validate_ocs datagram) OcsValid in
  let! datagram := expect (apply_faults args datagram) in
  let! layout := layout_of datagram in
  let! _ := returns (slice datagram (WireLayout_ocs_at layout) (WireLayout_ocs_at layout + 2)) [0xde; 0xad] in
  returns (validate_ocs datagram) (OcsError OcsMismatch).

Definition a_zero_ocs_under_a_zero_udp_checksum_is_the_unused_disposition : option unit :=
  let args := args_from false None (Some "0a020000") (Some "0000") None true in
  let! datagram := expect (raw_options_datagram args (as_bytes "even") "0a020000") in
  let! field := udp_checksum_field datagram in
  assert_ne field 0;
  let! datagram := expect (apply_faults args datagram) in
  let! _ := returns (udp_checksum_field datagram) 0 in
  returns (validate_ocs datagram) OcsUnused.

Definition a_zero_ocs_under_a_live_udp_checksum_orders_the_options_ignored : option unit :=
  let args := args_from false None (Some "0a020000") (Some "0000") None false in
  let! datagram := expect (raw_options_datagram args (as_bytes "even") "0a020000") in
  let! datagram := expect (apply_faults args datagram) in
  let! field := udp_checksum_field datagram in
  assert_ne field 0;
  returns (validate_ocs datagram) OcsIgnoreOptions.

(** [emit_order(requested, built).unwrap()]. *)
Definition order_is (requested : option (list Z)) (built : Z) (want : list Z) : option unit :=
  match emit_order requested built with Ok order => assert_eq order want; Some tt | Err _ => None end.

Definition frag_emit_drops_duplicates_and_reorders_datagrams : option unit :=
  let! _ := order_is None 3 [0; 1; 2] in
  let! _ := order_is (Some [0]) 2 [0] in
  let! _ := order_is (Some [0; 0; 1]) 2 [0; 0; 1] in
  order_is (Some [1; 0]) 2 [1; 0].

Definition order_refused (requested : option (list Z)) (built : Z) (pattern : string) : option unit :=
  match emit_order requested built with Err e => ensure (says e pattern); Some tt | Ok _ => None end.

Definition frag_emit_rejects_an_empty_list_and_out_of_range_indices : option unit :=
  let! _ := order_refused (Some []) 2 "at least one" in
  order_refused (Some [0; 2]) 2 "index 2 is out of range".

Definition raw_options_and_built_options_are_mutually_exclusive : option unit :=
  ensure (builds_options (args_from true None None None None false));
  ensure (builds_options (args_from false (Some 1200) None None None false));
  ensure (negb (builds_options (args_from false None (Some "0a020000") None None false)));
  Some tt.

(** All of them, in the order of the source. *)
Definition send_tests : list (option unit) :=
  [unfragmented_send_does_not_consume_or_report_an_identification;
   fragmented_send_consumes_and_reports_exactly_one_identification;
   raw_option_bytes_reach_the_wire_under_a_correct_ocs;
   an_odd_payload_creates_the_pad_that_pad_hex_corrupts;
   pad_hex_is_rejected_when_the_datagram_has_no_pad;
   ocs_hex_overwrites_the_computed_checksum;
   a_zero_ocs_under_a_zero_udp_checksum_is_the_unused_disposition;
   a_zero_ocs_under_a_live_udp_checksum_orders_the_options_ignored;
   frag_emit_drops_duplicates_and_reorders_datagrams;
   frag_emit_rejects_an_empty_list_and_out_of_range_indices;
   raw_options_and_built_options_are_mutually_exclusive].
End send.
End SendTests.

(** ** The whole crate *)

Definition unit_tests `{Crc32c} : list (option unit) :=
  ChecksumTests.checksum_tests ++ IpTests.ip_tests ++ UdpTests.udp_tests ++ SurplusTests.surplus_tests
  ++ OcsTests.ocs_tests ++ KindTests.kind_tests
  ++ ParseTests.parse_tests ++ TypedTests.typed_tests ++ SerializeTests.serialize_tests
  ++ SplitTests.split_tests ++ ReassemblyTests.reassembly_tests ++ PipelineTests.pipeline_tests
  ++ RecvTests.recv_tests ++ PeerTests.peer_tests ++ SendTests.send_tests.

Lemma api_tests_pass :
  Forall (eq (Some tt)) (RecvTests.recv_tests ++ @PeerTests.peer_tests crc32c_bitwise
    ++ @SendTests.send_tests crc32c_bitwise).
Proof. vm_compute. repeat constructor. Qed.

(** A regression check on fixed inputs: all 156 unit tests of the crate, translated one by
    one with what they assert of results and of log lines, pass on the model with the CRC-32C
    polynomial for the checksum crate. *)
Lemma unit_tests_pass :
  length (@unit_tests crc32c_bitwise) = 156%nat /\ Forall (eq (Some tt)) (@unit_tests crc32c_bitwise).
Proof.
  pose proof wire_tests_pass as Hw. pose proof option_tests_pass as Ho. pose proof api_tests_pass as Ha.
  unfold unit_tests. rewrite !Forall_app in *. split; [reflexivity|].
  pose proof split_tests_pass. pose proof reassembly_tests_pass. pose proof pipeline_tests_pass. tauto.
Qed.
